(** * msprime: tree sequences, tree iterators, haplotypes and the legacy tree file

    A shallow embedding of [lib/tree_sequence.c], [lib/hapgen.c] and
    [lib/tree_file.c].  C integers are [Z] with the wrap-around of their width
    written out, C arrays are lists read and written by index, [double] is an
    IEEE-754 datum ([spec_float]) compared the way C compares it, and a
    function that can run into undefined behaviour (an index out of range, a
    failed [assert]) returns [None] there. *)

From Stdlib Require Import ZArith Lia List String Ascii.
From Stdlib Require Import Strings.Byte.
From Stdlib Require Import Floats.SpecFloat.
From stdpp Require Import base option list sorting gmap strings.

Open Scope Z_scope.

(* ================================================================== *)
(** * Part I: the embedding                                            *)
(* ================================================================== *)

(** ** Machine integers *)

Definition wrap32 (z : Z) : Z := z mod 2 ^ 32.
Definition wrap64 (z : Z) : Z := z mod 2 ^ 64.
Definition is_u32 (z : Z) : Prop := 0 <= z < 2 ^ 32.
Definition b2z (b : bool) : Z := if b then 1 else 0.

(** ** err.h *)

Definition MSP_ERR_GENERIC : Z := -1.
Definition MSP_ERR_NO_MEMORY : Z := -2.
Definition MSP_ERR_IO : Z := -3.
Definition MSP_ERR_FILE_FORMAT : Z := -4.
Definition MSP_ERR_FILE_VERSION : Z := -5.
Definition MSP_ERR_BAD_MODE : Z := -6.
Definition MSP_ERR_BAD_PARAM_VALUE : Z := -7.
Definition MSP_ERR_OUT_OF_BOUNDS : Z := -8.
Definition MSP_ERR_NEWICK_OVERFLOW : Z := -9.
Definition MSP_ERR_UNSORTED_POP_MODELS : Z := -10.
Definition MSP_ERR_POPULATION_OVERFLOW : Z := -11.
Definition MSP_ERR_LINKS_OVERFLOW : Z := -12.
Definition MSP_ERR_HDF5 : Z := -13.
Definition MSP_ERR_BAD_POP_MODEL : Z := -14.
Definition MSP_ERR_UNSUPPORTED_FILE_VERSION : Z := -15.
Definition MSP_ERR_BAD_ORDERING : Z := -16.

(** Constants that [tree_sequence.c] uses and that are declared in headers
    which are not part of the sources at hand ([msprime.h] and the revision
    of [err.h] that goes with it).  They are parameters of the embedding. *)
Class msprime_h := {
  MSP_ERR_BAD_MUTATION : Z;
  MSP_FILE_FORMAT_VERSION_MAJOR : Z;
  MSP_FILE_FORMAT_VERSION_MINOR : Z;
  MSP_SKIP_H5CLOSE : Z;
  MSP_ZLIB_COMPRESSION : Z;
  MSP_COUNT_LEAVES : Z
}.

(** ** Arrays *)

(** [a[i]]: reading outside the array is undefined. *)
Definition rd {A} (a : list A) (i : Z) : option A :=
  if 0 <=? i then a !! Z.to_nat i else None.

(** [a[i] = v]: writing outside the array is undefined. *)
Definition wr {A} (a : list A) (i : Z) (v : A) : option (list A) :=
  if (0 <=? i) && (i <? Z.of_nat (length a))
  then Some (<[Z.to_nat i := v]> a) else None.

(** What [malloc] hands out is not initialised: its contents come from the
    heap, cell by cell.  Allocation itself always succeeds in the embedding
    (lists are unbounded), so the [MSP_ERR_NO_MEMORY] exits are not taken. *)
Class heap := {
  junk_u32 : nat -> Z;
  junk_f64 : nat -> spec_float
}.

Definition malloc_u32 `{heap} (n : Z) : list Z :=
  map junk_u32 (seq 0 (Z.to_nat n)).
Definition malloc_f64 `{heap} (n : Z) : list spec_float :=
  map junk_f64 (seq 0 (Z.to_nat n)).

(** ** double *)

Abbreviation double := spec_float.

(** [a < b] and [a > b] on doubles: false as soon as one side is a NaN. *)
Definition d_lt (a b : double) : bool := SFltb a b.
Definition d_gt (a b : double) : bool := SFltb b a.
Definition d_zero : double := S754_zero false.
(** The conversion of a [uint32_t] to [double], which is exact. *)
Definition d_of_u32 (z : Z) : double := binary_normalize 53 1024 z 0 false.
Definition is_nan (a : double) : bool :=
  match a with S754_nan => true | _ => false end.

(** ** qsort

    [qsort] is libc's.  ISO C fixes its result only when the comparison
    function is consistent on the elements of the array; the array keeps its
    size whatever the comparison does. *)

Definition cmp_consistent {A} (cmp : A -> A -> Z) (l : list A) : Prop :=
  (forall a b, a ∈ l -> b ∈ l -> Z.sgn (cmp a b) = - Z.sgn (cmp b a)) /\
  (forall a b c, a ∈ l -> b ∈ l -> c ∈ l ->
     cmp a b <= 0 -> cmp b c <= 0 -> cmp a c <= 0).

Class libc_qsort := {
  qsort : forall {A : Type}, (A -> A -> Z) -> list A -> list A;
  qsort_length : forall A (cmp : A -> A -> Z) l,
    length (qsort cmp l) = length l;
  qsort_perm : forall A (cmp : A -> A -> Z) l,
    cmp_consistent cmp l -> qsort cmp l ≡ₚ l;
  qsort_sorted : forall A (cmp : A -> A -> Z) l,
    cmp_consistent cmp l ->
    StronglySorted (fun a b => cmp a b <= 0) (qsort cmp l)
}.

(** ** tree_sequence.c: the tree sequence *)

Record mutation_t := {
  position : double;
  node : Z
}.

Record tree_sequence_t := {
  sample_size : Z;
  num_loci : Z;
  num_nodes : Z;
  num_records : Z;
  num_mutations : Z;
  trees_left : list Z;
  trees_right : list Z;
  trees_node : list Z;
  trees_children : list Z;
  trees_time : list double;
  trees_insertion_order : list Z;
  trees_removal_order : list Z;
  trees_parameters : option string;
  trees_environment : option string;
  mutations_node : list Z;
  mutations_position : list double;
  mutations_parameters : option string;
  mutations_environment : option string
}.

Definition cmp_mutation (a b : mutation_t) : Z :=
  b2z (d_gt (position a) (position b)) - b2z (d_lt (position a) (position b)).

(** The comparison of two pointers to mutations is that of the mutations. *)
Definition cmp_mutation_pointer (a b : mutation_t) : Z := cmp_mutation a b.

(** The test of the validation loop of [tree_sequence_set_mutations]. *)
Definition mutation_rejected (self : tree_sequence_t) (m : mutation_t) : bool :=
  d_lt (position m) d_zero
  || d_gt (position m) (d_of_u32 (num_loci self))
  || (node m =? 0)
  || (num_nodes self <? node m).

(** The validation loop: [true] when it ran to the end of the array. *)
Fixpoint set_mutations_check (self : tree_sequence_t) (ms : list mutation_t)
  : bool :=
  match ms with
  | [] => true
  | m :: ms' =>
      if mutation_rejected self m then false else set_mutations_check self ms'
  end.

(** The tree sequence once the previous mutations are dropped. *)
Definition clear_mutations (self : tree_sequence_t) : tree_sequence_t :=
  {| sample_size := sample_size self; num_loci := num_loci self;
     num_nodes := num_nodes self; num_records := num_records self;
     num_mutations := 0;
     trees_left := trees_left self; trees_right := trees_right self;
     trees_node := trees_node self; trees_children := trees_children self;
     trees_time := trees_time self;
     trees_insertion_order := trees_insertion_order self;
     trees_removal_order := trees_removal_order self;
     trees_parameters := trees_parameters self;
     trees_environment := trees_environment self;
     mutations_node := []; mutations_position := [];
     mutations_parameters := None; mutations_environment := None |}.

Definition with_mutations (self : tree_sequence_t) (n : Z)
    (nodes : list Z) (positions : list double) : tree_sequence_t :=
  {| sample_size := sample_size self; num_loci := num_loci self;
     num_nodes := num_nodes self; num_records := num_records self;
     num_mutations := n;
     trees_left := trees_left self; trees_right := trees_right self;
     trees_node := trees_node self; trees_children := trees_children self;
     trees_time := trees_time self;
     trees_insertion_order := trees_insertion_order self;
     trees_removal_order := trees_removal_order self;
     trees_parameters := trees_parameters self;
     trees_environment := trees_environment self;
     mutations_node := nodes; mutations_position := positions;
     mutations_parameters := mutations_parameters self;
     mutations_environment := mutations_environment self |}.

(** [tree_sequence_set_mutations(self, num_mutations, mutations)]: the array
    and its length are the list [ms]; the result is the returned status and
    the tree sequence afterwards. *)
Definition tree_sequence_set_mutations `{msprime_h} `{heap} `{libc_qsort}
    (self : tree_sequence_t) (ms : list mutation_t) : Z * tree_sequence_t :=
  let n := Z.of_nat (length ms) in
  let self0 := clear_mutations self in
  if 0 <? n then
    let self1 := with_mutations self0 0 (malloc_u32 n) (malloc_f64 n) in
    if set_mutations_check self1 ms then
      let mutation_ptrs := qsort cmp_mutation_pointer ms in
      (0, with_mutations self1 n (map node mutation_ptrs)
                                 (map position mutation_ptrs))
    else (MSP_ERR_BAD_MUTATION, self1)
  else (0, self0).

(** The mutations a tree sequence stores, column by column. *)
Definition stored_mutations (self : tree_sequence_t) : list mutation_t :=
  zip_with Build_mutation_t (mutations_position self) (mutations_node self).

(** [tree_sequence_get_mutations]: the first [num_mutations] cells of the
    two mutation columns. *)
Fixpoint get_mutations_loop (self : tree_sequence_t) (j : Z) (n : nat)
  : option (list mutation_t) :=
  match n with
  | O => Some []
  | S n' =>
      p ← rd (mutations_position self) j;
      u ← rd (mutations_node self) j;
      rest ← get_mutations_loop self (j + 1) n';
      Some ({| position := p; node := u |} :: rest)
  end.

Definition tree_sequence_get_mutations (self : tree_sequence_t)
  : option (Z * list mutation_t) :=
  ms ← get_mutations_loop self 0 (Z.to_nat (num_mutations self));
  Some (0, ms).

(** ** tree_sequence.c: building a tree sequence *)

(** [memset(self, 0, sizeof(tree_sequence_t))]: the NULL arrays are empty. *)
Definition tree_sequence_zero : tree_sequence_t :=
  {| sample_size := 0; num_loci := 0; num_nodes := 0; num_records := 0;
     num_mutations := 0;
     trees_left := []; trees_right := []; trees_node := [];
     trees_children := []; trees_time := [];
     trees_insertion_order := []; trees_removal_order := [];
     trees_parameters := None; trees_environment := None;
     mutations_node := []; mutations_position := [];
     mutations_parameters := None; mutations_environment := None |}.

Definition with_counts (self : tree_sequence_t)
    (n m loci records muts : Z) : tree_sequence_t :=
  {| sample_size := n; num_loci := loci; num_nodes := m;
     num_records := records; num_mutations := muts;
     trees_left := trees_left self; trees_right := trees_right self;
     trees_node := trees_node self; trees_children := trees_children self;
     trees_time := trees_time self;
     trees_insertion_order := trees_insertion_order self;
     trees_removal_order := trees_removal_order self;
     trees_parameters := trees_parameters self;
     trees_environment := trees_environment self;
     mutations_node := mutations_node self;
     mutations_position := mutations_position self;
     mutations_parameters := mutations_parameters self;
     mutations_environment := mutations_environment self |}.

Definition with_columns (self : tree_sequence_t)
    (l r u c : list Z) (t : list double) : tree_sequence_t :=
  {| sample_size := sample_size self; num_loci := num_loci self;
     num_nodes := num_nodes self; num_records := num_records self;
     num_mutations := num_mutations self;
     trees_left := l; trees_right := r; trees_node := u;
     trees_children := c; trees_time := t;
     trees_insertion_order := trees_insertion_order self;
     trees_removal_order := trees_removal_order self;
     trees_parameters := trees_parameters self;
     trees_environment := trees_environment self;
     mutations_node := mutations_node self;
     mutations_position := mutations_position self;
     mutations_parameters := mutations_parameters self;
     mutations_environment := mutations_environment self |}.

Definition with_indexes (self : tree_sequence_t)
    (ins rem : list Z) : tree_sequence_t :=
  {| sample_size := sample_size self; num_loci := num_loci self;
     num_nodes := num_nodes self; num_records := num_records self;
     num_mutations := num_mutations self;
     trees_left := trees_left self; trees_right := trees_right self;
     trees_node := trees_node self; trees_children := trees_children self;
     trees_time := trees_time self;
     trees_insertion_order := ins; trees_removal_order := rem;
     trees_parameters := trees_parameters self;
     trees_environment := trees_environment self;
     mutations_node := mutations_node self;
     mutations_position := mutations_position self;
     mutations_parameters := mutations_parameters self;
     mutations_environment := mutations_environment self |}.

Definition with_provenance (self : tree_sequence_t)
    (tp te mp me : option string) : tree_sequence_t :=
  {| sample_size := sample_size self; num_loci := num_loci self;
     num_nodes := num_nodes self; num_records := num_records self;
     num_mutations := num_mutations self;
     trees_left := trees_left self; trees_right := trees_right self;
     trees_node := trees_node self; trees_children := trees_children self;
     trees_time := trees_time self;
     trees_insertion_order := trees_insertion_order self;
     trees_removal_order := trees_removal_order self;
     trees_parameters := tp; trees_environment := te;
     mutations_node := mutations_node self;
     mutations_position := mutations_position self;
     mutations_parameters := mp; mutations_environment := me |}.

(** [tree_sequence_alloc]: the columns are allocated, not initialised. *)
Definition tree_sequence_alloc `{heap} (self : tree_sequence_t)
  : Z * tree_sequence_t :=
  let r := num_records self in
  let self1 :=
    with_indexes
      (with_columns self (malloc_u32 r) (malloc_u32 r) (malloc_u32 r)
         (malloc_u32 (2 * r)) (malloc_f64 r))
      (malloc_u32 r) (malloc_u32 r) in
  if 0 <? num_mutations self then
    (0, with_mutations self1 (num_mutations self)
          (malloc_u32 (num_mutations self))
          (malloc_f64 (num_mutations self)))
  else (0, self1).

Record index_sort_t := {
  is_value : Z;
  is_index : Z;
  is_time : double
}.

Definition cmp_index_sort (ca cb : index_sort_t) : Z :=
  let ret := b2z (is_value cb <? is_value ca) - b2z (is_value ca <? is_value cb) in
  if ret =? 0
  then b2z (d_gt (is_time ca) (is_time cb)) - b2z (d_lt (is_time ca) (is_time cb))
  else ret.

(** The loops of [tree_sequence_make_indexes] that fill the sort buffer from
    a column of values and the column of times, from record [j] on.  The
    counter [j] is a [uint32_t] and [num_records] a [size_t]: [j++] wraps at
    2^32, so with 2^32 records or more [j < num_records] holds at every
    turn and the loop does not end.  A loop that ends has made at most
    [num_records + 1] tests, which is the [fuel] its caller gives it; where
    the fuel runs out there is no result. *)
Fixpoint fill_sort_buff (values : list Z) (times : list double)
    (negate : bool) (num_records : Z) (fuel : nat) (j : Z)
  : option (list index_sort_t) :=
  match fuel with
  | O => None
  | S fuel' =>
      if j <? num_records then
        v ← rd values j;
        t ← rd times j;
        rest ← fill_sort_buff values times negate num_records fuel'
                  (wrap32 (j + 1));
        Some ({| is_value := v; is_index := j;
                 is_time := if negate then SFopp t else t |} :: rest)
      else Some []
  end.

(** The loops of [tree_sequence_make_indexes] that copy the indexes of the
    sorted buffer into [order], cell by cell, with the same counter. *)
Fixpoint copy_sort_buff (sort_buff : list index_sort_t) (num_records : Z)
    (fuel : nat) (j : Z) (order : list Z) : option (list Z) :=
  match fuel with
  | O => None
  | S fuel' =>
      if j <? num_records then
        e ← rd sort_buff j;
        order ← wr order j (is_index e);
        copy_sort_buff sort_buff num_records fuel' (wrap32 (j + 1)) order
      else Some order
  end.

Definition tree_sequence_make_indexes `{libc_qsort} (self : tree_sequence_t)
  : option (Z * tree_sequence_t) :=
  let fuel := S (Z.to_nat (num_records self)) in
  buff ← fill_sort_buff (trees_left self) (trees_time self) false
            (num_records self) fuel 0;
  insertion_order ← copy_sort_buff (qsort cmp_index_sort buff)
                       (num_records self) fuel 0
                       (trees_insertion_order self);
  buff ← fill_sort_buff (trees_right self) (trees_time self) true
            (num_records self) fuel 0;
  removal_order ← copy_sort_buff (qsort cmp_index_sort buff)
                     (num_records self) fuel 0 (trees_removal_order self);
  last ← rd (trees_node self) (num_records self - 1);
  let self1 := with_indexes self insertion_order removal_order in
  Some (0, with_counts self1 (sample_size self1) last (num_loci self1)
             (num_records self1) (num_mutations self1)).

Record coalescence_record_t := {
  cr_left : Z;
  cr_right : Z;
  cr_node : Z;
  cr_children : Z * Z;
  cr_time : double
}.

(** What [tree_sequence_create] takes from the simulator and from the
    host.  [msprime.c] is not part of the sources at hand: the records are
    those that [msp_get_coalescence_records] copies out (their number is
    what [msp_get_num_coalescence_records] returns) and
    [msp_records_status] is the status it returns.  [encode_environment]
    and [encode_simulation_parameters] print a JSON string each with
    [snprintf], from [uname], the versions of the libraries and the
    parameters of the simulation; each can fail ([uname],
    [H5get_libversion], [snprintf], a population model of unknown type):
    the embedding takes the status of each and the string it stores when
    that status is 0. *)
Record msp_t := {
  msp_sample_size : Z;
  msp_num_loci : Z;
  msp_records : list coalescence_record_t;
  msp_records_status : Z;
  msp_environment_status : Z;
  msp_environment : string;
  msp_parameters_status : Z;
  msp_parameters : string
}.

(** The loop of [tree_sequence_create] that copies the records into the
    columns [left], [right], [node], [children] and [time].  The counter
    [j] is a [uint32_t] compared with the [size_t] [num_records], so the
    loop does not end on 2^32 records or more (see [fill_sort_buff] for the
    fuel); [2 * j] and [2 * j + 1] are computed in 32 bits. *)
Fixpoint create_copy_loop (records : list coalescence_record_t)
    (num_records : Z) (fuel : nat) (j : Z)
    (columns : list Z * list Z * list Z * list Z * list double)
  : option (list Z * list Z * list Z * list Z * list double) :=
  match fuel with
  | O => None
  | S fuel' =>
      if j <? num_records then
        let '(l, r, u, c, t) := columns in
        record ← rd records j;
        l ← wr l j (cr_left record);
        r ← wr r j (cr_right record);
        u ← wr u j (cr_node record);
        c ← wr c (wrap32 (2 * j)) (fst (cr_children record));
        c ← wr c (wrap32 (2 * j + 1)) (snd (cr_children record));
        t ← wr t j (cr_time record);
        create_copy_loop records num_records fuel' (wrap32 (j + 1))
          (l, r, u, c, t)
      else Some columns
  end.

(** [tree_sequence_create(self, sim)]; the [assert] wants a record.  Where
    an encoder fails, the string it would have stored stays what it was. *)
Definition tree_sequence_create `{heap} `{libc_qsort} (sim : msp_t)
  : option (Z * tree_sequence_t) :=
  let records := msp_records sim in
  let n := Z.of_nat (length records) in
  if 0 <? n then
    let self0 :=
      with_counts tree_sequence_zero (msp_sample_size sim) 0
        (msp_num_loci sim) n 0 in
    let '(ret, self1) := tree_sequence_alloc self0 in
    if negb (ret =? 0) then Some (ret, self1) else
    let ret := msp_records_status sim in
    if negb (ret =? 0) then Some (ret, self1) else
    columns ← create_copy_loop records (num_records self1)
                 (S (Z.to_nat (num_records self1))) 0
                 (trees_left self1, trees_right self1, trees_node self1,
                  trees_children self1, trees_time self1);
    let '(l, r, u, c, t) := columns in
    let self2 := with_columns self1 l r u c t in
    r ← tree_sequence_make_indexes self2;
    if negb (r.1 =? 0) then Some r else
    let ret := msp_environment_status sim in
    if negb (ret =? 0) then Some (ret, r.2) else
    let self3 :=
      with_provenance r.2 (trees_parameters r.2)
        (Some (msp_environment sim))
        (mutations_parameters r.2) (mutations_environment r.2) in
    let ret := msp_parameters_status sim in
    if negb (ret =? 0) then Some (ret, self3) else
    Some (0, with_provenance self3 (Some (msp_parameters sim))
               (trees_environment self3)
               (mutations_parameters self3) (mutations_environment self3))
  else None.

(** The orders that [tree_sequence_get_record] takes.  They are declared in
    [msprime.h], which is not part of the sources at hand; as the labels of
    one [switch] they differ from each other. *)
Class msprime_order := {
  MSP_ORDER_TIME : Z;
  MSP_ORDER_LEFT : Z;
  MSP_ORDER_RIGHT : Z;
  order_time_left : MSP_ORDER_TIME <> MSP_ORDER_LEFT;
  order_time_right : MSP_ORDER_TIME <> MSP_ORDER_RIGHT;
  order_left_right : MSP_ORDER_LEFT <> MSP_ORDER_RIGHT
}.

(** The [switch] of [tree_sequence_get_record]: the record to read, or none
    for an order the function does not know. *)
Definition get_record_index `{msprime_order} (self : tree_sequence_t)
    (index order : Z) : option (option Z) :=
  if order =? MSP_ORDER_TIME then Some (Some index)
  else if order =? MSP_ORDER_LEFT then
    j ← rd (trees_insertion_order self) index; Some (Some j)
  else if order =? MSP_ORDER_RIGHT then
    j ← rd (trees_removal_order self) index; Some (Some j)
  else Some None.

(** [tree_sequence_get_record(self, index, record, order)]: the status and
    [*record] afterwards. *)
Definition tree_sequence_get_record `{msprime_order}
    (self : tree_sequence_t) (index : Z) (record : coalescence_record_t)
    (order : Z) : option (Z * coalescence_record_t) :=
  if num_records self <=? index then Some (MSP_ERR_OUT_OF_BOUNDS, record)
  else
    j ← get_record_index self index order;
    match j with
    | None => Some (MSP_ERR_BAD_ORDERING, record)
    | Some j =>
        l ← rd (trees_left self) j;
        r ← rd (trees_right self) j;
        u ← rd (trees_node self) j;
        c0 ← rd (trees_children self) (2 * j);
        c1 ← rd (trees_children self) (2 * j + 1);
        t ← rd (trees_time self) j;
        Some (0, {| cr_left := l; cr_right := r; cr_node := u;
                    cr_children := (c0, c1); cr_time := t |})
    end.

(** ** tree_sequence.c: the archive

    The archive library (HDF5) is not part of the sources; what the code
    relies on is modelled here.  An archive holds attributes, by the path of
    the object they belong to and their name, groups, and datasets by path.
    A numeric object has a shape (no dimension for a scalar) and elements of
    one class, 32-bit unsigned or 64-bit floating.  A read that asks for the
    other class would convert the elements; that conversion is not described
    and such a read counts as an error of the library. *)

Inductive h5_values :=
  | H5_u32 (l : list Z)
  | H5_f64 (l : list double).

Record h5_numeric := {
  h5_dims : list Z;
  h5_data : h5_values
}.

Inductive h5_attribute :=
  | H5A_numeric (o : h5_numeric)
  | H5A_string (s : string).

Record archive := {
  h5_attributes : gmap (string * string) h5_attribute;
  h5_groups : gset string;
  h5_datasets : gmap string h5_numeric
}.

Abbreviation archives := (gmap string archive).

(** The statuses of the calls that do not depend on what the archive
    holds: closing the file and shutting the library down. *)
Record h5_library := {
  H5Fclose_status : Z;
  H5close_status : Z
}.

Definition h5_rank (o : h5_numeric) : Z := Z.of_nat (length (h5_dims o)).

Definition h5_u32_values (o : h5_numeric) : option (list Z) :=
  match h5_data o with H5_u32 l => Some l | H5_f64 _ => None end.

Definition h5_f64_values (o : h5_numeric) : option (list double) :=
  match h5_data o with H5_f64 l => Some l | H5_u32 _ => None end.

(** The value of an [int32_t] that holds the bits of a [uint32_t]. *)
Definition to_int32 (z : Z) : Z := if z <? 2 ^ 31 then z else z - 2 ^ 32.

(** One turn of the loop of [tree_sequence_read_hdf5_metadata]: the root
    attribute [name], a scalar when [size] is 0 and an array of [size]
    elements otherwise, read as 32-bit unsigned.  The result is an error
    status or the elements. *)
Definition read_metadata_field (file : archive) (name : string) (size : Z)
  : Z + list Z :=
  match h5_attributes file !! ("/"%string, name) with
  | None => inl MSP_ERR_HDF5
  | Some a =>
      let rank := match a with H5A_numeric o => h5_rank o | H5A_string _ => 0 end in
      let dims := match a with
                  | H5A_numeric o => hd 0 (h5_dims o)
                  | H5A_string _ => 0
                  end in
      if (if size =? 0 then negb (rank =? 0)
          else negb (rank =? 1) || negb (dims =? size))
      then inl MSP_ERR_FILE_FORMAT
      else match a with
           | H5A_numeric o =>
               match h5_u32_values o with
               | Some l => inr l
               | None => inl MSP_ERR_HDF5
               end
           | H5A_string _ => inl MSP_ERR_HDF5
           end
  end.

Definition tree_sequence_read_hdf5_metadata `{msprime_h}
    (self : tree_sequence_t) (file : archive) : Z * tree_sequence_t :=
  match read_metadata_field file "format_version" 2 with
  | inl e => (e, self)
  | inr version =>
  match read_metadata_field file "sample_size" 0 with
  | inl e => (e, self)
  | inr n =>
  let self1 := with_counts self (hd 0 n) (num_nodes self) (num_loci self)
                 (num_records self) (num_mutations self) in
  match read_metadata_field file "num_loci" 0 with
  | inl e => (e, self1)
  | inr m =>
  let self2 := with_counts self1 (sample_size self1) (num_nodes self1)
                 (hd 0 m) (num_records self1) (num_mutations self1) in
  if negb (to_int32 (hd 0 version) =? MSP_FILE_FORMAT_VERSION_MAJOR)
  then (MSP_ERR_UNSUPPORTED_FILE_VERSION, self2)
  else (0, self2)
  end end end.

(** The length of the one-dimensional dataset [name], or an error status. *)
Definition read_dimension (file : archive) (name : string) : Z + Z :=
  match h5_datasets file !! name with
  | None => inl MSP_ERR_HDF5
  | Some o =>
      if negb (h5_rank o =? 1) then inl MSP_ERR_FILE_FORMAT
      else inr (hd 0 (h5_dims o))
  end.

(** One turn of the loop of [tree_sequence_check_hdf5_dimensions]. *)
Definition check_dimension (file : archive) (name : string)
    (dimensions size : Z) : Z :=
  match h5_datasets file !! name with
  | None => MSP_ERR_HDF5
  | Some o =>
      if negb (h5_rank o =? dimensions) then MSP_ERR_FILE_FORMAT
      else if negb (hd 0 (h5_dims o) =? size) then MSP_ERR_FILE_FORMAT
      else 0
  end.

Fixpoint check_dimensions (file : archive)
    (fields : list (string * Z * Z * bool)) : Z :=
  match fields with
  | [] => 0
  | (name, dimensions, size, required) :: rest =>
      if required then
        let ret := check_dimension file name dimensions size in
        if negb (ret =? 0) then ret else check_dimensions file rest
      else check_dimensions file rest
  end.

Definition tree_sequence_check_hdf5_dimensions (self : tree_sequence_t)
    (file : archive) : Z :=
  let r := num_records self in
  let m := num_mutations self in
  check_dimensions file
    [ ("/trees/left"%string, 1, r, true);
      ("/trees/right"%string, 1, r, true);
      ("/trees/node"%string, 1, r, true);
      ("/trees/children"%string, 2, r, true);
      ("/trees/time"%string, 1, r, true);
      ("/mutations/node"%string, 1, m, 0 <? m);
      ("/mutations/position"%string, 1, m, 0 <? m) ].

Definition tree_sequence_read_hdf5_dimensions (self : tree_sequence_t)
    (file : archive) : Z * tree_sequence_t :=
  let exists_mutations := bool_decide ("/mutations"%string ∈ h5_groups file) in
  let self0 := with_counts self (sample_size self) (num_nodes self)
                 (num_loci self) (num_records self) 0 in
  match read_dimension file "/trees/left" with
  | inl e => (e, self0)
  | inr r =>
  let self1 := with_counts self0 (sample_size self0) (num_nodes self0)
                 (num_loci self0) r (num_mutations self0) in
  match (if exists_mutations then read_dimension file "/mutations/node"
         else inr 0) with
  | inl e => (e, self1)
  | inr m =>
  let self2 := with_counts self1 (sample_size self1) (num_nodes self1)
                 (num_loci self1) (num_records self1) m in
  (tree_sequence_check_hdf5_dimensions self2 file, self2)
  end end.

(** [H5Dread] of a whole dataset into the buffer [dest]: the elements take
    the place of the first cells; a dataset larger than the buffer overruns
    it. *)
Definition h5_read_into {A} (data dest : list A) : option (list A) :=
  if (length data <=? length dest)%nat
  then Some (data ++ drop (length data) dest) else None.

Definition read_u32_dataset (file : archive) (name : string)
    (dest : list Z) : option (Z * list Z) :=
  match h5_datasets file !! name with
  | None => Some (MSP_ERR_HDF5, dest)
  | Some o =>
      match h5_u32_values o with
      | None => Some (MSP_ERR_HDF5, dest)
      | Some l => d ← h5_read_into l dest; Some (0, d)
      end
  end.

Definition read_f64_dataset (file : archive) (name : string)
    (dest : list double) : option (Z * list double) :=
  match h5_datasets file !! name with
  | None => Some (MSP_ERR_HDF5, dest)
  | Some o =>
      match h5_f64_values o with
      | None => Some (MSP_ERR_HDF5, dest)
      | Some l => d ← h5_read_into l dest; Some (0, d)
      end
  end.

Definition tree_sequence_read_hdf5_data (self : tree_sequence_t)
    (file : archive) : option (Z * tree_sequence_t) :=
  l ← read_u32_dataset file "/trees/left" (trees_left self);
  let self1 := with_columns self l.2 (trees_right self) (trees_node self)
                 (trees_children self) (trees_time self) in
  if negb (l.1 =? 0) then Some (l.1, self1) else
  r ← read_u32_dataset file "/trees/right" (trees_right self1);
  let self2 := with_columns self1 (trees_left self1) r.2 (trees_node self1)
                 (trees_children self1) (trees_time self1) in
  if negb (r.1 =? 0) then Some (r.1, self2) else
  u ← read_u32_dataset file "/trees/node" (trees_node self2);
  let self3 := with_columns self2 (trees_left self2) (trees_right self2) u.2
                 (trees_children self2) (trees_time self2) in
  if negb (u.1 =? 0) then Some (u.1, self3) else
  c ← read_u32_dataset file "/trees/children" (trees_children self3);
  let self4 := with_columns self3 (trees_left self3) (trees_right self3)
                 (trees_node self3) c.2 (trees_time self3) in
  if negb (c.1 =? 0) then Some (c.1, self4) else
  t ← read_f64_dataset file "/trees/time" (trees_time self4);
  let self5 := with_columns self4 (trees_left self4) (trees_right self4)
                 (trees_node self4) (trees_children self4) t.2 in
  if negb (t.1 =? 0) then Some (t.1, self5) else
  if num_mutations self5 =? 0 then Some (0, self5) else
  mu ← read_u32_dataset file "/mutations/node" (mutations_node self5);
  let self6 := with_mutations self5 (num_mutations self5) mu.2
                 (mutations_position self5) in
  if negb (mu.1 =? 0) then Some (mu.1, self6) else
  mp ← read_f64_dataset file "/mutations/position" (mutations_position self6);
  let self7 := with_mutations self6 (num_mutations self6)
                 (mutations_node self6) mp.2 in
  if negb (mp.1 =? 0) then Some (mp.1, self7) else
  Some (0, self7).

(** One turn of the loop of [tree_sequence_read_hdf5_provenance]: the
    string attribute [name] of [group]. *)
Definition read_string_attribute (file : archive) (group name : string)
  : Z + string :=
  match h5_attributes file !! (group, name) with
  | None => inl MSP_ERR_HDF5
  | Some (H5A_numeric _) => inl MSP_ERR_FILE_FORMAT
  | Some (H5A_string s) => inr s
  end.

Definition tree_sequence_read_hdf5_provenance (self : tree_sequence_t)
    (file : archive) : Z * tree_sequence_t :=
  match read_string_attribute file "trees" "environment" with
  | inl e => (e, self)
  | inr te =>
  let self1 := with_provenance self (trees_parameters self) (Some te)
                 (mutations_parameters self) (mutations_environment self) in
  match read_string_attribute file "trees" "parameters" with
  | inl e => (e, self1)
  | inr tp =>
  let self2 := with_provenance self1 (Some tp) (trees_environment self1)
                 (mutations_parameters self1) (mutations_environment self1) in
  if 0 <? num_mutations self2 then
    match read_string_attribute file "mutations" "environment" with
    | inl e => (e, self2)
    | inr me =>
    let self3 := with_provenance self2 (trees_parameters self2)
                   (trees_environment self2) (mutations_parameters self2)
                   (Some me) in
    match read_string_attribute file "mutations" "parameters" with
    | inl e => (e, self3)
    | inr mp =>
        (0, with_provenance self3 (trees_parameters self3)
              (trees_environment self3) (Some mp)
              (mutations_environment self3))
    end end
  else (0, self2)
  end end.

(** [tree_sequence_load(self, filename, flags)].  [ret] and [status] are the
    two variables of the function: an exit returns what [ret] holds at that
    point. *)
Definition tree_sequence_load `{msprime_h} `{heap} `{libc_qsort}
    (fs : archives) (lib : h5_library) (filename : string) (flags : Z)
  : option (Z * tree_sequence_t) :=
  let ret := MSP_ERR_GENERIC in
  let self := tree_sequence_zero in
  match fs !! filename with
  | None => Some (MSP_ERR_HDF5, self)
  | Some file =>
  let '(status, self) := tree_sequence_read_hdf5_metadata self file in
  if status <? 0 then Some (ret, self) else
  let '(ret, self) := tree_sequence_read_hdf5_dimensions self file in
  if negb (ret =? 0) then Some (ret, self) else
  let '(ret, self) := tree_sequence_alloc self in
  if negb (ret =? 0) then Some (ret, self) else
  r ← tree_sequence_read_hdf5_data self file;
  let '(ret, self) := r in
  if negb (ret =? 0) then Some (ret, self) else
  let '(status, self) := tree_sequence_read_hdf5_provenance self file in
  if status <? 0 then Some (MSP_ERR_HDF5, self) else
  let status := H5Fclose_status lib in
  if status <? 0 then Some (MSP_ERR_HDF5, self) else
  if negb (Z.land flags MSP_SKIP_H5CLOSE =? 0) then
    r ← tree_sequence_make_indexes self;
    let '(ret, self) := r in
    if negb (ret =? 0) then Some (ret, self) else Some (0, self)
  else
    let status := H5close_status lib in
    if status <? 0 then Some (ret, self) else
    r ← tree_sequence_make_indexes self;
    let '(ret, self) := r in
    if negb (ret =? 0) then Some (ret, self) else Some (0, self)
  end.

(** [H5Dwrite] takes [n] elements from the buffer [source]. *)
Definition h5_take {A} (n : Z) (source : list A) : option (list A) :=
  if (Z.to_nat n <=? length source)%nat
  then Some (take (Z.to_nat n) source) else None.

Definition h5_add_dataset (file : archive) (name : string) (o : h5_numeric)
  : archive :=
  {| h5_attributes := h5_attributes file; h5_groups := h5_groups file;
     h5_datasets := <[name := o]> (h5_datasets file) |}.

Definition h5_add_group (file : archive) (name : string) : archive :=
  {| h5_attributes := h5_attributes file;
     h5_groups := {[ name ]} ∪ h5_groups file;
     h5_datasets := h5_datasets file |}.

Definition h5_add_attribute (file : archive) (object name : string)
    (a : h5_attribute) : archive :=
  {| h5_attributes := <[(object, name) := a]> (h5_attributes file);
     h5_groups := h5_groups file;
     h5_datasets := h5_datasets file |}.

(** [H5Fcreate(filename, H5F_ACC_TRUNC, ...)]: an empty archive. *)
Definition h5_empty : archive :=
  {| h5_attributes := ∅; h5_groups := ∅; h5_datasets := ∅ |}.

(** [tree_sequence_write_hdf5_metadata]. *)
Definition tree_sequence_write_hdf5_metadata `{msprime_h}
    (self : tree_sequence_t) (file : archive) : Z * archive :=
  let file1 :=
    h5_add_attribute file "/" "format_version"
      (H5A_numeric
         {| h5_dims := [2];
            h5_data := H5_u32 [wrap32 MSP_FILE_FORMAT_VERSION_MAJOR;
                               wrap32 MSP_FILE_FORMAT_VERSION_MINOR] |}) in
  let file2 :=
    h5_add_attribute file1 "/" "sample_size"
      (H5A_numeric {| h5_dims := []; h5_data := H5_u32 [sample_size self] |}) in
  let file3 :=
    h5_add_attribute file2 "/" "num_loci"
      (H5A_numeric {| h5_dims := []; h5_data := H5_u32 [num_loci self] |}) in
  (0, file3).

(** [tree_sequence_write_hdf5_data]; the compression that [flags] asks for
    changes how the elements are stored, not the elements. *)
Definition tree_sequence_write_hdf5_data (self : tree_sequence_t)
    (file : archive) (flags : Z) : option (Z * archive) :=
  let r := num_records self in
  let m := num_mutations self in
  let file := h5_add_group file "/trees" in
  let file := if m =? 0 then file else h5_add_group file "/mutations" in
  file ← (if 0 <? r then
    l ← h5_take r (trees_left self);
    let file := h5_add_dataset file "/trees/left"
                  {| h5_dims := [r]; h5_data := H5_u32 l |} in
    l ← h5_take r (trees_right self);
    let file := h5_add_dataset file "/trees/right"
                  {| h5_dims := [r]; h5_data := H5_u32 l |} in
    l ← h5_take r (trees_node self);
    let file := h5_add_dataset file "/trees/node"
                  {| h5_dims := [r]; h5_data := H5_u32 l |} in
    l ← h5_take (2 * r) (trees_children self);
    let file := h5_add_dataset file "/trees/children"
                  {| h5_dims := [r; 2]; h5_data := H5_u32 l |} in
    t ← h5_take r (trees_time self);
    Some (h5_add_dataset file "/trees/time"
            {| h5_dims := [r]; h5_data := H5_f64 t |})
  else Some file);
  file ← (if 0 <? m then
    l ← h5_take m (mutations_node self);
    let file := h5_add_dataset file "/mutations/node"
                  {| h5_dims := [m]; h5_data := H5_u32 l |} in
    t ← h5_take m (mutations_position self);
    Some (h5_add_dataset file "/mutations/position"
            {| h5_dims := [m]; h5_data := H5_f64 t |})
  else Some file);
  Some (0, file).

(** One turn of the loop of [tree_sequence_write_hdf5_provenance]: the
    [assert] wants a string, the group has to exist, and the library refuses
    a string type of size 0. *)
Definition write_string_attribute (file : archive) (group name : string)
    (value : option string) : option (Z * archive) :=
  v ← value;
  if negb (bool_decide (("/" +:+ group)%string ∈ h5_groups file))
  then Some (-1, file)
  else if (String.length v =? 0)%nat then Some (-1, file)
  else Some (0, h5_add_attribute file group name (H5A_string v)).

Definition tree_sequence_write_hdf5_provenance (self : tree_sequence_t)
    (file : archive) : option (Z * archive) :=
  r ← write_string_attribute file "trees" "environment"
         (trees_environment self);
  if negb (r.1 =? 0) then Some r else
  r ← write_string_attribute r.2 "trees" "parameters"
         (trees_parameters self);
  if negb (r.1 =? 0) then Some r else
  if 0 <? num_mutations self then
    r ← write_string_attribute r.2 "mutations" "environment"
           (mutations_environment self);
    if negb (r.1 =? 0) then Some r else
    r ← write_string_attribute r.2 "mutations" "parameters"
           (mutations_parameters self);
    if negb (r.1 =? 0) then Some r else Some (0, r.2)
  else Some (0, r.2).

(** [tree_sequence_dump(self, filename, flags)]: the status and the archive
    the file holds afterwards. *)
Definition tree_sequence_dump `{msprime_h} (self : tree_sequence_t)
    (lib : h5_library) (flags : Z) : option (Z * archive) :=
  let ret := MSP_ERR_HDF5 in
  let file := h5_empty in
  let '(status, file) := tree_sequence_write_hdf5_metadata self file in
  if status <? 0 then Some (ret, file) else
  r ← tree_sequence_write_hdf5_data self file flags;
  let '(status, file) := r in
  if status <? 0 then Some (ret, file) else
  r ← tree_sequence_write_hdf5_provenance self file;
  let '(status, file) := r in
  if status <? 0 then Some (ret, file) else
  let status := H5Fclose_status lib in
  if status <? 0 then Some (ret, file) else
  if negb (Z.land flags MSP_SKIP_H5CLOSE =? 0) then Some (0, file)
  else
    let status := H5close_status lib in
    if status <? 0 then Some (ret, file) else Some (0, file).

(** ** tree_sequence.c: the sparse tree *)

Record sparse_tree_t := {
  t_sample_size : Z;
  t_num_nodes : Z;
  t_flags : Z;
  t_left : Z;
  t_right : Z;
  t_root : Z;
  t_parent : list Z;
  t_time : list double;
  t_children : list Z;
  t_num_leaves : list Z;
  t_num_tracked_leaves : list Z;
  t_stack1 : list Z;
  t_stack2 : list Z;
  t_max_mutations : Z;
  t_num_mutations : Z;
  t_mutations : list mutation_t
}.

Definition with_stacks (self : sparse_tree_t) (s1 s2 : list Z)
  : sparse_tree_t :=
  {| t_sample_size := t_sample_size self; t_num_nodes := t_num_nodes self;
     t_flags := t_flags self; t_left := t_left self; t_right := t_right self;
     t_root := t_root self; t_parent := t_parent self;
     t_time := t_time self; t_children := t_children self;
     t_num_leaves := t_num_leaves self;
     t_num_tracked_leaves := t_num_tracked_leaves self;
     t_stack1 := s1; t_stack2 := s2;
     t_max_mutations := t_max_mutations self;
     t_num_mutations := t_num_mutations self;
     t_mutations := t_mutations self |}.

(** The first two loops of [sparse_tree_get_mrca]: from node [j] up the
    parents, each node written to the stack at [l].  The [assert] wants [l]
    below [(int) self->sample_size]; [room] is what is left up to there. *)
Fixpoint mrca_ascend (parent : list Z) (room : nat) (j l : Z) (s : list Z)
  : option (list Z * Z) :=
  if j =? 0 then Some (s, l) else
  match room with
  | O => None
  | S room' =>
      s' ← wr s l j;
      j' ← rd parent j;
      mrca_ascend parent room' j' (l + 1) s'
  end.

(** The [do ... while] of [sparse_tree_get_mrca]; [l1] goes down by one at
    each turn and [n] bounds the turns. *)
Fixpoint mrca_descend (s1 s2 : list Z) (n : nat) (l1 l2 : Z) : option Z :=
  match n with
  | O => None
  | S n' =>
      w ← rd s1 l1;
      let l1 := l1 - 1 in
      let l2 := l2 - 1 in
      if (0 <=? l1) && (0 <=? l2) then
        a ← rd s1 l1;
        b ← rd s2 l2;
        if a =? b then mrca_descend s1 s2 n' l1 l2 else Some w
      else Some w
  end.

(** [sparse_tree_get_mrca(self, u, v, &mrca)]: the status, what is stored
    in [*mrca] if anything, and the tree (its two stacks) afterwards.  The
    bound of the two [assert]s is [sample_size] cast to [int]: a sample
    size of 2^31 or more is negative there and the first [assert] fails. *)
Definition sparse_tree_get_mrca (self : sparse_tree_t) (u v : Z)
  : option (Z * option Z * sparse_tree_t) :=
  if (u =? 0) || (v =? 0) || (t_num_nodes self <? u)
     || (t_num_nodes self <? v)
  then Some (MSP_ERR_BAD_PARAM_VALUE, None, self)
  else
    let room := Z.to_nat (to_int32 (t_sample_size self)) in
    a ← mrca_ascend (t_parent self) room u 0 (t_stack1 self);
    s1 ← wr a.1 a.2 0;
    b ← mrca_ascend (t_parent self) room v 0 (t_stack2 self);
    s2 ← wr b.1 b.2 0;
    w ← mrca_descend s1 s2 (S (Z.to_nat a.2)) a.2 b.2;
    Some (0, Some w, with_stacks self s1 s2).

(** ** tree_sequence.c: sparse trees and their iterator *)

(** Field updates of [sparse_tree_t]. *)
Definition with_interval (self : sparse_tree_t) (left right : Z)
  : sparse_tree_t :=
  {| t_sample_size := t_sample_size self; t_num_nodes := t_num_nodes self;
     t_flags := t_flags self; t_left := left; t_right := right;
     t_root := t_root self; t_parent := t_parent self;
     t_time := t_time self; t_children := t_children self;
     t_num_leaves := t_num_leaves self;
     t_num_tracked_leaves := t_num_tracked_leaves self;
     t_stack1 := t_stack1 self; t_stack2 := t_stack2 self;
     t_max_mutations := t_max_mutations self;
     t_num_mutations := t_num_mutations self;
     t_mutations := t_mutations self |}.

Definition with_root (self : sparse_tree_t) (root : Z) : sparse_tree_t :=
  {| t_sample_size := t_sample_size self; t_num_nodes := t_num_nodes self;
     t_flags := t_flags self; t_left := t_left self; t_right := t_right self;
     t_root := root; t_parent := t_parent self;
     t_time := t_time self; t_children := t_children self;
     t_num_leaves := t_num_leaves self;
     t_num_tracked_leaves := t_num_tracked_leaves self;
     t_stack1 := t_stack1 self; t_stack2 := t_stack2 self;
     t_max_mutations := t_max_mutations self;
     t_num_mutations := t_num_mutations self;
     t_mutations := t_mutations self |}.

Definition with_links (self : sparse_tree_t) (parent : list Z)
    (time : list double) (children : list Z) : sparse_tree_t :=
  {| t_sample_size := t_sample_size self; t_num_nodes := t_num_nodes self;
     t_flags := t_flags self; t_left := t_left self; t_right := t_right self;
     t_root := t_root self; t_parent := parent;
     t_time := time; t_children := children;
     t_num_leaves := t_num_leaves self;
     t_num_tracked_leaves := t_num_tracked_leaves self;
     t_stack1 := t_stack1 self; t_stack2 := t_stack2 self;
     t_max_mutations := t_max_mutations self;
     t_num_mutations := t_num_mutations self;
     t_mutations := t_mutations self |}.

Definition with_leaf_counts (self : sparse_tree_t)
    (num_leaves num_tracked_leaves : list Z) : sparse_tree_t :=
  {| t_sample_size := t_sample_size self; t_num_nodes := t_num_nodes self;
     t_flags := t_flags self; t_left := t_left self; t_right := t_right self;
     t_root := t_root self; t_parent := t_parent self;
     t_time := t_time self; t_children := t_children self;
     t_num_leaves := num_leaves;
     t_num_tracked_leaves := num_tracked_leaves;
     t_stack1 := t_stack1 self; t_stack2 := t_stack2 self;
     t_max_mutations := t_max_mutations self;
     t_num_mutations := t_num_mutations self;
     t_mutations := t_mutations self |}.

Definition with_tree_mutations (self : sparse_tree_t) (num_mutations : Z)
    (mutations : list mutation_t) : sparse_tree_t :=
  {| t_sample_size := t_sample_size self; t_num_nodes := t_num_nodes self;
     t_flags := t_flags self; t_left := t_left self; t_right := t_right self;
     t_root := t_root self; t_parent := t_parent self;
     t_time := t_time self; t_children := t_children self;
     t_num_leaves := t_num_leaves self;
     t_num_tracked_leaves := t_num_tracked_leaves self;
     t_stack1 := t_stack1 self; t_stack2 := t_stack2 self;
     t_max_mutations := t_max_mutations self;
     t_num_mutations := num_mutations;
     t_mutations := mutations |}.

(** [memset(a + start, 0, count * sizeof a[0])]; [zero] is the value whose
    bytes are all zero.  Clearing cells outside the array is undefined. *)
Definition memset {A} (a : list A) (start count : Z) (zero : A)
  : option (list A) :=
  if (0 <=? start) && (0 <=? count)
     && (start + count <=? Z.of_nat (length a))
  then Some (take (Z.to_nat start) a ++ replicate (Z.to_nat count) zero
             ++ drop (Z.to_nat (start + count)) a)
  else None.

Definition malloc_mutations `{heap} (n : Z) : list mutation_t :=
  map (fun i => {| position := junk_f64 i; node := junk_u32 i |})
    (seq 0 (Z.to_nat n)).

(** [for (j = 1; j <= self->sample_size; j++)] of [sparse_tree_alloc], [js]
    being the values [j] takes. *)
Fixpoint alloc_leaf_counts (js : list Z) (num_leaves num_tracked_leaves : list Z)
  : option (list Z * list Z) :=
  match js with
  | [] => Some (num_leaves, num_tracked_leaves)
  | j :: js' =>
      nl ← wr num_leaves j 1;
      ntl ← wr num_tracked_leaves j 0;
      alloc_leaf_counts js' nl ntl
  end.

(** [for (j = 0; j < num_tracked_leaves; j++)] of [sparse_tree_alloc]: the
    status and the array. *)
Fixpoint alloc_tracked_leaves (sample_size : Z) (tracked_leaves : list Z)
    (js : list Z) (num_tracked_leaves : list Z) : option (Z * list Z) :=
  match js with
  | [] => Some (0, num_tracked_leaves)
  | j :: js' =>
      u ← rd tracked_leaves j;
      if (u =? 0) || (sample_size <? u)
      then Some (MSP_ERR_BAD_PARAM_VALUE, num_tracked_leaves)
      else
        ntl ← wr num_tracked_leaves u 1;
        alloc_tracked_leaves sample_size tracked_leaves js' ntl
  end.

(** What [memset(self, 0, sizeof(sparse_tree_t))] leaves. *)
Definition sparse_tree_zero : sparse_tree_t :=
  {| t_sample_size := 0; t_num_nodes := 0; t_flags := 0; t_left := 0;
     t_right := 0; t_root := 0; t_parent := []; t_time := [];
     t_children := []; t_num_leaves := []; t_num_tracked_leaves := [];
     t_stack1 := []; t_stack2 := []; t_max_mutations := 0;
     t_num_mutations := 0; t_mutations := [] |}.

(** [sparse_tree_alloc(self, sample_size, num_nodes, max_mutations,
    tracked_leaves, num_tracked_leaves, flags)].  The sizes are computed in
    [uint32_t] before they are multiplied by the size of a cell. *)
Definition sparse_tree_alloc `{msprime_h} `{heap}
    (sample_size num_nodes max_mutations : Z) (tracked_leaves : list Z)
    (num_tracked_leaves : Z) (flags : Z) : option (Z * sparse_tree_t) :=
  if (num_nodes =? 0) || (sample_size =? 0)
  then Some (MSP_ERR_BAD_PARAM_VALUE, sparse_tree_zero)
  else
    let cells := wrap32 (num_nodes + 1) in
    let self :=
      {| t_sample_size := sample_size; t_num_nodes := num_nodes;
         t_flags := flags; t_left := 0; t_right := 0; t_root := 0;
         t_parent := malloc_u32 cells; t_time := malloc_f64 cells;
         t_children := malloc_u32 (wrap32 (2 * cells));
         t_num_leaves := []; t_num_tracked_leaves := [];
         t_stack1 := malloc_u32 (wrap32 (sample_size + 1));
         t_stack2 := malloc_u32 (wrap32 (sample_size + 1));
         t_max_mutations := max_mutations; t_num_mutations := 0;
         t_mutations := malloc_mutations max_mutations |} in
    if Z.land flags MSP_COUNT_LEAVES =? 0 then Some (0, self)
    else
      nl ← wr (malloc_u32 cells) 0 0;
      ntl ← wr (malloc_u32 cells) 0 0;
      a ← alloc_leaf_counts (seqZ 1 sample_size) nl ntl;
      b ← alloc_tracked_leaves sample_size tracked_leaves
             (seqZ 0 num_tracked_leaves) a.2;
      Some (b.1, with_leaf_counts self a.1 b.2).

Definition tree_sequence_alloc_sparse_tree `{msprime_h} `{heap}
    (self : tree_sequence_t) (tracked_leaves : list Z)
    (num_tracked_leaves : Z) (flags : Z) : option (Z * sparse_tree_t) :=
  sparse_tree_alloc (sample_size self) (num_nodes self) (num_mutations self)
    tracked_leaves num_tracked_leaves flags.

(** [sparse_tree_clear(self)]; [N] is computed in [uint32_t], the number of
    cells to clear in the leaf counts in [size_t]. *)
Definition sparse_tree_clear `{msprime_h} (self : sparse_tree_t)
  : option (Z * sparse_tree_t) :=
  let N := wrap32 (t_num_nodes self + 1) in
  let n := t_sample_size self in
  parent ← memset (t_parent self) 0 N 0;
  time ← memset (t_time self) 0 N d_zero;
  children ← memset (t_children self) 0 (2 * N) 0;
  let self :=
    with_links (with_root (with_interval self 0 0) 0) parent time children in
  if Z.land (t_flags self) MSP_COUNT_LEAVES =? 0 then Some (0, self)
  else
    nl ← memset (t_num_leaves self) (n + 1) (wrap64 (N - n - 1)) 0;
    ntl ← memset (t_num_tracked_leaves self) (n + 1) (wrap64 (N - n - 1)) 0;
    Some (0, with_leaf_counts self nl ntl).

(** The counters of a [sparse_tree_iterator_t]; the tree sequence and the
    tree it points to are arguments of the functions, and the tree comes
    back with what the call did to it. *)
Record sparse_tree_iterator_t := {
  it_sample_size : Z;
  it_num_nodes : Z;
  it_num_records : Z;
  it_insertion_index : Z;
  it_removal_index : Z;
  it_mutation_index : Z
}.

(** [sparse_tree_iterator_alloc(self, tree_sequence, tree)].  The store to
    [tree->sample_size] writes the value the test has just found there. *)
Definition sparse_tree_iterator_alloc `{msprime_h}
    (self : sparse_tree_iterator_t) (tree_sequence : tree_sequence_t)
    (tree : sparse_tree_t)
  : option (Z * sparse_tree_iterator_t * sparse_tree_t) :=
  if negb (num_nodes tree_sequence =? t_num_nodes tree)
     || negb (sample_size tree_sequence =? t_sample_size tree)
     || negb (num_mutations tree_sequence =? t_max_mutations tree)
  then Some (MSP_ERR_BAD_PARAM_VALUE, self, tree)
  else
    r ← sparse_tree_clear tree;
    Some (r.1,
          {| it_sample_size := sample_size tree_sequence;
             it_num_nodes := num_nodes tree_sequence;
             it_num_records := num_records tree_sequence;
             it_insertion_index := 0; it_removal_index := 0;
             it_mutation_index := 0 |},
          r.2).

(** [while (v != 0)] of [sparse_tree_iterator_next]: the difference goes
    into the two counts of [v] and of every node above it; [op] is the
    subtraction of the first loop or the addition of the second. *)
Fixpoint propagate (op : Z -> Z -> Z) (fuel : nat) (parent : list Z)
    (v all_leaves_diff tracked_leaves_diff : Z)
    (num_leaves num_tracked_leaves : list Z) : option (list Z * list Z) :=
  if v =? 0 then Some (num_leaves, num_tracked_leaves) else
  match fuel with
  | O => None
  | S fuel' =>
      a ← rd num_leaves v;
      nl ← wr num_leaves v (wrap32 (op a all_leaves_diff));
      b ← rd num_tracked_leaves v;
      ntl ← wr num_tracked_leaves v (wrap32 (op b tracked_leaves_diff));
      v' ← rd parent v;
      propagate op fuel' parent v' all_leaves_diff tracked_leaves_diff nl ntl
  end.

(** One turn of the first loop of [sparse_tree_iterator_next]: record [k]
    leaves the tree. *)
Definition remove_record `{msprime_h} (s : tree_sequence_t) (k : Z)
    (t : sparse_tree_t) : option sparse_tree_t :=
  u ← rd (trees_node s) k;
  c0 ← rd (trees_children s) (wrap32 (2 * k));
  c1 ← rd (trees_children s) (wrap32 (2 * k + 1));
  parent ← wr (t_parent t) c0 0;
  children ← wr (t_children t) (wrap32 (2 * u + 0)) 0;
  parent ← wr parent c1 0;
  children ← wr children (wrap32 (2 * u + 1)) 0;
  time ← wr (t_time t) u d_zero;
  let root := if u =? t_root t then Z.max c0 c1 else t_root t in
  let t := with_root (with_links t parent time children) root in
  if Z.land (t_flags t) MSP_COUNT_LEAVES =? 0 then Some t
  else
    all_leaves_diff ← rd (t_num_leaves t) u;
    tracked_leaves_diff ← rd (t_num_tracked_leaves t) u;
    r ← propagate Z.sub (length (t_parent t)) (t_parent t) u
          all_leaves_diff tracked_leaves_diff
          (t_num_leaves t) (t_num_tracked_leaves t);
    Some (with_leaf_counts t r.1 r.2).

(** One turn of the second loop: record [k] enters the tree. *)
Definition insert_record `{msprime_h} (s : tree_sequence_t) (k : Z)
    (t : sparse_tree_t) : option sparse_tree_t :=
  u ← rd (trees_node s) k;
  c0 ← rd (trees_children s) (wrap32 (2 * k));
  c1 ← rd (trees_children s) (wrap32 (2 * k + 1));
  parent ← wr (t_parent t) c0 u;
  children ← wr (t_children t) (wrap32 (2 * u + 0)) c0;
  parent ← wr parent c1 u;
  children ← wr children (wrap32 (2 * u + 1)) c1;
  tm ← rd (trees_time s) k;
  time ← wr (t_time t) u tm;
  let root := if t_root t <? u then u else t_root t in
  let t := with_root (with_links t parent time children) root in
  if Z.land (t_flags t) MSP_COUNT_LEAVES =? 0 then Some t
  else
    a0 ← rd (t_num_leaves t) c0;
    a1 ← rd (t_num_leaves t) c1;
    b0 ← rd (t_num_tracked_leaves t) c0;
    b1 ← rd (t_num_tracked_leaves t) c1;
    r ← propagate Z.add (length (t_parent t)) (t_parent t) u
          (wrap32 (a0 + a1)) (wrap32 (b0 + b1))
          (t_num_leaves t) (t_num_tracked_leaves t);
    Some (with_leaf_counts t r.1 r.2).

(** The first loop: the removal index and the tree when it stops.  Each
    turn moves the index forward and reading past the end of the index is
    undefined, so [fuel] turns are enough when [fuel] exceeds the length of
    the index. *)
Fixpoint tree_remove_loop `{msprime_h} (s : tree_sequence_t) (fuel : nat)
    (removal_index : Z) (t : sparse_tree_t) : option (Z * sparse_tree_t) :=
  match fuel with
  | O => None
  | S fuel' =>
      k ← rd (trees_removal_order s) removal_index;
      r ← rd (trees_right s) k;
      if r =? t_right t then
        t' ← remove_record s k t;
        tree_remove_loop s fuel' (removal_index + 1) t'
      else Some (removal_index, t)
  end.

(** The second loop. *)
Fixpoint tree_insert_loop `{msprime_h} (s : tree_sequence_t)
    (num_records : Z) (fuel : nat) (insertion_index : Z) (t : sparse_tree_t)
  : option (Z * sparse_tree_t) :=
  match fuel with
  | O => None
  | S fuel' =>
      if insertion_index <? num_records then
        k ← rd (trees_insertion_order s) insertion_index;
        l ← rd (trees_left s) k;
        if l =? t_left t then
          t' ← insert_record s k t;
          tree_insert_loop s num_records fuel' (insertion_index + 1) t'
        else Some (insertion_index, t)
      else Some (insertion_index, t)
  end.

(** [while (t->parent[t->root] != 0)]. *)
Fixpoint root_climb (fuel : nat) (parent : list Z) (root : Z) : option Z :=
  match fuel with
  | O => None
  | S fuel' =>
      p ← rd parent root;
      if p =? 0 then Some root else root_climb fuel' parent p
  end.

(** The last loop: the mutations left of [right] go to the tree.  The
    [assert] allows [max_mutations] of them. *)
Fixpoint tree_mutations_loop (s : tree_sequence_t) (right max_mutations : Z)
    (fuel : nat) (mutation_index tree_num_mutations : Z)
    (mutations : list mutation_t) : option (Z * Z * list mutation_t) :=
  match fuel with
  | O => None
  | S fuel' =>
      if mutation_index <? num_mutations s then
        p ← rd (mutations_position s) mutation_index;
        if d_lt p (d_of_u32 right) then
          if tree_num_mutations <? max_mutations then
            u ← rd (mutations_node s) mutation_index;
            m ← wr mutations tree_num_mutations {| position := p; node := u |};
            tree_mutations_loop s right max_mutations fuel'
              (mutation_index + 1) (tree_num_mutations + 1) m
          else None
        else Some (mutation_index, tree_num_mutations, mutations)
      else Some (mutation_index, tree_num_mutations, mutations)
  end.

(** [sparse_tree_iterator_next(self)]: the status, the iterator and the
    tree afterwards. *)
Definition sparse_tree_iterator_next `{msprime_h} (s : tree_sequence_t)
    (self : sparse_tree_iterator_t) (t : sparse_tree_t)
  : option (Z * sparse_tree_iterator_t * sparse_tree_t) :=
  if it_insertion_index self <? it_num_records self then
    a ← tree_remove_loop s (S (length (trees_removal_order s)))
          (it_removal_index self) t;
    let t := a.2 in
    k ← rd (trees_removal_order s) a.1;
    r ← rd (trees_right s) k;
    let t := with_interval t (t_right t) r in
    b ← tree_insert_loop s (it_num_records self)
          (S (Z.to_nat (it_num_records self))) (it_insertion_index self) t;
    let t := b.2 in
    root ← root_climb (S (length (t_parent t))) (t_parent t) (t_root t);
    let t := with_root t root in
    c ← tree_mutations_loop s (t_right t) (t_max_mutations t)
          (S (Z.to_nat (num_mutations s))) (it_mutation_index self) 0
          (t_mutations t);
    Some (1,
          {| it_sample_size := it_sample_size self;
             it_num_nodes := it_num_nodes self;
             it_num_records := it_num_records self;
             it_insertion_index := b.1;
             it_removal_index := a.1;
             it_mutation_index := c.1.1 |},
          with_tree_mutations t c.1.2 c.2)
  else Some (0, self, t).

(** The loop of [sparse_tree_get_num_leaves_by_traversal]: the stack and
    the count when it stops, [fuel] bounding the number of turns. *)
Fixpoint traversal_loop (sample_size : Z) (children : list Z) (fuel : nat)
    (stack : list Z) (stack_top count : Z) : option (list Z * Z) :=
  if stack_top <? 0 then Some (stack, count) else
  match fuel with
  | O => None
  | S fuel' =>
      v ← rd stack stack_top;
      let stack_top := stack_top - 1 in
      if (1 <=? v) && (v <=? sample_size) then
        traversal_loop sample_size children fuel' stack stack_top
          (wrap32 (count + 1))
      else
        c ← rd children (wrap32 (2 * v));
        if negb (c =? 0) then
          c0 ← rd children (wrap32 (2 * v + 0));
          stack ← wr stack (stack_top + 1) c0;
          c1 ← rd children (wrap32 (2 * v + 1));
          stack ← wr stack (stack_top + 2) c1;
          traversal_loop sample_size children fuel' stack (stack_top + 2)
            count
        else traversal_loop sample_size children fuel' stack stack_top count
  end.

(** [sparse_tree_get_num_leaves_by_traversal(self, u, &num_leaves)]: the
    status, the count and the tree (its first stack) afterwards. *)
Definition sparse_tree_get_num_leaves_by_traversal (fuel : nat)
    (self : sparse_tree_t) (u : Z) : option (Z * Z * sparse_tree_t) :=
  stack ← wr (t_stack1 self) 0 u;
  r ← traversal_loop (t_sample_size self) (t_children self) fuel stack 0 0;
  Some (0, r.2, with_stacks self r.1 (t_stack2 self)).

(** [sparse_tree_get_num_leaves(self, u, &num_leaves)]: the status, the
    count and the tree afterwards; [fuel] is for the traversal. *)
Definition sparse_tree_get_num_leaves `{msprime_h} (fuel : nat)
    (self : sparse_tree_t) (u : Z) : option (Z * Z * sparse_tree_t) :=
  if negb (Z.land (t_flags self) MSP_COUNT_LEAVES =? 0) then
    c ← rd (t_num_leaves self) u;
    Some (0, c, self)
  else sparse_tree_get_num_leaves_by_traversal fuel self u.

(** ** tree_sequence.c: the tree diff iterator *)

Record node_record_t := {
  nr_time : double;
  nr_node : Z;
  nr_children : Z * Z
}.

(** The state of a [tree_diff_iterator_t]; the tree sequence it points to is
    an argument of [tree_diff_iterator_next], and the records it hands out
    are lists. *)
Record tree_diff_iterator_t := {
  di_sample_size : Z;
  di_num_nodes : Z;
  di_num_records : Z;
  di_insertion_index : Z;
  di_removal_index : Z;
  di_tree_left : Z
}.

Definition tree_diff_iterator_alloc (tree_sequence : tree_sequence_t)
  : Z * tree_diff_iterator_t :=
  (0, {| di_sample_size := sample_size tree_sequence;
         di_num_nodes := num_nodes tree_sequence;
         di_num_records := num_records tree_sequence;
         di_insertion_index := 0; di_removal_index := 0;
         di_tree_left := 0 |}).

(** The node record that both loops fill from record [k]; [k] is a
    [uint32_t] and so is [2 * k]. *)
Definition fill_node_record (s : tree_sequence_t) (k : Z)
  : option node_record_t :=
  t ← rd (trees_time s) k;
  u ← rd (trees_node s) k;
  c0 ← rd (trees_children s) (wrap32 (2 * k));
  c1 ← rd (trees_children s) (wrap32 (2 * k + 1));
  Some {| nr_time := t; nr_node := u; nr_children := (c0, c1) |}.

(** The first loop of [tree_diff_iterator_next]: the removal index, the
    number of node records in use and the list of records going out.  Each
    turn moves the index forward and reading past the end of the index is
    undefined, so [fuel] turns are enough when [fuel] exceeds the length of
    the index. *)
Fixpoint diff_remove_loop (s : tree_sequence_t) (capacity tree_left : Z)
    (fuel : nat) (removal_index next_node_record : Z)
    (out : list node_record_t) : option (Z * Z * list node_record_t) :=
  match fuel with
  | O => None
  | S fuel' =>
      k ← rd (trees_removal_order s) removal_index;
      r ← rd (trees_right s) k;
      if r =? tree_left then
        if next_node_record <? capacity then
          w ← fill_node_record s k;
          diff_remove_loop s capacity tree_left fuel' (removal_index + 1)
            (next_node_record + 1) (out ++ [w])
        else None
      else Some (removal_index, next_node_record, out)
  end.

(** The second loop of [tree_diff_iterator_next]. *)
Fixpoint diff_insert_loop (s : tree_sequence_t) (capacity tree_left : Z)
    (num_records : Z) (fuel : nat) (insertion_index next_node_record : Z)
    (inl : list node_record_t) : option (Z * Z * list node_record_t) :=
  match fuel with
  | O => None
  | S fuel' =>
      if insertion_index <? num_records then
        k ← rd (trees_insertion_order s) insertion_index;
        l ← rd (trees_left s) k;
        if l =? tree_left then
          if next_node_record <? capacity then
            w ← fill_node_record s k;
            diff_insert_loop s capacity tree_left num_records fuel'
              (insertion_index + 1) (next_node_record + 1) (inl ++ [w])
          else None
        else Some (insertion_index, next_node_record, inl)
      else Some (insertion_index, next_node_record, inl)
  end.

(** [tree_diff_iterator_next(self, &length, &nodes_out, &nodes_in)]: the
    status, the length, the two lists and the iterator afterwards.  The
    bound of the two [assert]s, [2 * self->sample_size], is computed in 32
    bits, as is the size of [node_records] in [tree_diff_iterator_alloc]. *)
Definition tree_diff_iterator_next (s : tree_sequence_t)
    (self : tree_diff_iterator_t)
  : option (Z * Z * list node_record_t * list node_record_t
            * tree_diff_iterator_t) :=
  let last_left := di_tree_left self in
  if di_insertion_index self <? di_num_records self then
    let capacity := wrap32 (2 * di_sample_size self) in
    let fuel_out := S (length (trees_removal_order s)) in
    let fuel_in := S (Z.to_nat (di_num_records self)) in
    a ← diff_remove_loop s capacity (di_tree_left self) fuel_out
           (di_removal_index self) 0 [];
    b ← diff_insert_loop s capacity (di_tree_left self)
           (di_num_records self) fuel_in (di_insertion_index self) a.1.2 [];
    k ← rd (trees_removal_order s) a.1.1;
    r ← rd (trees_right s) k;
    Some (1, wrap32 (r - last_left), a.2, b.2,
          {| di_sample_size := di_sample_size self;
             di_num_nodes := di_num_nodes self;
             di_num_records := di_num_records self;
             di_insertion_index := b.1.1;
             di_removal_index := a.1.1;
             di_tree_left := r |})
  else
    Some (0, wrap32 (di_tree_left self - last_left), [], [], self).

(** ** hapgen.c: the haplotype generator *)

Definition HG_WORD_SIZE : Z := 64.

(** The fields of [hapgen_t] that [hapgen_set_bit] and
    [hapgen_get_haplotype] use.  The matrix is an array of 64-bit words,
    [words_per_row] of them for each sample; [haplotype] is the character
    buffer the haplotypes are written to. *)
Record hapgen_t := {
  hg_sample_size : Z;
  hg_num_mutations : Z;
  words_per_row : Z;
  haplotype_matrix : list Z;
  haplotype : list ascii
}.

Definition with_haplotype_matrix (self : hapgen_t) (m : list Z) : hapgen_t :=
  {| hg_sample_size := hg_sample_size self;
     hg_num_mutations := hg_num_mutations self;
     words_per_row := words_per_row self;
     haplotype_matrix := m;
     haplotype := haplotype self |}.

Definition with_haplotype (self : hapgen_t) (h : list ascii) : hapgen_t :=
  {| hg_sample_size := hg_sample_size self;
     hg_num_mutations := hg_num_mutations self;
     words_per_row := words_per_row self;
     haplotype_matrix := haplotype_matrix self;
     haplotype := h |}.

(** [hapgen_set_bit(self, row, column)]; the [assert] fails when the column
    lies beyond the row. *)
Definition hapgen_set_bit (self : hapgen_t) (row column : Z)
  : option (Z * hapgen_t) :=
  let word := column / HG_WORD_SIZE in
  let bit := column mod HG_WORD_SIZE in
  if word <? words_per_row self then
    let i := row * words_per_row self + word in
    w ← rd (haplotype_matrix self) i;
    m ← wr (haplotype_matrix self) i (Z.lor w (wrap64 (Z.shiftl 1 bit)));
    Some (0, with_haplotype_matrix self m)
  else None.

(** The loop over the bits [k .. 63] of one word, [n] of them left. *)
Fixpoint get_haplotype_bits (word : Z) (k : Z) (n : nat)
    (buf : list ascii) (l : Z) : option (list ascii * Z) :=
  match n with
  | O => Some (buf, l)
  | S n' =>
      buf' ← wr buf l
        (if Z.land (Z.shiftr word k) 1 =? 0 then "0"%char else "1"%char);
      get_haplotype_bits word (k + 1) n' buf' (l + 1)
  end.

(** The loop over the words [j .. words_per_row - 1] of a row, [n] of them
    left. *)
Fixpoint get_haplotype_words (self : hapgen_t) (row : Z) (j : Z) (n : nat)
    (buf : list ascii) (l : Z) : option (list ascii * Z) :=
  match n with
  | O => Some (buf, l)
  | S n' =>
      word ← rd (haplotype_matrix self) (row * words_per_row self + j);
      r ← get_haplotype_bits word 0 (Z.to_nat HG_WORD_SIZE) buf l;
      get_haplotype_words self row (j + 1) n' r.1 r.2
  end.

(** [hapgen_get_haplotype(self, sample_id, &haplotype)]: the status and the
    generator afterwards; on success [*haplotype] is its buffer. *)
Definition hapgen_get_haplotype (self : hapgen_t) (sample_id : Z)
  : option (Z * hapgen_t) :=
  if (sample_id <? 1) || (hg_sample_size self <? sample_id) then
    Some (MSP_ERR_OUT_OF_BOUNDS, self)
  else
    r ← get_haplotype_words self (sample_id - 1) 0
           (Z.to_nat (words_per_row self)) (haplotype self) 0;
    buf ← wr r.1 (hg_num_mutations self) zero;
    Some (0, with_haplotype self buf).

(** The C string that starts a buffer: the characters before the first
    NUL. *)
Fixpoint c_string (buf : list ascii) : option (list ascii) :=
  match buf with
  | [] => None
  | c :: rest =>
      if Ascii.eqb c zero then Some [] else cons c <$> c_string rest
  end.

(** The loop of [hapgen_apply_tree_mutation]: the generator and the
    traversal stack when it stops, [fuel] bounding the number of turns.
    [u - 1] is computed in [uint32_t]. *)
Fixpoint apply_tree_mutation_loop (children : list Z) (site : Z)
    (fuel : nat) (self : hapgen_t) (stack : list Z) (stack_top : Z)
  : option (hapgen_t * list Z) :=
  if stack_top <? 0 then Some (self, stack) else
  match fuel with
  | O => None
  | S fuel' =>
      u ← rd stack stack_top;
      let stack_top := stack_top - 1 in
      c ← rd children (wrap32 (2 * u));
      if c =? 0 then
        r ← hapgen_set_bit self (wrap32 (u - 1)) site;
        apply_tree_mutation_loop children site fuel' r.2 stack stack_top
      else
        c0 ← rd children (wrap32 (2 * u + 0));
        stack ← wr stack (stack_top + 1) c0;
        c1 ← rd children (wrap32 (2 * u + 1));
        stack ← wr stack (stack_top + 2) c1;
        apply_tree_mutation_loop children site fuel' self stack (stack_top + 2)
  end.

(** [hapgen_apply_tree_mutation(self, site, mut)]: the status, the
    generator and its traversal stack afterwards.  The tree and the
    traversal stack of the generator are arguments. *)
Definition hapgen_apply_tree_mutation (fuel : nat) (self : hapgen_t)
    (tree : sparse_tree_t) (stack : list Z) (site : Z) (mut : mutation_t)
  : option (Z * hapgen_t * list Z) :=
  stack ← wr stack 0 (node mut);
  r ← apply_tree_mutation_loop (t_children tree) site fuel self stack 0;
  Some (0, r.1, r.2).

(** [for (j = 0; j < tree->num_mutations; j++)] of
    [hapgen_generate_all_haplotypes], [n] turns left: whether the loop was
    left by [goto out], the status, the generator, its stack and the
    site. *)
Fixpoint apply_tree_mutations (fuel : nat) (tree : sparse_tree_t) (n : nat)
    (j : Z) (ret : Z) (self : hapgen_t) (stack : list Z) (site : Z)
  : option (bool * Z * hapgen_t * list Z * Z) :=
  match n with
  | O => Some (false, ret, self, stack, site)
  | S n' =>
      mut ← rd (t_mutations tree) j;
      r ← hapgen_apply_tree_mutation fuel self tree stack site mut;
      if negb (r.1.1 =? 0) then Some (true, r.1.1, r.1.2, r.2, site)
      else apply_tree_mutations fuel tree n' (j + 1) r.1.1 r.1.2 r.2
             (site + 1)
  end.

(** [while ((ret = sparse_tree_iterator_next(&self->tree_iterator)) == 1)]
    of [hapgen_generate_all_haplotypes]; [trees] bounds the number of
    turns. *)
Fixpoint generate_all_loop `{msprime_h} (s : tree_sequence_t) (fuel : nat)
    (trees : nat) (it : sparse_tree_iterator_t) (tree : sparse_tree_t)
    (self : hapgen_t) (stack : list Z) (site : Z)
  : option (Z * sparse_tree_iterator_t * sparse_tree_t * hapgen_t * list Z) :=
  match trees with
  | O => None
  | S trees' =>
      '(ret, it, tree) ← sparse_tree_iterator_next s it tree;
      if ret =? 1 then
        '(out, ret, self, stack, site) ←
          apply_tree_mutations fuel tree (Z.to_nat (t_num_mutations tree)) 0
            ret self stack site;
        if (out : bool) then Some (ret, it, tree, self, stack)
        else generate_all_loop s fuel trees' it tree self stack site
      else Some (ret, it, tree, self, stack)
  end.

(** [hapgen_generate_all_haplotypes(self)]: the status, the tree iterator,
    the tree, the generator and its traversal stack afterwards. *)
Definition hapgen_generate_all_haplotypes `{msprime_h} (s : tree_sequence_t)
    (fuel trees : nat) (it : sparse_tree_iterator_t) (tree : sparse_tree_t)
    (self : hapgen_t) (stack : list Z)
  : option (Z * sparse_tree_iterator_t * sparse_tree_t * hapgen_t * list Z) :=
  generate_all_loop s fuel trees it tree self stack 0.

(** ** tree_file.c: the legacy tree file *)

Definition MSP_TREE_FILE_MAGIC : Z := 0xa52cd4a4.
Definition MSP_TREE_FILE_VERSION : Z := 1.
Definition MSP_TREE_FILE_HEADER_SIZE : Z := 28.

(** A stream of stdio: the bytes of the file and the position in it. *)
Record FILE := {
  f_bytes : list byte;
  f_pos : Z
}.

(** The files that [fopen] finds, by name. *)
Abbreviation filesystem := (gmap string (list byte)).

(** [fopen(filename, "r")] and [fopen(filename, "r+")]: [None] is the NULL
    stream of a file that cannot be opened. *)
Definition fopen_existing (fs : filesystem) (filename : string)
  : option FILE :=
  bytes ← fs !! filename; Some {| f_bytes := bytes; f_pos := 0 |}.

(** [fopen(filename, "w")]: the file is created empty. *)
Definition fopen_truncate (filename : string) : option FILE :=
  Some {| f_bytes := []; f_pos := 0 |}.

(** [fread(ptr, size, 1, f)]: the number of items read (1 or 0), the bytes
    and the stream afterwards.  Nothing of an item that the file does not
    hold in full is delivered. *)
Definition fread (size : Z) (f : FILE) : Z * list byte * FILE :=
  let len := Z.of_nat (length (f_bytes f)) in
  if (0 <? size) && (f_pos f + size <=? len) then
    (1, take (Z.to_nat size) (drop (Z.to_nat (f_pos f)) (f_bytes f)),
     {| f_bytes := f_bytes f; f_pos := f_pos f + size |})
  else (0, [], {| f_bytes := f_bytes f; f_pos := Z.max (f_pos f) len |}).

(** [fwrite(ptr, size, 1, f)] of the bytes [bs] at the position of the
    stream. *)
Definition fwrite (bs : list byte) (f : FILE) : Z * FILE :=
  let pos := Z.to_nat (f_pos f) in
  let old := f_bytes f in
  (1, {| f_bytes := take pos old ++ repeat x00 (pos - length old) ++ bs
                    ++ drop (pos + length bs) old;
         f_pos := f_pos f + Z.of_nat (length bs) |}).

Definition ftell (f : FILE) : Z := f_pos f.

(** The conversion of a 64-bit unsigned offset to the [long] that [fseek]
    takes. *)
Definition to_long (z : Z) : Z := if z <? 2 ^ 63 then z else z - 2 ^ 64.

(** [fseek(f, offset, SEEK_SET)]: a negative offset is refused. *)
Definition fseek_set (offset : Z) (f : FILE) : Z * FILE :=
  if offset <? 0 then (-1, f)
  else (0, {| f_bytes := f_bytes f; f_pos := offset |}).

(** [fseek(f, 0, SEEK_END)]. *)
Definition fseek_end (f : FILE) : Z * FILE :=
  (0, {| f_bytes := f_bytes f; f_pos := Z.of_nat (length (f_bytes f)) |}).

(** Words are stored in the byte order of the host. *)
Inductive byte_order := LittleEndian | BigEndian.

Fixpoint le_decode (bs : list byte) : Z :=
  match bs with
  | [] => 0
  | b :: rest => Z.of_N (Byte.to_N b) + 256 * le_decode rest
  end.

Definition decode_word (host : byte_order) (bs : list byte) : Z :=
  match host with
  | LittleEndian => le_decode bs
  | BigEndian => le_decode (rev bs)
  end.

(** Word [i] of an array of [w]-byte words read from a file. *)
Definition word_at (host : byte_order) (w : nat) (bs : list byte) (i : nat)
  : Z :=
  decode_word host (take w (drop (i * w) bs)).

Record tree_file_t := {
  tf_filename : option string;
  tf_mode : ascii;
  tf_file : option FILE;
  tf_sample_size : Z;
  tf_num_loci : Z;
  tf_flags : Z;
  tf_metadata_offset : Z;
  tf_coalescence_record_offset : Z;
  tf_metadata : option (list byte)
}.

(** [memset(self, 0, sizeof(tree_file_t))]. *)
Definition tree_file_zero : tree_file_t :=
  {| tf_filename := None; tf_mode := zero; tf_file := None;
     tf_sample_size := 0; tf_num_loci := 0; tf_flags := 0;
     tf_metadata_offset := 0; tf_coalescence_record_offset := 0;
     tf_metadata := None |}.

Definition tf_with_file (self : tree_file_t) (f : option FILE)
  : tree_file_t :=
  {| tf_filename := tf_filename self; tf_mode := tf_mode self; tf_file := f;
     tf_sample_size := tf_sample_size self; tf_num_loci := tf_num_loci self;
     tf_flags := tf_flags self;
     tf_metadata_offset := tf_metadata_offset self;
     tf_coalescence_record_offset := tf_coalescence_record_offset self;
     tf_metadata := tf_metadata self |}.

Definition tf_with_metadata (self : tree_file_t) (m : option (list byte))
  : tree_file_t :=
  {| tf_filename := tf_filename self; tf_mode := tf_mode self;
     tf_file := tf_file self;
     tf_sample_size := tf_sample_size self; tf_num_loci := tf_num_loci self;
     tf_flags := tf_flags self;
     tf_metadata_offset := tf_metadata_offset self;
     tf_coalescence_record_offset := tf_coalescence_record_offset self;
     tf_metadata := m |}.

(** [tree_file_read_info], on the open stream [f] of [self]. *)
Definition tree_file_read_info (host : byte_order) (self : tree_file_t)
    (f : FILE) : Z * tree_file_t :=
  let '(n1, h32, f1) := fread 20 f in
  if negb (n1 =? 1) then (MSP_ERR_IO, tf_with_file self (Some f1)) else
  let '(n2, h64, f2) := fread 8 f1 in
  if negb (n2 =? 1) then (MSP_ERR_IO, tf_with_file self (Some f2)) else
  if negb (word_at host 4 h32 0 =? MSP_TREE_FILE_MAGIC)
  then (MSP_ERR_FILE_FORMAT, tf_with_file self (Some f2)) else
  if negb (word_at host 4 h32 1 =? MSP_TREE_FILE_VERSION)
  then (MSP_ERR_FILE_VERSION, tf_with_file self (Some f2)) else
  let self1 :=
    {| tf_filename := tf_filename self; tf_mode := tf_mode self;
       tf_file := Some f2;
       tf_sample_size := word_at host 4 h32 2;
       tf_num_loci := word_at host 4 h32 3;
       tf_flags := word_at host 4 h32 4;
       tf_metadata_offset := word_at host 8 h64 0;
       tf_coalescence_record_offset := ftell f2;
       tf_metadata := tf_metadata self |} in
  let '(_, f3) := fseek_end f2 in
  let metadata_size := wrap64 (ftell f3 - tf_metadata_offset self1) in
  let self2 := tf_with_metadata (tf_with_file self1 (Some f3)) (Some []) in
  let '(r4, f4) := fseek_set (to_long (tf_metadata_offset self2)) f3 in
  if negb (r4 =? 0) then (MSP_ERR_IO, tf_with_file self2 (Some f4)) else
  let '(n5, metadata, f5) := fread metadata_size f4 in
  if negb (n5 =? 1) then (MSP_ERR_IO, tf_with_file self2 (Some f5)) else
  (0, tf_with_metadata (tf_with_file self2 (Some f5)) (Some metadata)).

Definition tree_file_open_read_mode (host : byte_order) (fs : filesystem)
    (filename : string) (self : tree_file_t) : Z * tree_file_t :=
  match fopen_existing fs filename with
  | None => (MSP_ERR_IO, self)
  | Some f =>
      let '(ret, self1) := tree_file_read_info host (tf_with_file self (Some f)) f in
      if negb (ret =? 0) then (ret, self1) else
      match tf_file self1 with
      | None => (MSP_ERR_IO, self1)
      | Some f1 =>
          let '(r, f2) :=
            fseek_set (tf_coalescence_record_offset self1) f1 in
          if negb (r =? 0) then (MSP_ERR_IO, tf_with_file self1 (Some f2))
          else (0, tf_with_file self1 (Some f2))
      end
  end.

Definition tree_file_open_write_mode (filename : string)
    (self : tree_file_t) : Z * tree_file_t :=
  match fopen_truncate filename with
  | None => (MSP_ERR_IO, self)
  | Some f =>
      let header := repeat x00 (Z.to_nat MSP_TREE_FILE_HEADER_SIZE) in
      let '(n, f1) := fwrite header f in
      if negb (n =? 1) then (MSP_ERR_IO, tf_with_file self (Some f1))
      else (0, tf_with_file self (Some f1))
  end.

Definition tree_file_open_update_mode (host : byte_order) (fs : filesystem)
    (filename : string) (self : tree_file_t) : Z * tree_file_t :=
  match fopen_existing fs filename with
  | None => (MSP_ERR_IO, self)
  | Some f => tree_file_read_info host (tf_with_file self (Some f)) f
  end.

(** [tree_file_open(self, filename, mode)]. *)
Definition tree_file_open (host : byte_order) (fs : filesystem)
    (filename : string) (mode : ascii) : Z * tree_file_t :=
  let self :=
    {| tf_filename := Some filename; tf_mode := mode; tf_file := None;
       tf_sample_size := 0; tf_num_loci := 0; tf_flags := 0;
       tf_metadata_offset := 0; tf_coalescence_record_offset := 0;
       tf_metadata := None |} in
  if Ascii.eqb mode "r" then tree_file_open_read_mode host fs filename self
  else if Ascii.eqb mode "w" then tree_file_open_write_mode filename self
  else if Ascii.eqb mode "u" then
    tree_file_open_update_mode host fs filename self
  else (MSP_ERR_BAD_MODE, self).

Definition MSP_FLAGS_COMPLETE : Z := 1.
Definition MSP_FLAGS_SORTED : Z := 2.

(** The [w] bytes of an unsigned word, lowest first. *)
Fixpoint le_encode (w : nat) (z : Z) : list byte :=
  match w with
  | O => []
  | S w' =>
      default x00 (Byte.of_N (Z.to_N (z mod 256))) :: le_encode w' (z / 256)
  end.

(** The bytes of a [w]-byte unsigned word in the memory of the host; the
    value is converted to the type of the word first. *)
Definition encode_word (host : byte_order) (w : nat) (z : Z) : list byte :=
  match host with
  | LittleEndian => le_encode w z
  | BigEndian => rev (le_encode w z)
  end.

Definition tree_file_check_read_mode (self : tree_file_t) : bool :=
  Ascii.eqb (tf_mode self) "r".
Definition tree_file_check_write_mode (self : tree_file_t) : bool :=
  Ascii.eqb (tf_mode self) "w".
Definition tree_file_check_update_mode (self : tree_file_t) : bool :=
  Ascii.eqb (tf_mode self) "u".

(** [tree_file_write_header], on the open stream [f] of [self]: the status
    and the stream afterwards. *)
Definition tree_file_write_header (host : byte_order) (self : tree_file_t)
    (f : FILE) : Z * FILE :=
  let h32 :=
    encode_word host 4 MSP_TREE_FILE_MAGIC
    ++ encode_word host 4 MSP_TREE_FILE_VERSION
    ++ encode_word host 4 (tf_sample_size self)
    ++ encode_word host 4 (tf_num_loci self)
    ++ encode_word host 4 (tf_flags self) in
  let h64 := encode_word host 8 (tf_metadata_offset self) in
  let '(r, f1) := fseek_set 0 f in
  if negb (r =? 0) then (MSP_ERR_IO, f1) else
  let '(n, f2) := fwrite h32 f1 in
  if negb (n =? 1) then (MSP_ERR_IO, f2) else
  let '(n, f3) := fwrite h64 f2 in
  if negb (n =? 1) then (MSP_ERR_IO, f3) else
  (0, f3).

(** [tree_file_set_sample_size(self, sample_size)]. *)
Definition tree_file_set_sample_size (self : tree_file_t) (sample_size : Z)
  : Z * tree_file_t :=
  if negb (tree_file_check_write_mode self) then (MSP_ERR_BAD_MODE, self)
  else
    (0, {| tf_filename := tf_filename self; tf_mode := tf_mode self;
           tf_file := tf_file self;
           tf_sample_size := sample_size; tf_num_loci := tf_num_loci self;
           tf_flags := tf_flags self;
           tf_metadata_offset := tf_metadata_offset self;
           tf_coalescence_record_offset := tf_coalescence_record_offset self;
           tf_metadata := tf_metadata self |}).

(** [tree_file_set_num_loci(self, num_loci)]. *)
Definition tree_file_set_num_loci (self : tree_file_t) (num_loci : Z)
  : Z * tree_file_t :=
  if negb (tree_file_check_write_mode self) then (MSP_ERR_BAD_MODE, self)
  else
    (0, {| tf_filename := tf_filename self; tf_mode := tf_mode self;
           tf_file := tf_file self;
           tf_sample_size := tf_sample_size self; tf_num_loci := num_loci;
           tf_flags := tf_flags self;
           tf_metadata_offset := tf_metadata_offset self;
           tf_coalescence_record_offset := tf_coalescence_record_offset self;
           tf_metadata := tf_metadata self |}).

Definition tf_with_flags (self : tree_file_t) (flags : Z) : tree_file_t :=
  {| tf_filename := tf_filename self; tf_mode := tf_mode self;
     tf_file := tf_file self;
     tf_sample_size := tf_sample_size self; tf_num_loci := tf_num_loci self;
     tf_flags := flags;
     tf_metadata_offset := tf_metadata_offset self;
     tf_coalescence_record_offset := tf_coalescence_record_offset self;
     tf_metadata := tf_metadata self |}.

Definition tf_with_metadata_offset (self : tree_file_t) (offset : Z)
  : tree_file_t :=
  {| tf_filename := tf_filename self; tf_mode := tf_mode self;
     tf_file := tf_file self;
     tf_sample_size := tf_sample_size self; tf_num_loci := tf_num_loci self;
     tf_flags := tf_flags self;
     tf_metadata_offset := offset;
     tf_coalescence_record_offset := tf_coalescence_record_offset self;
     tf_metadata := tf_metadata self |}.

(** [fflush(f)]: the writes of the embedding reach the file at once. *)
Definition fflush (f : FILE) : Z := 0.

(** [tree_file_finalise(self, msp)].  [msp_write_metadata] is not part of
    the sources: what the call does to the stream is the argument
    [write_metadata].  Without a stream [ftell] is undefined. *)
Definition tree_file_finalise (host : byte_order)
    (write_metadata : FILE -> Z * FILE) (self : tree_file_t)
  : option (Z * tree_file_t) :=
  if negb (tree_file_check_write_mode self) then Some (MSP_ERR_BAD_MODE, self)
  else
    f ← tf_file self;
    let self1 := tf_with_metadata_offset self (ftell f) in
    let '(ret, f1) := write_metadata f in
    let self2 := tf_with_file self1 (Some f1) in
    if negb (ret =? 0) then Some (ret, self2) else
    let self3 :=
      tf_with_flags self2 (Z.lor (tf_flags self2) MSP_FLAGS_COMPLETE) in
    let '(ret, f2) := tree_file_write_header host self3 f1 in
    let self4 := tf_with_file self3 (Some f2) in
    if negb (ret =? 0) then Some (ret, self4) else
    if negb (fflush f2 =? 0) then Some (MSP_ERR_IO, self4)
    else Some (0, self4).

Definition tree_file_is_complete (self : tree_file_t) : Z :=
  Z.land (tf_flags self) MSP_FLAGS_COMPLETE.

Definition tree_file_is_sorted (self : tree_file_t) : Z :=
  Z.land (tf_flags self) MSP_FLAGS_SORTED.

(** ** Vocabulary of the statements *)

(** Doubles that are not NaN are ordered like their keys: the class of the
    number, then exponent and mantissa, both negated below zero. *)
Definition float_key (x : double) : Z * Z * Z :=
  match x with
  | S754_zero _ => (0, 0, 0)
  | S754_infinity true => (-2, 0, 0)
  | S754_infinity false => (2, 0, 0)
  | S754_nan => (0, 0, 0)
  | S754_finite false m e => (1, e, Zpos m)
  | S754_finite true m e => (-1, - e, Zneg m)
  end.

Definition key_lt (a b : Z * Z * Z) : Prop :=
  let '(a1, a2, a3) := a in
  let '(b1, b2, b3) := b in
  a1 < b1 \/ (a1 = b1 /\ (a2 < b2 \/ (a2 = b2 /\ a3 < b3))).

(** A sort to run the embedding with: insertion sort. *)
Fixpoint isort_insert {A} (cmp : A -> A -> Z) (x : A) (l : list A) : list A :=
  match l with
  | [] => [x]
  | y :: l' =>
      if cmp x y <=? 0 then x :: y :: l' else y :: isort_insert cmp x l'
  end.

Fixpoint isort {A} (cmp : A -> A -> Z) (l : list A) : list A :=
  match l with
  | [] => []
  | x :: l' => isort_insert cmp x (isort cmp l')
  end.

(** Values of the absent constants and of the heap to run the embedding
    with. *)
Definition sample_msprime_h : msprime_h :=
  {| MSP_ERR_BAD_MUTATION := -17;
     MSP_FILE_FORMAT_VERSION_MAJOR := 0;
     MSP_FILE_FORMAT_VERSION_MINOR := 1;
     MSP_SKIP_H5CLOSE := 2;
     MSP_ZLIB_COMPRESSION := 1;
     MSP_COUNT_LEAVES := 1 |}.

Definition zero_heap : heap :=
  {| junk_u32 := fun _ => 0; junk_f64 := fun _ => S754_zero false |}.

(** A tree sequence to run the embedding on: three samples, ten loci, the
    tree ((1,2)4,3)5 over [0,5) and the tree ((1,2)4,3)6 over [5,10), with
    one mutation above node 4. *)
Definition example_ts : tree_sequence_t :=
  {| sample_size := 3; num_loci := 10; num_nodes := 6; num_records := 3;
     num_mutations := 1;
     trees_left := [0; 0; 5]; trees_right := [10; 5; 10];
     trees_node := [4; 5; 6]; trees_children := [1; 2; 3; 4; 3; 4];
     trees_time := [d_of_u32 1; d_of_u32 2; d_of_u32 3];
     trees_insertion_order := [0; 1; 2]; trees_removal_order := [1; 2; 0];
     trees_parameters := Some "{}"%string;
     trees_environment := Some "{}"%string;
     mutations_node := [4]; mutations_position := [d_of_u32 7];
     mutations_parameters := Some "{}"%string;
     mutations_environment := Some "{}"%string |}.

(** The layout [hapgen_alloc] sets up: one more word per row than
    [num_mutations / 64], a matrix of [words_per_row * sample_size] words and
    a buffer of [words_per_row * 64 + 1] characters. *)
Definition hapgen_allocated (self : hapgen_t) : Prop :=
  0 <= hg_sample_size self /\ 0 <= hg_num_mutations self /\
  words_per_row self = hg_num_mutations self / HG_WORD_SIZE + 1 /\
  Z.of_nat (length (haplotype_matrix self)) =
    words_per_row self * hg_sample_size self /\
  Z.of_nat (length (haplotype self)) =
    words_per_row self * HG_WORD_SIZE + 1.

(** Bit [(row, column)] of the matrix, at the place where [hapgen_set_bit]
    puts it. *)
Definition hapgen_bit (self : hapgen_t) (row column : Z) : bool :=
  match rd (haplotype_matrix self)
          (row * words_per_row self + column / HG_WORD_SIZE) with
  | Some w => Z.testbit w (column mod HG_WORD_SIZE)
  | None => false
  end.

(** The character that stands for a bit. *)
Definition bit_char (self : hapgen_t) (row p : Z) : ascii :=
  if hapgen_bit self row p then "1"%char else "0"%char.

(** The buffer holds the characters of the row up to position [l]. *)
Definition row_written (self : hapgen_t) (row : Z) (buf : list ascii) (l : Z)
  : Prop :=
  length buf = length (haplotype self) /\
  forall p, 0 <= p < l -> rd buf p = Some (bit_char self row p).

(** A generator to run the embedding on: three samples, two sites; sample 1
    carries the first site, sample 2 the second, sample 3 both. *)
Definition example_hapgen : hapgen_t :=
  {| hg_sample_size := 3; hg_num_mutations := 2; words_per_row := 1;
     haplotype_matrix := [1; 2; 3];
     haplotype := repeat "x"%char 65 |}.

(** The six words of the header of a legacy tree file. *)
Definition header_magic (host : byte_order) (bytes : list byte) : Z :=
  decode_word host (take 4 bytes).
Definition header_version (host : byte_order) (bytes : list byte) : Z :=
  decode_word host (take 4 (drop 4 bytes)).
Definition header_sample_size (host : byte_order) (bytes : list byte) : Z :=
  decode_word host (take 4 (drop 8 bytes)).
Definition header_num_loci (host : byte_order) (bytes : list byte) : Z :=
  decode_word host (take 4 (drop 12 bytes)).
Definition header_flags (host : byte_order) (bytes : list byte) : Z :=
  decode_word host (take 4 (drop 16 bytes)).
Definition header_metadata_offset (host : byte_order) (bytes : list byte)
  : Z :=
  decode_word host (take 8 (drop 20 bytes)).

(** A complete legacy file of a little-endian host: the header (three
    samples, ten loci, flags 3, metadata at offset 48), one record and the
    metadata "{}". *)
Definition example_tree_file : list byte :=
  [xa4; xd4; x2c; xa5;  x01; x00; x00; x00;  x03; x00; x00; x00;
   x0a; x00; x00; x00;  x03; x00; x00; x00;
   x30; x00; x00; x00; x00; x00; x00; x00]
  ++ [x00; x00; x00; x00;  x01; x00; x00; x00;  x02; x00; x00; x00;
      x04; x00; x00; x00;  x00; x00; x80; x3f]
  ++ [x7b; x7d].

(** A 28-byte header with a wrong magic word and version 2. *)
Definition bad_magic_and_version : list byte :=
  [x00; x00; x00; x00;  x02; x00; x00; x00] ++ repeat x00 20.

(** A library whose calls all succeed, and one whose shutdown fails. *)
Definition h5_ok : h5_library :=
  {| H5Fclose_status := 0; H5close_status := 0 |}.
Definition h5_close_fails : h5_library :=
  {| H5Fclose_status := 0; H5close_status := -1 |}.

(** The archive that [tree_sequence_dump] writes for [example_ts]. *)
Definition example_archive `{msprime_h} : archive :=
  match tree_sequence_dump example_ts h5_ok 0 with
  | Some (_, file) => file
  | None => h5_empty
  end.

(** [example_archive] with a format version whose major number is 99. *)
Definition other_version_archive `{msprime_h} : archive :=
  h5_add_attribute example_archive "/" "format_version"
    (H5A_numeric {| h5_dims := [2]; h5_data := H5_u32 [99; 0] |}).

(** The nodes from [j] to its root along the parent links, [j] first, when
    there are at most [room] of them. *)
Fixpoint ancestors (parent : list Z) (room : nat) (j : Z)
  : option (list Z) :=
  if j =? 0 then Some [] else
  match room with
  | O => None
  | S room' =>
      j' ← rd parent j;
      cons j <$> ancestors parent room' j'
  end.

(** A tree to run the queries on: ((1,2)4,3)5 over three samples. *)
Definition example_tree : sparse_tree_t :=
  {| t_sample_size := 3; t_num_nodes := 6; t_flags := 0;
     t_left := 0; t_right := 5; t_root := 5;
     t_parent := [0; 4; 4; 5; 5; 0; 0];
     t_time := [d_zero; d_zero; d_zero; d_zero; d_of_u32 1; d_of_u32 2;
                d_zero];
     t_children := [0; 0; 0; 0; 0; 0; 0; 0; 1; 2; 3; 4; 0; 0];
     t_num_leaves := []; t_num_tracked_leaves := [];
     t_stack1 := [7; 7; 7; 7]; t_stack2 := [7; 7; 7; 7];
     t_max_mutations := 1; t_num_mutations := 0;
     t_mutations := [ {| position := d_zero; node := 0 |} ] |}.

(** Columns of a tree sequence as functions of the record. *)
Definition ts_left (s : tree_sequence_t) (k : Z) : Z :=
  default 0 (rd (trees_left s) k).
Definition ts_right (s : tree_sequence_t) (k : Z) : Z :=
  default 0 (rd (trees_right s) k).
Definition ts_node (s : tree_sequence_t) (k : Z) : Z :=
  default 0 (rd (trees_node s) k).
Definition ts_child (s : tree_sequence_t) (k j : Z) : Z :=
  default 0 (rd (trees_children s) (2 * k + j)).
Definition ts_time (s : tree_sequence_t) (k : Z) : double :=
  default d_zero (rd (trees_time s) k).

(** Record [k] as a node record. *)
Definition node_record_at (s : tree_sequence_t) (k : Z) : node_record_t :=
  {| nr_time := ts_time s k; nr_node := ts_node s k;
     nr_children := (ts_child s k 0, ts_child s k 1) |}.

(** The columns of a tree sequence have the length [num_records] says (two
    children per record, at positions that fit a [uint32_t]), and the two
    indexes list records. *)
Definition columns_ok (s : tree_sequence_t) : Prop :=
  let R := num_records s in
  0 <= R < 2 ^ 31 /\
  Z.of_nat (length (trees_left s)) = R /\
  Z.of_nat (length (trees_right s)) = R /\
  Z.of_nat (length (trees_node s)) = R /\
  Z.of_nat (length (trees_children s)) = 2 * R /\
  Z.of_nat (length (trees_time s)) = R /\
  Z.of_nat (length (trees_insertion_order s)) = R /\
  Z.of_nat (length (trees_removal_order s)) = R /\
  (forall k, k ∈ trees_insertion_order s -> 0 <= k < R) /\
  (forall k, k ∈ trees_removal_order s -> 0 <= k < R) /\
  (forall k, 0 <= k < R -> k ∈ trees_removal_order s).

(** The records of a tree sequence tile the genome from coordinate 0 on:
    every record covers a non-empty interval of 32-bit coordinates and
    starts at 0 or where some record ends; the insertion order lists the
    records by ascending left end and the removal order by ascending right
    end; and no more than [2 * sample_size] records end or start at any one
    coordinate (in a tree over [n] samples at most [n - 1] do either). *)
Definition records_tile (s : tree_sequence_t) : Prop :=
  let R := num_records s in
  columns_ok s /\
  StronglySorted (fun a b => ts_left s a <= ts_left s b)
    (trees_insertion_order s) /\
  StronglySorted (fun a b => ts_right s a <= ts_right s b)
    (trees_removal_order s) /\
  (forall k, 0 <= k < R -> 0 <= ts_left s k < ts_right s k) /\
  (forall k, 0 <= k < R -> ts_right s k < 2 ^ 32) /\
  (forall k, 0 <= k < R ->
     ts_left s k = 0 \/ exists k', 0 <= k' < R /\ ts_right s k' = ts_left s k) /\
  (forall x,
     Z.of_nat (length (filter (fun k => ts_right s k = x)
                         (trees_removal_order s)))
     + Z.of_nat (length (filter (fun k => ts_left s k = x)
                           (trees_insertion_order s)))
     <= 2 * sample_size s).

(** The iterator after [n] calls of [tree_diff_iterator_next]. *)
Fixpoint diff_iterate (s : tree_sequence_t) (n : nat)
  : option tree_diff_iterator_t :=
  match n with
  | O => Some (snd (tree_diff_iterator_alloc s))
  | S n' =>
      self ← diff_iterate s n';
      r ← tree_diff_iterator_next s self;
      Some r.2
  end.

(** The number of leading elements of [l] whose key is [x]. *)
Fixpoint run_length (key : Z -> Z) (x : Z) (l : list Z) : nat :=
  match l with
  | [] => O
  | k :: l' => if key k =? x then S (run_length key x l') else O
  end.

(** Where the two indexes of an iterator stand when the current coordinate
    is [x]: the records before the insertion index start before [x] and the
    others do not; the records before the removal index end before [x] and
    the others do not. *)
Definition indexes_at (s : tree_sequence_t) (i r : nat) (x : Z) : Prop :=
  (i <= length (trees_insertion_order s))%nat /\
  (r <= length (trees_removal_order s))%nat /\
  (forall p k, trees_insertion_order s !! p = Some k ->
     ((p < i)%nat -> ts_left s k < x) /\ ((i <= p)%nat -> x <= ts_left s k)) /\
  (forall p k, trees_removal_order s !! p = Some k ->
     ((p < r)%nat -> ts_right s k < x) /\ ((r <= p)%nat -> x <= ts_right s k)).

Definition diff_iterator_ok (s : tree_sequence_t)
    (self : tree_diff_iterator_t) : Prop :=
  di_sample_size self = sample_size s /\
  di_num_records self = num_records s /\
  0 <= di_insertion_index self /\ 0 <= di_removal_index self /\
  0 <= di_tree_left self /\
  indexes_at s (Z.to_nat (di_insertion_index self))
    (Z.to_nat (di_removal_index self)) (di_tree_left self).

(** The orders of the two indexes: record [a] may stand before record [b]
    in the insertion order when it starts further left, or at the same
    coordinate and not later in time; in the removal order when it ends
    further left, or at the same coordinate and not earlier in time. *)
Definition inserts_before (s : tree_sequence_t) (a b : Z) : Prop :=
  ts_left s a < ts_left s b \/
  (ts_left s a = ts_left s b /\ d_lt (ts_time s b) (ts_time s a) = false).
Definition removes_before (s : tree_sequence_t) (a b : Z) : Prop :=
  ts_right s a < ts_right s b \/
  (ts_right s a = ts_right s b /\ d_lt (ts_time s a) (ts_time s b) = false).

(** The entry of the sort buffer for record [j]. *)
Definition sort_entry (values : list Z) (times : list double)
    (negate : bool) (j : Z) : index_sort_t :=
  {| is_value := default 0 (rd values j); is_index := wrap32 j;
     is_time := if negate then SFopp (default d_zero (rd times j))
                else default d_zero (rd times j) |}.

(** *** Vocabulary for the sparse tree iterator *)

(** The links of a tree as functions of the node: the parent and the two
    children, 0 where there is none. *)
Definition parent_of (parent : list Z) (v : Z) : Z :=
  default 0 (rd parent v).
Definition child_of (children : list Z) (v j : Z) : Z :=
  default 0 (rd children (2 * v + j)).

(** The weight below node [v]: the weight of [v] when it is a sample, the
    sum of the weights below its two children otherwise; [fuel] bounds the
    depth. *)
Fixpoint weight_below (w : Z -> Z) (sample_size : Z) (child : Z -> Z -> Z)
    (fuel : nat) (v : Z) : Z :=
  match fuel with
  | O => 0
  | S fuel' =>
      if (1 <=? v) && (v <=? sample_size) then w v
      else if child v 0 =? 0 then 0
      else weight_below w sample_size child fuel' (child v 0)
           + weight_below w sample_size child fuel' (child v 1)
  end.

(** The weight below [v], with fuel enough for a tree whose children lie
    below their parents. *)
Definition weight_of (w : Z -> Z) (sample_size : Z) (child : Z -> Z -> Z)
    (v : Z) : Z :=
  weight_below w sample_size child (S (Z.to_nat v)) v.

(** The number of leaves below [u] in a tree, and the number of those that
    are in the list [tracked]. *)
Definition leaves_below (t : sparse_tree_t) (u : Z) : Z :=
  weight_of (fun _ => 1) (t_sample_size t) (child_of (t_children t)) u.
Definition is_tracked (tracked : list Z) (v : Z) : Z :=
  if decide (v ∈ tracked) then 1 else 0.

(** The records of a tree sequence nest into trees: both indexes list every
    record once; the node of a record lies above the samples and above its
    two children, which differ; two records whose intervals meet have
    different nodes and no child in common; and on the whole interval of a
    record each of its children is a sample or the node of a record. *)
Definition records_nest (s : tree_sequence_t) : Prop :=
  let R := num_records s in
  let n := sample_size s in
  let N := num_nodes s in
  1 <= n /\ n <= N /\ 2 * (N + 1) < 2 ^ 32 /\
  trees_insertion_order s ≡ₚ seqZ 0 R /\
  trees_removal_order s ≡ₚ seqZ 0 R /\
  (forall k, 0 <= k < R ->
     n < ts_node s k <= N /\
     1 <= ts_child s k 0 < ts_node s k /\
     1 <= ts_child s k 1 < ts_node s k /\
     ts_child s k 0 <> ts_child s k 1) /\
  (forall k k', 0 <= k < R -> 0 <= k' < R -> k <> k' ->
     ts_left s k < ts_right s k' -> ts_left s k' < ts_right s k ->
     ts_node s k <> ts_node s k' /\
     forall j j', 0 <= j <= 1 -> 0 <= j' <= 1 ->
       ts_child s k j <> ts_child s k' j') /\
  (forall k j x, 0 <= k < R -> 0 <= j <= 1 ->
     ts_left s k <= x < ts_right s k ->
     ts_child s k j <= n \/
     exists k', 0 <= k' < R /\ ts_left s k' <= x < ts_right s k' /\
                ts_node s k' = ts_child s k j) /\
  Z.of_nat (length (mutations_position s)) = num_mutations s /\
  Z.of_nat (length (mutations_node s)) = num_mutations s.

(** The iterator and the tree after [n] calls of
    [sparse_tree_iterator_next] on a tree that
    [tree_sequence_alloc_sparse_tree] and [sparse_tree_iterator_alloc] have
    set up. *)
Definition it_zero : sparse_tree_iterator_t :=
  {| it_sample_size := 0; it_num_nodes := 0; it_num_records := 0;
     it_insertion_index := 0; it_removal_index := 0;
     it_mutation_index := 0 |}.

Fixpoint sparse_tree_iterate `{msprime_h} `{heap} (s : tree_sequence_t)
    (tracked : list Z) (flags : Z) (n : nat)
  : option (sparse_tree_iterator_t * sparse_tree_t) :=
  match n with
  | O =>
      a ← tree_sequence_alloc_sparse_tree s tracked
             (Z.of_nat (length tracked)) flags;
      if negb (a.1 =? 0) then None else
      b ← sparse_tree_iterator_alloc it_zero s a.2;
      if negb (b.1.1 =? 0) then None else Some (b.1.2, b.2)
  | S n' =>
      st ← sparse_tree_iterate s tracked flags n';
      r ← sparse_tree_iterator_next s st.1 st.2;
      Some (r.1.2, r.2)
  end.

(** Parents lie above their children, up to node [N]. *)
Definition climbs (N : Z) (par : Z -> Z) : Prop :=
  forall x, par x <> 0 -> 1 <= x < par x /\ par x <= N.

(** Children lie below their parents, which are not samples. *)
Definition kids_below (n N : Z) (kid : Z -> Z -> Z) : Prop :=
  forall v j, 0 <= j <= 1 -> kid v j <> 0 ->
    1 <= kid v j < v /\ n < v <= N.

(** The parent and child links describe one forest: a node is the parent
    of its children and a child of its parent, and it has two different
    children or none. *)
Definition forest (n N : Z) (par : Z -> Z) (kid : Z -> Z -> Z) : Prop :=
  kids_below n N kid /\
  (forall v j, 0 <= j <= 1 -> kid v j <> 0 -> par (kid v j) = v) /\
  (forall c, par c <> 0 ->
     1 <= c /\ (kid (par c) 0 = c \/ kid (par c) 1 = c)) /\
  (forall v, kid v 0 = 0 <-> kid v 1 = 0) /\
  (forall v, kid v 0 <> 0 -> kid v 0 <> kid v 1).

(** [anc par x y]: [y] is [x] or lies above it along the parent links. *)
Inductive anc (par : Z -> Z) : Z -> Z -> Prop :=
  | anc_refl x : anc par x x
  | anc_step x y : par x <> 0 -> anc par (par x) y -> anc par x y.

(** The samples below [v], from left to right. *)
Fixpoint leaf_list (sample_size : Z) (child : Z -> Z -> Z) (fuel : nat)
    (v : Z) : list Z :=
  match fuel with
  | O => []
  | S fuel' =>
      if (1 <=? v) && (v <=? sample_size) then [v]
      else if child v 0 =? 0 then []
      else leaf_list sample_size child fuel' (child v 0)
           ++ leaf_list sample_size child fuel' (child v 1)
  end.

(** [propagate] on one of the two arrays. *)
Fixpoint propagate1 (op : Z -> Z -> Z) (fuel : nat) (parent : list Z)
    (v diff : Z) (count : list Z) : option (list Z) :=
  if v =? 0 then Some count else
  match fuel with
  | O => None
  | S fuel' =>
      a ← rd count v;
      count' ← wr count v (wrap32 (op a diff));
      v' ← rd parent v;
      propagate1 op fuel' parent v' diff count'
  end.

(** The links of a tree are those of the records in [live]: the node of
    each is the parent of its two children, and the tree has no other
    link. *)
Definition links_hold (s : tree_sequence_t) (live : Z -> Prop)
    (parent children : list Z) : Prop :=
  (forall k, live k -> 0 <= k < num_records s) /\
  (forall k j, live k -> 0 <= j <= 1 ->
     child_of children (ts_node s k) j = ts_child s k j /\
     parent_of parent (ts_child s k j) = ts_node s k) /\
  (forall v j, 0 <= j <= 1 -> child_of children v j <> 0 ->
     exists k, live k /\ ts_node s k = v /\
               ts_child s k j = child_of children v j) /\
  (forall c, parent_of parent c <> 0 ->
     exists k j, live k /\ 0 <= j <= 1 /\ ts_child s k j = c /\
                 ts_node s k = parent_of parent c).

(** An array of counts holds the weight below every node. *)
Definition counts_for (w : Z -> Z) (n N : Z) (children count : list Z)
  : Prop :=
  forall v, 0 <= v <= N ->
    rd count v = Some (weight_of w n (child_of children) v).

(** The arrays of a tree have the sizes [sparse_tree_alloc] gives them for
    the tree sequence, and the tree counts leaves. *)
Definition tree_shape `{msprime_h} (s : tree_sequence_t) (t : sparse_tree_t)
  : Prop :=
  let N := num_nodes s in
  t_sample_size t = sample_size s /\ t_num_nodes t = N /\
  Z.land (t_flags t) MSP_COUNT_LEAVES <> 0 /\
  Z.of_nat (length (t_parent t)) = N + 1 /\
  Z.of_nat (length (t_time t)) = N + 1 /\
  Z.of_nat (length (t_children t)) = 2 * (N + 1) /\
  Z.of_nat (length (t_num_leaves t)) = N + 1 /\
  Z.of_nat (length (t_num_tracked_leaves t)) = N + 1 /\
  Z.of_nat (length (t_stack1 t)) = sample_size s + 1 /\
  t_max_mutations t = num_mutations s /\
  Z.of_nat (length (t_mutations t)) = num_mutations s /\
  0 <= t_root t <= N.

(** The state of a tree between two turns of the loops of
    [sparse_tree_iterator_next]. *)
Definition tree_ok `{msprime_h} (s : tree_sequence_t) (tracked : list Z)
    (live : Z -> Prop) (t : sparse_tree_t) : Prop :=
  tree_shape s t /\
  links_hold s live (t_parent t) (t_children t) /\
  counts_for (fun _ => 1) (sample_size s) (num_nodes s) (t_children t)
    (t_num_leaves t) /\
  counts_for (is_tracked tracked) (sample_size s) (num_nodes s)
    (t_children t) (t_num_tracked_leaves t).

(** Record [k] shares neither its node nor a child with a record in
    [live]. *)
Definition apart (s : tree_sequence_t) (live : Z -> Prop) (k : Z) : Prop :=
  forall k', live k' -> k' <> k ->
    ts_node s k' <> ts_node s k /\
    forall j j', 0 <= j <= 1 -> 0 <= j' <= 1 ->
      ts_child s k' j <> ts_child s k j'.

(** The records in the tree when the insertion index stands at [i] and the
    removal index at [r]: those the first has passed and the second has
    not. *)
Definition live (s : tree_sequence_t) (i r : nat) (k : Z) : Prop :=
  k ∈ take i (trees_insertion_order s) /\
  k ∉ take r (trees_removal_order s).

(** The state of an iterator and its tree between two calls of
    [sparse_tree_iterator_next]. *)
Definition iterator_ok `{msprime_h} (s : tree_sequence_t) (tracked : list Z)
    (self : sparse_tree_iterator_t) (t : sparse_tree_t) : Prop :=
  it_num_records self = num_records s /\
  0 <= it_insertion_index self /\ 0 <= it_removal_index self /\
  0 <= it_mutation_index self /\ 0 <= t_right t /\
  indexes_at s (Z.to_nat (it_insertion_index self))
    (Z.to_nat (it_removal_index self)) (t_right t) /\
  tree_ok s tracked
    (live s (Z.to_nat (it_insertion_index self))
       (Z.to_nat (it_removal_index self))) t.

(** Every child in the tree is a sample or has children itself. *)
Definition closed (n : Z) (kid : Z -> Z -> Z) : Prop :=
  forall v j, 0 <= j <= 1 -> kid v j <> 0 ->
    kid v j <= n \/ kid (kid v j) 0 <> 0.

(** The sum of [f] over a list. *)
Definition total (f : Z -> Z) (l : list Z) : Z :=
  foldr (fun v a => f v + a) 0 l.

(** *** Vocabulary for the trees, the mutations and the haplotypes *)

(** Record [k] spans the coordinates from [l] to [r]. *)
Definition covers (s : tree_sequence_t) (k l r : Z) : Prop :=
  0 <= k < num_records s /\ ts_left s k <= l /\ r <= ts_right s k.

(** The stored mutations lie at positions that are numbers, not below
    zero, in ascending order. *)
Definition mutations_sorted (s : tree_sequence_t) : Prop :=
  Forall (fun p => is_nan p = false /\ d_lt p d_zero = false)
    (mutations_position s) /\
  StronglySorted (fun a b => d_lt b a = false) (mutations_position s).

(** The position of a mutation lies in the interval from [l] to [r], [r]
    excluded. *)
Definition within (l r : Z) (m : mutation_t) : Prop :=
  d_lt (position m) (d_of_u32 l) = false /\
  d_lt (position m) (d_of_u32 r) = true.

#[global] Instance within_dec l r m : Decision (within l r m).
Proof. unfold within. apply _. Defined.

(** Where the mutation index of an iterator stands: the stored mutations
    before it lie left of the right end of the tree, the others do not. *)
Definition mutations_at (s : tree_sequence_t) (self : sparse_tree_iterator_t)
    (t : sparse_tree_t) : Prop :=
  0 <= it_mutation_index self <= num_mutations s /\
  forall j p, rd (mutations_position s) j = Some p ->
    (j < it_mutation_index self -> d_lt p (d_of_u32 (t_right t)) = true) /\
    (it_mutation_index self <= j -> d_lt p (d_of_u32 (t_right t)) = false).

(** The arrays of a tree have the sizes [sparse_tree_alloc] gives them for
    the tree sequence, whatever the flags. *)
Definition tree_layout (s : tree_sequence_t) (t : sparse_tree_t) : Prop :=
  let N := num_nodes s in
  t_sample_size t = sample_size s /\ t_num_nodes t = N /\
  Z.of_nat (length (t_parent t)) = N + 1 /\
  Z.of_nat (length (t_time t)) = N + 1 /\
  Z.of_nat (length (t_children t)) = 2 * (N + 1) /\
  Z.of_nat (length (t_stack1 t)) = sample_size s + 1 /\
  t_max_mutations t = num_mutations s /\
  Z.of_nat (length (t_mutations t)) = num_mutations s /\
  0 <= t_root t <= N.

(** The state of a tree between two turns of the loops of
    [sparse_tree_iterator_next], with or without leaf counts. *)
Definition tree_links `{msprime_h} (s : tree_sequence_t) (tracked : list Z)
    (live : Z -> Prop) (t : sparse_tree_t) : Prop :=
  tree_layout s t /\
  links_hold s live (t_parent t) (t_children t) /\
  (Z.land (t_flags t) MSP_COUNT_LEAVES <> 0 -> tree_ok s tracked live t).

(** The state of an iterator and its tree between two calls of
    [sparse_tree_iterator_next], with or without leaf counts. *)
Definition iterator_links `{msprime_h} (s : tree_sequence_t)
    (tracked : list Z) (self : sparse_tree_iterator_t) (t : sparse_tree_t)
  : Prop :=
  it_num_records self = num_records s /\
  0 <= it_insertion_index self /\ 0 <= it_removal_index self /\
  0 <= it_mutation_index self /\ 0 <= t_right t /\
  indexes_at s (Z.to_nat (it_insertion_index self))
    (Z.to_nat (it_removal_index self)) (t_right t) /\
  tree_links s tracked
    (live s (Z.to_nat (it_insertion_index self))
       (Z.to_nat (it_removal_index self))) t.

(** The layout of the matrix of a generator for [n] samples. *)
Definition matrix_for (n : Z) (self : hapgen_t) : Prop :=
  hg_sample_size self = n /\ 0 < words_per_row self /\
  Z.of_nat (length (haplotype_matrix self)) = words_per_row self * n.

(** Node [v] is in the tree: it is a sample or it has children. *)
Definition in_tree (n N : Z) (kid : Z -> Z -> Z) (v : Z) : Prop :=
  1 <= v <= N /\ (v <= n \/ kid v 0 <> 0).

(** The interval of record [k] holds the position [p]. *)
Definition holds (s : tree_sequence_t) (k : Z) (p : double) : Prop :=
  0 <= k < num_records s /\
  d_lt p (d_of_u32 (ts_left s k)) = false /\
  d_lt p (d_of_u32 (ts_right s k)) = true.

(** [descends s p x u]: at position [p], node [x] is node [u] or lies
    below it, along the records whose interval holds [p]. *)
Inductive descends (s : tree_sequence_t) (p : double) : Z -> Z -> Prop :=
  | descends_refl x : descends s p x x
  | descends_step k j x u :
      holds s k p -> 0 <= j <= 1 -> ts_child s k j = x ->
      descends s p (ts_node s k) u -> descends s p x u.

(** Sample [x] carries the stored mutation number [j]. *)
Definition carries (s : tree_sequence_t) (j x : Z) : Prop :=
  0 <= j /\
  exists m, stored_mutations s !! Z.to_nat j = Some m /\
            descends s (position m) x (node m).

(** The node of every stored mutation is a sample or the node of a record
    whose interval holds the position of the mutation. *)
Definition mutations_in_trees (s : tree_sequence_t) : Prop :=
  forall m, m ∈ stored_mutations s ->
    1 <= node m <= sample_size s \/
    exists k, holds s k (position m) /\ ts_node s k = node m.

(** A generator with a matrix of zeros, for three samples and one site. *)
Definition blank_hapgen : hapgen_t :=
  {| hg_sample_size := 3; hg_num_mutations := 1; words_per_row := 1;
     haplotype_matrix := [0; 0; 0];
     haplotype := repeat "x"%char 65 |}.

(** [tree_sequence_set_mutations] accepts the mutation. *)
Definition mutation_accepted (self : tree_sequence_t) (m : mutation_t)
  : Prop :=
  mutation_rejected self m = false /\ is_nan (position m) = false.

(** Three mutations for [example_ts], out of order. *)
Definition example_mutations : list mutation_t :=
  [ {| position := d_of_u32 7; node := 4 |};
    {| position := d_of_u32 2; node := 1 |};
    {| position := d_of_u32 5; node := 3 |} ].

(** A tree sequence over two samples and two loci whose coordinates start
    at 1: the samples coalesce in node 3 on [1, 2) and in node 4 on
    [2, 3). *)
Definition one_based_ts : tree_sequence_t :=
  {| sample_size := 2; num_loci := 2; num_nodes := 4; num_records := 2;
     num_mutations := 0;
     trees_left := [1; 2]; trees_right := [2; 3];
     trees_node := [3; 4]; trees_children := [1; 2; 1; 2];
     trees_time := [d_of_u32 1; d_of_u32 2];
     trees_insertion_order := [0; 1]; trees_removal_order := [0; 1];
     trees_parameters := Some "{}"%string;
     trees_environment := Some "{}"%string;
     mutations_node := []; mutations_position := [];
     mutations_parameters := None;
     mutations_environment := None |}.

(** Three mutations that pass the test of [tree_sequence_set_mutations] on
    [example_ts]; the position of the second is a NaN. *)
Definition nan_mutations : list mutation_t :=
  [ {| position := d_of_u32 2; node := 4 |};
    {| position := S754_nan; node := 4 |};
    {| position := d_of_u32 1; node := 5 |} ].

(** What a simulation of the records of [example_ts] hands to
    [tree_sequence_create]. *)
Definition example_sim : msp_t :=
  {| msp_sample_size := 3; msp_num_loci := 10;
     msp_records :=
       [ {| cr_left := 0; cr_right := 10; cr_node := 4;
            cr_children := (1, 2); cr_time := d_of_u32 1 |};
         {| cr_left := 0; cr_right := 5; cr_node := 5;
            cr_children := (3, 4); cr_time := d_of_u32 2 |};
         {| cr_left := 5; cr_right := 10; cr_node := 6;
            cr_children := (3, 4); cr_time := d_of_u32 3 |} ];
     msp_records_status := 0;
     msp_environment_status := 0; msp_environment := "{}";
     msp_parameters_status := 0; msp_parameters := "{}" |}.

(** The metadata "{}" as [msp_write_metadata] would write it at the
    position of the stream. *)
Definition example_write_metadata (f : FILE) : Z * FILE :=
  (0, snd (fwrite [x7b; x7d] f)).

(** A tree file opened for writing, for three samples and ten loci. *)
Definition example_new_tree_file : tree_file_t :=
  snd (tree_file_set_num_loci
         (snd (tree_file_set_sample_size
                 (snd (tree_file_open LittleEndian ∅ "trees.dat" "w")) 3))
         10).

(** Record [k] of a tree sequence as a coalescence record. *)
Definition record_of (s : tree_sequence_t) (k : Z) : coalescence_record_t :=
  {| cr_left := ts_left s k; cr_right := ts_right s k;
     cr_node := ts_node s k;
     cr_children := (ts_child s k 0, ts_child s k 1);
     cr_time := ts_time s k |}.

(** Values for the three orders, to run the embedding with. *)
Definition sample_msprime_order : msprime_order :=
  {| MSP_ORDER_TIME := 0; MSP_ORDER_LEFT := 1; MSP_ORDER_RIGHT := 2;
     order_time_left := ltac:(discriminate);
     order_time_right := ltac:(discriminate);
     order_left_right := ltac:(discriminate) |}.

(** A record to pass to [tree_sequence_get_record]. *)
Definition blank_record : coalescence_record_t :=
  {| cr_left := 0; cr_right := 0; cr_node := 0; cr_children := (0, 0);
     cr_time := d_zero |}.

(** Generator [b] has the layout of generator [a]: the same sizes and the
    same character buffer, and a matrix of the same length. *)
Definition layout_kept (a b : hapgen_t) : Prop :=
  hg_sample_size b = hg_sample_size a /\
  hg_num_mutations b = hg_num_mutations a /\
  words_per_row b = words_per_row a /\
  haplotype b = haplotype a /\
  length (haplotype_matrix b) = length (haplotype_matrix a).

(* ================================================================== *)
(** * Part II: properties                                              *)
(* ================================================================== *)

(** ** Doubles and their order *)

Lemma d_lt_key x y :
  is_nan x = false -> is_nan y = false ->
  d_lt x y = true <-> key_lt (float_key x) (float_key y).
Proof.
  unfold d_lt, SFltb.
  destruct x as [sx|sx| |sx mx ex], y as [sy|sy| |sy my ey]; simpl;
    try discriminate; intros _ _;
    repeat match goal with s : bool |- _ => destruct s end; simpl;
    try (split; [discriminate | lia]); try (split; [reflexivity | lia]);
    try (split; [intros _; lia | reflexivity]).
  all: change (Pos.compare_cont Eq mx my) with (Pos.compare mx my).
  all: destruct (Z.compare_spec ex ey), (Pos.compare_spec mx my); simpl;
    split; try discriminate; try lia; reflexivity.
Qed.

Lemma d_gt_lt a b : d_gt a b = d_lt b a.
Proof. reflexivity. Qed.

Lemma d_lt_false_key x y :
  is_nan x = false -> is_nan y = false ->
  d_lt x y = false <-> ~ key_lt (float_key x) (float_key y).
Proof.
  intros Hx Hy. rewrite <- (d_lt_key x y Hx Hy).
  destruct (d_lt x y); split; try done; intros E; exfalso; apply E; tauto.
Qed.

Lemma key_lt_trans_neg a b c : ~ key_lt b a -> ~ key_lt c b -> ~ key_lt c a.
Proof.
  destruct a as [[a1 a2] a3], b as [[b1 b2] b3], c as [[c1 c2] c3].
  unfold key_lt. lia.
Qed.

Lemma key_lt_asym a b : key_lt a b -> ~ key_lt b a.
Proof.
  destruct a as [[a1 a2] a3], b as [[b1 b2] b3]. unfold key_lt. lia.
Qed.

(** ** Insertion sort meets the contract of [qsort] *)

Lemma isort_insert_perm {A} (cmp : A -> A -> Z) x l :
  isort_insert cmp x l ≡ₚ x :: l.
Proof.
  induction l as [|y l IH]; simpl; [done|].
  destruct (cmp x y <=? 0); [done|].
  rewrite IH. apply Permutation_swap.
Qed.

Lemma isort_perm {A} (cmp : A -> A -> Z) l : isort cmp l ≡ₚ l.
Proof.
  induction l as [|x l IH]; simpl; [done|].
  by rewrite isort_insert_perm, IH.
Qed.

Lemma isort_length {A} (cmp : A -> A -> Z) l : length (isort cmp l) = length l.
Proof. apply Permutation_length, isort_perm. Qed.

Lemma cmp_consistent_cons {A} (cmp : A -> A -> Z) x l :
  cmp_consistent cmp (x :: l) -> cmp_consistent cmp l.
Proof.
  intros [Hsym Htr]. split.
  - intros a b Ha Hb. apply Hsym; by apply list_elem_of_further.
  - intros a b c Ha Hb Hc. apply Htr; by apply list_elem_of_further.
Qed.

Lemma cmp_consistent_perm {A} (cmp : A -> A -> Z) l l' :
  l ≡ₚ l' -> cmp_consistent cmp l -> cmp_consistent cmp l'.
Proof.
  intros Hp [Hsym Htr]. split.
  - intros a b Ha Hb. apply Hsym; by rewrite Hp.
  - intros a b c Ha Hb Hc. apply Htr; by rewrite Hp.
Qed.

Lemma isort_insert_sorted {A} (cmp : A -> A -> Z) x l :
  cmp_consistent cmp (x :: l) ->
  StronglySorted (fun a b => cmp a b <= 0) l ->
  StronglySorted (fun a b => cmp a b <= 0) (isort_insert cmp x l).
Proof.
  intros Hc Hs. induction Hs as [|y l Hs IH Hy]; simpl.
  - repeat constructor.
  - destruct (Z.leb_spec (cmp x y) 0) as [Hle|Hgt].
    + constructor; [by constructor|]. constructor; [done|].
      rewrite Forall_forall in Hy |- *. intros z Hz.
      destruct Hc as [_ Htr]. apply (Htr x y z).
      * apply list_elem_of_here.
      * apply list_elem_of_further, list_elem_of_here.
      * by do 2 apply list_elem_of_further.
      * done.
      * by apply Hy.
    + constructor.
      * apply IH. eapply cmp_consistent_perm, cmp_consistent_cons;
          [|eapply cmp_consistent_perm; [apply Permutation_swap|apply Hc]].
        done.
      * rewrite Forall_forall in Hy |- *. intros z Hz.
        rewrite isort_insert_perm in Hz.
        apply elem_of_cons in Hz as [->|Hz]; [|by apply Hy].
        destruct Hc as [Hsym _].
        assert (Z.sgn (cmp x y) = - Z.sgn (cmp y x)) as E.
        { apply Hsym; [apply list_elem_of_here|].
          apply list_elem_of_further, list_elem_of_here. }
        lia.
Qed.

Lemma isort_sorted {A} (cmp : A -> A -> Z) l :
  cmp_consistent cmp l ->
  StronglySorted (fun a b => cmp a b <= 0) (isort cmp l).
Proof.
  induction l as [|x l IH]; intros Hc; simpl; [constructor|].
  apply isort_insert_sorted.
  - eapply cmp_consistent_perm; [|apply Hc].
    constructor. symmetry. apply isort_perm.
  - apply IH. by eapply cmp_consistent_cons.
Qed.

Definition isort_qsort : libc_qsort :=
  {| qsort := @isort;
     qsort_length := @isort_length;
     qsort_perm := fun A cmp l _ => isort_perm cmp l;
     qsort_sorted := @isort_sorted |}.

(** ** tree_sequence_set_mutations *)

Section set_mutations.
Context `{msprime_h} `{heap} `{libc_qsort}.

Lemma set_mutations_check_false self ms :
  set_mutations_check self ms = false <->
  Exists (fun m => mutation_rejected self m = true) ms.
Proof.
  induction ms as [|m ms IH]; simpl.
  - split; [discriminate | intros E; inversion E].
  - destruct (mutation_rejected self m) eqn:E.
    + split; [intros _; by left | done].
    + rewrite IH. split; [by right|].
      intros Hx; inversion Hx; subst; [congruence | done].
Qed.

Lemma cmp_mutation_consistent ms :
  Forall (fun m => is_nan (position m) = false) ms ->
  cmp_consistent cmp_mutation_pointer ms.
Proof.
  rewrite Forall_forall. intros Hn. split.
  - intros a b _ _. unfold cmp_mutation_pointer, cmp_mutation.
    rewrite !d_gt_lt.
    destruct (d_lt (position a) (position b)),
      (d_lt (position b) (position a)); reflexivity.
  - intros a b c Ha Hb Hc.
    unfold cmp_mutation_pointer, cmp_mutation. rewrite !d_gt_lt.
    pose proof (Hn a Ha) as Na. pose proof (Hn b Hb) as Nb.
    pose proof (Hn c Hc) as Nc.
    destruct (d_lt (position b) (position a)) eqn:Eba.
    { destruct (d_lt (position a) (position b)) eqn:Eab;
        unfold b2z; [|lia].
      apply d_lt_key in Eba, Eab; try done.
      by apply key_lt_asym in Eba. }
    destruct (d_lt (position c) (position b)) eqn:Ecb.
    { destruct (d_lt (position b) (position c)) eqn:Ebc;
        unfold b2z; [|lia].
      apply d_lt_key in Ecb, Ebc; try done.
      by apply key_lt_asym in Ecb. }
    intros _ _.
    apply d_lt_false_key in Eba, Ecb; try done.
    pose proof (key_lt_trans_neg _ _ _ Eba Ecb) as Eca.
    apply d_lt_false_key in Eca; try done. rewrite Eca.
    destruct (d_lt (position a) (position c)); unfold b2z; lia.
Qed.

Lemma stored_mutations_map n self l :
  stored_mutations
    (with_mutations self n (map node l) (map position l)) = l.
Proof.
  unfold stored_mutations; simpl. induction l as [|[p u] l IH]; simpl;
    [done | by rewrite IH].
Qed.

Lemma d_lt_not_nan a b :
  d_lt a b = true -> is_nan a = false /\ is_nan b = false.
Proof. unfold d_lt, SFltb. by destruct a, b. Qed.

Lemma d_lt_asym a b : d_lt a b = true -> d_lt b a = false.
Proof.
  intros E. destruct (d_lt_not_nan _ _ E) as [Na Nb].
  apply d_lt_false_key; try done. apply key_lt_asym.
  by apply d_lt_key.
Qed.

Lemma cmp_mutation_le a b :
  cmp_mutation_pointer a b <= 0 -> d_lt (position b) (position a) = false.
Proof.
  unfold cmp_mutation_pointer, cmp_mutation. rewrite d_gt_lt.
  destruct (d_lt (position b) (position a)) eqn:E; [|done].
  rewrite (d_lt_asym _ _ E). unfold b2z. lia.
Qed.

Lemma StronglySorted_weaken {A} (R S : A -> A -> Prop) l :
  (forall a b, R a b -> S a b) -> StronglySorted R l -> StronglySorted S l.
Proof.
  intros HRS. induction 1 as [|x l Hs IH Hx]; constructor; [done|].
  eapply Forall_impl; [apply Hx | apply HRS].
Qed.

Lemma set_mutations_check_ext self self' ms :
  num_loci self = num_loci self' -> num_nodes self = num_nodes self' ->
  set_mutations_check self ms = set_mutations_check self' ms.
Proof.
  intros E1 E2. induction ms as [|m ms IH]; simpl; [done|].
  unfold mutation_rejected. by rewrite E1, E2, IH.
Qed.

Lemma set_mutations_check_alloc self n a b ms :
  set_mutations_check (with_mutations (clear_mutations self) n a b) ms =
  set_mutations_check self ms.
Proof. by apply set_mutations_check_ext. Qed.

Lemma set_mutations_status self ms :
  fst (tree_sequence_set_mutations self ms) =
    if set_mutations_check self ms then 0 else MSP_ERR_BAD_MUTATION.
Proof.
  unfold tree_sequence_set_mutations.
  destruct (Z.ltb_spec 0 (Z.of_nat (length ms))) as [Hn|Hn].
  - rewrite set_mutations_check_alloc.
    by destruct (set_mutations_check self ms).
  - destruct ms; [done | simpl in Hn; lia].
Qed.

Lemma mutation_rejected_iff self m :
  mutation_rejected self m = true <->
  d_lt (position m) d_zero = true \/
  d_gt (position m) (d_of_u32 (num_loci self)) = true \/
  node m = 0 \/ num_nodes self < node m.
Proof.
  unfold mutation_rejected.
  rewrite !orb_true_iff, Z.eqb_eq, Z.ltb_lt. tauto.
Qed.

(** C6 (as amended): [tree_sequence_set_mutations] returns the bad-mutation
    error exactly when some supplied mutation has a position below 0 or
    above [num_loci], or node 0, or a node above [num_nodes]; when every
    mutation is valid it returns 0 and stores as many mutations as were
    supplied, and when moreover no position is a NaN the stored columns
    hold the supplied mutations ordered by ascending position. *)
Theorem set_mutations_validates_and_sorts self ms :
  MSP_ERR_BAD_MUTATION <> 0 ->
  let invalid m :=
    d_lt (position m) d_zero = true \/
    d_gt (position m) (d_of_u32 (num_loci self)) = true \/
    node m = 0 \/ num_nodes self < node m in
  let ret := fst (tree_sequence_set_mutations self ms) in
  let self' := snd (tree_sequence_set_mutations self ms) in
  (ret = MSP_ERR_BAD_MUTATION <-> Exists invalid ms) /\
  (Forall (fun m => ~ invalid m) ms ->
     ret = 0 /\
     num_mutations self' = Z.of_nat (length ms) /\
     (Forall (fun m => is_nan (position m) = false) ms ->
        stored_mutations self' ≡ₚ ms /\
        StronglySorted
          (fun a b => d_lt (position b) (position a) = false)
          (stored_mutations self'))).
Proof.
  intros Hbad invalid ret self'. subst ret self'.
  rewrite set_mutations_status. split.
  - destruct (set_mutations_check self ms) eqn:E.
    + split; [intros E0; by symmetry in E0|].
      intros Hex. apply Exists_exists in Hex as (m & Hm & Hi).
      assert (set_mutations_check self ms = false) as E'; [|congruence].
      apply set_mutations_check_false, Exists_exists.
      exists m. split; [done|]. by apply mutation_rejected_iff.
    + split; [intros _|done].
      apply set_mutations_check_false in E.
      eapply Exists_impl; [apply E|].
      intros m Hm. by apply mutation_rejected_iff.
  - intros Hall.
    assert (set_mutations_check self ms = true) as E.
    { destruct (set_mutations_check self ms) eqn:E; [done|].
      apply set_mutations_check_false, Exists_exists in E as (m & Hm & Hr).
      rewrite Forall_forall in Hall. destruct (Hall m Hm).
      by apply mutation_rejected_iff. }
    rewrite E. split; [done|].
    unfold tree_sequence_set_mutations.
    destruct (Z.ltb_spec 0 (Z.of_nat (length ms))) as [Hn|Hn].
    + rewrite set_mutations_check_alloc.
      rewrite E. cbn [fst snd]. split; [done|]. intros Hnan.
      rewrite stored_mutations_map. split.
      * apply qsort_perm. by apply cmp_mutation_consistent.
      * eapply StronglySorted_weaken; [apply cmp_mutation_le|].
        apply qsort_sorted. by apply cmp_mutation_consistent.
    + destruct ms; [|simpl in Hn; lia]. simpl. split; [done|].
      intros _. split; [done | constructor].
Qed.

(** C9: [tree_sequence_set_mutations] is not atomic.  After a call that
    returns the bad-mutation error the tree sequence holds no mutation and
    no mutation metadata: whatever it stored before the call is gone. *)
Theorem set_mutations_failure_drops_previous self ms :
  MSP_ERR_BAD_MUTATION <> 0 ->
  fst (tree_sequence_set_mutations self ms) = MSP_ERR_BAD_MUTATION ->
  let self' := snd (tree_sequence_set_mutations self ms) in
  num_mutations self' = 0 /\
  tree_sequence_get_mutations self' = Some (0, []) /\
  mutations_parameters self' = None /\
  mutations_environment self' = None /\
  (0 < num_mutations self ->
   tree_sequence_get_mutations self' <> tree_sequence_get_mutations self).
Proof.
  intros Hbad Hret self'. subst self'.
  rewrite set_mutations_status in Hret.
  destruct (set_mutations_check self ms) eqn:E; [by symmetry in Hret|].
  unfold tree_sequence_set_mutations.
  destruct (Z.ltb_spec 0 (Z.of_nat (length ms))) as [Hn|Hn].
  - rewrite set_mutations_check_alloc.
    rewrite E. simpl. repeat split; try done.
    intros Hpos. unfold tree_sequence_get_mutations; simpl.
    destruct (Z.to_nat (num_mutations self)) as [|k] eqn:Ek; [lia|].
    simpl.
    destruct (rd (mutations_position self) 0); [|done]. simpl.
    destruct (rd (mutations_node self) 0); [|done]. simpl.
    destruct (get_mutations_loop self (0 + 1) k); [|done]. done.
  - destruct ms; [done | simpl in Hn; lia].
Qed.

End set_mutations.

(** The two statements at work: a call that sorts two mutations, and a call
    that fails on node 0 and loses the mutation of [example_ts]. *)
Lemma set_mutations_validates_and_sorts_witness :
  let ms := [ {| position := d_of_u32 7; node := 4 |};
              {| position := d_of_u32 2; node := 5 |} ] in
  let r := tree_sequence_set_mutations (H := sample_msprime_h)
             (H0 := zero_heap) (H1 := isort_qsort) example_ts ms in
  fst r = 0 /\
  stored_mutations (snd r) =
    [ {| position := d_of_u32 2; node := 5 |};
      {| position := d_of_u32 7; node := 4 |} ] /\
  ((fst r = -17 <->
      Exists (fun m => d_lt (position m) d_zero = true \/
                       d_gt (position m) (d_of_u32 10) = true \/
                       node m = 0 \/ 6 < node m) ms) /\
   (Forall (fun m => ~ (d_lt (position m) d_zero = true \/
                       d_gt (position m) (d_of_u32 10) = true \/
                       node m = 0 \/ 6 < node m)) ms ->
      fst r = 0 /\
      num_mutations (snd r) = 2 /\
      (Forall (fun m => is_nan (position m) = false) ms ->
         stored_mutations (snd r) ≡ₚ ms /\
         StronglySorted (fun a b => d_lt (position b) (position a) = false)
           (stored_mutations (snd r))))).
Proof.
  split; [reflexivity|]. split; [reflexivity|].
  apply (@set_mutations_validates_and_sorts sample_msprime_h zero_heap
           isort_qsort example_ts).
  discriminate.
Defined.

(** C6 as it is worded fails on [nan_mutations]: a NaN is neither below 0
    nor above [num_loci], so the three mutations are valid and the call
    returns 0; [cmp_mutation] finds the NaN equal to both other positions,
    and insertion sort, like any sort that trusts the comparison, leaves
    position 2 before position 1. *)
Lemma set_mutations_validates_and_sorts_counterexample :
  let r := tree_sequence_set_mutations (H := sample_msprime_h)
             (H0 := zero_heap) (H1 := isort_qsort) example_ts nan_mutations in
  Forall (fun m => ~ (d_lt (position m) d_zero = true \/
                      d_gt (position m) (d_of_u32 (num_loci example_ts))
                        = true \/
                      node m = 0 \/ num_nodes example_ts < node m))
    nan_mutations /\
  fst r = 0 /\
  stored_mutations (snd r) = nan_mutations /\
  ~ StronglySorted (fun a b => d_lt (position b) (position a) = false)
      (stored_mutations (snd r)).
Proof.
  split.
  { repeat constructor; vm_compute; intros [?|[?|[?|?]]]; congruence. }
  split; [reflexivity|]. split; [reflexivity|].
  intros Hs. change (stored_mutations _) with nan_mutations in Hs.
  inversion Hs as [|? ? _ Hall]; subst.
  inversion Hall as [|? ? _ Hall']; subst.
  inversion Hall' as [|? ? Hlt _]; subst.
  vm_compute in Hlt. congruence.
Defined.

Lemma set_mutations_failure_drops_previous_witness :
  let ms := [ {| position := d_of_u32 2; node := 0 |} ] in
  let r := tree_sequence_set_mutations (H := sample_msprime_h)
             (H0 := zero_heap) (H1 := isort_qsort) example_ts ms in
  tree_sequence_get_mutations example_ts =
    Some (0, [ {| position := d_of_u32 7; node := 4 |} ]) /\
  fst r = -17 /\
  (num_mutations (snd r) = 0 /\
   tree_sequence_get_mutations (snd r) = Some (0, []) /\
   mutations_parameters (snd r) = None /\
   mutations_environment (snd r) = None /\
   (0 < num_mutations example_ts ->
    tree_sequence_get_mutations (snd r) <>
    tree_sequence_get_mutations example_ts)).
Proof.
  split; [reflexivity|]. split; [reflexivity|].
  apply (@set_mutations_failure_drops_previous sample_msprime_h zero_heap
           isort_qsort example_ts).
  - discriminate.
  - reflexivity.
Defined.

(** ** Arrays *)

Lemma to_int32_small z : z < 2 ^ 31 -> to_int32 z = z.
Proof. intros Hz. unfold to_int32. by destruct (Z.ltb_spec z (2 ^ 31)); [|lia]. Qed.

Lemma rd_lookup {A} (a : list A) (i : Z) :
  0 <= i -> rd a i = a !! Z.to_nat i.
Proof. intros Hi. unfold rd. by destruct (Z.leb_spec 0 i); [|lia]. Qed.

Lemma rd_Some_range {A} (a : list A) i v :
  rd a i = Some v -> 0 <= i < Z.of_nat (length a).
Proof.
  unfold rd. destruct (Z.leb_spec 0 i); [|done].
  intros E. apply lookup_lt_Some in E. lia.
Qed.

Lemma rd_in_range {A} (a : list A) i :
  0 <= i < Z.of_nat (length a) -> exists v, rd a i = Some v.
Proof.
  intros Hi. rewrite rd_lookup by lia.
  destruct (lookup_lt_is_Some_2 a (Z.to_nat i)) as [v Hv]; [lia|]. by exists v.
Qed.

Lemma wr_in_range {A} (a : list A) i v :
  0 <= i < Z.of_nat (length a) -> wr a i v = Some (<[Z.to_nat i := v]> a).
Proof.
  intros Hi. unfold wr.
  destruct (Z.leb_spec 0 i); [|lia].
  by destruct (Z.ltb_spec i (Z.of_nat (length a))); [|lia].
Qed.

Lemma wr_Some {A} (a a' : list A) i v :
  wr a i v = Some a' ->
  0 <= i < Z.of_nat (length a) /\ a' = <[Z.to_nat i := v]> a.
Proof.
  unfold wr. destruct (Z.leb_spec 0 i); [|done].
  destruct (Z.ltb_spec i (Z.of_nat (length a))); [|done].
  simpl. intros [= <-]. split; [lia | done].
Qed.

Lemma wr_length {A} (a a' : list A) i v :
  wr a i v = Some a' -> length a' = length a.
Proof. intros E. apply wr_Some in E as [_ ->]. apply length_insert. Qed.

Lemma rd_wr_same {A} (a a' : list A) i v :
  wr a i v = Some a' -> rd a' i = Some v.
Proof.
  intros E. apply wr_Some in E as [Hi ->]. rewrite rd_lookup by lia.
  apply list_lookup_insert_eq. lia.
Qed.

Lemma rd_wr_other {A} (a a' : list A) i j v :
  wr a i v = Some a' -> j <> i -> rd a' j = rd a j.
Proof.
  intros E Hne. apply wr_Some in E as [Hi ->]. unfold rd.
  destruct (Z.leb_spec 0 j); [|done].
  apply list_lookup_insert_ne. lia.
Qed.

(** ** hapgen_get_haplotype *)

Section hapgen.

Lemma land_shiftr_1 w k :
  0 <= k -> (Z.land (Z.shiftr w k) 1 =? 0) = negb (Z.testbit w k).
Proof.
  intros Hk. change 1 with (Z.ones 1) at 1. rewrite Z.land_ones by lia.
  change (2 ^ 1) with 2. rewrite <- Z.bit0_mod, Z.shiftr_spec by lia.
  rewrite Z.add_0_l. by destruct (Z.testbit w k).
Qed.

Lemma get_haplotype_bits_spec self row j word n :
  forall k buf l,
  rd (haplotype_matrix self) (row * words_per_row self + j) = Some word ->
  0 <= j -> 0 <= k -> k + Z.of_nat n = 64 -> l = 64 * j + k ->
  l + Z.of_nat n <= Z.of_nat (length (haplotype self)) ->
  row_written self row buf l ->
  exists buf',
    get_haplotype_bits word k n buf l = Some (buf', l + Z.of_nat n) /\
    row_written self row buf' (l + Z.of_nat n).
Proof.
  induction n as [|n IH]; intros k buf l Hw Hj Hk Hkn Hl Hlen Hrow.
  - exists buf. simpl. rewrite Z.add_0_r. done.
  - simpl. destruct Hrow as [Hlb Hrow].
    rewrite wr_in_range by lia. simpl.
    rewrite Hl in *. clear Hl. set (l' := 64 * j + k) in *.
    set (c := if Z.land (Z.shiftr word k) 1 =? 0 then "0"%char else "1"%char).
    assert (row_written self row (<[Z.to_nat l' := c]> buf) (l' + 1)) as Hrow1.
    { split; [by rewrite length_insert|].
      intros p Hp. destruct (decide (p = l')) as [->|Hne].
      - rewrite rd_lookup by lia. rewrite list_lookup_insert_eq by lia.
        f_equal. unfold c, bit_char, hapgen_bit, HG_WORD_SIZE, l'.
        replace ((64 * j + k) / 64) with j
          by (apply Z.div_unique with k; lia).
        replace ((64 * j + k) mod 64) with k
          by (apply Z.mod_unique with j; lia).
        rewrite Hw, land_shiftr_1 by lia. by destruct (Z.testbit word k).
      - unfold rd. destruct (Z.leb_spec 0 p); [|lia].
        rewrite list_lookup_insert_ne by lia.
        rewrite <- rd_lookup by lia. apply Hrow. lia. }
    destruct (IH (k + 1) (<[Z.to_nat l' := c]> buf) (l' + 1) Hw Hj
                ltac:(lia) ltac:(lia) ltac:(unfold l'; lia) ltac:(lia) Hrow1)
      as (buf' & E & Hrow').
    exists buf'.
    replace (l' + Z.of_nat (S n)) with (l' + 1 + Z.of_nat n) by lia. done.
Qed.

Lemma get_haplotype_words_step self row j n buf l :
  get_haplotype_words self row j (S n) buf l =
  (word ← rd (haplotype_matrix self) (row * words_per_row self + j);
   r ← get_haplotype_bits word 0 (Z.to_nat HG_WORD_SIZE) buf l;
   get_haplotype_words self row (j + 1) n r.1 r.2).
Proof. reflexivity. Qed.

Lemma get_haplotype_words_spec self row n :
  forall j buf l,
  hapgen_allocated self -> 0 <= row < hg_sample_size self ->
  0 <= j -> j + Z.of_nat n = words_per_row self -> l = 64 * j ->
  row_written self row buf l ->
  exists buf',
    get_haplotype_words self row j n buf l =
      Some (buf', 64 * words_per_row self) /\
    row_written self row buf' (64 * words_per_row self).
Proof.
  induction n as [|n IH]; intros j buf l Hal Hr Hj Hjn Hl Hrow.
  - exists buf. subst l.
    assert (j = words_per_row self) as -> by lia. done.
  - rewrite get_haplotype_words_step.
    pose proof Hal as (Hs & Hm & Hwpr & Hlm & Hlh).
    unfold HG_WORD_SIZE in Hlh.
    destruct (rd_in_range (haplotype_matrix self)
                (row * words_per_row self + j)) as [word Hw]; [nia|].
    rewrite Hw.
    destruct (get_haplotype_bits_spec self row j word
                (Z.to_nat HG_WORD_SIZE) 0 buf l Hw Hj)
      as (buf1 & E & Hrow1).
    + lia.
    + reflexivity.
    + lia.
    + change (Z.of_nat (Z.to_nat HG_WORD_SIZE)) with 64. lia.
    + done.
    + change (Z.of_nat (Z.to_nat HG_WORD_SIZE)) with 64 in *.
      cbn [mbind option_bind]. rewrite E. cbn [mbind option_bind fst snd].
      apply IH.
      * done.
      * done.
      * lia.
      * lia.
      * lia.
      * done.
Qed.

Lemma c_string_take (n : nat) :
  forall buf : list ascii,
  (forall p, (p < n)%nat -> exists c, buf !! p = Some c /\ c <> zero) ->
  buf !! n = Some zero ->
  c_string buf = Some (take n buf).
Proof.
  induction n as [|n IH]; intros buf Hp Hn.
  - destruct buf as [|c rest]; [done|]. simpl in Hn. injection Hn as ->.
    done.
  - destruct buf as [|c rest]; [done|]. simpl.
    destruct (Hp 0%nat) as (c' & Hc & Hne); [lia|]. simpl in Hc.
    injection Hc as <-.
    destruct (Ascii.eqb_spec c zero) as [->|_]; [done|].
    rewrite (IH rest); [done| |done].
    intros p Hlt. apply (Hp (S p)). lia.
Qed.

(** C10: [hapgen_get_haplotype] returns the out-of-bounds error exactly when
    [sample_id] is 0 or exceeds the sample size; otherwise it returns 0 and
    its buffer starts with a NUL-terminated string of [num_mutations]
    characters, character [s] being '1' when bit [(sample_id - 1, s)] of the
    matrix is set and '0' when it is not. *)
Theorem hapgen_get_haplotype_spec self sample_id :
  hapgen_allocated self -> 0 <= sample_id ->
  exists ret self',
    hapgen_get_haplotype self sample_id = Some (ret, self') /\
    (ret = MSP_ERR_OUT_OF_BOUNDS <->
       sample_id = 0 \/ hg_sample_size self < sample_id) /\
    (ret <> MSP_ERR_OUT_OF_BOUNDS ->
       ret = 0 /\
       exists str,
         c_string (haplotype self') = Some str /\
         Z.of_nat (length str) = hg_num_mutations self /\
         forall s, 0 <= s < hg_num_mutations self ->
           rd str s =
             Some (if hapgen_bit self (sample_id - 1) s
                   then "1"%char else "0"%char)).
Proof.
  intros Hal Hid. unfold hapgen_get_haplotype.
  destruct (Z.ltb_spec sample_id 1) as [H1|H1]; simpl.
  { exists MSP_ERR_OUT_OF_BOUNDS, self. split; [done|]. split; [|done].
    split; [intros _; left; lia | done]. }
  destruct (Z.ltb_spec (hg_sample_size self) sample_id) as [H2|H2]; simpl.
  { exists MSP_ERR_OUT_OF_BOUNDS, self. split; [done|]. split; [|done].
    split; [intros _; by right | done]. }
  pose proof Hal as (Hs & Hm & Hwpr & Hlm & Hlh).
  unfold HG_WORD_SIZE in *.
  assert (0 <= hg_num_mutations self / 64) as Hdiv
    by (apply Z.div_pos; lia).
  assert (hg_num_mutations self < 64 * words_per_row self) as Hlt.
  { pose proof (Z.mod_pos_bound (hg_num_mutations self) 64 ltac:(lia)).
    pose proof (Z.div_mod (hg_num_mutations self) 64 ltac:(lia)). lia. }
  destruct (get_haplotype_words_spec self (sample_id - 1)
              (Z.to_nat (words_per_row self)) 0 (haplotype self) 0)
    as (buf & E & Hlen & Hrow); try done; try lia.
  { split; [done|]. intros p Hp. lia. }
  rewrite E. simpl. rewrite wr_in_range by lia. simpl.
  eexists 0, _. split; [done|]. split.
  { split; [discriminate | lia]. }
  intros _. split; [done|]. simpl.
  set (n := Z.to_nat (hg_num_mutations self)).
  set (buf' := <[n := zero]> buf).
  assert (forall p, (p < n)%nat ->
            buf' !! p = Some (bit_char self (sample_id - 1) (Z.of_nat p)))
    as Hchars.
  { intros p Hp. unfold buf'. rewrite list_lookup_insert_ne by lia.
    rewrite <- (Nat2Z.id p) at 1. rewrite <- rd_lookup by lia.
    apply Hrow. lia. }
  exists (take n buf'). split; [|split].
  - apply c_string_take.
    + intros p Hp. eexists. split; [by apply Hchars|].
      unfold bit_char. by destruct (hapgen_bit _ _ _).
    + unfold buf'. apply list_lookup_insert_eq. lia.
  - rewrite length_take, Nat.min_l; [lia|].
    unfold buf'. rewrite length_insert. lia.
  - intros s Hs'. rewrite rd_lookup by lia.
    rewrite lookup_take_lt by lia. rewrite Hchars by lia.
    rewrite Z2Nat.id by lia. done.
Qed.

(** What [hapgen_set_bit] sets is the bit [hapgen_bit] reads, and no
    other. *)
Lemma hapgen_set_bit_spec self row column self' :
  0 <= row -> 0 <= column -> 0 < words_per_row self ->
  hapgen_set_bit self row column = Some (0, self') ->
  hapgen_bit self' row column = true /\
  forall r c, 0 <= r -> 0 <= c < 64 * words_per_row self ->
    (r, c) <> (row, column) -> hapgen_bit self' r c = hapgen_bit self r c.
Proof.
  intros Hr Hc Hwpr. unfold hapgen_set_bit, HG_WORD_SIZE.
  destruct (Z.ltb_spec (column / 64) (words_per_row self)) as [Hlt|]; [|done].
  destruct (rd _ _) as [w|] eqn:Ew; [|done]. simpl.
  destruct (wr _ _ _) as [m|] eqn:Em; [|done]. simpl.
  intros [= <-].
  pose proof (Z.mod_pos_bound column 64 ltac:(lia)) as Hb.
  assert (wrap64 (Z.shiftl 1 (column mod 64)) = 2 ^ (column mod 64)) as Ep.
  { unfold wrap64. rewrite Z.shiftl_1_l. apply Z.mod_small.
    split; [apply Z.pow_nonneg; lia|].
    apply Z.pow_lt_mono_r; lia. }
  rewrite Ep in Em. split.
  - unfold hapgen_bit, HG_WORD_SIZE; simpl.
    rewrite (rd_wr_same _ _ _ _ Em), Z.lor_spec, Z.pow2_bits_true by lia.
    apply orb_true_r.
  - intros r c Hr' Hc' Hne. unfold hapgen_bit, HG_WORD_SIZE; simpl.
    destruct (decide (r * words_per_row self + c / 64 =
                      row * words_per_row self + column / 64)) as [Ei|Ei].
    + rewrite Ei, (rd_wr_same _ _ _ _ Em), Ew, Z.lor_spec.
      assert (c / 64 < words_per_row self)
        by (apply Z.div_lt_upper_bound; lia).
      assert (0 <= c / 64) by (apply Z.div_pos; lia).
      assert (0 <= column / 64) by (apply Z.div_pos; lia).
      assert (r = row /\ c / 64 = column / 64) as [-> Ed].
      { apply (Z.div_mod_unique (words_per_row self)); [lia|lia|lia]. }
      rewrite Z.pow2_bits_false; [apply orb_false_r|].
      intros Em'. apply Hne. f_equal.
      rewrite (Z.div_mod c 64), (Z.div_mod column 64) by lia. lia.
    + by rewrite (rd_wr_other _ _ _ _ _ Em).
Qed.

End hapgen.

Lemma hapgen_get_haplotype_spec_witness :
  (fst <$> hapgen_get_haplotype example_hapgen 3) = Some 0 /\
  (c_string ∘ haplotype ∘ snd <$> hapgen_get_haplotype example_hapgen 3)
    = Some (Some ["1"%char; "1"%char]) /\
  exists ret self',
    hapgen_get_haplotype example_hapgen 3 = Some (ret, self') /\
    (ret = MSP_ERR_OUT_OF_BOUNDS <->
       3 = 0 \/ hg_sample_size example_hapgen < 3) /\
    (ret <> MSP_ERR_OUT_OF_BOUNDS ->
       ret = 0 /\
       exists str,
         c_string (haplotype self') = Some str /\
         Z.of_nat (length str) = hg_num_mutations example_hapgen /\
         forall s, 0 <= s < hg_num_mutations example_hapgen ->
           rd str s =
             Some (if hapgen_bit example_hapgen (3 - 1) s
                   then "1"%char else "0"%char)).
Proof.
  split; [reflexivity|]. split; [reflexivity|].
  apply hapgen_get_haplotype_spec.
  - unfold hapgen_allocated. simpl. repeat split; lia.
  - lia.
Defined.

(** ** tree_file_open *)

Section tree_file.
Context (host : byte_order).

Lemma take_drop_take {A} (w i n : nat) (l : list A) :
  (i + w <= n)%nat -> take w (drop i (take n l)) = take w (drop i l).
Proof.
  intros Hle. apply list_eq. intros k.
  destruct (decide (k < w)%nat) as [Hk|Hk].
  - rewrite !lookup_take_lt, !lookup_drop by lia.
    rewrite lookup_take_lt by lia. done.
  - rewrite !lookup_take_ge by lia. done.
Qed.

Lemma fread_header_words (bytes : list byte) :
  28 <= Z.of_nat (length bytes) ->
  fread 20 {| f_bytes := bytes; f_pos := 0 |} =
    (1, take 20 bytes, {| f_bytes := bytes; f_pos := 20 |}) /\
  fread 8 {| f_bytes := bytes; f_pos := 20 |} =
    (1, take 8 (drop 20 bytes), {| f_bytes := bytes; f_pos := 28 |}).
Proof.
  intros Hlen. unfold fread; cbn [f_bytes f_pos].
  change (0 + 20) with 20. change (20 + 8) with 28.
  destruct (Z.leb_spec 20 (Z.of_nat (length bytes))); [|lia].
  destruct (Z.leb_spec 28 (Z.of_nat (length bytes))); [|lia].
  split; reflexivity.
Qed.

Lemma tree_file_read_info_header self bytes :
  28 <= Z.of_nat (length bytes) ->
  let r := tree_file_read_info host self {| f_bytes := bytes; f_pos := 0 |} in
  (header_magic host bytes <> MSP_TREE_FILE_MAGIC ->
     fst r = MSP_ERR_FILE_FORMAT) /\
  (header_magic host bytes = MSP_TREE_FILE_MAGIC ->
   header_version host bytes <> MSP_TREE_FILE_VERSION ->
     fst r = MSP_ERR_FILE_VERSION) /\
  (fst r = 0 ->
     header_magic host bytes = MSP_TREE_FILE_MAGIC /\
     header_version host bytes = MSP_TREE_FILE_VERSION /\
     tf_sample_size (snd r) = header_sample_size host bytes /\
     tf_num_loci (snd r) = header_num_loci host bytes /\
     tf_flags (snd r) = header_flags host bytes /\
     tf_metadata_offset (snd r) = header_metadata_offset host bytes /\
     tf_coalescence_record_offset (snd r) = 28 /\
     is_Some (tf_file (snd r))).
Proof.
  intros Hlen r. subst r. unfold tree_file_read_info.
  destruct (fread_header_words bytes Hlen) as [-> ->].
  change (negb (1 =? 1)) with false. cbv iota.
  unfold word_at. simpl Nat.mul.
  rewrite !take_drop_take by lia. rewrite !drop_0.
  fold (header_magic host bytes). fold (header_version host bytes).
  fold (header_sample_size host bytes). fold (header_num_loci host bytes).
  fold (header_flags host bytes).
  replace (take 8 (take 8 (drop 20 bytes))) with (take 8 (drop 20 bytes))
    by (by rewrite take_take).
  fold (header_metadata_offset host bytes).
  destruct (Z.eqb_spec (header_magic host bytes) MSP_TREE_FILE_MAGIC)
    as [Em|Em]; simpl negb; cbv iota.
  2: { cbn [fst snd]. split; [done|]. split; [done|]. discriminate. }
  destruct (Z.eqb_spec (header_version host bytes) MSP_TREE_FILE_VERSION)
    as [Ev|Ev]; simpl negb; cbv iota.
  2: { cbn [fst snd]. split; [done|]. split; [done|]. discriminate. }
  split; [done|]. split; [done|].
  unfold fseek_end, fseek_set. cbn [f_bytes f_pos ftell].
  destruct (to_long _ <? 0); simpl negb; cbv iota.
  { cbn [fst snd]. discriminate. }
  destruct (fread _ _) as [[n5 metadata] f5].
  destruct (negb (n5 =? 1)); cbn [fst snd]; [discriminate|].
  intros _. cbn. repeat split; done.
Qed.

(** C8: when a legacy tree file is opened for reading or updating, its
    28-byte header is decoded as magic, version, sample_size, num_loci,
    flags (32 bits each) and metadata_offset (64 bits); a magic word other
    than 0xa52cd4a4 makes the open fail with the file-format error, and a
    version other than 1 makes it fail with the file-version error (the
    magic word, which is checked first, being right). *)
Theorem tree_file_open_reads_header fs filename mode bytes :
  mode = "r"%char \/ mode = "u"%char ->
  fs !! filename = Some bytes ->
  28 <= Z.of_nat (length bytes) ->
  let ret := fst (tree_file_open host fs filename mode) in
  let self := snd (tree_file_open host fs filename mode) in
  (header_magic host bytes <> 0xa52cd4a4 -> ret = MSP_ERR_FILE_FORMAT) /\
  (header_magic host bytes = 0xa52cd4a4 -> header_version host bytes <> 1 ->
     ret = MSP_ERR_FILE_VERSION) /\
  (ret = 0 ->
     header_magic host bytes = 0xa52cd4a4 /\
     header_version host bytes = 1 /\
     tf_sample_size self = header_sample_size host bytes /\
     tf_num_loci self = header_num_loci host bytes /\
     tf_flags self = header_flags host bytes /\
     tf_metadata_offset self = header_metadata_offset host bytes).
Proof.
  intros Hmode Hfs Hlen ret self. subst ret self.
  unfold tree_file_open.
  set (self0 := {| tf_filename := Some filename; tf_mode := mode;
                   tf_file := None; tf_sample_size := 0; tf_num_loci := 0;
                   tf_flags := 0; tf_metadata_offset := 0;
                   tf_coalescence_record_offset := 0;
                   tf_metadata := None |}).
  destruct Hmode as [-> | ->]; simpl Ascii.eqb; cbv iota.
  - unfold tree_file_open_read_mode, fopen_existing. rewrite Hfs.
    cbn [mbind option_bind].
    pose proof (tree_file_read_info_header
                  (tf_with_file self0
                     (Some {| f_bytes := bytes; f_pos := 0 |})) bytes Hlen)
      as (Hm & Hv & Hok).
    destruct (tree_file_read_info host _ _) as [ret self1].
    cbn [fst snd] in *.
    destruct (Z.eqb_spec ret 0) as [->|Hne]; simpl negb; cbv iota.
    + destruct (Hok eq_refl) as (Em & Ev & E1 & E2 & E3 & E4 & E5 & [f1 Ef]).
      rewrite Ef, E5. unfold fseek_set.
      change (28 <? 0) with false. cbv iota. simpl negb. cbv iota.
      cbn [fst snd]. split; [done|]. split; [done|]. done.
    + cbn [fst snd]. split; [done|]. split; [done|]. done.
  - unfold tree_file_open_update_mode, fopen_existing. rewrite Hfs.
    cbn [mbind option_bind].
    pose proof (tree_file_read_info_header
                  (tf_with_file self0
                     (Some {| f_bytes := bytes; f_pos := 0 |})) bytes Hlen)
      as (Hm & Hv & Hok).
    destruct (tree_file_read_info host _ _) as [ret self1].
    cbn [fst snd] in *.
    split; [done|]. split; [done|].
    intros E. destruct (Hok E) as (Em & Ev & E1 & E2 & E3 & E4 & _). done.
Qed.

(** A file too short to hold a header: the open fails with the I/O error
    before it looks at a magic word or a version. *)
Lemma tree_file_open_short_file (fs : filesystem) filename mode bytes :
  mode = "r"%char \/ mode = "u"%char ->
  fs !! filename = Some bytes ->
  Z.of_nat (length bytes) < 28 ->
  fst (tree_file_open host fs filename mode) = MSP_ERR_IO.
Proof.
  intros Hmode Hfs Hlen.
  assert (forall self,
            fst (tree_file_read_info host self
                   {| f_bytes := bytes; f_pos := 0 |}) = MSP_ERR_IO)
    as Hinfo.
  { intros self. unfold tree_file_read_info, fread. cbn [f_bytes f_pos].
    change (0 <? 20) with true. change (0 + 20) with 20. cbn [andb].
    destruct (Z.leb_spec 20 (Z.of_nat (length bytes))); [|done].
    change (negb (1 =? 1)) with false. cbv iota. cbn [f_bytes f_pos].
    change (0 <? 8) with true. change (20 + 8) with 28. cbn [andb].
    destruct (Z.leb_spec 28 (Z.of_nat (length bytes))); [lia|]. done. }
  unfold tree_file_open.
  destruct Hmode as [-> | ->]; simpl Ascii.eqb; cbv iota.
  - unfold tree_file_open_read_mode, fopen_existing. rewrite Hfs.
    cbn [mbind option_bind].
    match goal with
    | |- context [tree_file_read_info host ?s ?f] =>
        pose proof (Hinfo s) as E;
        destruct (tree_file_read_info host s f) as [ret self1]
    end.
    cbn [fst] in E. subst ret. done.
  - unfold tree_file_open_update_mode, fopen_existing. rewrite Hfs.
    cbn [mbind option_bind]. apply Hinfo.
Qed.

End tree_file.

(** The header of [example_tree_file] as a little-endian host reads it. *)
Lemma tree_file_open_reads_header_witness :
  let fs : filesystem := {[ "sim.dat"%string := example_tree_file ]} in
  let r := tree_file_open LittleEndian fs "sim.dat" "r" in
  fst r = 0 /\
  (tf_sample_size (snd r), tf_num_loci (snd r), tf_flags (snd r),
   tf_metadata_offset (snd r)) = (3, 10, 3, 48) /\
  ((header_magic LittleEndian example_tree_file <> 0xa52cd4a4 ->
      fst r = MSP_ERR_FILE_FORMAT) /\
   (header_magic LittleEndian example_tree_file = 0xa52cd4a4 ->
    header_version LittleEndian example_tree_file <> 1 ->
      fst r = MSP_ERR_FILE_VERSION) /\
   (fst r = 0 ->
      header_magic LittleEndian example_tree_file = 0xa52cd4a4 /\
      header_version LittleEndian example_tree_file = 1 /\
      tf_sample_size (snd r) =
        header_sample_size LittleEndian example_tree_file /\
      tf_num_loci (snd r) = header_num_loci LittleEndian example_tree_file /\
      tf_flags (snd r) = header_flags LittleEndian example_tree_file /\
      tf_metadata_offset (snd r) =
        header_metadata_offset LittleEndian example_tree_file)).
Proof.
  split; [vm_compute; reflexivity|]. split; [vm_compute; reflexivity|].
  apply (tree_file_open_reads_header LittleEndian
           {[ "sim.dat"%string := example_tree_file ]} "sim.dat" "r"
           example_tree_file).
  - by left.
  - vm_compute; reflexivity.
  - vm_compute; discriminate.
Defined.

(** The magic word is checked before the version: a header in which both
    are wrong fails with the file-format error. *)
Lemma tree_file_open_checks_magic_first :
  let fs : filesystem := {[ "old.dat"%string := bad_magic_and_version ]} in
  let r := tree_file_open LittleEndian fs "old.dat" "r" in
  length bad_magic_and_version = 28%nat /\
  header_version LittleEndian bad_magic_and_version = 2 /\
  fst r = MSP_ERR_FILE_FORMAT /\
  fst r <> MSP_ERR_FILE_VERSION.
Proof.
  split; [reflexivity|]. split; [reflexivity|].
  split; [vm_compute; reflexivity | vm_compute; discriminate].
Qed.

(** ** tree_sequence_load and tree_sequence_dump *)

Section load_dump.
Context `{msprime_h} `{heap} `{libc_qsort}.

Lemma load_metadata_failure fs lib filename flags file :
  fs !! filename = Some file ->
  fst (tree_sequence_read_hdf5_metadata tree_sequence_zero file) < 0 ->
  fst <$> tree_sequence_load fs lib filename flags = Some MSP_ERR_GENERIC.
Proof.
  intros Hfs Hneg. unfold tree_sequence_load. rewrite Hfs.
  destruct (tree_sequence_read_hdf5_metadata _ _) as [status self].
  cbn [fst] in Hneg.
  destruct (Z.ltb_spec status 0); [done | lia].
Qed.

(** C7 (what the code does): for an archive whose three root attributes are
    readable and whose [format_version] has a major number other than the
    supported one, [tree_sequence_read_hdf5_metadata] returns the
    unsupported-file-version error, but [tree_sequence_load] does not pass
    it on: it fails with the generic error. *)
Theorem load_reports_generic_for_other_version
    fs lib filename flags file version n m :
  fs !! filename = Some file ->
  h5_attributes file !! ("/"%string, "format_version"%string) =
    Some (H5A_numeric {| h5_dims := [2]; h5_data := H5_u32 version |}) ->
  h5_attributes file !! ("/"%string, "sample_size"%string) =
    Some (H5A_numeric {| h5_dims := []; h5_data := H5_u32 n |}) ->
  h5_attributes file !! ("/"%string, "num_loci"%string) =
    Some (H5A_numeric {| h5_dims := []; h5_data := H5_u32 m |}) ->
  to_int32 (hd 0 version) <> MSP_FILE_FORMAT_VERSION_MAJOR ->
  fst (tree_sequence_read_hdf5_metadata tree_sequence_zero file) =
    MSP_ERR_UNSUPPORTED_FILE_VERSION /\
  fst <$> tree_sequence_load fs lib filename flags = Some MSP_ERR_GENERIC /\
  MSP_ERR_GENERIC <> MSP_ERR_UNSUPPORTED_FILE_VERSION.
Proof.
  intros Hfs Hv Hn Hm Hne.
  assert (fst (tree_sequence_read_hdf5_metadata tree_sequence_zero file) =
            MSP_ERR_UNSUPPORTED_FILE_VERSION) as E.
  { unfold tree_sequence_read_hdf5_metadata, read_metadata_field.
    rewrite Hv, Hn, Hm.
    change (h5_rank {| h5_dims := [2]; h5_data := H5_u32 version |}) with 1.
    change (h5_rank {| h5_dims := []; h5_data := H5_u32 n |}) with 0.
    change (h5_rank {| h5_dims := []; h5_data := H5_u32 m |}) with 0.
    cbn.
    by destruct (Z.eqb_spec (to_int32 (hd 0 version))
                   MSP_FILE_FORMAT_VERSION_MAJOR). }
  split; [done|]. split; [|done].
  eapply load_metadata_failure; [done|]. by rewrite E.
Qed.

(** What the stages of [tree_sequence_load] leave alone. *)

Lemma read_hdf5_metadata_keeps self file :
  let self' := snd (tree_sequence_read_hdf5_metadata self file) in
  num_nodes self' = num_nodes self /\
  num_records self' = num_records self /\
  trees_insertion_order self' = trees_insertion_order self /\
  trees_removal_order self' = trees_removal_order self.
Proof.
  unfold tree_sequence_read_hdf5_metadata.
  repeat case_match; done.
Qed.

Lemma read_hdf5_dimensions_keeps self file :
  let self' := snd (tree_sequence_read_hdf5_dimensions self file) in
  num_nodes self' = num_nodes self /\
  trees_insertion_order self' = trees_insertion_order self /\
  trees_removal_order self' = trees_removal_order self.
Proof.
  unfold tree_sequence_read_hdf5_dimensions.
  repeat case_match; done.
Qed.

Lemma tree_sequence_alloc_spec self :
  let self' := snd (tree_sequence_alloc self) in
  fst (tree_sequence_alloc self) = 0 /\
  num_nodes self' = num_nodes self /\
  num_records self' = num_records self /\
  trees_insertion_order self' = malloc_u32 (num_records self) /\
  trees_removal_order self' = malloc_u32 (num_records self).
Proof.
  unfold tree_sequence_alloc. by case_match.
Qed.

Lemma read_hdf5_data_keeps self file ret self' :
  tree_sequence_read_hdf5_data self file = Some (ret, self') ->
  num_nodes self' = num_nodes self /\
  num_records self' = num_records self /\
  trees_insertion_order self' = trees_insertion_order self /\
  trees_removal_order self' = trees_removal_order self.
Proof.
  unfold tree_sequence_read_hdf5_data. intros E.
  repeat (simplify_option_eq; try case_match); done.
Qed.

Lemma read_hdf5_provenance_keeps self file :
  let self' := snd (tree_sequence_read_hdf5_provenance self file) in
  num_nodes self' = num_nodes self /\
  num_records self' = num_records self /\
  trees_insertion_order self' = trees_insertion_order self /\
  trees_removal_order self' = trees_removal_order self.
Proof.
  unfold tree_sequence_read_hdf5_provenance.
  repeat case_match; done.
Qed.

(** When the shutdown of the library fails, [tree_sequence_load] leaves
    through an exit at which [ret] is still 0: every success of such a call
    is a tree sequence whose indexes were never built. *)
Lemma load_after_failed_shutdown fs lib filename flags self' :
  Z.land flags MSP_SKIP_H5CLOSE = 0 ->
  H5close_status lib < 0 ->
  tree_sequence_load fs lib filename flags = Some (0, self') ->
  num_nodes self' = 0 /\
  trees_insertion_order self' = malloc_u32 (num_records self') /\
  trees_removal_order self' = malloc_u32 (num_records self').
Proof.
  intros Hflags Hclose. unfold tree_sequence_load.
  destruct (fs !! filename) as [file|]; [|intros [= E _]; done].
  pose proof (read_hdf5_metadata_keeps tree_sequence_zero file) as Hm.
  destruct (tree_sequence_read_hdf5_metadata _ _) as [status self1].
  cbn [snd] in Hm. destruct Hm as (Hm1 & Hm2 & Hm3 & Hm4).
  destruct (status <? 0); [intros [= E _]; done|].
  pose proof (read_hdf5_dimensions_keeps self1 file) as Hd.
  destruct (tree_sequence_read_hdf5_dimensions _ _) as [ret2 self2].
  cbn [snd] in Hd. destruct Hd as (Hd1 & Hd2 & Hd3).
  destruct (Z.eqb_spec ret2 0) as [->|Hne]; simpl negb; cbv iota;
    [|intros [= E _]; done].
  pose proof (tree_sequence_alloc_spec self2) as Ha.
  destruct (tree_sequence_alloc self2) as [ret3 self3].
  cbn [fst snd] in Ha. destruct Ha as (-> & Ha1 & Ha2 & Ha3 & Ha4).
  simpl negb; cbv iota.
  destruct (tree_sequence_read_hdf5_data self3 file) as [[ret4 self4]|] eqn:E4;
    [|done].
  cbn [mbind option_bind].
  apply read_hdf5_data_keeps in E4 as (He1 & He2 & He3 & He4).
  destruct (Z.eqb_spec ret4 0) as [->|Hne]; simpl negb; cbv iota;
    [|intros [= E _]; done].
  pose proof (read_hdf5_provenance_keeps self4 file) as Hp.
  destruct (tree_sequence_read_hdf5_provenance _ _) as [status5 self5].
  cbn [snd] in Hp. destruct Hp as (Hp1 & Hp2 & Hp3 & Hp4).
  destruct (status5 <? 0); [intros [= E _]; done|].
  destruct (H5Fclose_status lib <? 0); [intros [= E _]; done|].
  rewrite Hflags. simpl negb. cbv iota.
  destruct (Z.ltb_spec (H5close_status lib) 0); [|lia].
  intros [= <-]. rewrite Hp1, Hp2, Hp3, Hp4, He1, He2, He3, He4.
  rewrite Ha1, Ha2, Ha3, Ha4, Hd1. by rewrite Hm1.
Qed.

(** C1 (what the code does): a tree sequence that [tree_sequence_load]
    returns with status 0 after the shutdown of the library failed has
    insertion and removal orders that no sort ever wrote: they hold what the
    allocation left in them, whatever the records are. *)
Theorem load_can_succeed_without_indexes fs lib filename flags self' :
  Z.land flags MSP_SKIP_H5CLOSE = 0 ->
  H5close_status lib < 0 ->
  tree_sequence_load fs lib filename flags = Some (0, self') ->
  trees_insertion_order self' = malloc_u32 (num_records self') /\
  trees_removal_order self' = malloc_u32 (num_records self').
Proof.
  intros Hflags Hclose Hload.
  by destruct (load_after_failed_shutdown _ _ _ _ _ Hflags Hclose Hload)
    as (_ & ? & ?).
Qed.

(** C2 (what the code does): when [tree_sequence_dump] has written a tree
    sequence and [tree_sequence_load] returns 0 on that archive after the
    shutdown of the library failed, the loaded tree sequence has
    [num_nodes = 0] and fresh memory for its two indexes: it is not the
    tree sequence that was dumped, unless that one had no node. *)
Theorem load_after_dump_can_lose_num_nodes
    self lib flags file fs filename lib' flags' self' :
  tree_sequence_dump self lib flags = Some (0, file) ->
  fs !! filename = Some file ->
  Z.land flags' MSP_SKIP_H5CLOSE = 0 ->
  H5close_status lib' < 0 ->
  tree_sequence_load fs lib' filename flags' = Some (0, self') ->
  num_nodes self' = 0 /\
  (num_nodes self <> 0 -> num_nodes self' <> num_nodes self).
Proof.
  intros _ _ Hflags Hclose Hload.
  destruct (load_after_failed_shutdown _ _ _ _ _ Hflags Hclose Hload)
    as (E & _ & _).
  split; [done|]. intros Hne. by rewrite E.
Qed.

End load_dump.

Lemma load_reports_generic_for_other_version_witness :
  let file := other_version_archive (H := sample_msprime_h) in
  let fs : archives := {[ "sim.hdf5"%string := file ]} in
  fst (tree_sequence_read_hdf5_metadata (H := sample_msprime_h)
         tree_sequence_zero file) = MSP_ERR_UNSUPPORTED_FILE_VERSION /\
  fst <$> tree_sequence_load (H := sample_msprime_h) (H0 := zero_heap)
            (H1 := isort_qsort) fs h5_ok "sim.hdf5" 0
    = Some MSP_ERR_GENERIC /\
  MSP_ERR_GENERIC <> MSP_ERR_UNSUPPORTED_FILE_VERSION.
Proof.
  apply (@load_reports_generic_for_other_version sample_msprime_h zero_heap
           isort_qsort _ h5_ok "sim.hdf5" 0
           (other_version_archive (H := sample_msprime_h)) [99; 0] [3] [10]).
  - vm_compute; reflexivity.
  - vm_compute; reflexivity.
  - vm_compute; reflexivity.
  - vm_compute; reflexivity.
  - vm_compute; discriminate.
Defined.

(** The archive of [example_ts], loaded while the shutdown of the library
    fails: status 0, records as dumped, and indexes that list record 0 three
    times. *)
Lemma load_can_succeed_without_indexes_witness :
  let fs : archives :=
    {[ "sim.hdf5"%string := example_archive (H := sample_msprime_h) ]} in
  exists self',
    tree_sequence_load (H := sample_msprime_h) (H0 := zero_heap)
      (H1 := isort_qsort) fs h5_close_fails "sim.hdf5" 0 = Some (0, self') /\
    trees_left self' = [0; 0; 5] /\ trees_right self' = [10; 5; 10] /\
    malloc_u32 (H := zero_heap) (num_records self') = [0; 0; 0] /\
    (trees_insertion_order self' =
       malloc_u32 (H := zero_heap) (num_records self') /\
     trees_removal_order self' =
       malloc_u32 (H := zero_heap) (num_records self')).
Proof.
  eexists. split; [vm_compute; reflexivity|].
  split; [reflexivity|]. split; [reflexivity|]. split; [reflexivity|].
  apply (@load_can_succeed_without_indexes sample_msprime_h zero_heap
           isort_qsort
           {[ "sim.hdf5"%string := example_archive (H := sample_msprime_h) ]}
           h5_close_fails "sim.hdf5" 0).
  - reflexivity.
  - reflexivity.
  - vm_compute; reflexivity.
Defined.

Lemma load_after_dump_can_lose_num_nodes_witness :
  let file := example_archive (H := sample_msprime_h) in
  let fs : archives := {[ "sim.hdf5"%string := file ]} in
  exists self',
    tree_sequence_dump (H := sample_msprime_h) example_ts h5_ok 0
      = Some (0, file) /\
    tree_sequence_load (H := sample_msprime_h) (H0 := zero_heap)
      (H1 := isort_qsort) fs h5_close_fails "sim.hdf5" 0 = Some (0, self') /\
    num_nodes example_ts = 6 /\
    (num_nodes self' = 0 /\
     (num_nodes example_ts <> 0 -> num_nodes self' <> num_nodes example_ts)).
Proof.
  eexists. split; [vm_compute; reflexivity|].
  split; [vm_compute; reflexivity|]. split; [reflexivity|].
  apply (@load_after_dump_can_lose_num_nodes sample_msprime_h zero_heap
           isort_qsort example_ts h5_ok 0
           (example_archive (H := sample_msprime_h))
           {[ "sim.hdf5"%string := example_archive (H := sample_msprime_h) ]}
           "sim.hdf5" h5_close_fails 0).
  - vm_compute; reflexivity.
  - vm_compute; reflexivity.
  - reflexivity.
  - reflexivity.
  - vm_compute; reflexivity.
Defined.

(** ** sparse_tree_get_mrca *)

Section mrca.

Lemma ancestors_length parent room :
  forall j p, ancestors parent room j = Some p -> (length p <= room)%nat.
Proof.
  induction room as [|room IH]; intros j p; simpl.
  - destruct (j =? 0); [intros [= <-]; simpl; lia | done].
  - destruct (j =? 0); [intros [= <-]; simpl; lia |].
    destruct (rd parent j) as [j'|]; [|done]. simpl.
    destruct (ancestors parent room j') as [p'|] eqn:E; [|done]. simpl.
    intros [= <-]. simpl. apply IH in E. lia.
Qed.

Lemma ancestors_mono parent room :
  forall room' j p, (room <= room')%nat ->
  ancestors parent room j = Some p -> ancestors parent room' j = Some p.
Proof.
  induction room as [|room IH]; intros room' j p Hle; simpl.
  - destruct (j =? 0) eqn:E; [|done]. intros [= <-].
    destruct room'; simpl; by rewrite E.
  - destruct (j =? 0) eqn:E.
    { intros [= <-]. destruct room'; simpl; by rewrite E. }
    destruct room' as [|room']; [lia|]. simpl. rewrite E.
    destruct (rd parent j) as [j'|]; [|done]. simpl.
    destruct (ancestors parent room j') as [p'|] eqn:E'; [|done]. simpl.
    intros [= <-]. by rewrite (IH room' j' p') by (done || lia).
Qed.

Lemma ancestors_nonzero parent room j p a :
  ancestors parent room j = Some p -> a ∈ p -> a <> 0.
Proof.
  revert j p. induction room as [|room IH]; intros j p; simpl.
  - destruct (j =? 0); [intros [= <-] Hin; by apply elem_of_nil in Hin|done].
  - destruct (Z.eqb_spec j 0) as [|Hj];
      [intros [= <-] Hin; by apply elem_of_nil in Hin|].
    destruct (rd parent j) as [j'|]; [|done]. simpl.
    destruct (ancestors parent room j') as [p'|] eqn:E; [|done]. simpl.
    intros [= <-] Hin. apply elem_of_cons in Hin as [->|Hin]; [done|].
    by eapply IH.
Qed.

(** Every node of a chain of ancestors heads its own chain: the rest of the
    list. *)
Lemma ancestors_drop parent room :
  forall j p k a,
  ancestors parent room j = Some p -> p !! k = Some a ->
  ancestors parent room a = Some (drop k p).
Proof.
  induction room as [|room IH]; intros j p k a; simpl.
  - destruct (j =? 0); [intros [= <-]; by rewrite lookup_nil|done].
  - destruct (Z.eqb_spec j 0) as [|Hj];
      [intros [= <-]; by rewrite lookup_nil|].
    destruct (rd parent j) as [j'|] eqn:Ej; [|done]. simpl.
    destruct (ancestors parent room j') as [p'|] eqn:E; [|done]. simpl.
    intros [= <-]. destruct k as [|k]; simpl.
    + intros [= <-]. destruct (Z.eqb_spec j 0); [done|].
      by rewrite Ej; simpl; rewrite E.
    + intros Hk. pose proof (IH j' p' k a E Hk) as E'.
      apply (ancestors_mono parent room (S room)) in E'; [|lia]. done.
Qed.

Lemma ancestors_head parent room j p :
  j <> 0 -> ancestors parent room j = Some p -> exists p', p = j :: p'.
Proof.
  intros Hj. destruct room as [|room]; simpl;
    destruct (Z.eqb_spec j 0); try done.
  destruct (rd parent j) as [j'|]; [|done]. simpl.
  destruct (ancestors parent room j') as [p'|]; [|done]. simpl.
  intros [= <-]. by eexists.
Qed.

Lemma mrca_ascend_spec parent room :
  forall j (l : nat) s p,
  ancestors parent room j = Some p ->
  (l + length p <= length s)%nat ->
  exists s',
    mrca_ascend parent room j (Z.of_nat l) s
      = Some (s', Z.of_nat (l + length p)) /\
    length s' = length s /\
    (forall i, (i < length p)%nat -> s' !! (l + i)%nat = p !! i) /\
    (forall k, (k < l \/ l + length p <= k)%nat -> s' !! k = s !! k).
Proof.
  induction room as [|room IH]; intros j l s p; simpl.
  - destruct (j =? 0); [|done]. intros [= <-] _. exists s. simpl.
    rewrite Nat.add_0_r. repeat split; try done. intros i Hi. lia.
  - destruct (j =? 0).
    { intros [= <-] _. exists s. simpl. rewrite Nat.add_0_r.
      repeat split; try done. intros i Hi. lia. }
    destruct (rd parent j) as [j'|] eqn:Ej; [|done]. simpl.
    destruct (ancestors parent room j') as [p'|] eqn:E; [|done]. simpl.
    intros [= <-] Hlen. simpl in Hlen.
    rewrite wr_in_range by lia. simpl. rewrite Nat2Z.id.
    destruct (IH j' (S l) (<[l := j]> s) p' E) as (s' & Es & Hl & Hp & Hk).
    { rewrite length_insert. lia. }
    exists s'. replace (Z.of_nat l + 1) with (Z.of_nat (S l)) by lia.
    rewrite Es. split; [do 2 f_equal; simpl; lia|].
    split; [by rewrite Hl, length_insert|]. split.
    + intros i Hi. destruct i as [|i]; simpl.
      * rewrite Nat.add_0_r. rewrite Hk by lia.
        apply list_lookup_insert_eq. lia.
      * replace (l + S i)%nat with (S l + i)%nat by lia. apply Hp.
        simpl in Hi. lia.
    + intros k Hk'. rewrite Hk by (simpl in *; lia).
      apply list_lookup_insert_ne. simpl in Hk'. lia.
Qed.

Lemma mrca_descend_spec (s1 s2 P1 P2 : list Z) :
  (forall i, (i < length P1)%nat -> s1 !! i = P1 !! i) ->
  (forall i, (i < length P2)%nat -> s2 !! i = P2 !! i) ->
  forall n i1 i2,
  (i1 < n)%nat -> (i1 < length P1)%nat -> (i2 < length P2)%nat ->
  drop i1 P1 = drop i2 P2 ->
  exists w k1 k2,
    mrca_descend s1 s2 n (Z.of_nat i1) (Z.of_nat i2) = Some w /\
    (k1 <= i1)%nat /\ (k2 <= i2)%nat /\ (i1 - k1 = i2 - k2)%nat /\
    drop k1 P1 = drop k2 P2 /\ P1 !! k1 = Some w /\
    (k1 = 0%nat \/ k2 = 0%nat \/
     P1 !! (k1 - 1)%nat <> P2 !! (k2 - 1)%nat).
Proof.
  intros H1 H2. induction n as [|n IH]; intros i1 i2 Hn Hi1 Hi2 Hd; [lia|].
  simpl. rewrite (rd_lookup s1 (Z.of_nat i1)) by lia.
  rewrite Nat2Z.id, H1 by lia.
  destruct (lookup_lt_is_Some_2 P1 i1 Hi1) as [w Hw]. rewrite Hw. simpl.
  destruct (Z.leb_spec 0 (Z.of_nat i1 - 1)) as [Hp1|Hp1]; simpl.
  2: { exists w, i1, i2. repeat split; try done; lia. }
  destruct (Z.leb_spec 0 (Z.of_nat i2 - 1)) as [Hp2|Hp2]; simpl.
  2: { exists w, i1, i2. repeat split; try done; lia. }
  rewrite !rd_lookup by lia.
  replace (Z.to_nat (Z.of_nat i1 - 1)) with (i1 - 1)%nat by lia.
  replace (Z.to_nat (Z.of_nat i2 - 1)) with (i2 - 1)%nat by lia.
  rewrite H1, H2 by lia.
  destruct (lookup_lt_is_Some_2 P1 (i1 - 1)) as [a Ha]; [lia|].
  destruct (lookup_lt_is_Some_2 P2 (i2 - 1)) as [b Hb]; [lia|].
  rewrite Ha, Hb. simpl.
  destruct (Z.eqb_spec a b) as [->|Hne].
  - destruct (IH (i1 - 1)%nat (i2 - 1)%nat) as (w' & k1 & k2 & E & R);
      try lia.
    { rewrite (drop_S P1 b (i1 - 1)) by done.
      rewrite (drop_S P2 b (i2 - 1)) by done.
      replace (S (i1 - 1)) with i1 by lia.
      replace (S (i2 - 1)) with i2 by lia. by rewrite Hd. }
    exists w', k1, k2.
    replace (Z.of_nat i1 - 1) with (Z.of_nat (i1 - 1)) by lia.
    replace (Z.of_nat i2 - 1) with (Z.of_nat (i2 - 1)) by lia.
    split; [done|]. destruct R as (? & ? & ? & ? & ? & ?).
    repeat split; try done; lia.
  - exists w, i1, i2. repeat split; try done; try lia.
    right. right. rewrite Ha, Hb. congruence.
Qed.

(** C4: [sparse_tree_get_mrca] returns the bad-parameter error when [u] or
    [v] is 0 or exceeds [num_nodes]; for two nodes of the current tree (the
    chain of parents of each ends at the root of the tree) it returns 0 and
    stores a node that is an ancestor of both and lies at least as deep as
    every other common ancestor, the depth of a node being the number of
    nodes on its chain.  The sample size is below 2^31, so that it is
    itself as the [int] the function's [assert]s compare with. *)
Theorem sparse_tree_get_mrca_spec self u v :
  let room := Z.to_nat (t_sample_size self) in
  (u = 0 \/ v = 0 \/ t_num_nodes self < u \/ t_num_nodes self < v ->
   sparse_tree_get_mrca self u v =
     Some (MSP_ERR_BAD_PARAM_VALUE, None, self)) /\
  (t_sample_size self < 2 ^ 31 ->
   1 <= u <= t_num_nodes self -> 1 <= v <= t_num_nodes self ->
   length (t_stack1 self) = S room -> length (t_stack2 self) = S room ->
   forall pu pv,
   ancestors (t_parent self) room u = Some pu ->
   ancestors (t_parent self) room v = Some pv ->
   last pu = Some (t_root self) -> last pv = Some (t_root self) ->
   exists w self' pw,
     sparse_tree_get_mrca self u v = Some (0, Some w, self') /\
     w ∈ pu /\ w ∈ pv /\
     ancestors (t_parent self) room w = Some pw /\
     forall a pa, a ∈ pu -> a ∈ pv ->
       ancestors (t_parent self) room a = Some pa ->
       (length pa <= length pw)%nat).
Proof.
  intros room. split.
  { intros Hbad. unfold sparse_tree_get_mrca.
    destruct (Z.eqb_spec u 0); [done|].
    destruct (Z.eqb_spec v 0); [done|].
    destruct (Z.ltb_spec (t_num_nodes self) u); [done|].
    destruct (Z.ltb_spec (t_num_nodes self) v); [done|]. lia. }
  intros H31 Hu Hv Hs1 Hs2 pu pv Epu Epv Lu Lv.
  unfold sparse_tree_get_mrca.
  destruct (Z.eqb_spec u 0); [lia|]. destruct (Z.eqb_spec v 0); [lia|].
  destruct (Z.ltb_spec (t_num_nodes self) u); [lia|].
  destruct (Z.ltb_spec (t_num_nodes self) v); [lia|]. cbn [orb].
  rewrite to_int32_small by done. fold room.
  pose proof (ancestors_length _ _ _ _ Epu) as Lpu.
  pose proof (ancestors_length _ _ _ _ Epv) as Lpv.
  destruct (mrca_ascend_spec _ _ _ 0%nat (t_stack1 self) _ Epu)
    as (s1 & E1 & Hl1 & Hp1 & _); [lia|].
  destruct (mrca_ascend_spec _ _ _ 0%nat (t_stack2 self) _ Epv)
    as (s2 & E2 & Hl2 & Hp2 & _); [lia|].
  change (Z.of_nat 0) with 0 in E1, E2.
  change (0 + length pu)%nat with (length pu) in *.
  change (0 + length pv)%nat with (length pv) in *.
  rewrite E1. cbn [mbind option_bind fst snd].
  rewrite wr_in_range by lia. cbn [mbind option_bind fst snd].
  rewrite E2. cbn [mbind option_bind fst snd].
  rewrite wr_in_range by lia. cbn [mbind option_bind fst snd].
  rewrite !Nat2Z.id.
  set (s1' := <[length pu := 0]> s1). set (s2' := <[length pv := 0]> s2).
  assert (forall i, (i < length (pu ++ [0%Z]))%nat ->
            s1' !! i = (pu ++ [0]) !! i) as HP1.
  { intros i Hi. rewrite length_app in Hi. simpl in Hi. unfold s1'.
    destruct (decide (i = length pu)) as [->|Hne].
    - rewrite list_lookup_insert_eq by lia.
      by rewrite lookup_app_r, Nat.sub_diag by lia.
    - rewrite list_lookup_insert_ne by lia.
      rewrite lookup_app_l by lia. apply (Hp1 i). lia. }
  assert (forall i, (i < length (pv ++ [0%Z]))%nat ->
            s2' !! i = (pv ++ [0]) !! i) as HP2.
  { intros i Hi. rewrite length_app in Hi. simpl in Hi. unfold s2'.
    destruct (decide (i = length pv)) as [->|Hne].
    - rewrite list_lookup_insert_eq by lia.
      by rewrite lookup_app_r, Nat.sub_diag by lia.
    - rewrite list_lookup_insert_ne by lia.
      rewrite lookup_app_l by lia. apply (Hp2 i). lia. }
  destruct (mrca_descend_spec s1' s2' (pu ++ [0]) (pv ++ [0]) HP1 HP2
              (S (length pu)) (length pu) (length pv))
    as (w & k1 & k2 & Ew & Hk1 & Hk2 & Hk & Hd & Hw & Hexit).
  { lia. } { rewrite length_app; simpl; lia. }
  { rewrite length_app; simpl; lia. }
  { by rewrite !drop_app_length. }
  rewrite Ew. cbn [mbind option_bind].
  assert (u <> 0) as Hu0 by lia. assert (v <> 0) as Hv0 by lia.
  destruct (ancestors_head _ _ _ _ Hu0 Epu) as [pu' ->].
  destruct (ancestors_head _ _ _ _ Hv0 Epv) as [pv' ->].
  assert (k1 < length (u :: pu'))%nat as Hlt1.
  { destruct (decide (k1 = length (u :: pu'))) as [E|]; [|lia].
    assert (k2 = length (v :: pv')) as E' by lia.
    destruct Hexit as [Hz|[Hz|Hne]]; [simpl in *; lia..|].
    exfalso. apply Hne. rewrite E, E'.
    rewrite !lookup_app_l by (simpl; lia).
    rewrite last_lookup in Lu, Lv. simpl in *.
    rewrite !Nat.sub_0_r. by rewrite Lu, Lv. }
  assert (k2 < length (v :: pv'))%nat as Hlt2 by lia.
  set (pu := u :: pu') in *. set (pv := v :: pv') in *.
  assert (pu !! k1 = Some w) as Hwu by (by rewrite lookup_app_l in Hw).
  assert (pv !! k2 = Some w) as Hwv.
  { assert ((pv ++ [0]) !! k2 = Some w) as Hw2.
    { rewrite <- (Nat.add_0_r k2), <- lookup_drop, <- Hd, lookup_drop.
      by rewrite Nat.add_0_r. }
    by rewrite lookup_app_l in Hw2. }
  exists w, (with_stacks self s1' s2'), (drop k1 pu).
  split; [done|]. split; [by eapply list_elem_of_lookup_2|].
  split; [by eapply list_elem_of_lookup_2|].
  split; [by eapply ancestors_drop|].
  intros a pa Hau Hav Epa.
  apply list_elem_of_lookup_1 in Hau as [ia Hia].
  apply list_elem_of_lookup_1 in Hav as [ja Hja].
  pose proof (ancestors_drop _ _ _ _ _ _ Epu Hia) as Ea1.
  pose proof (ancestors_drop _ _ _ _ _ _ Epv Hja) as Ea2.
  rewrite Epa in Ea1, Ea2. injection Ea1 as Ea1. injection Ea2 as Ea2.
  pose proof (lookup_lt_Some _ _ _ Hia) as Hila.
  pose proof (lookup_lt_Some _ _ _ Hja) as Hjla.
  assert (length pa = length pu - ia)%nat as La1
    by (by rewrite Ea1, length_drop).
  assert (length pa = length pv - ja)%nat as La2
    by (by rewrite Ea2, length_drop).
  rewrite length_drop.
  destruct (decide (ia < k1)%nat) as [Hlt|]; [|lia]. exfalso.
  destruct Hexit as [Hz|[Hz|Hne]]; [lia..|]. apply Hne.
  rewrite !lookup_app_l by lia.
  replace (k1 - 1)%nat with (ia + (k1 - 1 - ia))%nat by lia.
  replace (k2 - 1)%nat with (ja + (k2 - 1 - ja))%nat by lia.
  rewrite <- !lookup_drop, <- Ea1, <- Ea2. f_equal. lia.
Qed.

End mrca.

(** In [example_tree]: node 0 is refused, and the most recent common
    ancestor of the samples 1 and 3 is the root 5. *)
Lemma sparse_tree_get_mrca_spec_witness :
  sparse_tree_get_mrca example_tree 0 3 =
    Some (MSP_ERR_BAD_PARAM_VALUE, None, example_tree) /\
  fst <$> sparse_tree_get_mrca example_tree 1 3 = Some (0, Some 5) /\
  exists w self' pw,
    sparse_tree_get_mrca example_tree 1 3 = Some (0, Some w, self') /\
    w ∈ [1; 4; 5] /\ w ∈ [3; 5] /\
    ancestors (t_parent example_tree) 3 w = Some pw /\
    forall a pa, a ∈ [1; 4; 5] -> a ∈ [3; 5] ->
      ancestors (t_parent example_tree) 3 a = Some pa ->
      (length pa <= length pw)%nat.
Proof.
  split.
  { apply (proj1 (sparse_tree_get_mrca_spec example_tree 0 3)). by left. }
  split; [reflexivity|].
  apply (proj2 (sparse_tree_get_mrca_spec example_tree 1 3)).
  - vm_compute. reflexivity.
  - vm_compute. split; discriminate.
  - vm_compute. split; discriminate.
  - reflexivity.
  - reflexivity.
  - reflexivity.
  - reflexivity.
  - reflexivity.
  - reflexivity.
Defined.

(** ** tree_diff_iterator_next *)

Section diff_iterator.

Lemma run_length_le key x l : (run_length key x l <= length l)%nat.
Proof.
  induction l as [|k l IH]; simpl; [lia|].
  destruct (key k =? x); simpl; lia.
Qed.

Lemma run_length_lookup key x l d k :
  (d < run_length key x l)%nat -> l !! d = Some k -> key k = x.
Proof.
  revert d. induction l as [|a l IH]; intros d; simpl; [lia|].
  destruct (Z.eqb_spec (key a) x) as [E|]; [|lia].
  destruct d as [|d]; simpl; [by intros _ [= <-]|].
  intros Hd. apply IH. lia.
Qed.

Lemma run_length_stop key x l k :
  l !! run_length key x l = Some k -> key k <> x.
Proof.
  induction l as [|a l IH]; simpl; [done|].
  destruct (Z.eqb_spec (key a) x) as [E|Hne]; simpl; [done|].
  by intros [= <-].
Qed.

Lemma run_length_bound key x l d k :
  l !! d = Some k -> key k <> x -> (run_length key x l <= d)%nat.
Proof.
  revert d. induction l as [|a l IH]; intros d; simpl; [lia|].
  destruct (Z.eqb_spec (key a) x) as [E|Hne]; [|lia].
  destruct d as [|d]; simpl; [intros [= <-]; done|].
  intros Hd Hk. specialize (IH d Hd Hk). lia.
Qed.

Lemma sorted_lookup {A} (R : A -> A -> Prop) l p q a b :
  StronglySorted R l -> l !! p = Some a -> l !! q = Some b ->
  (p < q)%nat -> R a b.
Proof.
  intros Hs. revert p q. induction Hs as [|x l Hs IH Hx]; intros p q;
    [by rewrite lookup_nil|].
  destruct p as [|p], q as [|q]; simpl; try lia.
  - intros [= <-] Hq _. rewrite Forall_forall in Hx. apply Hx.
    by eapply list_elem_of_lookup_2.
  - intros Hp Hq Hlt. apply (IH p q); try done. lia.
Qed.

Lemma filter_none {A} (P : A -> Prop) `{forall a, Decision (P a)} l :
  Forall (fun a => ~ P a) l -> filter P l = [].
Proof.
  induction 1 as [|a l Ha _ IH]; [done|].
  by rewrite filter_cons_False.
Qed.

(** In a list sorted by key whose keys are all at least [x], the elements
    with key [x] are the leading run. *)
Lemma filter_sorted_run key x l :
  StronglySorted (fun a b => key a <= key b) l ->
  Forall (fun k => x <= key k) l ->
  filter (fun k => key k = x) l = take (run_length key x l) l.
Proof.
  intros Hs. induction Hs as [|a l Hs IH Ha]; intros Hge; [done|].
  inversion Hge as [|? ? Hxa Hge']; subst. simpl.
  destruct (Z.eqb_spec (key a) x) as [E|Hne].
  - rewrite filter_cons_True by done. simpl. by rewrite IH.
  - rewrite filter_cons_False by done. simpl.
    apply filter_none.
    rewrite Forall_forall in Ha |- *. intros k Hk.
    specialize (Ha k Hk). simpl in Ha. lia.
Qed.

Lemma rd_ts_left s k :
  columns_ok s -> 0 <= k < num_records s ->
  rd (trees_left s) k = Some (ts_left s k).
Proof.
  intros (? & Hl & _) Hk. unfold ts_left.
  destruct (rd_in_range (trees_left s) k) as [v ->]; [lia|done].
Qed.

Lemma rd_ts_right s k :
  columns_ok s -> 0 <= k < num_records s ->
  rd (trees_right s) k = Some (ts_right s k).
Proof.
  intros (? & _ & Hl & _) Hk. unfold ts_right.
  destruct (rd_in_range (trees_right s) k) as [v ->]; [lia|done].
Qed.

Lemma fill_node_record_at s k :
  columns_ok s -> 0 <= k < num_records s ->
  fill_node_record s k = Some (node_record_at s k).
Proof.
  intros (? & _ & _ & Hn & Hc & Ht & _) Hk.
  unfold fill_node_record, node_record_at, ts_time, ts_node, ts_child.
  destruct (rd_in_range (trees_time s) k) as [t ->]; [lia|].
  destruct (rd_in_range (trees_node s) k) as [u ->]; [lia|].
  rewrite Z.add_0_r. unfold wrap32.
  rewrite !Z.mod_small by lia.
  destruct (rd_in_range (trees_children s) (2 * k)) as [c0 ->]; [lia|].
  destruct (rd_in_range (trees_children s) (2 * k + 1)) as [c1 ->]; [lia|].
  done.
Qed.

Lemma diff_remove_loop_run s capacity x :
  columns_ok s ->
  forall suffix (r : nat) next out fuel,
  drop r (trees_removal_order s) = suffix ->
  let m := run_length (ts_right s) x suffix in
  (m < length suffix)%nat ->
  next + Z.of_nat m <= capacity -> (m < fuel)%nat ->
  diff_remove_loop s capacity x fuel (Z.of_nat r) next out =
    Some (Z.of_nat (r + m), next + Z.of_nat m,
          out ++ map (node_record_at s) (take m suffix)).
Proof.
  intros Hc suffix. induction suffix as [|k suffix IH];
    intros r next out fuel Hd m Hm Hcap Hfuel; [simpl in Hm; lia|].
  destruct fuel as [|fuel]; [lia|]. simpl.
  assert (trees_removal_order s !! r = Some k) as Hk.
  { rewrite <- (Nat.add_0_r r), <- lookup_drop, Hd. done. }
  rewrite rd_lookup, Nat2Z.id, Hk by lia. simpl.
  assert (0 <= k < num_records s) as Hr.
  { destruct Hc as (_ & _ & _ & _ & _ & _ & _ & _ & _ & Hro & _).
    apply Hro. by eapply list_elem_of_lookup_2. }
  rewrite rd_ts_right by done. simpl.
  subst m. simpl in *.
  destruct (Z.eqb_spec (ts_right s k) x) as [E|Hne].
  - destruct (Z.ltb_spec next capacity); [|lia].
    rewrite fill_node_record_at by done. simpl.
    replace (Z.of_nat r + 1) with (Z.of_nat (S r)) by lia.
    rewrite (IH (S r)); try lia.
    + f_equal. f_equal; [f_equal; lia|]. by rewrite <- app_assoc.
    + pose proof (drop_S _ _ _ Hk) as E'. rewrite Hd in E'.
      by injection E'.
  - rewrite Nat.add_0_r, Z.add_0_r. simpl. by rewrite app_nil_r.
Qed.

Lemma diff_insert_loop_run s capacity x :
  columns_ok s ->
  forall suffix (i : nat) next inl fuel,
  drop i (trees_insertion_order s) = suffix ->
  let m := run_length (ts_left s) x suffix in
  next + Z.of_nat m <= capacity -> (m < fuel)%nat ->
  diff_insert_loop s capacity x (num_records s) fuel (Z.of_nat i) next inl =
    Some (Z.of_nat (i + m), next + Z.of_nat m,
          inl ++ map (node_record_at s) (take m suffix)).
Proof.
  intros Hc suffix. induction suffix as [|k suffix IH];
    intros i next inl fuel Hd m Hcap Hfuel.
  - destruct fuel as [|fuel]; [lia|]. simpl.
    assert (length (trees_insertion_order s) <= i)%nat as Hlen.
    { destruct (decide (length (trees_insertion_order s) <= i)%nat);
        [done|].
      assert (length (drop i (trees_insertion_order s)) = 0%nat) as E
        by (by rewrite Hd). rewrite length_drop in E. lia. }
    destruct Hc as (_ & _ & _ & _ & _ & _ & Hio & _).
    destruct (Z.ltb_spec (Z.of_nat i) (num_records s)); [lia|].
    subst m. simpl. rewrite Nat.add_0_r, Z.add_0_r. by rewrite app_nil_r.
  - destruct fuel as [|fuel]; [lia|]. simpl.
    assert (trees_insertion_order s !! i = Some k) as Hk.
    { rewrite <- (Nat.add_0_r i), <- lookup_drop, Hd. done. }
    pose proof (lookup_lt_Some _ _ _ Hk) as Hlt.
    assert (0 <= k < num_records s) as Hr.
    { destruct Hc as (_ & _ & _ & _ & _ & _ & _ & _ & Hio & _).
      apply Hio. by eapply list_elem_of_lookup_2. }
    pose proof Hc as (_ & _ & _ & _ & _ & _ & Hio & _).
    destruct (Z.ltb_spec (Z.of_nat i) (num_records s)); [|lia].
    rewrite rd_lookup, Nat2Z.id, Hk by lia. simpl.
    rewrite rd_ts_left by done. simpl.
    subst m. simpl in *.
    destruct (Z.eqb_spec (ts_left s k) x) as [E|Hne].
    + destruct (Z.ltb_spec next capacity); [|lia].
      rewrite fill_node_record_at by done. simpl.
      replace (Z.of_nat i + 1) with (Z.of_nat (S i)) by lia.
      rewrite (IH (S i)); try lia.
      * f_equal. f_equal; [f_equal; lia|]. by rewrite <- app_assoc.
      * pose proof (drop_S _ _ _ Hk) as E'. rewrite Hd in E'.
        by injection E'.
    + rewrite Nat.add_0_r, Z.add_0_r. simpl. by rewrite app_nil_r.
Qed.

Lemma StronglySorted_drop {A} (R : A -> A -> Prop) l n :
  StronglySorted R l -> StronglySorted R (drop n l).
Proof.
  intros Hs. revert n. induction Hs as [|a l Hs IH Ha]; intros n.
  - rewrite drop_nil. constructor.
  - destruct n as [|n]; simpl; [by constructor | apply IH].
Qed.

(** With the indexes standing at [p], the records whose key is [x] are the
    run that starts at [p]. *)
Lemma filter_key_run key x (l : list Z) (p : nat) :
  StronglySorted (fun a b => key a <= key b) l ->
  (forall q k, l !! q = Some k ->
     ((q < p)%nat -> key k < x) /\ ((p <= q)%nat -> x <= key k)) ->
  filter (fun k => key k = x) l =
    take (run_length key x (drop p l)) (drop p l).
Proof.
  intros Hs Hp. rewrite <- (take_drop p l) at 1. rewrite filter_app.
  rewrite filter_none, app_nil_l.
  - apply filter_sorted_run; [by apply StronglySorted_drop|].
    apply Forall_lookup. intros q k Hq. rewrite lookup_drop in Hq.
    destruct (Hp _ _ Hq) as [_ Hge]. apply Hge. lia.
  - apply Forall_lookup. intros q k Hq.
    pose proof (lookup_lt_Some _ _ _ Hq) as Hlt. rewrite length_take in Hlt.
    rewrite lookup_take_lt in Hq by lia.
    destruct (Hp _ _ Hq) as [Hlt' _]. specialize (Hlt' ltac:(lia)). lia.
Qed.

Lemma diff_next_step s self :
  records_tile s -> diff_iterator_ok s self ->
  di_insertion_index self < num_records s ->
  let x := di_tree_left self in
  exists self' k,
    (sample_size s < 2 ^ 31 ->
     tree_diff_iterator_next s self =
       Some (1, di_tree_left self' - x,
             map (node_record_at s)
               (filter (fun k => ts_right s k = x) (trees_removal_order s)),
             map (node_record_at s)
               (filter (fun k => ts_left s k = x) (trees_insertion_order s)),
             self')) /\
    rd (trees_removal_order s) (di_removal_index self') = Some k /\
    di_tree_left self' = ts_right s k /\
    di_removal_index self' =
      Z.of_nat (Z.to_nat (di_removal_index self)
                + run_length (ts_right s) x
                    (drop (Z.to_nat (di_removal_index self))
                       (trees_removal_order s))) /\
    di_insertion_index self' =
      Z.of_nat (Z.to_nat (di_insertion_index self)
                + run_length (ts_left s) x
                    (drop (Z.to_nat (di_insertion_index self))
                       (trees_insertion_order s))) /\
    x < di_tree_left self' /\
    diff_iterator_ok s self'.
Proof.
  intros (Hc & Hsi & Hsr & Hlr & Hr32 & Hchain & Hcap)
         (Hss & Hnr & Hi0 & Hr0 & Hx0 & Hi & Hr & Hio & Hro) Hlt x.
  set (i := Z.to_nat (di_insertion_index self)) in *.
  set (r := Z.to_nat (di_removal_index self)) in *.
  set (io := trees_insertion_order s) in *.
  set (ro := trees_removal_order s) in *.
  pose proof Hc as (HR & _ & _ & _ & _ & _ & Hlio & Hlro & Hio_r & Hro_r & Hro_in).
  fold io in Hlio, Hio_r. fold ro in Hlro, Hro_r, Hro_in.
  (* the record at the insertion index ends after [x] *)
  destruct (lookup_lt_is_Some_2 io i) as [ki Hki]; [lia|].
  assert (0 <= ki < num_records s) as Hki_r
    by (apply Hio_r; by eapply list_elem_of_lookup_2).
  assert (x < ts_right s ki) as Hki_x.
  { destruct (Hio _ _ Hki) as [_ Hge]. specialize (Hge ltac:(lia)).
    specialize (Hlr ki Hki_r). lia. }
  destruct (list_elem_of_lookup_1 ro ki (Hro_in ki Hki_r)) as [p Hp].
  assert (r <= p)%nat as Hrp.
  { destruct (decide (r <= p)%nat); [done|].
    destruct (Hro _ _ Hp) as [Hl _]. specialize (Hl ltac:(lia)). lia. }
  set (mr := run_length (ts_right s) x (drop r ro)).
  set (mi := run_length (ts_left s) x (drop i io)).
  assert (mr <= p - r)%nat as Hmr.
  { apply (run_length_bound _ _ _ _ ki); [|lia].
    rewrite lookup_drop. by replace (r + (p - r))%nat with p by lia. }
  pose proof (lookup_lt_Some _ _ _ Hp) as Hpl.
  assert (mr < length (drop r ro))%nat as Hmr' by (rewrite length_drop; lia).
  assert (filter (fun k => ts_right s k = x) ro = take mr (drop r ro))
    as Fr by (by apply filter_key_run).
  assert (filter (fun k => ts_left s k = x) io = take mi (drop i io))
    as Fi by (by apply filter_key_run).
  pose proof (run_length_le (ts_left s) x (drop i io)) as Hmi'.
  fold mi in Hmi'. rewrite length_drop in Hmi'.
  assert (Z.of_nat mr + Z.of_nat mi <= 2 * sample_size s) as Hcap'.
  { specialize (Hcap x). fold io ro in Hcap. rewrite Fr, Fi in Hcap.
    rewrite !length_take, !length_drop in Hcap. lia. }
  (* the record where the removal index stops *)
  destruct (lookup_lt_is_Some_2 (drop r ro) mr Hmr') as [k' Hk'].
  pose proof (run_length_stop _ _ _ _ Hk') as Hk'x.
  rewrite lookup_drop in Hk'.
  assert (0 <= k' < num_records s) as Hk'_r
    by (apply Hro_r; by eapply list_elem_of_lookup_2).
  assert (x < ts_right s k') as Hxk'.
  { destruct (Hro _ _ Hk') as [_ Hge]. specialize (Hge ltac:(lia)). lia. }
  exists {| di_sample_size := di_sample_size self;
            di_num_nodes := di_num_nodes self;
            di_num_records := di_num_records self;
            di_insertion_index := Z.of_nat (i + mi);
            di_removal_index := Z.of_nat (r + mr);
            di_tree_left := ts_right s k' |}, k'.
  cbn [di_removal_index di_insertion_index di_tree_left].
  split; [|split; [by rewrite rd_lookup, Nat2Z.id by lia|split; [done|]]];
    [|split; [done|split; [done|]]].
  - intros H31. unfold tree_diff_iterator_next.
    destruct (Z.ltb_spec (di_insertion_index self) (di_num_records self));
      [|lia].
    replace (di_removal_index self) with (Z.of_nat r) by lia.
    replace (di_insertion_index self) with (Z.of_nat i) by lia.
    pose proof Hmr' as Hmr''. rewrite length_drop in Hmr''.
    rewrite Hss.
    assert (wrap32 (2 * sample_size s) = 2 * sample_size s) as ->
      by (unfold wrap32; apply Z.mod_small; lia).
    fold x.
    rewrite (diff_remove_loop_run s _ x Hc (drop r ro) r 0 [] _ eq_refl);
      [|done|fold mr; lia|fold mr ro; lia].
    cbn [mbind option_bind fst snd]. rewrite Hnr.
    rewrite (diff_insert_loop_run s _ x Hc (drop i io) i _ [] _ eq_refl);
      [|fold mr mi; lia|fold mi; lia].
    cbn [mbind option_bind fst snd]. fold mr mi ro.
    rewrite (rd_lookup ro (Z.of_nat (r + mr))) by lia.
    rewrite Nat2Z.id, Hk'. cbn [mbind option_bind].
    rewrite rd_ts_right by done. cbn [mbind option_bind].
    rewrite Fr, Fi. fold x.
    assert (wrap32 (ts_right s k' - x) = ts_right s k' - x) as ->.
    { unfold wrap32. apply Z.mod_small. specialize (Hr32 k' Hk'_r).
      unfold x. lia. }
    replace (0 + Z.of_nat mr) with (Z.of_nat mr) by lia.
    done.
  - split; [lia|]. unfold diff_iterator_ok.
    cbn [di_sample_size di_num_records di_insertion_index di_removal_index
         di_tree_left].
    rewrite !Nat2Z.id.
    split; [done|]. split; [done|]. split; [lia|]. split; [lia|].
    split; [lia|]. unfold indexes_at. fold io ro.
    pose proof Hmr' as Hmr''. rewrite length_drop in Hmr''.
    split; [lia|]. split; [lia|]. split.
    + intros q k Hq. split.
      * (* before the new insertion index *)
        intros Hlt'. destruct (decide (q < i)%nat) as [Hqi|Hqi].
        -- destruct (Hio _ _ Hq) as [Hl _]. specialize (Hl Hqi).
           unfold x in *. lia.
        -- assert (ts_left s k = x); [|unfold x in *; lia].
           apply (run_length_lookup _ _ (drop i io) (q - i));
             [fold mi; lia|].
           rewrite lookup_drop. by replace (i + (q - i))%nat with q by lia.
      * (* from the new insertion index on *)
        intros Hge'.
        assert (0 <= k < num_records s) as Hk_r
          by (apply Hio_r; by eapply list_elem_of_lookup_2).
        assert (x < ts_left s k) as Hxk.
        { pose proof (lookup_lt_Some _ _ _ Hq) as Hql.
          destruct (lookup_lt_is_Some_2 io (i + mi)) as [k0 Hk0]; [lia|].
          assert (ts_left s k0 <> x) as Hne.
          { eapply (run_length_stop _ _ (drop i io)). fold mi.
            by rewrite lookup_drop. }
          destruct (Hio _ _ Hk0) as [_ Hge]. specialize (Hge ltac:(lia)).
          destruct (decide (q = i + mi)%nat) as [->|Hneq].
          - rewrite Hq in Hk0. injection Hk0 as <-. unfold x in *. lia.
          - pose proof (sorted_lookup _ _ _ _ _ _ Hsi Hk0 Hq ltac:(lia))
              as Hle.
            simpl in Hle. unfold x in *. lia. }
        destruct (Hchain k Hk_r) as [Hz|(k'' & Hk''_r & Ek'')];
          [unfold x in *; lia|].
        destruct (list_elem_of_lookup_1 ro k'' (Hro_in k'' Hk''_r))
          as [q' Hq'].
        assert (r + mr <= q')%nat as Hq'r.
        { destruct (decide (r + mr <= q')%nat); [done|]. exfalso.
          destruct (decide (q' < r)%nat) as [Hlt'|Hge''].
          - destruct (Hro _ _ Hq') as [Hl _]. specialize (Hl Hlt').
            unfold x in *. lia.
          - assert (ts_right s k'' = x); [|unfold x in *; lia].
            apply (run_length_lookup _ _ (drop r ro) (q' - r));
              [fold mr; lia|].
            rewrite lookup_drop.
            by replace (r + (q' - r))%nat with q' by lia. }
        destruct (decide (q' = r + mr)%nat) as [->|Hneq].
        -- rewrite Hk' in Hq'. injection Hq' as <-. lia.
        -- pose proof (sorted_lookup _ _ _ _ _ _ Hsr Hk' Hq' ltac:(lia))
             as Hle.
           simpl in Hle. lia.
    + intros q k Hq. split.
      * (* before the new removal index *)
        intros Hlt'. destruct (decide (q < r)%nat) as [Hqr|Hqr].
        -- destruct (Hro _ _ Hq) as [Hl _]. specialize (Hl Hqr).
           unfold x in *. lia.
        -- assert (ts_right s k = x); [|unfold x in *; lia].
           apply (run_length_lookup _ _ (drop r ro) (q - r));
             [fold mr; lia|].
           rewrite lookup_drop. by replace (r + (q - r))%nat with q by lia.
      * (* from the new removal index on *)
        intros Hge'. destruct (decide (q = r + mr)%nat) as [->|Hneq].
        -- rewrite Hk' in Hq. injection Hq as <-. lia.
        -- pose proof (sorted_lookup _ _ _ _ _ _ Hsr Hk' Hq ltac:(lia))
             as Hle.
           simpl in Hle. lia.
Qed.

Lemma diff_next_done s self :
  di_num_records self <= di_insertion_index self ->
  tree_diff_iterator_next s self = Some (0, 0, [], [], self).
Proof.
  intros Hge. unfold tree_diff_iterator_next.
  destruct (Z.ltb_spec (di_insertion_index self) (di_num_records self));
    [lia|].
  by rewrite Z.sub_diag.
Qed.

Lemma diff_iterator_ok_alloc s :
  records_tile s -> diff_iterator_ok s (snd (tree_diff_iterator_alloc s)).
Proof.
  intros (Hc & _ & _ & Hlr & _). unfold diff_iterator_ok. simpl.
  repeat split; try done; try lia.
  - intros _. destruct Hc as (_ & _ & _ & _ & _ & _ & _ & _ & Hio & _).
    apply list_elem_of_lookup_2, Hio, Hlr in H. lia.
  - intros _. destruct Hc as (_ & _ & _ & _ & _ & _ & _ & _ & _ & Hro & _).
    apply list_elem_of_lookup_2, Hro, Hlr in H. lia.
Qed.

Lemma diff_iterate_ok s n :
  records_tile s -> sample_size s < 2 ^ 31 ->
  exists self, diff_iterate s n = Some self /\ diff_iterator_ok s self.
Proof.
  intros Ht H31. induction n as [|n (self & E & Hok)].
  - eexists. split; [done|]. by apply diff_iterator_ok_alloc.
  - simpl. rewrite E. simpl.
    destruct (Z.lt_ge_cases (di_insertion_index self) (num_records s))
      as [Hlt|Hge].
    + destruct (diff_next_step s self Ht Hok Hlt)
        as (self' & k & E' & _ & _ & _ & _ & _ & Hok').
      rewrite (E' H31). by exists self'.
    + rewrite diff_next_done; [by exists self|].
      destruct Hok as (_ & -> & _). lia.
Qed.

(** C3 (as amended): on a tree sequence whose records tile the genome
    from coordinate 0, where the iterator starts, and whose sample size is
    below 2^31, after any number of calls a call of
    [tree_diff_iterator_next] whose insertion index is below the number of
    records returns 1, hands out the records whose right end is the current
    [tree_left], in removal order, then those whose left end is the current
    [tree_left], in insertion order, moves [tree_left] to the right end of
    the record at the new removal index and reports the distance it moved;
    once the insertion index has reached the number of records the call
    returns 0. *)
Theorem tree_diff_iterator_next_spec s n :
  records_tile s -> sample_size s < 2 ^ 31 ->
  exists self,
    diff_iterate s n = Some self /\
    0 <= di_insertion_index self <= num_records s /\
    (di_insertion_index self < num_records s ->
     exists self' k,
       tree_diff_iterator_next s self =
         Some (1, di_tree_left self' - di_tree_left self,
               map (node_record_at s)
                 (filter (fun k => ts_right s k = di_tree_left self)
                    (trees_removal_order s)),
               map (node_record_at s)
                 (filter (fun k => ts_left s k = di_tree_left self)
                    (trees_insertion_order s)),
               self') /\
       rd (trees_removal_order s) (di_removal_index self') = Some k /\
       di_tree_left self' = ts_right s k) /\
    (di_insertion_index self = num_records s ->
     tree_diff_iterator_next s self = Some (0, 0, [], [], self)).
Proof.
  intros Ht H31. destruct (diff_iterate_ok s n Ht H31) as (self & E & Hok).
  exists self. split; [done|].
  pose proof Hok as (_ & Hnr & Hi0 & _ & _ & Hi & _).
  pose proof Ht as ((_ & _ & _ & _ & _ & _ & Hlio & _) & _).
  split; [lia|]. split.
  - intros Hlt.
    destruct (diff_next_step s self Ht Hok Hlt)
      as (self' & k & E' & Hk & Hx & _).
    exists self', k. split; [by apply E'|done].
  - intros Heq. apply diff_next_done. lia.
Qed.

End diff_iterator.
Lemma example_ts_tiles : records_tile example_ts.
Proof.
  assert (forall k, 0 <= k < 3 -> k = 0 \/ k = 1 \/ k = 2) as Hk by lia.
  unfold records_tile, columns_ok. cbn [num_records example_ts].
  repeat match goal with |- _ /\ _ => split end;
    try reflexivity; try lia.
  - intros k Hin. cbn in Hin. set_unfold. lia.
  - intros k Hin. cbn in Hin. set_unfold. lia.
  - intros k Hin. cbn. set_unfold. lia.
  - repeat constructor; by vm_compute.
  - repeat constructor; by vm_compute.
  - intros k Hin. destruct (Hk k Hin) as [->|[->| ->]]; by vm_compute.
  - intros k Hin. destruct (Hk k Hin) as [->|[->| ->]]; by vm_compute.
  - intros k Hin. destruct (Hk k Hin) as [->|[->| ->]].
    + by left.
    + by left.
    + right. exists 1. split; [lia|reflexivity].
  - intros x.
    pose proof (length_filter (fun k => ts_right example_ts k = x)
                  (trees_removal_order example_ts)).
    pose proof (length_filter (fun k => ts_left example_ts k = x)
                  (trees_insertion_order example_ts)).
    cbn [example_ts trees_removal_order trees_insertion_order sample_size length] in *.
    lia.
Qed.

Lemma tree_diff_iterator_next_spec_witness :
  records_tile example_ts /\ sample_size example_ts < 2 ^ 31 /\
  exists self,
    diff_iterate example_ts 1 = Some self /\
    0 <= di_insertion_index self <= num_records example_ts /\
    (di_insertion_index self < num_records example_ts ->
     exists self' k,
       tree_diff_iterator_next example_ts self =
         Some (1, di_tree_left self' - di_tree_left self,
               map (node_record_at example_ts)
                 (filter (fun k => ts_right example_ts k = di_tree_left self)
                    (trees_removal_order example_ts)),
               map (node_record_at example_ts)
                 (filter (fun k => ts_left example_ts k = di_tree_left self)
                    (trees_insertion_order example_ts)),
               self') /\
       rd (trees_removal_order example_ts) (di_removal_index self') = Some k /\
       di_tree_left self' = ts_right example_ts k) /\
    (di_insertion_index self = num_records example_ts ->
     tree_diff_iterator_next example_ts self = Some (0, 0, [], [], self)).
Proof.
  split; [exact example_ts_tiles|]. split; [reflexivity|].
  apply (tree_diff_iterator_next_spec example_ts 1 example_ts_tiles).
  reflexivity.
Defined.

(** C3 as it is worded, for every tree sequence, fails on [one_based_ts],
    whose coordinates start at 1 and lie within [1, num_loci + 1].  The
    iterator starts at coordinate 0: its first call moves [tree_left] to
    2 and inserts nothing; the second call, with the insertion index still
    below the number of records, returns 1 and hands out no record to
    insert although record 1 starts at [tree_left]; the third, again with
    records left to insert, reads [removal_order] past its end. *)
Lemma tree_diff_iterator_next_counterexample :
  let s := one_based_ts in
  (forall k, 0 <= k < num_records s ->
     1 <= ts_left s k /\ ts_left s k < ts_right s k
     /\ ts_right s k <= num_loci s + 1) /\
  exists d len out d',
    diff_iterate s 1 = Some d /\
    di_insertion_index d < num_records s /\
    tree_diff_iterator_next s d = Some (1, len, out, [], d') /\
    filter (fun k => ts_left s k = di_tree_left d) (trees_insertion_order s)
      = [1] /\
    di_insertion_index d' < num_records s /\
    tree_diff_iterator_next s d' = None.
Proof.
  intros s. split.
  { intros k Hk. change (0 <= k < 2) in Hk.
    assert (k = 0 \/ k = 1) as [-> | ->] by lia;
      vm_compute; repeat split; congruence. }
  do 4 eexists. split; [vm_compute; reflexivity|].
  split; [vm_compute; reflexivity|].
  split; [vm_compute; reflexivity|].
  split; [reflexivity|].
  split; [vm_compute; reflexivity|].
  vm_compute; reflexivity.
Defined.

(** ** Forests *)

Section forests.
Context (n N : Z).

Lemma forest_climbs par kid : forest n N par kid -> climbs N par.
Proof.
  intros (Hk & _ & Hp & _) x Hx. destruct (Hp x Hx) as [H1 [E|E]].
  - destruct (Hk (par x) 0) as [? ?]; [lia|rewrite E; lia|]. rewrite E in *. lia.
  - destruct (Hk (par x) 1) as [? ?]; [lia|rewrite E; lia|]. rewrite E in *. lia.
Qed.

Lemma anc_le par x y : climbs N par -> anc par x y -> x <= y.
Proof.
  intros Hc. induction 1 as [x|x y Hx _ IH]; [lia|].
  destruct (Hc x Hx). lia.
Qed.

Lemma anc_snoc par x y : anc par x y -> par y <> 0 -> anc par x (par y).
Proof.
  induction 1 as [x|x y Hx _ IH]; intros Hy.
  - apply anc_step; [done|apply anc_refl].
  - apply anc_step; auto.
Qed.

Lemma anc_last par x y :
  anc par x y -> x <> y -> exists z, anc par x z /\ par z = y /\ y <> 0.
Proof.
  induction 1 as [x|x y Hx Ha IH]; intros Hne; [done|].
  destruct (decide (par x = y)) as [E|E].
  - exists x. split; [apply anc_refl|]. split; [done|congruence].
  - destruct (IH E) as (z & Hz & Ez & Hz0). exists z.
    split; [by apply anc_step|done].
Qed.

Lemma anc_linear par u a b :
  climbs N par -> anc par u a -> anc par u b -> a <= b -> anc par a b.
Proof.
  intros Hc Ha. revert b. induction Ha as [x|x y Hx Ha IH]; intros b Hb Hle;
    [done|].
  inversion Hb as [|? ? Hx' Hb']; subst.
  - apply (anc_le _ _ _ Hc) in Ha. destruct (Hc b Hx). lia.
  - by apply IH.
Qed.

Lemma anc_apart par x a b :
  climbs N par -> anc par x a -> anc par x b -> a < b -> par a <> 0 ->
  par a <= b.
Proof.
  intros Hc Ha Hb Hlt Hpa.
  pose proof (anc_linear par x a b Hc Ha Hb ltac:(lia)) as Hab.
  inversion Hab as [|? ? Hx' Hb']; subst; [lia|].
  by apply (anc_le _ _ _ Hc) in Hb'.
Qed.

Lemma anc_kids par kid u v :
  forest n N par kid -> v <> u -> kid v 0 <> 0 ->
  (anc par u (kid v 0) -> anc par u v) /\
  (anc par u (kid v 1) -> anc par u v) /\
  (anc par u v -> anc par u (kid v 0) \/ anc par u (kid v 1)) /\
  ~ (anc par u (kid v 0) /\ anc par u (kid v 1)).
Proof.
  intros HF Hne Ha.
  pose proof (forest_climbs _ _ HF) as Hc.
  destruct HF as (Hk & Hpk & Hp & Hz & Hd).
  assert (kid v 1 <> 0) as Hb by (by rewrite <- Hz).
  pose proof (Hpk v 0 ltac:(lia) Ha) as Pa.
  pose proof (Hpk v 1 ltac:(lia) Hb) as Pb.
  destruct (Hk v 0 ltac:(lia) Ha) as [Ra Rv].
  destruct (Hk v 1 ltac:(lia) Hb) as [Rb _].
  split; [|split; [|split]].
  - intros H. rewrite <- Pa. apply anc_snoc; [done|]. rewrite Pa. lia.
  - intros H. rewrite <- Pb. apply anc_snoc; [done|]. rewrite Pb. lia.
  - intros H. destruct (anc_last _ _ _ H ltac:(done)) as (z & Hz' & Ez & Hv0).
    destruct (Hp z ltac:(by rewrite Ez)) as [_ [E|E]]; rewrite Ez in E;
      subst z; auto.
  - intros [H0 H1]. specialize (Hd v Ha).
    destruct (Z.lt_total (kid v 0) (kid v 1)) as [Hlt|[Heq|Hgt]]; [|done|].
    + pose proof (anc_apart par u _ _ Hc H0 H1 Hlt) as Hle.
      rewrite Pa in Hle. lia.
    + pose proof (anc_apart par u _ _ Hc H1 H0 Hgt) as Hle.
      rewrite Pb in Hle. lia.
Qed.

Lemma anc_childless par kid u v :
  forest n N par kid -> v <> u -> kid v 0 = 0 -> ~ anc par u v.
Proof.
  intros (Hk & Hpk & Hp & Hz & Hd) Hne Ha H.
  destruct (anc_last _ _ _ H ltac:(done)) as (z & _ & Ez & Hv0).
  destruct (Hp z ltac:(by rewrite Ez)) as [Hz1 [E|E]]; rewrite Ez in E.
  - lia.
  - apply Hz in Ha. lia.
Qed.

(** *** Weights *)

Context (w : Z -> Z).

Lemma weight_below_fuel kid :
  kids_below n N kid ->
  forall f f' v, 0 <= v < Z.of_nat f -> v < Z.of_nat f' ->
    weight_below w n kid f v = weight_below w n kid f' v.
Proof.
  intros Hk. induction f as [|f IH]; intros f' v Hf Hf'; [lia|].
  destruct f' as [|f']; [lia|]. cbn [weight_below].
  destruct ((1 <=? v) && (v <=? n)); [done|].
  destruct (Z.eqb_spec (kid v 0) 0) as [|Ha]; [done|].
  destruct (Hk v 0 ltac:(lia) Ha) as [Ra _].
  assert (0 <= kid v 1 < v) as Rb.
  { destruct (decide (kid v 1 = 0)) as [->|Hb]; [lia|].
    destruct (Hk v 1 ltac:(lia) Hb). lia. }
  f_equal; apply IH; lia.
Qed.

Lemma weight_of_unfold kid v :
  kids_below n N kid -> 0 <= v ->
  weight_of w n kid v =
    if (1 <=? v) && (v <=? n) then w v
    else if kid v 0 =? 0 then 0
    else weight_of w n kid (kid v 0) + weight_of w n kid (kid v 1).
Proof.
  intros Hk Hv. unfold weight_of at 1. cbn [weight_below].
  destruct ((1 <=? v) && (v <=? n)); [done|].
  destruct (Z.eqb_spec (kid v 0) 0) as [|Ha]; [done|].
  destruct (Hk v 0 ltac:(lia) Ha) as [Ra _].
  assert (0 <= kid v 1 < v) as Rb.
  { destruct (decide (kid v 1 = 0)) as [->|Hb]; [lia|].
    destruct (Hk v 1 ltac:(lia) Hb). lia. }
  unfold weight_of. f_equal; apply weight_below_fuel; try done; lia.
Qed.

(** Two forests that differ in the children of [u] only: the weights below
    the nodes above [u] differ by what the weights below [u] differ, and
    those below the other nodes are the same. *)
Lemma weight_update par kid kid2 u :
  forest n N par kid -> kids_below n N kid2 ->
  (forall v j, 0 <= j <= 1 -> v <> u -> kid2 v j = kid v j) -> n < u ->
  forall v, 0 <= v ->
    (anc par u v /\
     weight_of w n kid2 v - weight_of w n kid v =
       weight_of w n kid2 u - weight_of w n kid u) \/
    (~ anc par u v /\ weight_of w n kid2 v = weight_of w n kid v).
Proof.
  intros HF Hk2 Hagree Hu.
  pose proof (forest_climbs _ _ HF) as Hc.
  pose proof HF as (Hk & _).
  assert (forall m : nat, forall v, 0 <= v < Z.of_nat m ->
    (anc par u v /\
     weight_of w n kid2 v - weight_of w n kid v =
       weight_of w n kid2 u - weight_of w n kid u) \/
    (~ anc par u v /\ weight_of w n kid2 v = weight_of w n kid v)) as H.
  { induction m as [|m IH]; intros v Hv; [lia|].
    destruct (decide (v = u)) as [->|Hne].
    { left. split; [apply anc_refl|done]. }
    rewrite (weight_of_unfold kid v), (weight_of_unfold kid2 v)
      by (done || lia).
    rewrite (Hagree v 0), (Hagree v 1) by (lia || done).
    destruct (Z.leb_spec 1 v); cbn [andb].
    2:{ destruct (Z.eqb_spec (kid v 0) 0) as [E|Ha].
        - right. split; [by eapply anc_childless|done].
        - destruct (Hk v 0 ltac:(lia) Ha). lia. }
    destruct (Z.leb_spec v n).
    { right. split; [|done]. intros Ha.
      apply (anc_le _ _ _ Hc) in Ha. lia. }
    destruct (Z.eqb_spec (kid v 0) 0) as [E|Ha].
    { right. split; [by eapply anc_childless|done]. }
    destruct (Hk v 0 ltac:(lia) Ha) as [Ra _].
    assert (kid v 1 <> 0) as Hb.
    { destruct HF as (_ & _ & _ & Hz & _). by rewrite <- Hz. }
    destruct (Hk v 1 ltac:(lia) Hb) as [Rb _].
    destruct (anc_kids par kid u v HF Hne Ha) as (K0 & K1 & K & Kx).
    destruct (IH (kid v 0) ltac:(lia)) as [[A0 E0]|[A0 E0]],
             (IH (kid v 1) ltac:(lia)) as [[A1 E1]|[A1 E1]].
    - exfalso. by apply Kx.
    - left. split; [by apply K0|]. lia.
    - left. split; [by apply K1|]. lia.
    - right. split; [|lia]. intros Hv'. destruct (K Hv'); done. }
  intros v Hv. apply (H (S (Z.to_nat v))). lia.
Qed.

(** *** The weight below a node is at most the number of samples *)

Lemma leaf_list_anc par kid :
  forest n N par kid ->
  forall f v x, x ∈ leaf_list n kid f v -> 1 <= x <= n /\ anc par x v.
Proof.
  intros HF. pose proof HF as (Hk & Hpk & Hp & Hz & Hd).
  induction f as [|f IH]; intros v x; cbn [leaf_list];
    [by intros ?%elem_of_nil|].
  destruct (Z.leb_spec 1 v); cbn [andb].
  2:{ destruct (Z.eqb_spec (kid v 0) 0) as [E|Ha];
        [by intros ?%elem_of_nil|].
      destruct (Hk v 0 ltac:(lia) Ha). lia. }
  destruct (Z.leb_spec v n).
  { intros ->%list_elem_of_singleton. split; [lia|apply anc_refl]. }
  destruct (Z.eqb_spec (kid v 0) 0) as [E|Ha]; [by intros ?%elem_of_nil|].
  assert (kid v 1 <> 0) as Hb by (by rewrite <- Hz).
  destruct (Hk v 0 ltac:(lia) Ha) as [Ra _].
  intros [Hin|Hin]%elem_of_app; destruct (IH _ _ Hin) as [Hx Hanc];
    (split; [done|]).
  - rewrite <- (Hpk v 0) by (lia || done).
    apply anc_snoc; [done|]. rewrite Hpk by (lia || done). lia.
  - rewrite <- (Hpk v 1) by (lia || done).
    apply anc_snoc; [done|]. rewrite Hpk by (lia || done). lia.
Qed.

Lemma leaf_list_NoDup par kid :
  forest n N par kid -> forall f v, NoDup (leaf_list n kid f v).
Proof.
  intros HF. pose proof HF as (Hk & Hpk & Hp & Hz & Hd).
  induction f as [|f IH]; intros v; cbn [leaf_list]; [constructor|].
  destruct ((1 <=? v) && (v <=? n)); [apply NoDup_singleton|].
  destruct (Z.eqb_spec (kid v 0) 0) as [E|Ha]; [constructor|].
  apply NoDup_app. split; [apply IH|]. split; [|apply IH].
  intros x H0 H1.
  destruct (leaf_list_anc par kid HF _ _ _ H0) as [Hx A0].
  destruct (leaf_list_anc par kid HF _ _ _ H1) as [_ A1].
  destruct (Hk v 0 ltac:(lia) Ha) as [_ Rv].
  destruct (anc_kids par kid x v HF ltac:(lia) Ha) as (_ & _ & _ & Kx).
  by apply Kx.
Qed.

Lemma leaf_list_length par kid f v :
  forest n N par kid -> 0 <= n ->
  Z.of_nat (length (leaf_list n kid f v)) <= n.
Proof.
  intros HF Hn.
  assert (leaf_list n kid f v ⊆+ seqZ 1 n) as Hsub.
  { apply NoDup_submseteq; [by eapply leaf_list_NoDup|].
    intros x Hx. apply (leaf_list_anc par kid HF) in Hx as [Hx _].
    apply elem_of_seqZ. lia. }
  apply submseteq_length in Hsub. rewrite length_seqZ in Hsub. lia.
Qed.

Lemma weight_below_leaf_list kid f v :
  (forall x, 0 <= w x <= 1) ->
  0 <= weight_below w n kid f v <= Z.of_nat (length (leaf_list n kid f v)).
Proof.
  intros Hw. revert v. induction f as [|f IH]; intros v;
    cbn [weight_below leaf_list]; [simpl; lia|].
  destruct ((1 <=? v) && (v <=? n)); [specialize (Hw v); simpl; lia|].
  destruct (kid v 0 =? 0); [simpl; lia|].
  rewrite length_app. specialize (IH (kid v 0)) as H0.
  specialize (IH (kid v 1)) as H1. lia.
Qed.

Lemma weight_of_bound par kid v :
  forest n N par kid -> 0 <= n -> (forall x, 0 <= w x <= 1) ->
  0 <= weight_of w n kid v <= n.
Proof.
  intros HF Hn Hw. unfold weight_of.
  pose proof (weight_below_leaf_list kid (S (Z.to_nat v)) v Hw).
  pose proof (leaf_list_length par kid (S (Z.to_nat v)) v HF Hn). lia.
Qed.

End forests.

(** ** The loops that carry a difference up the tree *)

Lemma wrap32_small x : 0 <= x < 2 ^ 32 -> wrap32 x = x.
Proof. intros Hx. unfold wrap32. by apply Z.mod_small. Qed.

Lemma rd_wr {A} (a a' : list A) i j v :
  wr a i v = Some a' -> rd a' j = if decide (j = i) then Some v else rd a j.
Proof.
  intros E. destruct (decide (j = i)) as [->|Hne].
  - by eapply rd_wr_same.
  - by eapply rd_wr_other.
Qed.

Lemma rd_None_range {A} (a : list A) i :
  ~ 0 <= i < Z.of_nat (length a) -> rd a i = None.
Proof.
  intros Hi. destruct (rd a i) as [v|] eqn:E; [|done].
  apply rd_Some_range in E. lia.
Qed.

Lemma propagate_pair op parent d1 d2 :
  forall fuel u nl ntl nl' ntl',
  propagate1 op fuel parent u d1 nl = Some nl' ->
  propagate1 op fuel parent u d2 ntl = Some ntl' ->
  propagate op fuel parent u d1 d2 nl ntl = Some (nl', ntl').
Proof.
  induction fuel as [|fuel IH]; intros u nl ntl nl' ntl'; cbn [propagate1 propagate].
  - destruct (u =? 0); [|done]. by intros [= <-] [= <-].
  - destruct (u =? 0); [by intros [= <-] [= <-]|].
    destruct (rd nl u) as [a|]; [|done]. cbn [mbind option_bind].
    destruct (wr nl u _) as [nl1|]; [|done]. cbn [mbind option_bind].
    destruct (rd ntl u) as [b|]; [|done]. cbn [mbind option_bind].
    destruct (wr ntl u _) as [ntl1|]; [|done]. cbn [mbind option_bind].
    destruct (rd parent u) as [p|]; [|done]. cbn [mbind option_bind].
    apply IH.
Qed.

Section propagation.
Context (op : Z -> Z -> Z) (N : Z) (parent : list Z) (d : Z).
Let par := parent_of parent.

Lemma propagate1_spec :
  climbs N par -> Z.of_nat (length parent) = N + 1 ->
  forall fuel u count,
  Z.of_nat (length count) = N + 1 -> 0 <= u <= N ->
  N < u + Z.of_nat fuel \/ u = 0 ->
  exists count',
    propagate1 op fuel parent u d count = Some count' /\
    length count' = length count /\
    forall v,
      (u <> 0 -> anc par u v ->
       rd count' v = (fun a => wrap32 (op a d)) <$> rd count v) /\
      (u = 0 \/ ~ anc par u v -> rd count' v = rd count v).
Proof.
  intros Hc Hlp. induction fuel as [|fuel IH]; intros u count Hlc Hu Hf;
    cbn [propagate1]; destruct (Z.eqb_spec u 0) as [->|Hu0].
  - exists count. repeat split; try done.
  - lia.
  - exists count. repeat split; try done.
  - destruct (rd_in_range count u) as [a Ea]; [lia|]. rewrite Ea.
    cbn [mbind option_bind].
    rewrite wr_in_range by lia. cbn [mbind option_bind].
    set (count1 := <[Z.to_nat u := wrap32 (op a d)]> count).
    assert (wr count u (wrap32 (op a d)) = Some count1) as W
      by (by rewrite wr_in_range by lia).
    destruct (rd_in_range parent u) as [p Ep]; [lia|]. rewrite Ep.
    cbn [mbind option_bind].
    assert (p = par u) as -> by (unfold par, parent_of; by rewrite Ep).
    assert (par u = 0 \/ (u < par u /\ par u <= N)) as Hp.
    { destruct (decide (par u = 0)); [by left|right].
      pose proof (Hc u ltac:(done)). lia. }
    destruct (IH (par u) count1) as (count' & E & Hl & Hv).
    { unfold count1. rewrite length_insert. lia. }
    { lia. }
    { lia. }
    exists count'. split; [done|]. split.
    { rewrite Hl. unfold count1. apply length_insert. }
    intros v. destruct (Hv v) as [Hv1 Hv2]. split.
    + intros _ Ha. inversion Ha as [|? ? Hx Ha']; subst.
      * rewrite Hv2, (rd_wr _ _ _ _ _ W), Ea.
        { by destruct (decide (v = v)). }
        destruct Hp as [Hp|Hp]; [by left|right].
        intros Ha'. apply (anc_le N _ _ _ Hc) in Ha'. lia.
      * rewrite Hv1 by done.
        rewrite (rd_wr _ _ _ _ _ W).
        apply (anc_le N _ _ _ Hc) in Ha'.
        destruct (decide (v = u)); [lia|done].
    + intros [?|Hn]; [done|].
      rewrite Hv2, (rd_wr _ _ _ _ _ W).
      * destruct (decide (v = u)) as [->|]; [|done].
        exfalso. apply Hn, anc_refl.
      * destruct (decide (par u = 0)); [by left|right].
        intros Ha. apply Hn. by apply anc_step.
Qed.

End propagation.

(** The counts of a forest follow when a node loses its children ... *)
Section counts.
Context (n N : Z) (w : Z -> Z).
Context (Hn : 1 <= n) (Hn32 : n < 2 ^ 32) (Hw : forall x, 0 <= w x <= 1).

Lemma counts_after_removal parent kid kid' u count :
  let par := parent_of parent in
  forest n N par kid' -> kids_below n N kid ->
  (forall v j, 0 <= j <= 1 -> v <> u -> kid v j = kid' v j) ->
  n < u <= N -> kid' u 0 = 0 ->
  Z.of_nat (length parent) = N + 1 -> Z.of_nat (length count) = N + 1 ->
  (forall v, 0 <= v <= N -> rd count v = Some (weight_of w n kid v)) ->
  exists count',
    propagate1 Z.sub (length parent) parent u (weight_of w n kid u) count
      = Some count' /\
    length count' = length count /\
    forall v, 0 <= v <= N -> rd count' v = Some (weight_of w n kid' v).
Proof.
  intros par HF Hk Hagree Hu Hu0 Hlp Hlc Hcount.
  pose proof (forest_climbs _ _ _ _ HF) as Hc.
  destruct (propagate1_spec Z.sub N parent (weight_of w n kid u) Hc Hlp
              (length parent) u count Hlc ltac:(lia) ltac:(lia))
    as (count' & E & Hl & Hv).
  exists count'. split; [done|]. split; [done|].
  intros v Hvr. destruct (Hv v) as [Hv1 Hv2].
  pose proof (weight_of_bound n N w par kid' v HF ltac:(lia) Hw) as Hb.
  assert (weight_of w n kid' u = 0) as Eu.
  { destruct HF as (Hk' & _).
    rewrite (weight_of_unfold n N) by (done || lia).
    destruct (Z.leb_spec u n); [lia|]. rewrite andb_false_r.
    by rewrite Hu0. }
  destruct (weight_update n N w par kid' kid u HF Hk Hagree ltac:(lia) v
              ltac:(lia)) as [[Ha Ew]|[Ha Ew]].
  - rewrite Hv1, Hcount by (done || lia). cbn [fmap option_fmap option_map].
    f_equal. rewrite <- wrap32_small by lia. f_equal. lia.
  - rewrite Hv2, Hcount by (auto || lia). by rewrite Ew.
Qed.

(** ... and when a childless node gets two parentless children. *)
Lemma counts_after_insertion parent kid kid' u count :
  let par := parent_of parent in
  forest n N par kid' -> kids_below n N kid ->
  (forall v j, 0 <= j <= 1 -> v <> u -> kid v j = kid' v j) ->
  n < u <= N -> kid u 0 = 0 -> kid' u 0 <> 0 ->
  Z.of_nat (length parent) = N + 1 -> Z.of_nat (length count) = N + 1 ->
  (forall v, 0 <= v <= N -> rd count v = Some (weight_of w n kid v)) ->
  exists count',
    propagate1 Z.add (length parent) parent u
      (wrap32 (weight_of w n kid (kid' u 0) + weight_of w n kid (kid' u 1)))
      count = Some count' /\
    length count' = length count /\
    forall v, 0 <= v <= N -> rd count' v = Some (weight_of w n kid' v).
Proof.
  intros par HF Hk Hagree Hu Hu0 Hu0' Hlp Hlc Hcount.
  pose proof (forest_climbs _ _ _ _ HF) as Hc.
  pose proof HF as (Hk' & _ & _ & Hz & _).
  assert (kid' u 1 <> 0) as Hu1' by (by rewrite <- Hz).
  destruct (Hk' u 0 ltac:(lia) Hu0') as [R0 _].
  destruct (Hk' u 1 ltac:(lia) Hu1') as [R1 _].
  assert (weight_of w n kid u = 0) as Eu.
  { rewrite (weight_of_unfold n N) by (done || lia).
    destruct (Z.leb_spec u n); [lia|]. rewrite andb_false_r.
    by rewrite Hu0. }
  assert (forall c, 0 <= c < u -> weight_of w n kid c = weight_of w n kid' c)
    as Ebelow.
  { intros c Hcu.
    destruct (weight_update n N w par kid' kid u HF Hk Hagree ltac:(lia) c
                ltac:(lia)) as [[Ha Ew]|[Ha Ew]]; [|done].
    apply (anc_le N _ _ _ Hc) in Ha. lia. }
  assert (weight_of w n kid' u =
          weight_of w n kid (kid' u 0) + weight_of w n kid (kid' u 1)) as Eu'.
  { rewrite (weight_of_unfold n N w kid' u) by (done || lia).
    destruct (Z.leb_spec u n); [lia|]. rewrite andb_false_r.
    destruct (Z.eqb_spec (kid' u 0) 0); [done|].
    by rewrite !Ebelow by lia. }
  pose proof (weight_of_bound n N w par kid' u HF ltac:(lia) Hw) as Hbu.
  rewrite <- Eu', wrap32_small by lia.
  destruct (propagate1_spec Z.add N parent (weight_of w n kid' u) Hc Hlp
              (length parent) u count Hlc ltac:(lia) ltac:(lia))
    as (count' & E & Hl & Hv).
  exists count'. split; [done|]. split; [done|].
  intros v Hvr. destruct (Hv v) as [Hv1 Hv2].
  pose proof (weight_of_bound n N w par kid' v HF ltac:(lia) Hw) as Hb.
  destruct (weight_update n N w par kid' kid u HF Hk Hagree ltac:(lia) v
              ltac:(lia)) as [[Ha Ew]|[Ha Ew]].
  - rewrite Hv1, Hcount by (done || lia). cbn [fmap option_fmap option_map].
    f_equal. rewrite <- wrap32_small by lia. f_equal. lia.
  - rewrite Hv2, Hcount by (auto || lia). by rewrite Ew.
Qed.

End counts.

(** ** The links of a tree and the records of the tree sequence *)

Lemma wr_ex {A} (a : list A) i v :
  0 <= i < Z.of_nat (length a) ->
  exists a', wr a i v = Some a' /\ length a' = length a.
Proof.
  intros Hi. exists (<[Z.to_nat i := v]> a).
  split; [by apply wr_in_range|apply length_insert].
Qed.

Lemma parent_of_wr a a' i j x :
  wr a i x = Some a' ->
  parent_of a' j = if decide (j = i) then x else parent_of a j.
Proof.
  intros W. unfold parent_of. rewrite (rd_wr _ _ _ _ _ W).
  by destruct (decide (j = i)).
Qed.

Lemma child_of_wr a a' u j0 v j x :
  wr a (2 * u + j0) x = Some a' -> 0 <= j0 <= 1 -> 0 <= j <= 1 ->
  child_of a' v j = if decide (v = u /\ j = j0) then x else child_of a v j.
Proof.
  intros W Hj0 Hj. unfold child_of. rewrite (rd_wr _ _ _ _ _ W).
  destruct (decide (2 * v + j = 2 * u + j0)), (decide (v = u /\ j = j0));
    try done; lia.
Qed.

Lemma rd_ts_node s k :
  columns_ok s -> 0 <= k < num_records s ->
  rd (trees_node s) k = Some (ts_node s k).
Proof.
  intros (? & _ & _ & Hl & _) Hk. unfold ts_node.
  destruct (rd_in_range (trees_node s) k) as [v ->]; [lia|done].
Qed.

Lemma rd_ts_time s k :
  columns_ok s -> 0 <= k < num_records s ->
  rd (trees_time s) k = Some (ts_time s k).
Proof.
  intros (? & _ & _ & _ & _ & Hl & _) Hk. unfold ts_time.
  destruct (rd_in_range (trees_time s) k) as [v ->]; [lia|done].
Qed.

Lemma rd_ts_child s k j :
  columns_ok s -> 0 <= k < num_records s -> 0 <= j <= 1 ->
  rd (trees_children s) (wrap32 (2 * k + j)) = Some (ts_child s k j).
Proof.
  intros (? & _ & _ & _ & Hl & _) Hk Hj. unfold ts_child.
  rewrite wrap32_small by lia.
  destruct (rd_in_range (trees_children s) (2 * k + j)) as [v ->];
    [lia|done].
Qed.

Lemma links_forest s live parent children :
  records_nest s -> links_hold s live parent children ->
  forest (sample_size s) (num_nodes s) (parent_of parent)
    (child_of children).
Proof.
  intros (Hn1 & HnN & H32 & _ & _ & Hrec & _) (Hr & Hl & Hch & Hpa).
  split; [|split; [|split; [|split]]].
  - intros v j Hj Hne. destruct (Hch v j Hj Hne) as (k & Hk & Ev & Ec).
    destruct (Hrec k (Hr k Hk)) as (Rn & R0 & R1 & Rd).
    rewrite <- Ec, <- Ev. assert (j = 0 \/ j = 1) as [-> | ->] by lia; lia.
  - intros v j Hj Hne. destruct (Hch v j Hj Hne) as (k & Hk & Ev & Ec).
    rewrite <- Ec, <- Ev. by apply Hl.
  - intros c Hc. destruct (Hpa c Hc) as (k & j & Hk & Hj & Ec & Eu).
    destruct (Hrec k (Hr k Hk)) as (Rn & R0 & R1 & Rd).
    destruct (Hl k j Hk Hj) as [E _]. rewrite Ec, Eu in E.
    assert (j = 0 \/ j = 1) as [-> | ->] by lia; subst c; (split; [lia|]);
      auto.
  - intros v. split; intros E0.
    + destruct (decide (child_of children v 1 = 0)) as [|Hne]; [done|].
      destruct (Hch v 1 ltac:(lia) Hne) as (k & Hk & Ev & Ec).
      destruct (Hl k 0 Hk ltac:(lia)) as [E _]. rewrite Ev, E0 in E.
      destruct (Hrec k (Hr k Hk)) as (Rn & R0 & R1 & Rd). lia.
    + destruct (decide (child_of children v 0 = 0)) as [|Hne]; [done|].
      destruct (Hch v 0 ltac:(lia) Hne) as (k & Hk & Ev & Ec).
      destruct (Hl k 1 Hk ltac:(lia)) as [E _]. rewrite Ev, E0 in E.
      destruct (Hrec k (Hr k Hk)) as (Rn & R0 & R1 & Rd). lia.
  - intros v Hne. destruct (Hch v 0 ltac:(lia) Hne) as (k & Hk & Ev & Ec).
    destruct (Hl k 0 Hk ltac:(lia)) as [E0 _].
    destruct (Hl k 1 Hk ltac:(lia)) as [E1 _].
    rewrite Ev in E0, E1. rewrite E0, E1.
    destruct (Hrec k (Hr k Hk)) as (Rn & R0 & R1 & Rd). done.
Qed.

Lemma links_after_removal s live parent children k p1 p2 ch1 ch2 :
  links_hold s live parent children -> live k -> apart s live k ->
  wr parent (ts_child s k 0) 0 = Some p1 ->
  wr p1 (ts_child s k 1) 0 = Some p2 ->
  wr children (2 * ts_node s k + 0) 0 = Some ch1 ->
  wr ch1 (2 * ts_node s k + 1) 0 = Some ch2 ->
  links_hold s (fun k' => live k' /\ k' <> k) p2 ch2 /\
  (forall v j, 0 <= j <= 1 -> v <> ts_node s k ->
     child_of children v j = child_of ch2 v j) /\
  child_of ch2 (ts_node s k) 0 = 0.
Proof.
  intros (Hr & Hl & Hch & Hpa) Hk Hap W1 W2 W3 W4.
  set (u := ts_node s k) in *. set (c0 := ts_child s k 0) in *.
  set (c1 := ts_child s k 1) in *.
  assert (forall c, parent_of p2 c =
            if decide (c = c0 \/ c = c1) then 0 else parent_of parent c)
    as P.
  { intros c. rewrite (parent_of_wr _ _ _ _ _ W2), (parent_of_wr _ _ _ _ _ W1).
    destruct (decide (c = c1)), (decide (c = c0)),
      (decide (c = c0 \/ c = c1)); try done; tauto. }
  assert (forall v j, 0 <= j <= 1 -> child_of ch2 v j =
            if decide (v = u) then 0 else child_of children v j) as C.
  { intros v j Hj.
    rewrite (child_of_wr _ _ _ _ _ _ _ W4), (child_of_wr _ _ _ _ _ _ _ W3)
      by lia.
    destruct (decide (v = u /\ j = 1)), (decide (v = u /\ j = 0)),
      (decide (v = u)); try done; lia. }
  split; [|split].
  - split; [|split; [|split]].
    + intros k' [Hk' _]. by apply Hr.
    + intros k' j [Hk' Hne] Hj. destruct (Hap k' Hk' Hne) as [Hn Hc].
      destruct (Hl k' j Hk' Hj) as [E1 E2].
      rewrite C, P by done. fold u in Hn.
      destruct (decide (ts_node s k' = u)); [done|].
      destruct (decide (ts_child s k' j = c0 \/ ts_child s k' j = c1))
        as [[E|E]|]; [| |done].
      * exfalso. by apply (Hc j 0).
      * exfalso. by apply (Hc j 1).
    + intros v j Hj. rewrite C by done.
      destruct (decide (v = u)) as [|Hvu]; [done|]. intros Hne.
      destruct (Hch v j Hj Hne) as (k' & Hk' & Ev & Ec).
      exists k'. split; [|done]. split; [done|]. intros ->. by apply Hvu.
    + intros c. rewrite P.
      destruct (decide (c = c0 \/ c = c1)) as [|Hc]; [done|]. intros Hne.
      destruct (Hpa c Hne) as (k' & j & Hk' & Hj & Ec & Eu).
      exists k', j. split; [|done]. split; [done|]. intros ->.
      apply Hc. unfold c0, c1.
      assert (j = 0 \/ j = 1) as [-> | ->] by lia; auto.
  - intros v j Hj Hvu. rewrite C by done. by destruct (decide (v = u)).
  - rewrite C by lia. by destruct (decide (u = u)).
Qed.

Lemma links_after_insertion s live parent children k p1 p2 ch1 ch2 :
  links_hold s live parent children ->
  0 <= k < num_records s -> ~ live k -> apart s live k ->
  wr parent (ts_child s k 0) (ts_node s k) = Some p1 ->
  wr p1 (ts_child s k 1) (ts_node s k) = Some p2 ->
  wr children (2 * ts_node s k + 0) (ts_child s k 0) = Some ch1 ->
  wr ch1 (2 * ts_node s k + 1) (ts_child s k 1) = Some ch2 ->
  links_hold s (fun k' => live k' \/ k' = k) p2 ch2 /\
  (forall v j, 0 <= j <= 1 -> v <> ts_node s k ->
     child_of children v j = child_of ch2 v j) /\
  child_of children (ts_node s k) 0 = 0 /\
  child_of ch2 (ts_node s k) 0 = ts_child s k 0 /\
  child_of ch2 (ts_node s k) 1 = ts_child s k 1.
Proof.
  intros (Hr & Hl & Hch & Hpa) Hkr Hk Hap W1 W2 W3 W4.
  set (u := ts_node s k) in *. set (c0 := ts_child s k 0) in *.
  set (c1 := ts_child s k 1) in *.
  assert (forall c, parent_of p2 c =
            if decide (c = c0 \/ c = c1) then u else parent_of parent c)
    as P.
  { intros c. rewrite (parent_of_wr _ _ _ _ _ W2), (parent_of_wr _ _ _ _ _ W1).
    destruct (decide (c = c1)), (decide (c = c0)),
      (decide (c = c0 \/ c = c1)); try done; tauto. }
  assert (forall v j, 0 <= j <= 1 -> child_of ch2 v j =
            if decide (v = u) then ts_child s k j else child_of children v j)
    as C.
  { intros v j Hj.
    rewrite (child_of_wr _ _ _ _ _ _ _ W4), (child_of_wr _ _ _ _ _ _ _ W3)
      by lia.
    destruct (decide (v = u)) as [->|Hvu]; repeat case_decide;
      try lia; try done.
    all: by destruct_and!; subst. }
  assert (forall k', live k' -> k' <> k) as Hne by (by intros k' ? ->).
  split; [|split; [|split; [|split]]].
  - split; [|split; [|split]].
    + intros k' [Hk'| ->]; [by apply Hr|done].
    + intros k' j [Hk'| ->] Hj.
      * destruct (Hap k' Hk' (Hne k' Hk')) as [Hn Hc].
        destruct (Hl k' j Hk' Hj) as [E1 E2].
        rewrite C, P by done. fold u in Hn.
        destruct (decide (ts_node s k' = u)); [done|].
        destruct (decide (ts_child s k' j = c0 \/ ts_child s k' j = c1))
          as [[E|E]|]; [| |done].
        -- exfalso. by apply (Hc j 0).
        -- exfalso. by apply (Hc j 1).
      * fold u. rewrite C, P by done.
        destruct (decide (u = u)); [|done].
        destruct (decide (ts_child s k j = c0 \/ ts_child s k j = c1))
          as [|Hc]; [done|].
        exfalso. apply Hc. unfold c0, c1.
        assert (j = 0 \/ j = 1) as [-> | ->] by lia; auto.
    + intros v j Hj. rewrite C by done.
      destruct (decide (v = u)) as [->|Hvu].
      * intros _. exists k. auto.
      * intros Hne'. destruct (Hch v j Hj Hne') as (k' & Hk' & Ev & Ec).
        exists k'. auto.
    + intros c. rewrite P.
      destruct (decide (c = c0 \/ c = c1)) as [[-> | ->]|Hc].
      * intros _. exists k, 0. split; [auto|]. split; [lia|done].
      * intros _. exists k, 1. split; [auto|]. split; [lia|done].
      * intros Hne'. destruct (Hpa c Hne') as (k' & j & Hk' & Hj & Ec & Eu).
        exists k', j. auto.
  - intros v j Hj Hvu. rewrite C by done. by destruct (decide (v = u)).
  - destruct (decide (child_of children u 0 = 0)) as [|Hne']; [done|].
    destruct (Hch u 0 ltac:(lia) Hne') as (k' & Hk' & Ev & _).
    destruct (Hap k' Hk' (Hne k' Hk')) as [Hn _]. done.
  - rewrite C by lia. by destruct (decide (u = u)).
  - rewrite C by lia. by destruct (decide (u = u)).
Qed.

(** ** One record leaves or enters the tree *)

Lemma is_tracked_bound tracked x : 0 <= is_tracked tracked x <= 1.
Proof. unfold is_tracked. destruct (decide (x ∈ tracked)); lia. Qed.

Section records.
Context `{msprime_h}.
Context (s : tree_sequence_t) (tracked : list Z).
Context (Hc : columns_ok s) (Hnest : records_nest s).

Lemma remove_record_spec live t k :
  tree_ok s tracked live t -> live k -> apart s live k ->
  exists t',
    remove_record s k t = Some t' /\
    tree_ok s tracked (fun k' => live k' /\ k' <> k) t' /\
    t_left t' = t_left t /\ t_right t' = t_right t.
Proof.
  intros (Hshape & Hlinks & Hnl & Hntl) Hk Hap.
  pose proof Hnest as (Hn1 & HnN & H32 & _ & _ & Hrec & _).
  pose proof Hshape as (Ess & Enn & Hfl & Lp & Lt & Lc & Lnl & Lntl & Ls1
                        & Emm & Lm & Hroot).
  pose proof Hlinks as (Hr & _). pose proof (Hr k Hk) as Hkr.
  destruct (Hrec k Hkr) as (Rn & R0 & R1 & Rd).
  set (u := ts_node s k) in *. set (c0 := ts_child s k 0) in *.
  set (c1 := ts_child s k 1) in *.
  set (n := sample_size s) in *. set (N := num_nodes s) in *.
  destruct (wr_ex (t_parent t) c0 0) as (p1 & W1 & L1); [lia|].
  destruct (wr_ex p1 c1 0) as (p2 & W2 & L2); [lia|].
  destruct (wr_ex (t_children t) (2 * u + 0) 0) as (ch1 & W3 & L3); [lia|].
  destruct (wr_ex ch1 (2 * u + 1) 0) as (ch2 & W4 & L4); [lia|].
  destruct (wr_ex (t_time t) u d_zero) as (tm & W5 & L5); [lia|].
  destruct (links_after_removal s live _ _ k p1 p2 ch1 ch2 Hlinks Hk Hap
              W1 W2 W3 W4) as (Hlinks' & Hag & Hu0).
  pose proof (links_forest s _ p2 ch2 Hnest Hlinks') as HF'.
  pose proof (links_forest s _ _ _ Hnest Hlinks) as (Hkb & _).
  fold n N u in HF', Hkb, Hag, Hu0.
  assert (n < 2 ^ 32) as Hn32 by lia.
  destruct (counts_after_removal n N (fun _ => 1) ltac:(lia) Hn32
              ltac:(intros; lia) p2 _ _ u (t_num_leaves t) HF' Hkb Hag
              ltac:(lia) Hu0 ltac:(lia) ltac:(lia) Hnl)
    as (nl' & P1 & Lnl' & Hnl').
  destruct (counts_after_removal n N (is_tracked tracked) ltac:(lia) Hn32
              (is_tracked_bound tracked) p2 _ _ u (t_num_tracked_leaves t)
              HF' Hkb Hag ltac:(lia) Hu0 ltac:(lia) ltac:(lia) Hntl)
    as (ntl' & P2 & Lntl' & Hntl').
  eexists. split.
  - unfold remove_record. rewrite rd_ts_node by done.
    cbn [mbind option_bind].
    replace (wrap32 (2 * k)) with (wrap32 (2 * k + 0)) by (f_equal; lia).
    rewrite !rd_ts_child by (done || lia). cbn [mbind option_bind].
    fold u c0 c1. rewrite !wrap32_small by lia.
    rewrite W1. cbn [mbind option_bind]. rewrite W3. cbn [mbind option_bind].
    rewrite W2. cbn [mbind option_bind]. rewrite W4. cbn [mbind option_bind].
    rewrite W5. cbn [mbind option_bind].
    cbn [t_flags t_parent t_num_leaves t_num_tracked_leaves with_root
         with_links].
    destruct (Z.eqb_spec (Z.land (t_flags t) MSP_COUNT_LEAVES) 0);
      [exfalso; done|].
    rewrite (Hnl u), (Hntl u) by lia. cbn [mbind option_bind].
    rewrite (propagate_pair _ _ _ _ _ _ _ _ _ _ P1 P2).
    cbn [mbind option_bind fst snd]. reflexivity.
  - cbn. split; [|done]. split; [|split; [done|split; done]].
    unfold tree_shape. cbn. fold n N.
    repeat match goal with |- _ /\ _ => split end; try done; try lia.
    all: destruct (u =? t_root t); lia.
Qed.

Lemma insert_record_spec live t k :
  tree_ok s tracked live t ->
  0 <= k < num_records s -> ~ live k -> apart s live k ->
  exists t',
    insert_record s k t = Some t' /\
    tree_ok s tracked (fun k' => live k' \/ k' = k) t' /\
    t_left t' = t_left t /\ t_right t' = t_right t.
Proof.
  intros (Hshape & Hlinks & Hnl & Hntl) Hkr Hk Hap.
  pose proof Hnest as (Hn1 & HnN & H32 & _ & _ & Hrec & _).
  pose proof Hshape as (Ess & Enn & Hfl & Lp & Lt & Lc & Lnl & Lntl & Ls1
                        & Emm & Lm & Hroot).
  destruct (Hrec k Hkr) as (Rn & R0 & R1 & Rd).
  set (u := ts_node s k) in *. set (c0 := ts_child s k 0) in *.
  set (c1 := ts_child s k 1) in *.
  set (n := sample_size s) in *. set (N := num_nodes s) in *.
  destruct (wr_ex (t_parent t) c0 u) as (p1 & W1 & L1); [lia|].
  destruct (wr_ex p1 c1 u) as (p2 & W2 & L2); [lia|].
  destruct (wr_ex (t_children t) (2 * u + 0) c0) as (ch1 & W3 & L3); [lia|].
  destruct (wr_ex ch1 (2 * u + 1) c1) as (ch2 & W4 & L4); [lia|].
  destruct (wr_ex (t_time t) u (ts_time s k)) as (tm & W5 & L5); [lia|].
  destruct (links_after_insertion s live _ _ k p1 p2 ch1 ch2 Hlinks Hkr Hk
              Hap W1 W2 W3 W4) as (Hlinks' & Hag & Hu0 & Hu0' & Hu1').
  pose proof (links_forest s _ p2 ch2 Hnest Hlinks') as HF'.
  pose proof (links_forest s _ _ _ Hnest Hlinks) as (Hkb & _).
  fold n N u c0 c1 in HF', Hkb, Hag, Hu0, Hu0', Hu1'.
  assert (n < 2 ^ 32) as Hn32 by lia.
  destruct (counts_after_insertion n N (fun _ => 1) ltac:(lia) Hn32
              ltac:(intros; lia) p2 _ _ u (t_num_leaves t) HF' Hkb Hag
              ltac:(lia) Hu0 ltac:(rewrite Hu0'; lia) ltac:(lia) ltac:(lia)
              Hnl)
    as (nl' & P1 & Lnl' & Hnl').
  destruct (counts_after_insertion n N (is_tracked tracked) ltac:(lia) Hn32
              (is_tracked_bound tracked) p2 _ _ u (t_num_tracked_leaves t)
              HF' Hkb Hag ltac:(lia) Hu0 ltac:(rewrite Hu0'; lia)
              ltac:(lia) ltac:(lia) Hntl)
    as (ntl' & P2 & Lntl' & Hntl').
  rewrite Hu0', Hu1' in P1, P2.
  eexists. split.
  - unfold insert_record. rewrite rd_ts_node by done.
    cbn [mbind option_bind].
    replace (wrap32 (2 * k)) with (wrap32 (2 * k + 0)) by (f_equal; lia).
    rewrite !rd_ts_child by (done || lia). cbn [mbind option_bind].
    fold u c0 c1. rewrite !wrap32_small by lia.
    rewrite W1. cbn [mbind option_bind]. rewrite W3. cbn [mbind option_bind].
    rewrite W2. cbn [mbind option_bind]. rewrite W4. cbn [mbind option_bind].
    rewrite rd_ts_time by done. cbn [mbind option_bind].
    rewrite W5. cbn [mbind option_bind].
    cbn [t_flags t_parent t_num_leaves t_num_tracked_leaves with_root
         with_links].
    destruct (Z.eqb_spec (Z.land (t_flags t) MSP_COUNT_LEAVES) 0);
      [exfalso; done|].
    rewrite (Hnl c0), (Hnl c1), (Hntl c0), (Hntl c1) by lia.
    cbn [mbind option_bind].
    rewrite (propagate_pair _ _ _ _ _ _ _ _ _ _ P1 P2).
    cbn [mbind option_bind fst snd]. reflexivity.
  - cbn. split; [|done]. split; [|split; [done|split; done]].
    unfold tree_shape. cbn. fold n N.
    repeat match goal with |- _ /\ _ => split end; try done; try lia.
    all: destruct (t_root t <? u); lia.
Qed.

End records.

(** ** The loops of sparse_tree_iterator_next *)

Lemma tree_ok_ext `{msprime_h} s tracked (live1 live2 : Z -> Prop) t :
  (forall k, live1 k <-> live2 k) ->
  tree_ok s tracked live1 t -> tree_ok s tracked live2 t.
Proof.
  intros E (Hs & (Hr & Hl & Hch & Hpa) & Hn & Ht).
  split; [done|]. split; [|done].
  split; [|split; [|split]].
  - intros k Hk. apply Hr. by apply E.
  - intros k j Hk. apply Hl. by apply E.
  - intros v j Hj Hne. destruct (Hch v j Hj Hne) as (k & Hk & ?).
    exists k. split; [by apply E|done].
  - intros c Hne. destruct (Hpa c Hne) as (k & j & Hk & ?).
    exists k, j. split; [by apply E|done].
Qed.

Lemma apart_of_cover s (P : Z -> Prop) k x :
  records_nest s ->
  (forall k', P k' ->
     0 <= k' < num_records s /\ ts_left s k' < x <= ts_right s k') ->
  0 <= k < num_records s -> ts_left s k < x <= ts_right s k ->
  apart s P k.
Proof.
  intros (_ & _ & _ & _ & _ & _ & Hov & _) HP Hk Hx k' Hk' Hne.
  destruct (HP k' Hk') as [Hk'r Hx'].
  apply Hov; try done; lia.
Qed.

Section orders.
Context (s : tree_sequence_t).
Context (Hnest : records_nest s).

Lemma insertion_order_elem k :
  k ∈ trees_insertion_order s <-> 0 <= k < num_records s.
Proof.
  destruct Hnest as (_ & _ & _ & Hp & _). rewrite Hp, elem_of_seqZ. lia.
Qed.

Lemma removal_order_elem k :
  k ∈ trees_removal_order s <-> 0 <= k < num_records s.
Proof.
  destruct Hnest as (_ & _ & _ & _ & Hp & _). rewrite Hp, elem_of_seqZ. lia.
Qed.

Lemma insertion_order_NoDup : NoDup (trees_insertion_order s).
Proof.
  destruct Hnest as (_ & _ & _ & Hp & _). rewrite Hp. apply NoDup_seqZ.
Qed.

Lemma removal_order_NoDup : NoDup (trees_removal_order s).
Proof.
  destruct Hnest as (_ & _ & _ & _ & Hp & _). rewrite Hp. apply NoDup_seqZ.
Qed.

Lemma elem_of_take_lookup {A} (l : list A) (m : nat) x :
  x ∈ take m l <-> exists p, (p < m)%nat /\ l !! p = Some x.
Proof.
  split.
  - intros (p & Hp)%list_elem_of_lookup_1.
    pose proof (lookup_lt_Some _ _ _ Hp) as Hlt. rewrite length_take in Hlt.
    exists p. split; [lia|]. by rewrite lookup_take_lt in Hp by lia.
  - intros (p & Hlt & Hp). apply (list_elem_of_lookup_2 _ p).
    by rewrite lookup_take_lt by lia.
Qed.

(** The records in the tree cover the coordinate just left of [x] when
    the indexes stand at [x], also while the first loop runs. *)
Lemma live_cover (i r q : nat) x k :
  indexes_at s i r x -> (r <= q)%nat -> live s i q k ->
  0 <= k < num_records s /\ ts_left s k < x <= ts_right s k.
Proof.
  intros (_ & _ & Hio & Hro) Hq [Hi Hr].
  apply elem_of_take_lookup in Hi as (p & Hp & Hi).
  assert (0 <= k < num_records s) as Hk
    by (by eapply insertion_order_elem, list_elem_of_lookup_2).
  split; [done|]. split.
  - by apply (Hio p k Hi).
  - apply removal_order_elem in Hk as (p' & Hp')%list_elem_of_lookup_1.
    destruct (decide (q <= p')%nat) as [Hle|Hlt].
    + apply (Hro p' k Hp'). lia.
    + exfalso. apply Hr. apply elem_of_take_lookup. exists p'.
      split; [lia|done].
Qed.

Lemma live_remove (i q : nat) k :
  trees_removal_order s !! q = Some k ->
  forall k', live s i (S q) k' <-> live s i q k' /\ k' <> k.
Proof.
  intros Hq k'. unfold live. rewrite (take_S_r _ _ _ Hq).
  rewrite not_elem_of_app, list_elem_of_singleton. tauto.
Qed.

Lemma live_insert (p r : nat) k :
  trees_insertion_order s !! p = Some k ->
  k ∉ take r (trees_removal_order s) ->
  forall k', live s (S p) r k' <-> live s p r k' \/ k' = k.
Proof.
  intros Hp Hk k'. unfold live. rewrite (take_S_r _ _ _ Hp).
  rewrite elem_of_app, list_elem_of_singleton. split.
  - intros [[?| ->] ?]; auto.
  - intros [[? ?]| ->]; auto.
Qed.

Lemma not_live_at (p r : nat) k :
  trees_insertion_order s !! p = Some k -> ~ live s p r k.
Proof.
  intros Hp [Hin _]. apply elem_of_take_lookup in Hin as (p' & Hlt & Hp').
  pose proof (NoDup_lookup _ _ _ _ insertion_order_NoDup Hp Hp'). lia.
Qed.

Lemma not_removed_at (q : nat) k :
  trees_removal_order s !! q = Some k ->
  k ∉ take q (trees_removal_order s).
Proof.
  intros Hq Hin. apply elem_of_take_lookup in Hin as (q' & Hlt & Hq').
  pose proof (NoDup_lookup _ _ _ _ removal_order_NoDup Hq Hq'). lia.
Qed.

End orders.

Lemma indexes_at_advance s (i r : nat) x :
  records_tile s -> indexes_at s i r x -> 0 <= x ->
  Z.of_nat i < num_records s ->
  let mr := run_length (ts_right s) x (drop r (trees_removal_order s)) in
  let mi := run_length (ts_left s) x (drop i (trees_insertion_order s)) in
  exists k',
    trees_removal_order s !! (r + mr)%nat = Some k' /\
    x < ts_right s k' /\
    indexes_at s (i + mi) (r + mr) (ts_right s k').
Proof.
  intros Ht Hidx Hx Hlt mr mi.
  set (self := {| di_sample_size := sample_size s;
                  di_num_nodes := num_nodes s;
                  di_num_records := num_records s;
                  di_insertion_index := Z.of_nat i;
                  di_removal_index := Z.of_nat r;
                  di_tree_left := x |}).
  assert (diff_iterator_ok s self) as Hok.
  { unfold diff_iterator_ok, self. cbn. rewrite !Nat2Z.id.
    repeat match goal with |- _ /\ _ => split end; try done; lia. }
  destruct (diff_next_step s self Ht Hok Hlt)
    as (self' & k & _ & Hk & Ex & Er & Ei & Hlt' & Hok').
  cbn [self di_removal_index di_insertion_index di_tree_left] in Er, Ei, Hlt'.
  rewrite !Nat2Z.id in Er, Ei. fold mr in Er. fold mi in Ei.
  destruct Hok' as (_ & _ & _ & _ & _ & Hidx').
  rewrite Er, Ei, !Nat2Z.id, Ex in Hidx'.
  rewrite Er, rd_lookup, Nat2Z.id in Hk by lia.
  rewrite Ex in Hlt'. by exists k.
Qed.

Section loops.
Context `{msprime_h}.
Context (s : tree_sequence_t) (tracked : list Z).
Context (Htile : records_tile s) (Hnest : records_nest s).



End loops.



Section next.
Context `{msprime_h}.
Context (s : tree_sequence_t) (tracked : list Z).
Context (Htile : records_tile s) (Hnest : records_nest s).


End next.

(** ** sparse_tree_get_num_leaves_by_traversal *)

Lemma total_app f l1 l2 : total f (l1 ++ l2) = total f l1 + total f l2.
Proof. induction l1 as [|a l1 IH]; simpl; [done|]. rewrite IH. lia. Qed.

Lemma total_ge f l :
  (forall v, v ∈ l -> 1 <= f v) -> Z.of_nat (length l) <= total f l.
Proof.
  induction l as [|a l IH]; intros Hf; simpl; [lia|].
  pose proof (Hf a ltac:(apply list_elem_of_here)).
  specialize (IH ltac:(intros v Hv; apply Hf; by apply list_elem_of_further)).
  lia.
Qed.

Section traversal.
Context (n N : Z) (children : list Z) (par : Z -> Z).
Let kid := child_of children.
Let L := weight_of (fun _ => 1) n kid.
Context (Hn : 1 <= n) (HN : 2 * (N + 1) < 2 ^ 32) (HnN : n <= N).
Context (HF : forest n N par kid) (Hclosed : closed n kid).
Context (Hlen : Z.of_nat (length children) = 2 * (N + 1)).

Let good (v : Z) : Prop := 1 <= v <= N /\ (v <= n \/ kid v 0 <> 0).

Lemma good_weight : forall v, good v -> 1 <= L v.
Proof.
  pose proof HF as (Hk & _ & _ & Hz & _).
  assert (forall m : nat, forall v, v < Z.of_nat m -> good v -> 1 <= L v)
    as Hind.
  { induction m as [|m IH]; intros v Hm [Hv Hg]; [lia|].
    unfold L. rewrite (weight_of_unfold n N) by (done || lia). fold L.
    destruct (Z.leb_spec 1 v); [|lia]. destruct (Z.leb_spec v n); [simpl; lia|].
    cbn [andb]. destruct Hg as [|Hg]; [lia|].
    destruct (Z.eqb_spec (kid v 0) 0); [done|].
    assert (kid v 1 <> 0) as Hb by (by rewrite <- Hz).
    destruct (Hk v 0 ltac:(lia) Hg) as [R0 _].
    destruct (Hk v 1 ltac:(lia) Hb) as [R1 _].
    assert (1 <= L (kid v 0)).
    { apply IH; [lia|]. split; [lia|]. by apply Hclosed; [lia|]. }
    assert (1 <= L (kid v 1)).
    { apply IH; [lia|]. split; [lia|]. by apply Hclosed; [lia|]. }
    lia. }
  intros v Hv. apply (Hind (S (Z.to_nat v))); [lia|done].
Qed.

Lemma traversal_loop_spec :
  forall fuel st rest count,
  Forall good st -> total L st <= n ->
  Z.of_nat (length (st ++ rest)) = n + 1 ->
  2 * total L st - Z.of_nat (length st) < Z.of_nat fuel ->
  0 <= count -> count + total L st < 2 ^ 32 ->
  exists stack',
    traversal_loop n children fuel (st ++ rest)
      (Z.of_nat (length st) - 1) count = Some (stack', count + total L st) /\
    length stack' = length (st ++ rest).
Proof.
  pose proof HF as (Hk & _ & _ & Hz & _).
  induction fuel as [|fuel IH]; intros st rest count Hgood Htot Hlen' Hfuel
    Hcount Hc32.
  { pose proof (total_ge L st) as Hge.
    specialize (Hge ltac:(intros v Hv; apply good_weight;
                          by eapply Forall_forall in Hgood)). lia. }
  destruct st as [|v st _] using rev_ind.
  { cbn [traversal_loop]. simpl. exists rest. split; [|done].
    f_equal. f_equal. lia. }
  cbn [traversal_loop].
  apply Forall_app in Hgood as [Hgood Hv].
  rewrite Forall_singleton in Hv. pose proof (good_weight v Hv) as HLv.
  pose proof (total_ge L st) as Hge.
  specialize (Hge ltac:(intros v' Hv'; apply good_weight;
                        by eapply Forall_forall in Hgood)).
  rewrite total_app in *. simpl in Htot, Hfuel, Hc32 |- *.
  rewrite length_app in *. simpl in Hlen', Hfuel |- *.
  destruct (Z.ltb_spec (Z.of_nat (length st + 1) - 1) 0); [lia|].
  replace (Z.of_nat (length st + 1) - 1) with (Z.of_nat (length st)) by lia.
  rewrite rd_lookup, Nat2Z.id by lia. rewrite <- app_assoc.
  change ([v] ++ rest) with (v :: rest).
  rewrite list_lookup_middle by done. cbn [mbind option_bind].
  destruct Hv as [Hv Hg].
  destruct (Z.leb_spec 1 v); [|lia]. cbn [andb].
  destruct (Z.leb_spec v n) as [Hvn|Hvn].
  - assert (L v = 1) as ELv.
    { unfold L. rewrite (weight_of_unfold n N) by (done || lia).
      destruct (Z.leb_spec 1 v); [|lia]. by destruct (Z.leb_spec v n); [|lia]. }
    rewrite wrap32_small by lia.
    destruct (IH st (v :: rest) (count + 1)) as (stack' & E & Hl);
      try done; try lia.
    { rewrite length_app. simpl. rewrite length_app in Hlen'.
      simpl in Hlen'. lia. }
    exists stack'. rewrite E. split; [|done]. f_equal. f_equal. lia.
  - destruct Hg as [|Hg]; [lia|].
    assert (kid v 1 <> 0) as Hb by (by rewrite <- Hz).
    destruct (Hk v 0 ltac:(lia) Hg) as [R0 _].
    destruct (Hk v 1 ltac:(lia) Hb) as [R1 _].
    assert (L v = L (kid v 0) + L (kid v 1)) as ELv.
    { unfold L. rewrite (weight_of_unfold n N _ _ v) by (done || lia).
      destruct (Z.leb_spec 1 v); [|lia]. destruct (Z.leb_spec v n); [lia|].
      cbn [andb]. by destruct (Z.eqb_spec (kid v 0) 0). }
    assert (good (kid v 0)) as G0.
    { split; [lia|]. by apply Hclosed; [lia|]. }
    assert (good (kid v 1)) as G1.
    { split; [lia|]. by apply Hclosed; [lia|]. }
    pose proof (good_weight _ G0). pose proof (good_weight _ G1).
    replace (wrap32 (2 * v)) with (wrap32 (2 * v + 0)) by (f_equal; lia).
    rewrite !wrap32_small by lia.
    assert (forall j, 0 <= j <= 1 ->
              rd children (2 * v + j) = Some (kid v j)) as Hrd.
    { intros j Hj. unfold kid, child_of.
      destruct (rd_in_range children (2 * v + j)) as [c ->]; [lia|done]. }
    rewrite !Hrd by lia. cbn [mbind option_bind].
    destruct (Z.eqb_spec (kid v 0) 0); [done|]. cbn [negb].
    replace (Z.of_nat (length st) - 1 + 1) with (Z.of_nat (length st))
      by lia.
    replace (Z.of_nat (length st) - 1 + 2) with (Z.of_nat (length st + 1))
      by lia.
    rewrite length_app in Hlen'. simpl in Hlen'.
    destruct rest as [|x rest]; [simpl in Hlen'; lia|].
    rewrite wr_in_range by (rewrite length_app; simpl; lia).
    cbn [mbind option_bind]. rewrite Nat2Z.id.
    rewrite insert_app_r_alt, Nat.sub_diag by lia.
    rewrite wr_in_range by (rewrite length_app; simpl; lia).
    cbn [mbind option_bind]. rewrite Nat2Z.id.
    rewrite insert_app_r_alt by lia.
    replace (length st + 1 - length st)%nat with 1%nat by lia.
    change (<[1%nat:=kid v 1]> (<[0%nat:=kid v 0]> (v :: x :: rest)))
      with (kid v 0 :: kid v 1 :: rest).
    destruct (IH (st ++ [kid v 0; kid v 1]) rest count)
      as (stack' & E & Hl).
    { apply Forall_app. split; [done|].
      constructor; [exact G0|]. constructor; [exact G1|constructor]. }
    { rewrite total_app. simpl. lia. }
    { rewrite !length_app. simpl. simpl in Hlen'. lia. }
    { rewrite total_app, length_app. simpl. lia. }
    { done. }
    { rewrite total_app. simpl. lia. }
    rewrite length_app in E. simpl in E.
    replace (Z.of_nat (length st + 2) - 1) with (Z.of_nat (length st + 1))
      in E by lia.
    rewrite <- app_assoc in E. simpl in E.
    exists stack'. rewrite E. split.
    + f_equal. f_equal. rewrite total_app. simpl. lia.
    + rewrite Hl. rewrite !length_app. simpl. lia.
Qed.

Lemma traversal_spec fuel stack u :
  Z.of_nat (length stack) = n + 1 -> 0 <= u <= N ->
  2 * n < Z.of_nat fuel ->
  exists stack' stack'',
    wr stack 0 u = Some stack' /\
    traversal_loop n children fuel stack' 0 0 = Some (stack'', L u).
Proof.
  intros Hls Hu Hfuel.
  pose proof HF as (Hk & _ & _ & Hz & _).
  destruct stack as [|x rest]; [simpl in Hls; lia|].
  exists (u :: rest).
  assert (wr (x :: rest) 0 u = Some (u :: rest)) as ->
    by (by rewrite wr_in_range by (simpl; lia)).
  enough (exists stack'',
            traversal_loop n children fuel (u :: rest) 0 0
              = Some (stack'', L u)) as [stack'' E] by (by exists stack'').
  pose proof (weight_of_bound n N (fun _ => 1) par kid u HF ltac:(lia)
                ltac:(intros; lia)) as Hb. fold L in Hb.
  assert (forall j, 0 <= j <= 1 ->
            rd children (2 * u + j) = Some (kid u j)) as Hrd.
  { intros j Hj. unfold kid, child_of.
    destruct (rd_in_range children (2 * u + j)) as [c ->]; [lia|done]. }
  destruct (decide (1 <= u /\ (u <= n \/ kid u 0 <> 0))) as [Hg|Hg].
  - destruct (traversal_loop_spec fuel [u] rest 0) as (stack' & E & _);
      try (simpl; lia).
    { constructor; [|constructor]. split; [lia|tauto]. }
    { simpl in *. lia. }
    change (Z.of_nat (length [u]) - 1) with 0 in E.
    change ([u] ++ rest) with (u :: rest) in E.
    exists stack'. rewrite E. simpl. do 2 f_equal. lia.
  - assert (kid u 0 = 0) as Eu.
    { destruct (decide (kid u 0 = 0)) as [|Hne]; [done|].
      destruct (Hk u 0 ltac:(lia) Hne). exfalso. apply Hg. split; [lia|tauto]. }
    assert (L u = 0) as ->.
    { unfold L. rewrite (weight_of_unfold n N) by (done || lia). fold kid.
      rewrite Eu.
      destruct (Z.leb_spec 1 u); [|done].
      destruct (Z.leb_spec u n); [|done]. exfalso. apply Hg. tauto. }
    destruct fuel as [|fuel]; [lia|]. cbn [traversal_loop].
    change (0 <? 0) with false.
    change (rd (u :: rest) 0) with (Some u). cbn [mbind option_bind].
    assert ((1 <=? u) && (u <=? n) = false) as ->.
    { destruct (Z.leb_spec 1 u); [|done].
      destruct (Z.leb_spec u n); [|done]. exfalso. apply Hg. tauto. }
    replace (wrap32 (2 * u)) with (wrap32 (2 * u + 0)) by (f_equal; lia).
    rewrite !wrap32_small by lia. rewrite !Hrd by lia.
    cbn [mbind option_bind]. rewrite Eu.
    change (negb (0 =? 0)) with false.
    exists (u :: rest). by destruct fuel.
Qed.

End traversal.

(** ** sparse_tree_alloc and sparse_tree_clear *)

Lemma length_malloc_u32 `{heap} m :
  0 <= m -> Z.of_nat (length (malloc_u32 m)) = m.
Proof. intros Hm. unfold malloc_u32. rewrite length_map, length_seq. lia. Qed.

Lemma length_malloc_f64 `{heap} m :
  0 <= m -> Z.of_nat (length (malloc_f64 m)) = m.
Proof. intros Hm. unfold malloc_f64. rewrite length_map, length_seq. lia. Qed.

Lemma length_malloc_mutations `{heap} m :
  0 <= m -> Z.of_nat (length (malloc_mutations m)) = m.
Proof.
  intros Hm. unfold malloc_mutations. rewrite length_map, length_seq. lia.
Qed.

Lemma memset_spec {A} (a : list A) start count zero :
  0 <= start -> 0 <= count -> start + count <= Z.of_nat (length a) ->
  exists a',
    memset a start count zero = Some a' /\
    length a' = length a /\
    forall v, rd a' v =
      if decide (start <= v < start + count) then Some zero else rd a v.
Proof.
  intros Hs Hc Hl. unfold memset.
  destruct (Z.leb_spec 0 start); [|lia].
  destruct (Z.leb_spec 0 count); [|lia].
  destruct (Z.leb_spec (start + count) (Z.of_nat (length a))); [|lia].
  cbn [andb]. eexists. split; [done|]. split.
  { rewrite !length_app, length_take, length_replicate, length_drop. lia. }
  intros v. unfold rd. destruct (Z.leb_spec 0 v);
    [|by destruct (decide (start <= v < start + count)); [lia|]].
  destruct (decide (start <= v < start + count)) as [Hin|Hout].
  - rewrite lookup_app_r by (rewrite length_take; lia).
    rewrite lookup_app_l by (rewrite length_take, length_replicate; lia).
    apply lookup_replicate_2. rewrite length_take. lia.
  - destruct (decide (v < start)).
    + rewrite lookup_app_l by (rewrite length_take; lia).
      apply lookup_take_lt. lia.
    + rewrite lookup_app_r by (rewrite length_take; lia).
      rewrite lookup_app_r by (rewrite length_take, length_replicate; lia).
      rewrite lookup_drop. f_equal.
      rewrite length_take, length_replicate. lia.
Qed.

Lemma alloc_leaf_counts_spec :
  forall js nl ntl,
  (forall j, j ∈ js -> 0 <= j < Z.of_nat (length nl)) ->
  length nl = length ntl ->
  exists nl' ntl',
    alloc_leaf_counts js nl ntl = Some (nl', ntl') /\
    length nl' = length nl /\ length ntl' = length ntl /\
    forall v,
      rd nl' v = (if decide (v ∈ js) then Some 1 else rd nl v) /\
      rd ntl' v = (if decide (v ∈ js) then Some 0 else rd ntl v).
Proof.
  induction js as [|j js IH]; intros nl ntl Hjs Hl; cbn [alloc_leaf_counts].
  - exists nl, ntl. repeat split; by rewrite decide_False by apply not_elem_of_nil.
  - pose proof (Hjs j ltac:(apply list_elem_of_here)) as Hj.
    destruct (wr_ex nl j 1) as (nl1 & W1 & L1); [lia|].
    destruct (wr_ex ntl j 0) as (ntl1 & W2 & L2); [lia|].
    rewrite W1. cbn [mbind option_bind]. rewrite W2. cbn [mbind option_bind].
    destruct (IH nl1 ntl1) as (nl' & ntl' & E & L1' & L2' & Hv).
    { intros j' Hj'. rewrite L1. apply Hjs. by apply list_elem_of_further. }
    { congruence. }
    exists nl', ntl'. split; [done|]. split; [congruence|].
    split; [congruence|]. intros v. destruct (Hv v) as [-> ->].
    rewrite (rd_wr _ _ _ _ _ W1), (rd_wr _ _ _ _ _ W2).
    destruct (decide (v ∈ js)) as [Hin|Hin].
    + rewrite !decide_True by (by apply list_elem_of_further). done.
    + destruct (decide (v = j)) as [->|Hne].
      * rewrite !decide_True by apply list_elem_of_here. done.
      * rewrite !decide_False; [done| |];
          intros [?|?]%elem_of_cons; done.
Qed.

Lemma alloc_tracked_leaves_spec n tracked :
  forall suf pre ntl,
  tracked = pre ++ suf ->
  Forall (fun u => 1 <= u <= n) suf -> n < Z.of_nat (length ntl) ->
  exists ntl',
    alloc_tracked_leaves n tracked
      (seqZ (Z.of_nat (length pre)) (Z.of_nat (length suf))) ntl
      = Some (0, ntl') /\
    length ntl' = length ntl /\
    forall v, rd ntl' v = if decide (v ∈ suf) then Some 1 else rd ntl v.
Proof.
  induction suf as [|u suf IH]; intros pre ntl Et Hsuf Hl.
  - simpl. exists ntl. repeat split.
    all: intros v; by rewrite decide_False by apply not_elem_of_nil.
  - rewrite seqZ_cons by (simpl; lia). cbn [alloc_tracked_leaves].
    rewrite rd_lookup, Nat2Z.id by lia. rewrite Et.
    rewrite list_lookup_middle by done. cbn [mbind option_bind].
    inversion Hsuf as [|? ? Hu Hsuf']; subst.
    destruct (Z.eqb_spec u 0); [lia|].
    destruct (Z.ltb_spec n u); [lia|]. cbn [orb].
    destruct (wr_ex ntl u 1) as (ntl1 & W & L1); [lia|].
    rewrite W. cbn [mbind option_bind].
    destruct (IH (pre ++ [u]) ntl1) as (ntl' & E & L' & Hv).
    { by rewrite <- app_assoc. }
    { done. }
    { lia. }
    rewrite length_app in E. simpl in E.
    replace (Z.succ (Z.of_nat (length pre)))
      with (Z.of_nat (length pre + 1)) by lia.
    replace (Z.pred (Z.of_nat (length (u :: suf))))
      with (Z.of_nat (length suf)) by (simpl; lia).
    exists ntl'. split; [done|]. split; [congruence|].
    intros v. rewrite Hv, (rd_wr _ _ _ _ _ W).
    destruct (decide (v ∈ suf)) as [Hin|Hin].
    + by rewrite decide_True by (by apply list_elem_of_further).
    + destruct (decide (v = u)) as [->|Hne].
      * by rewrite decide_True by apply list_elem_of_here.
      * rewrite decide_False; [done|].
        intros [?|?]%elem_of_cons; done.
Qed.

Lemma weight_of_empty w n kid v :
  kid v 0 = 0 ->
  weight_of w n kid v = if (1 <=? v) && (v <=? n) then w v else 0.
Proof.
  intros E. unfold weight_of. cbn [weight_below]. by rewrite E.
Qed.

Section start.
Context `{msprime_h} `{heap}.
Context (s : tree_sequence_t) (tracked : list Z) (flags : Z).
Context (Htile : records_tile s) (Hnest : records_nest s).
Context (Hflags : Z.land flags MSP_COUNT_LEAVES <> 0).
Context (Htracked : Forall (fun u => 1 <= u <= sample_size s) tracked).

Lemma sparse_tree_iterate_start :
  exists self t,
    sparse_tree_iterate s tracked flags 0 = Some (self, t) /\
    iterator_ok s tracked self t.
Proof.
  pose proof Hnest as (Hn1 & HnN & H32 & _ & _ & _ & _ & _ & Lmp & Lmn).
  set (n := sample_size s) in *. set (N := num_nodes s) in *.
  assert (0 <= num_mutations s) as HM by lia.
  cbn [sparse_tree_iterate].
  unfold tree_sequence_alloc_sparse_tree, sparse_tree_alloc. fold n N.
  destruct (Z.eqb_spec N 0); [lia|]. destruct (Z.eqb_spec n 0); [lia|].
  cbn [orb]. destruct (Z.eqb_spec (Z.land flags MSP_COUNT_LEAVES) 0); [done|].
  rewrite !wrap32_small by (rewrite ?wrap32_small; lia).
  destruct (wr_ex (malloc_u32 (N + 1)) 0 0) as (nl0 & W0 & L0);
    [rewrite length_malloc_u32; lia|].
  rewrite W0. cbn [mbind option_bind].
  apply (f_equal Z.of_nat) in L0. rewrite length_malloc_u32 in L0 by lia.
  destruct (alloc_leaf_counts_spec (seqZ 1 n) nl0 nl0)
    as (nl1 & ntl1 & -> & L1 & L1' & Hv1); [|done|].
  { intros j Hj%elem_of_seqZ. lia. }
  cbn [mbind option_bind fst snd].
  destruct (alloc_tracked_leaves_spec n tracked tracked [] ntl1 eq_refl
              Htracked ltac:(lia)) as (ntl2 & E2 & L2 & Hv2).
  change (Z.of_nat (length [])) with 0 in E2. rewrite E2.
  cbn [mbind option_bind fst snd]. change (negb (0 =? 0)) with false.
  cbv iota.
  unfold sparse_tree_iterator_alloc.
  cbn [t_num_nodes t_sample_size t_max_mutations with_leaf_counts].
  fold n N. rewrite !Z.eqb_refl. cbn [negb orb].
  unfold sparse_tree_clear.
  cbn [t_num_nodes t_sample_size t_parent t_time t_children t_flags
       t_num_leaves t_num_tracked_leaves with_leaf_counts with_links
       with_root with_interval].
  rewrite wrap32_small by lia.
  destruct (memset_spec (malloc_u32 (N + 1)) 0 (N + 1) 0)
    as (parent & -> & Lp & Hp); [lia|lia|rewrite length_malloc_u32; lia|].
  cbn [mbind option_bind].
  destruct (memset_spec (malloc_f64 (N + 1)) 0 (N + 1) d_zero)
    as (time & -> & Lt & _); [lia|lia|rewrite length_malloc_f64; lia|].
  cbn [mbind option_bind].
  destruct (memset_spec (malloc_u32 (2 * (N + 1))) 0 (2 * (N + 1)) 0)
    as (children & -> & Lc & Hch);
    [lia|lia|rewrite length_malloc_u32; lia|].
  cbn [mbind option_bind].
  destruct (Z.eqb_spec (Z.land flags MSP_COUNT_LEAVES) 0); [done|].
  replace (wrap64 (N + 1 - n - 1)) with (N - n)
    by (unfold wrap64; rewrite Z.mod_small; lia).
  destruct (memset_spec nl1 (n + 1) (N - n) 0) as (nl & -> & Lnl & Hnl);
    [lia|lia|lia|].
  cbn [mbind option_bind].
  destruct (memset_spec ntl2 (n + 1) (N - n) 0) as (ntl & -> & Lntl & Hntl);
    [lia|lia|lia|].
  cbn [mbind option_bind fst snd]. change (negb (0 =? 0)) with false.
  cbv iota. eexists _, _. split; [reflexivity|].
  apply (f_equal Z.of_nat) in Lp, Lt, Lc.
  rewrite length_malloc_u32 in Lp, Lc by lia.
  rewrite length_malloc_f64 in Lt by lia.
  assert (forall v j, 0 <= j <= 1 -> child_of children v j = 0) as Ech.
  { intros v j Hj. unfold child_of. rewrite Hch.
    destruct (decide (0 <= 2 * v + j < 0 + 2 * (N + 1))); [done|].
    rewrite rd_None_range; [done|]. rewrite length_malloc_u32; lia. }
  assert (forall v, parent_of parent v = 0) as Epa.
  { intros v. unfold parent_of. rewrite Hp.
    destruct (decide (0 <= v < 0 + (N + 1))); [done|].
    rewrite rd_None_range; [done|]. rewrite length_malloc_u32; lia. }
  unfold iterator_ok.
  cbn [it_num_records it_insertion_index it_removal_index it_mutation_index
       t_right with_leaf_counts with_links with_root with_interval].
  split; [done|]. split; [done|]. split; [done|]. split; [done|].
  split; [done|]. split.
  { by destruct (diff_iterator_ok_alloc s Htile) as (_ & _ & _ & _ & _ & ?). }
  split; [|split; [|split]].
  - unfold tree_shape.
    cbn [t_sample_size t_num_nodes t_flags t_parent t_time t_children
         t_num_leaves t_num_tracked_leaves t_stack1 t_max_mutations
         t_mutations t_root with_leaf_counts with_links with_root
         with_interval].
    fold n N. rewrite !length_malloc_u32, length_malloc_mutations by lia.
    repeat match goal with |- _ /\ _ => split end; try done; lia.
  - cbn [t_parent t_children with_leaf_counts with_links with_root
         with_interval].
    split; [|split; [|split]].
    + intros k [Hk _]. rewrite take_0 in Hk. by apply elem_of_nil in Hk.
    + intros k j [Hk _]. rewrite take_0 in Hk. by apply elem_of_nil in Hk.
    + intros v j Hj Hne. by rewrite Ech in Hne.
    + intros c Hne. by rewrite Epa in Hne.
  - cbn [t_children t_num_leaves with_leaf_counts with_links with_root
         with_interval].
    intros v Hv. fold n. rewrite weight_of_empty by (apply Ech; lia).
    rewrite Hnl. destruct (Hv1 v) as [-> _].
    rewrite (rd_wr _ _ _ _ _ W0).
    destruct (decide (n + 1 <= v < n + 1 + (N - n))).
    { destruct (Z.leb_spec 1 v); [|lia]. by destruct (Z.leb_spec v n); [lia|]. }
    destruct (decide (v ∈ seqZ 1 n)) as [Hin|Hin]; rewrite elem_of_seqZ in Hin.
    + destruct (Z.leb_spec 1 v); [|lia]. by destruct (Z.leb_spec v n); [|lia].
    + destruct (decide (v = 0)) as [->|]; [done|]. lia.
  - cbn [t_children t_num_tracked_leaves with_leaf_counts with_links
         with_root with_interval].
    intros v Hv. fold n. rewrite weight_of_empty by (apply Ech; lia).
    rewrite Hntl, Hv2. destruct (Hv1 v) as [_ ->].
    rewrite (rd_wr _ _ _ _ _ W0).
    destruct (decide (n + 1 <= v < n + 1 + (N - n))).
    { destruct (Z.leb_spec 1 v); [|lia]. by destruct (Z.leb_spec v n); [lia|]. }
    unfold is_tracked.
    destruct (decide (v ∈ tracked)) as [Hin|Hin].
    + rewrite Forall_forall in Htracked. specialize (Htracked v Hin).
      destruct (Z.leb_spec 1 v); [|lia]. by destruct (Z.leb_spec v n); [|lia].
    + destruct (decide (v ∈ seqZ 1 n)) as [Hin'|Hin'];
        rewrite elem_of_seqZ in Hin'.
      * destruct (Z.leb_spec 1 v); [|lia]. by destruct (Z.leb_spec v n); [|lia].
      * destruct (decide (v = 0)) as [->|]; [done|]. lia.
Qed.

End start.

(** ** The leaf counts after every call of sparse_tree_iterator_next *)

Section leaf_counts.
Context `{msprime_h} `{heap}.
Context (s : tree_sequence_t) (tracked : list Z) (flags : Z).
Context (Htile : records_tile s) (Hnest : records_nest s).


Context (Hflags : Z.land flags MSP_COUNT_LEAVES <> 0).
Context (Htracked : Forall (fun u => 1 <= u <= sample_size s) tracked).


End leaf_counts.


Lemma example_ts_nests : records_nest example_ts.
Proof.
  assert (forall k, 0 <= k < 3 -> k = 0 \/ k = 1 \/ k = 2) as Hk by lia.
  assert (forall j, 0 <= j <= 1 -> j = 0 \/ j = 1) as Hj by lia.
  unfold records_nest. cbn [num_records sample_size num_nodes example_ts].
  repeat match goal with |- _ /\ _ => split end; try reflexivity; try lia.
  - symmetry. apply (Permutation_cons_append [1; 2] 0).
  - intros k Hkr. destruct (Hk k Hkr) as [->|[->| ->]]; vm_compute;
      repeat split; congruence.
  - intros k k' Hkr Hk'r Hne Hl Hr.
    destruct (Hk k Hkr) as [->|[->| ->]],
             (Hk k' Hk'r) as [->|[->| ->]]; try done;
      try (vm_compute in Hl; congruence);
      try (vm_compute in Hr; congruence);
      (split; [vm_compute; congruence|]);
      intros j j' Hjr Hj'r;
      destruct (Hj j Hjr) as [-> | ->], (Hj j' Hj'r) as [-> | ->];
      vm_compute; congruence.
  - intros k j x Hkr Hjr Hx.
    assert (ts_left example_ts 0 = 0) as L0 by reflexivity.
    assert (ts_right example_ts 0 = 10) as R0 by reflexivity.
    assert (ts_left example_ts 1 = 0) as L1 by reflexivity.
    assert (ts_right example_ts 1 = 5) as R1 by reflexivity.
    assert (ts_left example_ts 2 = 5) as L2 by reflexivity.
    assert (ts_right example_ts 2 = 10) as R2 by reflexivity.
    destruct (Hk k Hkr) as [->|[->| ->]], (Hj j Hjr) as [-> | ->];
      try (left; vm_compute; congruence);
      right; exists 0; (split; [lia|]); (split; [lia|reflexivity]).
Qed.




(** ** tree_sequence_make_indexes *)

Lemma d_lt_opp a b : d_lt (SFopp a) (SFopp b) = d_lt b a.
Proof.
  unfold d_lt, SFltb.
  destruct a as [[]|[]| |[] ma ea], b as [[]|[]| |[] mb eb]; simpl;
    try reflexivity.
  all: change (Pos.compare_cont Eq ma mb) with (Pos.compare ma mb).
  all: change (Pos.compare_cont Eq mb ma) with (Pos.compare mb ma).
  all: rewrite (Z.compare_antisym eb ea), (Pos.compare_antisym mb ma).
  all: destruct (eb ?= ea), (mb ?= ma)%positive; reflexivity.
Qed.

Lemma is_nan_opp a : is_nan (SFopp a) = is_nan a.
Proof. by destruct a. Qed.

Lemma d_lt_both a b :
  is_nan a = false -> is_nan b = false ->
  d_lt a b = true -> d_lt b a = true -> False.
Proof.
  intros Ha Hb Eab Eba. apply d_lt_key in Eab, Eba; try done.
  by apply key_lt_asym in Eab.
Qed.

Lemma cmp_index_sort_le a b :
  is_nan (is_time a) = false -> is_nan (is_time b) = false ->
  cmp_index_sort a b <= 0 <->
  is_value a < is_value b \/
  (is_value a = is_value b /\ d_lt (is_time b) (is_time a) = false).
Proof.
  intros Na Nb. unfold cmp_index_sort. rewrite d_gt_lt.
  destruct (Z.ltb_spec (is_value b) (is_value a)),
    (Z.ltb_spec (is_value a) (is_value b)); unfold b2z; simpl; try lia.
  destruct (d_lt (is_time b) (is_time a)) eqn:Eba,
    (d_lt (is_time a) (is_time b)) eqn:Eab; simpl.
  - exfalso. by eapply (d_lt_both (is_time a) (is_time b)).
  - split; [lia|]. intros [?|[_ ?]]; [lia|done].
  - split; [intros _; right; split; [lia|done]|lia].
  - split; [intros _; right; split; [lia|done]|lia].
Qed.

Lemma cmp_index_sort_consistent l :
  Forall (fun e => is_nan (is_time e) = false) l ->
  cmp_consistent cmp_index_sort l.
Proof.
  rewrite Forall_forall. intros Hn. split.
  - intros a b _ _. unfold cmp_index_sort. rewrite !d_gt_lt.
    destruct (Z.ltb_spec (is_value b) (is_value a)),
      (Z.ltb_spec (is_value a) (is_value b)); unfold b2z; simpl; try lia;
      destruct (d_lt (is_time b) (is_time a)),
        (d_lt (is_time a) (is_time b)); reflexivity.
  - intros a b c Ha Hb Hc.
    rewrite !cmp_index_sort_le by (by apply Hn).
    intros [?|[E1 T1]] [?|[E2 T2]]; try (left; lia).
    right. split; [lia|].
    apply d_lt_false_key in T1, T2; try (by apply Hn).
    apply d_lt_false_key; try (by apply Hn).
    by eapply key_lt_trans_neg.
Qed.

Lemma insert_take_drop_step {A} (a b : list A) (j : nat) x :
  a !! j = Some x -> (j < length b)%nat ->
  <[j := x]> (take j a ++ drop j b) = take (S j) a ++ drop (S j) b.
Proof.
  intros Ha Hb. pose proof (lookup_lt_Some _ _ _ Ha) as Hla.
  destruct (lookup_lt_is_Some_2 b j Hb) as [y Hy].
  rewrite (drop_S b y j Hy), (take_S_r a j x Ha).
  rewrite insert_app_r_alt by (rewrite length_take; lia).
  rewrite length_take, Nat.min_l by lia. rewrite Nat.sub_diag.
  cbn [insert list_insert]. by rewrite <- app_assoc.
Qed.

Lemma wr_take_drop_step {A} (a b : list A) (j : nat) x :
  a !! j = Some x -> length b = length a ->
  wr (take j a ++ drop j b) (Z.of_nat j) x
    = Some (take (S j) a ++ drop (S j) b).
Proof.
  intros Ha Hl. pose proof (lookup_lt_Some _ _ _ Ha) as Hla.
  rewrite wr_in_range
    by (rewrite length_app, length_take, length_drop; lia).
  rewrite Nat2Z.id. f_equal. apply insert_take_drop_step; [done|lia].
Qed.

Lemma copy_sort_buff_spec (buff : list index_sort_t) R (order : list Z) :
  Z.of_nat (length buff) = R -> R < 2 ^ 32 ->
  length order = length buff ->
  forall fuel (j : nat), (j <= length buff)%nat ->
  R - Z.of_nat j < Z.of_nat fuel ->
  copy_sort_buff buff R fuel (Z.of_nat j)
    (take j (map is_index buff) ++ drop j order)
  = Some (map is_index buff).
Proof.
  intros HR H32 Lo. induction fuel as [|fuel IH]; intros j Hj Hf; [lia|].
  cbn [copy_sort_buff].
  destruct (Z.ltb_spec (Z.of_nat j) R) as [Hlt|Hge].
  - destruct (lookup_lt_is_Some_2 buff j) as [e He]; [lia|].
    rewrite rd_lookup, Nat2Z.id, He by lia. cbn [mbind option_bind].
    rewrite (wr_take_drop_step (map is_index buff) order j (is_index e))
      by (by rewrite ?list_lookup_fmap, ?He, ?length_map).
    cbn [mbind option_bind].
    rewrite (wrap32_small (Z.of_nat j + 1)) by lia.
    replace (Z.of_nat j + 1) with (Z.of_nat (S j)) by lia.
    apply IH; lia.
  - assert (j = length buff) as -> by lia.
    rewrite take_ge by (rewrite length_map; lia).
    rewrite drop_ge by lia. by rewrite app_nil_r.
Qed.

Lemma copy_sort_buff_all (buff : list index_sort_t) R (order : list Z) :
  Z.of_nat (length buff) = R -> R < 2 ^ 32 ->
  Z.of_nat (length order) = R ->
  copy_sort_buff buff R (S (Z.to_nat R)) 0 order = Some (map is_index buff).
Proof.
  intros HR H32 Lo.
  apply (copy_sort_buff_spec buff R order HR H32 ltac:(lia)
           (S (Z.to_nat R)) 0%nat); lia.
Qed.

Lemma fill_sort_buff_spec values times negate R :
  length values = length times ->
  R <= Z.of_nat (length values) -> R < 2 ^ 32 ->
  forall fuel j, 0 <= j <= R -> R - j < Z.of_nat fuel ->
  fill_sort_buff values times negate R fuel j =
    Some (map (sort_entry values times negate) (seqZ j (R - j))).
Proof.
  intros Hl HR H32. induction fuel as [|fuel IH]; intros j Hj Hf; [lia|].
  cbn [fill_sort_buff].
  destruct (Z.ltb_spec j R) as [Hlt|Hge].
  - destruct (rd_in_range values j) as [v Ev]; [lia|].
    destruct (rd_in_range times j) as [t Et]; [lia|].
    rewrite Ev, Et. cbn [mbind option_bind].
    rewrite (wrap32_small (j + 1)) by lia. rewrite IH by lia.
    cbn [mbind option_bind]. rewrite (seqZ_cons j) by lia.
    replace (Z.pred (R - j)) with (R - (j + 1)) by lia.
    replace (Z.succ j) with (j + 1) by lia.
    cbn [map]. unfold sort_entry at 2. rewrite Ev, Et.
    cbn [default]. by rewrite (wrap32_small j) by lia.
  - replace (R - j) with 0 by lia. done.
Qed.

Lemma fill_sort_buff_all values times negate R :
  length values = length times ->
  Z.of_nat (length values) = R -> R < 2 ^ 32 ->
  fill_sort_buff values times negate R (S (Z.to_nat R)) 0 =
    Some (map (sort_entry values times negate) (seqZ 0 R)).
Proof.
  intros Hl HR H32.
  rewrite (fill_sort_buff_spec values times negate R) by lia.
  by rewrite Z.sub_0_r.
Qed.

(** With 2^32 records or more the loop that fills the sort buffer does not
    end. *)
Lemma fill_sort_buff_diverges values times negate R :
  2 ^ 32 <= R ->
  forall fuel j, 0 <= j < 2 ^ 32 ->
  fill_sort_buff values times negate R fuel j = None.
Proof.
  intros HR. induction fuel as [|fuel IH]; intros j Hj; [done|].
  cbn [fill_sort_buff].
  destruct (Z.ltb_spec j R); [|lia].
  destruct (rd values j); [|done]. cbn [mbind option_bind].
  destruct (rd times j); [|done]. cbn [mbind option_bind].
  rewrite IH; [done|]. unfold wrap32. apply Z.mod_pos_bound. lia.
Qed.

Lemma StronglySorted_map {A B} (R : A -> A -> Prop) (R' : B -> B -> Prop)
    (P : A -> Prop) (f : A -> B) l :
  (forall a b, P a -> P b -> R a b -> R' (f a) (f b)) ->
  Forall P l -> StronglySorted R l -> StronglySorted R' (map f l).
Proof.
  intros Hf HP Hs. revert HP.
  induction Hs as [|a l Hs IH Ha]; intros HP; [constructor|].
  inversion HP as [|? ? Pa Pl]; subst. cbn [map]. constructor; [by apply IH|].
  apply Forall_forall.
  intros b Hb%list_elem_of_In%in_map_iff.
  destruct Hb as (a' & <- & Ha'%list_elem_of_In).
  apply Hf; [done|by eapply Forall_forall in Pl|by eapply Forall_forall in Ha].
Qed.

Section make_indexes.
Context `{libc_qsort}.

(** What [tree_sequence_make_indexes] returns on at least one record and
    fewer than 2^32, the columns it reads and the two indexes having
    [num_records] cells. *)
Lemma make_indexes_value self :
  let R := num_records self in
  1 <= R < 2 ^ 32 ->
  Z.of_nat (length (trees_left self)) = R ->
  Z.of_nat (length (trees_right self)) = R ->
  Z.of_nat (length (trees_node self)) = R ->
  Z.of_nat (length (trees_time self)) = R ->
  Z.of_nat (length (trees_insertion_order self)) = R ->
  Z.of_nat (length (trees_removal_order self)) = R ->
  tree_sequence_make_indexes self =
    Some (0, with_counts
               (with_indexes self
                  (map is_index
                     (qsort cmp_index_sort
                        (map (sort_entry (trees_left self) (trees_time self)
                                false) (seqZ 0 R))))
                  (map is_index
                     (qsort cmp_index_sort
                        (map (sort_entry (trees_right self) (trees_time self)
                                true) (seqZ 0 R)))))
               (sample_size self) (ts_node self (R - 1)) (num_loci self) R
               (num_mutations self)).
Proof.
  intros R HR Ll Lr Ln Lt Lio Lro.
  assert (forall negate values (cmp : index_sort_t -> index_sort_t -> Z),
            Z.of_nat (length (qsort cmp
                        (map (sort_entry values (trees_time self) negate)
                           (seqZ 0 R)))) = R) as Lq.
  { intros negate values cmp.
    rewrite qsort_length, length_map, length_seqZ. lia. }
  unfold tree_sequence_make_indexes. fold R. cbv zeta.
  rewrite (fill_sort_buff_all (trees_left self) (trees_time self) false R)
    by lia.
  cbn [mbind option_bind].
  rewrite copy_sort_buff_all by (done || lia).
  cbn [mbind option_bind].
  rewrite (fill_sort_buff_all (trees_right self) (trees_time self) true R)
    by lia.
  cbn [mbind option_bind].
  rewrite copy_sort_buff_all by (done || lia).
  cbn [mbind option_bind]. unfold ts_node.
  destruct (rd_in_range (trees_node self) (R - 1)) as [last ->]; [lia|].
  cbn [mbind option_bind]. reflexivity.
Qed.

(** Where [tree_sequence_make_indexes] runs on records whose times are
    numbers, it returns 0, keeps the columns, and leaves in
    [insertion_order] the records by ascending left end, ties by ascending
    time, and in [removal_order] the records by ascending right end, ties
    by descending time. *)
Lemma tree_sequence_make_indexes_sorts self :
  let R := num_records self in
  1 <= R < 2 ^ 32 ->
  Z.of_nat (length (trees_left self)) = R ->
  Z.of_nat (length (trees_right self)) = R ->
  Z.of_nat (length (trees_node self)) = R ->
  Z.of_nat (length (trees_time self)) = R ->
  Z.of_nat (length (trees_insertion_order self)) = R ->
  Z.of_nat (length (trees_removal_order self)) = R ->
  Forall (fun t => is_nan t = false) (trees_time self) ->
  exists self',
    tree_sequence_make_indexes self = Some (0, self') /\
    num_records self' = R /\
    trees_left self' = trees_left self /\
    trees_right self' = trees_right self /\
    trees_time self' = trees_time self /\
    trees_insertion_order self' ≡ₚ seqZ 0 R /\
    trees_removal_order self' ≡ₚ seqZ 0 R /\
    StronglySorted (inserts_before self) (trees_insertion_order self') /\
    StronglySorted (removes_before self) (trees_removal_order self').
Proof.
  intros R HR Ll Lr Ln Lt Lio Lro Hnan.
  assert (forall negate values (cmp : index_sort_t -> index_sort_t -> Z),
            Z.of_nat (length (qsort cmp
                        (map (sort_entry values (trees_time self) negate)
                           (seqZ 0 R)))) = R) as Lq.
  { intros negate values cmp.
    rewrite qsort_length, length_map, length_seqZ. lia. }
  unfold tree_sequence_make_indexes. fold R. cbv zeta.
  rewrite (fill_sort_buff_all (trees_left self) (trees_time self) false R)
    by lia.
  cbn [mbind option_bind].
  rewrite copy_sort_buff_all by (done || lia).
  cbn [mbind option_bind].
  rewrite (fill_sort_buff_all (trees_right self) (trees_time self) true R)
    by lia.
  cbn [mbind option_bind].
  rewrite copy_sort_buff_all by (done || lia).
  cbn [mbind option_bind].
  destruct (rd_in_range (trees_node self) (R - 1)) as [last ->]; [lia|].
  cbn [mbind option_bind].
  set (bi := map (sort_entry (trees_left self) (trees_time self) false)
               (seqZ 0 R)).
  set (br := map (sort_entry (trees_right self) (trees_time self) true)
               (seqZ 0 R)).
  assert (forall j, 0 <= j < R ->
            is_nan (default d_zero (rd (trees_time self) j)) = false)
    as Htime.
  { intros j Hj. destruct (rd_in_range (trees_time self) j) as [t Et];
      [lia|]. rewrite Et. simpl. rewrite Forall_forall in Hnan.
    apply Hnan. rewrite rd_lookup in Et by lia.
    by eapply list_elem_of_lookup_2. }
  assert (forall negate values,
            Forall (fun e => exists j, 0 <= j < R /\
                               e = sort_entry values (trees_time self)
                                     negate j)
              (map (sort_entry values (trees_time self) negate) (seqZ 0 R)))
    as Hentries.
  { intros negate values. apply Forall_forall.
    intros e He%list_elem_of_In%in_map_iff.
    destruct He as (j & <- & Hj%list_elem_of_In%elem_of_seqZ).
    exists j. split; [lia|done]. }
  assert (forall negate values,
            Forall (fun e => is_nan (is_time e) = false)
              (map (sort_entry values (trees_time self) negate) (seqZ 0 R)))
    as Hnn.
  { intros negate values. eapply Forall_impl; [apply Hentries|].
    intros e (j & Hj & ->). cbn [sort_entry is_time].
    destruct negate; rewrite ?is_nan_opp; by apply Htime. }
  assert (forall negate values,
            map is_index
              (map (sort_entry values (trees_time self) negate) (seqZ 0 R))
            = seqZ 0 R) as Hidx.
  { intros negate values. rewrite map_map. cbn [sort_entry is_index].
    rewrite <- (map_id (seqZ 0 R)) at 2. apply map_ext_in.
    intros j Hj%list_elem_of_In%elem_of_seqZ. apply wrap32_small. lia. }
  pose proof (cmp_index_sort_consistent bi (Hnn false _)) as Ci.
  pose proof (cmp_index_sort_consistent br (Hnn true _)) as Cr.
  pose proof (qsort_perm _ cmp_index_sort bi Ci) as Pi.
  pose proof (qsort_perm _ cmp_index_sort br Cr) as Pr.
  eexists. split; [reflexivity|].
  cbn [num_records trees_left trees_right trees_time trees_insertion_order
       trees_removal_order with_counts with_indexes].
  split; [done|]. split; [done|]. split; [done|]. split; [done|].
  split; [|split; [|split]].
  - rewrite <- (Hidx false (trees_left self)). by apply Permutation_map.
  - rewrite <- (Hidx true (trees_right self)). by apply Permutation_map.
  - eapply (StronglySorted_map _ _
              (fun e => exists j, 0 <= j < R /\
                 e = sort_entry (trees_left self) (trees_time self) false j));
      [|rewrite Pi; apply Hentries|by apply qsort_sorted].
    intros a b (i & Hi & ->) (j & Hj & ->) Hle.
    apply cmp_index_sort_le in Hle;
      [|cbn [sort_entry is_time]; by apply Htime..].
    cbn [sort_entry is_index is_value is_time] in Hle |- *.
    rewrite !wrap32_small by lia. exact Hle.
  - eapply (StronglySorted_map _ _
              (fun e => exists j, 0 <= j < R /\
                 e = sort_entry (trees_right self) (trees_time self) true j));
      [|rewrite Pr; apply Hentries|by apply qsort_sorted].
    intros a b (i & Hi & ->) (j & Hj & ->) Hle.
    apply cmp_index_sort_le in Hle;
      [|cbn [sort_entry is_time]; rewrite is_nan_opp; by apply Htime..].
    cbn [sort_entry is_index is_value is_time] in Hle |- *.
    rewrite d_lt_opp in Hle.
    rewrite !wrap32_small by lia. exact Hle.
Qed.

End make_indexes.

Lemma StronglySorted_weaker {A} (R R' : A -> A -> Prop) l :
  (forall a b, R a b -> R' a b) ->
  StronglySorted R l -> StronglySorted R' l.
Proof.
  intros HR. induction 1 as [|a l Hs IH Ha]; constructor; [done|].
  eapply Forall_impl; [exact Ha|]. intros b. apply HR.
Qed.

Lemma inserts_before_same s s' a b :
  trees_left s' = trees_left s -> trees_time s' = trees_time s ->
  inserts_before s a b -> inserts_before s' a b.
Proof.
  intros El Et. unfold inserts_before, ts_left, ts_time. by rewrite El, Et.
Qed.

Lemma removes_before_same s s' a b :
  trees_right s' = trees_right s -> trees_time s' = trees_time s ->
  removes_before s a b -> removes_before s' a b.
Proof.
  intros El Et. unfold removes_before, ts_right, ts_time. by rewrite El, Et.
Qed.

Lemma make_indexes_keeps `{libc_qsort} self self' :
  tree_sequence_make_indexes self = Some (0, self') ->
  trees_node self' = trees_node self /\
  trees_children self' = trees_children self /\
  sample_size self' = sample_size self /\
  num_loci self' = num_loci self.
Proof.
  unfold tree_sequence_make_indexes. cbv zeta.
  destruct (fill_sort_buff _ _ false _ _ _); [|done]. cbn [mbind option_bind].
  destruct (copy_sort_buff _ _ _ _ (trees_insertion_order self)); [|done].
  cbn [mbind option_bind].
  destruct (fill_sort_buff _ _ true _ _ _); [|done]. cbn [mbind option_bind].
  destruct (copy_sort_buff _ _ _ _ (trees_removal_order self)); [|done].
  cbn [mbind option_bind].
  destruct (rd (trees_node self) _); [|done]. cbn [mbind option_bind].
  by intros [= <-].
Qed.

Section indexes.
Context `{heap} `{libc_qsort}.

(** [tree_sequence_make_indexes_sorts] with the orders read in the tree
    sequence that is returned. *)
Lemma make_indexes_sorted self :
  let R := num_records self in
  1 <= R < 2 ^ 32 ->
  Z.of_nat (length (trees_left self)) = R ->
  Z.of_nat (length (trees_right self)) = R ->
  Z.of_nat (length (trees_node self)) = R ->
  Z.of_nat (length (trees_time self)) = R ->
  Z.of_nat (length (trees_insertion_order self)) = R ->
  Z.of_nat (length (trees_removal_order self)) = R ->
  Forall (fun t => is_nan t = false) (trees_time self) ->
  exists self',
    tree_sequence_make_indexes self = Some (0, self') /\
    num_records self' = R /\
    trees_left self' = trees_left self /\
    trees_right self' = trees_right self /\
    trees_time self' = trees_time self /\
    trees_insertion_order self' ≡ₚ seqZ 0 R /\
    trees_removal_order self' ≡ₚ seqZ 0 R /\
    StronglySorted (inserts_before self') (trees_insertion_order self') /\
    StronglySorted (removes_before self') (trees_removal_order self').
Proof.
  intros R HR Ll Lr Ln Lt Lio Lro Hnan.
  destruct (tree_sequence_make_indexes_sorts self HR Ll Lr Ln Lt Lio Lro
              Hnan)
    as (self' & E & ER & El & Er & Et & Pi & Pr & Si & Sr).
  exists self'. repeat match goal with |- _ /\ _ => split end; try done.
  - eapply StronglySorted_weaker; [|exact Si].
    intros a b. by apply inserts_before_same.
  - eapply StronglySorted_weaker; [|exact Sr].
    intros a b. by apply removes_before_same.
Qed.


(** The columns that the copying loop of [tree_sequence_create] leaves. *)
Lemma flat_map_pair_lookup {A B} (f g : A -> B) (l : list A) (j : nat) a :
  l !! j = Some a ->
  flat_map (fun r => [f r; g r]) l !! (2 * j)%nat = Some (f a) /\
  flat_map (fun r => [f r; g r]) l !! S (2 * j) = Some (g a).
Proof.
  revert j. induction l as [|b l IH]; intros j; [done|].
  destruct j as [|j]; cbn [flat_map app].
  - by intros [= ->].
  - intros Hj. replace (2 * S j)%nat with (S (S (2 * j))) by lia.
    cbn [lookup list_lookup]. by apply IH.
Qed.

Lemma flat_map_pair_length {A B} (f g : A -> B) (l : list A) :
  length (flat_map (fun r => [f r; g r]) l) = (2 * length l)%nat.
Proof. induction l as [|b l IH]; cbn [flat_map app length]; lia. Qed.

Lemma create_copy_loop_spec records R (l0 r0 u0 c0 : list Z)
    (t0 : list double) :
  let kids := fun r => [fst (cr_children r); snd (cr_children r)] in
  Z.of_nat (length records) = R -> R < 2 ^ 31 ->
  length l0 = length records -> length r0 = length records ->
  length u0 = length records -> length c0 = (2 * length records)%nat ->
  length t0 = length records ->
  forall fuel (j : nat), (j <= length records)%nat ->
  R - Z.of_nat j < Z.of_nat fuel ->
  create_copy_loop records R fuel (Z.of_nat j)
    (take j (map cr_left records) ++ drop j l0,
     take j (map cr_right records) ++ drop j r0,
     take j (map cr_node records) ++ drop j u0,
     take (2 * j) (flat_map kids records) ++ drop (2 * j) c0,
     take j (map cr_time records) ++ drop j t0)
  = Some (map cr_left records, map cr_right records, map cr_node records,
          flat_map kids records, map cr_time records).
Proof.
  intros kids HR H31 Ll Lr Lu Lc Lt.
  induction fuel as [|fuel IH]; intros j Hj Hf; [lia|].
  cbn [create_copy_loop].
  destruct (Z.ltb_spec (Z.of_nat j) R) as [Hlt|Hge].
  - destruct (lookup_lt_is_Some_2 records j) as [r Hr]; [lia|].
    rewrite rd_lookup, Nat2Z.id, Hr by lia. cbn [mbind option_bind].
    rewrite (wr_take_drop_step (map cr_left records) l0 j (cr_left r))
      by (by rewrite ?list_lookup_fmap, ?Hr, ?length_map).
    cbn [mbind option_bind].
    rewrite (wr_take_drop_step (map cr_right records) r0 j (cr_right r))
      by (by rewrite ?list_lookup_fmap, ?Hr, ?length_map).
    cbn [mbind option_bind].
    rewrite (wr_take_drop_step (map cr_node records) u0 j (cr_node r))
      by (by rewrite ?list_lookup_fmap, ?Hr, ?length_map).
    cbn [mbind option_bind].
    destruct (flat_map_pair_lookup (fun r => fst (cr_children r))
                (fun r => snd (cr_children r)) records j r Hr) as [K0 K1].
    fold kids in K0, K1.
    pose proof (flat_map_pair_length (fun r => fst (cr_children r))
                  (fun r => snd (cr_children r)) records) as Lk.
    fold kids in Lk.
    rewrite (wrap32_small (2 * Z.of_nat j)) by lia.
    rewrite (wrap32_small (2 * Z.of_nat j + 1)) by lia.
    replace (2 * Z.of_nat j) with (Z.of_nat (2 * j)) by lia.
    rewrite (wr_take_drop_step (flat_map kids records) c0 (2 * j) _ K0)
      by (unfold kids; rewrite flat_map_pair_length; lia).
    cbn [mbind option_bind].
    replace (Z.of_nat (2 * j) + 1) with (Z.of_nat (S (2 * j))) by lia.
    rewrite (wr_take_drop_step (flat_map kids records) c0 (S (2 * j)) _ K1)
      by (unfold kids; rewrite flat_map_pair_length; lia).
    cbn [mbind option_bind].
    rewrite (wr_take_drop_step (map cr_time records) t0 j (cr_time r))
      by (by rewrite ?list_lookup_fmap, ?Hr, ?length_map).
    cbn [mbind option_bind].
    rewrite (wrap32_small (Z.of_nat j + 1)) by lia.
    replace (Z.of_nat j + 1) with (Z.of_nat (S j)) by lia.
    replace (S (S (2 * j))) with (2 * S j)%nat by lia.
    apply IH; lia.
  - assert (j = length records) as -> by lia. unfold kids.
    rewrite !take_ge
      by (rewrite ?length_map, ?flat_map_pair_length; lia).
    rewrite !drop_ge by lia. by rewrite !app_nil_r.
Qed.

Lemma create_copy_loop_all records R :
  Z.of_nat (length records) = R -> R < 2 ^ 31 ->
  create_copy_loop records R (S (Z.to_nat R)) 0
    (malloc_u32 R, malloc_u32 R, malloc_u32 R, malloc_u32 (2 * R),
     malloc_f64 R)
  = Some (map cr_left records, map cr_right records, map cr_node records,
          flat_map (fun r => [fst (cr_children r); snd (cr_children r)])
            records,
          map cr_time records).
Proof.
  intros HR H31.
  pose proof (create_copy_loop_spec records R (malloc_u32 R) (malloc_u32 R)
                (malloc_u32 R) (malloc_u32 (2 * R)) (malloc_f64 R) HR H31)
    as Hloop.
  cbv zeta in Hloop.
  specialize (Hloop ltac:(apply Nat2Z.inj; rewrite length_malloc_u32; lia)
                ltac:(apply Nat2Z.inj; rewrite length_malloc_u32; lia)
                ltac:(apply Nat2Z.inj; rewrite length_malloc_u32; lia)
                ltac:(apply Nat2Z.inj; rewrite length_malloc_u32; lia)
                ltac:(apply Nat2Z.inj; rewrite length_malloc_f64; lia)
                (S (Z.to_nat R)) 0%nat ltac:(lia) ltac:(lia)).
  exact Hloop.
Qed.

(** What [tree_sequence_create] comes to when the simulator hands out its
    records, fewer than 2^31, and the two encoders succeed. *)
Lemma tree_sequence_create_copies sim :
  let records := msp_records sim in
  let R := Z.of_nat (length records) in
  1 <= R < 2 ^ 31 ->
  msp_records_status sim = 0 ->
  msp_environment_status sim = 0 -> msp_parameters_status sim = 0 ->
  tree_sequence_create sim =
    (r ← tree_sequence_make_indexes
           (with_columns
              (with_indexes
                 (with_columns
                    (with_counts tree_sequence_zero (msp_sample_size sim) 0
                       (msp_num_loci sim) R 0)
                    (malloc_u32 R) (malloc_u32 R) (malloc_u32 R)
                    (malloc_u32 (2 * R)) (malloc_f64 R))
                 (malloc_u32 R) (malloc_u32 R))
              (map cr_left records) (map cr_right records)
              (map cr_node records)
              (flat_map (fun r => [fst (cr_children r); snd (cr_children r)])
                 records)
              (map cr_time records));
     if negb (r.1 =? 0) then Some r else
     Some (0, with_provenance r.2 (Some (msp_parameters sim))
                (Some (msp_environment sim))
                (mutations_parameters r.2) (mutations_environment r.2))).
Proof.
  intros records R HR Hrs Hes Hps. unfold tree_sequence_create.
  fold records R. rewrite Hrs, Hes, Hps.
  destruct (Z.ltb_spec 0 R); [|lia].
  unfold tree_sequence_alloc.
  cbn [num_mutations num_records with_counts tree_sequence_zero].
  change (0 <? 0) with false. cbv iota beta. change (negb (0 =? 0)) with false.
  cbv iota.
  match goal with
  | |- context [create_copy_loop records (num_records ?s1)] =>
      change (num_records s1) with R;
      change (trees_left s1) with (malloc_u32 R);
      change (trees_right s1) with (malloc_u32 R);
      change (trees_node s1) with (malloc_u32 R);
      change (trees_children s1) with (malloc_u32 (2 * R));
      change (trees_time s1) with (malloc_f64 R)
  end.
  rewrite (create_copy_loop_all records R) by (done || lia).
  cbn [mbind option_bind].
  match goal with
  | |- context [tree_sequence_make_indexes ?s] =>
      destruct (tree_sequence_make_indexes s) as [[ret self']|]
  end; [|done].
  cbn [mbind option_bind fst snd].
  destruct (negb (ret =? 0)); done.
Qed.

(** X2: [tree_sequence_create] on a simulation that hands out its records,
    at least one and fewer than 2^31, the times being numbers, and whose
    two provenance strings are encoded, returns 0 with the records of the
    simulation in its columns and both indexes sorted as
    [make_indexes_sorts] says. *)
Theorem create_sorts_indexes sim :
  let records := msp_records sim in
  let R := Z.of_nat (length records) in
  1 <= R < 2 ^ 31 ->
  msp_records_status sim = 0 ->
  msp_environment_status sim = 0 -> msp_parameters_status sim = 0 ->
  Forall (fun r => is_nan (cr_time r) = false) records ->
  exists self',
    tree_sequence_create sim = Some (0, self') /\
    num_records self' = R /\
    trees_left self' = map cr_left records /\
    trees_right self' = map cr_right records /\
    trees_node self' = map cr_node records /\
    trees_children self' =
      flat_map (fun r => [fst (cr_children r); snd (cr_children r)])
        records /\
    trees_time self' = map cr_time records /\
    trees_insertion_order self' ≡ₚ seqZ 0 R /\
    trees_removal_order self' ≡ₚ seqZ 0 R /\
    StronglySorted (inserts_before self') (trees_insertion_order self') /\
    StronglySorted (removes_before self') (trees_removal_order self').
Proof.
  intros records R HR Hrs Hes Hps Hnan.
  rewrite tree_sequence_create_copies by done. fold records R.
  match goal with
  | |- context [tree_sequence_make_indexes ?s] => set (self2 := s)
  end.
  destruct (make_indexes_sorted self2)
    as (self' & E & ER & El & Er & Et & Pi & Pr & Si & Sr);
    try (cbn; rewrite ?length_map; fold records R; done || lia);
    try (cbn; apply length_malloc_u32; lia).
  { cbn. apply Forall_forall. intros t Ht%list_elem_of_In%in_map_iff.
    destruct Ht as (r & <- & Hr%list_elem_of_In).
    by eapply Forall_forall in Hnan. }
  destruct (make_indexes_keeps _ _ E) as (Eu & Ec & _).
  rewrite E. cbn [mbind option_bind fst snd].
  change (negb (0 =? 0)) with false. cbv iota.
  eexists. split; [reflexivity|].
  cbn [num_records trees_left trees_right trees_node trees_children
       trees_time trees_insertion_order trees_removal_order
       with_provenance].
  repeat match goal with |- _ /\ _ => split end; done.
Qed.

End indexes.


(** [create_sorts_indexes] on [example_sim]. *)
Lemma create_sorts_indexes_witness :
  exists self',
    tree_sequence_create (H := zero_heap) (H0 := isort_qsort) example_sim
      = Some (0, self') /\
    num_records self' = 3 /\
    trees_left self' = [0; 0; 5] /\
    trees_right self' = [10; 5; 10] /\
    trees_node self' = [4; 5; 6] /\
    trees_children self' = [1; 2; 3; 4; 3; 4] /\
    trees_time self' = [d_of_u32 1; d_of_u32 2; d_of_u32 3] /\
    trees_insertion_order self' ≡ₚ seqZ 0 3 /\
    trees_removal_order self' ≡ₚ seqZ 0 3 /\
    StronglySorted (inserts_before self') (trees_insertion_order self') /\
    StronglySorted (removes_before self') (trees_removal_order self').
Proof.
  apply (@create_sorts_indexes zero_heap isort_qsort example_sim).
  - vm_compute. split; [discriminate|reflexivity].
  - reflexivity.
  - reflexivity.
  - reflexivity.
  - repeat constructor.
Defined.

(** ** tree_sequence_load where the library shuts down *)

Lemma h5_read_into_length {A} (data dest d : list A) :
  h5_read_into data dest = Some d -> length d = length dest.
Proof.
  unfold h5_read_into. destruct (Nat.leb_spec (length data) (length dest));
    [|done].
  intros [= <-]. rewrite length_app, length_drop. lia.
Qed.

Lemma read_u32_dataset_length file name dest r :
  read_u32_dataset file name dest = Some r -> length r.2 = length dest.
Proof.
  unfold read_u32_dataset. destruct (h5_datasets file !! name) as [o|];
    [|by intros [= <-]].
  destruct (h5_u32_values o) as [l|]; [|by intros [= <-]].
  destruct (h5_read_into l dest) as [d|] eqn:E; [|done].
  intros [= <-]. by eapply h5_read_into_length.
Qed.

Lemma read_f64_dataset_length file name dest r :
  read_f64_dataset file name dest = Some r -> length r.2 = length dest.
Proof.
  unfold read_f64_dataset. destruct (h5_datasets file !! name) as [o|];
    [|by intros [= <-]].
  destruct (h5_f64_values o) as [l|]; [|by intros [= <-]].
  destruct (h5_read_into l dest) as [d|] eqn:E; [|done].
  intros [= <-]. by eapply h5_read_into_length.
Qed.

Lemma read_hdf5_data_lengths self file ret self' :
  tree_sequence_read_hdf5_data self file = Some (ret, self') ->
  length (trees_left self') = length (trees_left self) /\
  length (trees_right self') = length (trees_right self) /\
  length (trees_node self') = length (trees_node self) /\
  length (trees_time self') = length (trees_time self).
Proof.
  unfold tree_sequence_read_hdf5_data.
  destruct (read_u32_dataset file "/trees/left" _) as [l|] eqn:El; [|done].
  apply read_u32_dataset_length in El. cbn [mbind option_bind].
  destruct (negb (l.1 =? 0)); [by intros [= _ <-]|].
  destruct (read_u32_dataset file "/trees/right" _) as [r|] eqn:Er; [|done].
  apply read_u32_dataset_length in Er. cbn [mbind option_bind].
  destruct (negb (r.1 =? 0)); [by intros [= _ <-]|].
  destruct (read_u32_dataset file "/trees/node" _) as [u|] eqn:Eu; [|done].
  apply read_u32_dataset_length in Eu. cbn [mbind option_bind].
  destruct (negb (u.1 =? 0)); [by intros [= _ <-]|].
  destruct (read_u32_dataset file "/trees/children" _) as [c|] eqn:Ec;
    [|done].
  cbn [mbind option_bind].
  destruct (negb (c.1 =? 0)); [by intros [= _ <-]|].
  destruct (read_f64_dataset file "/trees/time" _) as [t|] eqn:Et; [|done].
  apply read_f64_dataset_length in Et. cbn [mbind option_bind].
  destruct (negb (t.1 =? 0)); [by intros [= _ <-]|].
  destruct (_ =? 0); [by intros [= _ <-]|].
  destruct (read_u32_dataset file "/mutations/node" _) as [mu|]; [|done].
  cbn [mbind option_bind].
  destruct (negb (mu.1 =? 0)); [by intros [= _ <-]|].
  destruct (read_f64_dataset file "/mutations/position" _) as [mp|]; [|done].
  cbn [mbind option_bind].
  destruct (negb (mp.1 =? 0)); by intros [= _ <-].
Qed.

Lemma read_hdf5_provenance_columns self file :
  let self' := snd (tree_sequence_read_hdf5_provenance self file) in
  trees_left self' = trees_left self /\
  trees_right self' = trees_right self /\
  trees_node self' = trees_node self /\
  trees_time self' = trees_time self.
Proof.
  unfold tree_sequence_read_hdf5_provenance.
  repeat case_match; done.
Qed.

Lemma tree_sequence_alloc_lengths `{heap} self :
  let self' := snd (tree_sequence_alloc self) in
  let r := Z.to_nat (num_records self) in
  length (trees_left self') = r /\ length (trees_right self') = r /\
  length (trees_node self') = r /\ length (trees_time self') = r.
Proof.
  unfold tree_sequence_alloc, malloc_u32, malloc_f64.
  case_match; cbn; by rewrite !length_map, !length_seq.
Qed.

Lemma make_indexes_Some `{libc_qsort} self r :
  tree_sequence_make_indexes self = Some r ->
  1 <= num_records self < 2 ^ 32.
Proof.
  unfold tree_sequence_make_indexes. cbv zeta.
  destruct (fill_sort_buff _ _ false _ _ _) eqn:Ef; [|done].
  cbn [mbind option_bind].
  destruct (copy_sort_buff _ _ _ _ (trees_insertion_order self)); [|done].
  cbn [mbind option_bind].
  destruct (fill_sort_buff _ _ true _ _ _); [|done]. cbn [mbind option_bind].
  destruct (copy_sort_buff _ _ _ _ (trees_removal_order self)); [|done].
  cbn [mbind option_bind].
  destruct (rd (trees_node self) (num_records self - 1)) eqn:E; [|done].
  apply rd_Some_range in E. intros _. split; [lia|].
  destruct (Z.lt_ge_cases (num_records self) (2 ^ 32)) as [|Hge]; [done|].
  rewrite fill_sort_buff_diverges in Ef; [done|done|lia].
Qed.

Section load.
Context `{msprime_h} `{heap} `{libc_qsort}.

Lemma load_runs_make_indexes fs lib filename flags self' :
  tree_sequence_load fs lib filename flags = Some (0, self') ->
  Z.land flags MSP_SKIP_H5CLOSE <> 0 \/ 0 <= H5close_status lib ->
  exists self,
    tree_sequence_make_indexes self = Some (0, self') /\
    length (trees_left self) = Z.to_nat (num_records self) /\
    length (trees_right self) = Z.to_nat (num_records self) /\
    length (trees_node self) = Z.to_nat (num_records self) /\
    length (trees_time self) = Z.to_nat (num_records self) /\
    length (trees_insertion_order self) = Z.to_nat (num_records self) /\
    length (trees_removal_order self) = Z.to_nat (num_records self).
Proof.
  intros Hload Hclose. revert Hload. unfold tree_sequence_load.
  destruct (fs !! filename) as [file|]; [|intros [= E _]; done].
  destruct (tree_sequence_read_hdf5_metadata _ _) as [status self1].
  destruct (status <? 0); [intros [= E _]; done|].
  destruct (tree_sequence_read_hdf5_dimensions _ _) as [ret2 self2].
  destruct (Z.eqb_spec ret2 0) as [->|Hne]; simpl negb; cbv iota;
    [|intros [= E _]; done].
  pose proof (tree_sequence_alloc_spec self2) as Ha.
  pose proof (tree_sequence_alloc_lengths self2) as Hl.
  destruct (tree_sequence_alloc self2) as [ret3 self3].
  cbn [fst snd] in Ha, Hl. destruct Ha as (-> & _ & Ha2 & Hai & Har).
  destruct Hl as (Ll & Lr & Ln & Lt).
  simpl negb; cbv iota.
  destruct (tree_sequence_read_hdf5_data self3 file) as [[ret4 self4]|] eqn:E4;
    [|done].
  cbn [mbind option_bind].
  pose proof (read_hdf5_data_keeps _ _ _ _ E4) as (_ & He2 & Hei & Her).
  apply read_hdf5_data_lengths in E4 as (Ll4 & Lr4 & Ln4 & Lt4).
  destruct (Z.eqb_spec ret4 0) as [->|Hne]; simpl negb; cbv iota;
    [|intros [= E _]; done].
  pose proof (read_hdf5_provenance_keeps self4 file) as Hp.
  pose proof (read_hdf5_provenance_columns self4 file) as Hpc.
  destruct (tree_sequence_read_hdf5_provenance _ _) as [status5 self5].
  cbn [snd] in Hp, Hpc. destruct Hp as (_ & Hp2 & Hpi & Hpr).
  destruct Hpc as (Pl & Pr & Pn & Pt).
  destruct (status5 <? 0); [intros [= E _]; done|].
  destruct (H5Fclose_status lib <? 0); [intros [= E _]; done|].
  assert (forall r : option (Z * tree_sequence_t),
            (r ≫= (fun r => let '(ret, self) := r in
                     if negb (ret =? 0) then Some (ret, self)
                     else Some (0, self))) = Some (0, self') ->
            r = Some (0, self')) as Hbind.
  { intros [[ret s]|]; [|done]. cbn [mbind option_bind].
    destruct (Z.eqb_spec ret 0) as [->|]; simpl negb; cbv iota;
      intros E; injection E; intros; subst; done. }
  assert (tree_sequence_make_indexes self5 = Some (0, self')
          -> exists self,
    tree_sequence_make_indexes self = Some (0, self') /\
    length (trees_left self) = Z.to_nat (num_records self) /\
    length (trees_right self) = Z.to_nat (num_records self) /\
    length (trees_node self) = Z.to_nat (num_records self) /\
    length (trees_time self) = Z.to_nat (num_records self) /\
    length (trees_insertion_order self) = Z.to_nat (num_records self) /\
    length (trees_removal_order self) = Z.to_nat (num_records self))
    as Hdone.
  { intros E. exists self5. split; [done|].
    rewrite Pl, Pr, Pn, Pt, Hp2, Ll4, Lr4, Ln4, Lt4, He2, Ha2.
    rewrite Hpi, Hpr, Hei, Her, Hai, Har. unfold malloc_u32.
    rewrite !length_map, !length_seq. done. }
  destruct (Z.eqb_spec (Z.land flags MSP_SKIP_H5CLOSE) 0) as [E0|_];
    simpl negb; cbv iota.
  - destruct (Z.ltb_spec (H5close_status lib) 0);
      [destruct Hclose; [done|lia]|].
    intros E. by apply Hdone, Hbind.
  - intros E. by apply Hdone, Hbind.
Qed.

(** X3: a tree sequence that [tree_sequence_load] returns with status 0,
    the shutdown of the library skipped or successful, has both indexes
    sorted as [make_indexes_sorts] says (its times being numbers). *)
Theorem load_sorts_indexes fs lib filename flags self' :
  tree_sequence_load fs lib filename flags = Some (0, self') ->
  Z.land flags MSP_SKIP_H5CLOSE <> 0 \/ 0 <= H5close_status lib ->
  num_records self' <= 2 ^ 32 ->
  Forall (fun t => is_nan t = false) (trees_time self') ->
  trees_insertion_order self' ≡ₚ seqZ 0 (num_records self') /\
  trees_removal_order self' ≡ₚ seqZ 0 (num_records self') /\
  StronglySorted (inserts_before self') (trees_insertion_order self') /\
  StronglySorted (removes_before self') (trees_removal_order self').
Proof.
  intros Hload Hclose HR Hnan.
  destruct (load_runs_make_indexes _ _ _ _ _ Hload Hclose)
    as (self & E & Ll & Lr & Ln & Lt & Lio & Lro).
  pose proof (make_indexes_Some _ _ E) as Hone.
  assert (num_records self' = num_records self /\
          trees_time self' = trees_time self) as [ER ET].
  { revert E. unfold tree_sequence_make_indexes. cbv zeta.
    destruct (fill_sort_buff _ _ false _ _ _); [|done].
    cbn [mbind option_bind].
    destruct (copy_sort_buff _ _ _ _ (trees_insertion_order self)); [|done].
    cbn [mbind option_bind].
    destruct (fill_sort_buff _ _ true _ _ _); [|done].
    cbn [mbind option_bind].
    destruct (copy_sort_buff _ _ _ _ (trees_removal_order self)); [|done].
    cbn [mbind option_bind].
    destruct (rd (trees_node self) (num_records self - 1)); [|done].
    cbn [mbind option_bind]. by intros [= <-]. }
  rewrite ER in *. rewrite ET in Hnan.
  destruct (make_indexes_sorted self)
    as (self'' & E' & _ & _ & _ & _ & Pi & Pr & Si & Sr); try done; try lia.
  rewrite E in E'. by injection E' as <-.
Qed.

End load.

(** [example_archive] loads with sorted indexes. *)
Lemma load_sorts_indexes_witness :
  let fs : archives :=
    {[ "sim.hdf5"%string := example_archive (H := sample_msprime_h) ]} in
  exists self',
    tree_sequence_load (H := sample_msprime_h) (H0 := zero_heap)
      (H1 := isort_qsort) fs h5_ok "sim.hdf5" 0 = Some (0, self') /\
    trees_insertion_order self' ≡ₚ seqZ 0 (num_records self') /\
    trees_removal_order self' ≡ₚ seqZ 0 (num_records self') /\
    StronglySorted (inserts_before self') (trees_insertion_order self') /\
    StronglySorted (removes_before self') (trees_removal_order self').
Proof.
  eexists. split; [vm_compute; reflexivity|].
  apply (@load_sorts_indexes sample_msprime_h zero_heap isort_qsort
           {[ "sim.hdf5"%string := example_archive (H := sample_msprime_h) ]}
           h5_ok "sim.hdf5" 0).
  - vm_compute; reflexivity.
  - right. vm_compute. discriminate.
  - vm_compute. discriminate.
  - repeat constructor.
Defined.

(** ** The conversion of unsigned integers to double *)

Lemma digits2_pos_iter p k :
  Zpos (digits2_pos (Pos.iter xO p k)) = Zpos (digits2_pos p) + Zpos k.
Proof.
  induction k as [|k IH] using Pos.peano_ind.
  - simpl. lia.
  - rewrite Pos.iter_succ. cbn [digits2_pos]. lia.
Qed.

Lemma Zpos_iter_xO p k : Zpos (Pos.iter xO p k) = Zpos p * 2 ^ Zpos k.
Proof.
  induction k as [|k IH] using Pos.peano_ind.
  - simpl. lia.
  - rewrite Pos.iter_succ, Pos2Z.inj_xO, IH, Pos2Z.inj_succ, Z.pow_succ_r by lia.
    lia.
Qed.

Lemma digits2_pos_bounds p :
  2 ^ (Zpos (digits2_pos p) - 1) <= Zpos p < 2 ^ Zpos (digits2_pos p).
Proof.
  induction p as [p IH|p IH|]; cbn [digits2_pos].
  - rewrite Pos2Z.inj_succ, Z.pow_succ_r by lia.
    replace (Z.succ (Zpos (digits2_pos p)) - 1)
      with (Z.succ (Zpos (digits2_pos p) - 1)) by lia.
    rewrite Z.pow_succ_r by lia. lia.
  - rewrite Pos2Z.inj_succ, Z.pow_succ_r by lia.
    replace (Z.succ (Zpos (digits2_pos p)) - 1)
      with (Z.succ (Zpos (digits2_pos p) - 1)) by lia.
    rewrite Z.pow_succ_r by lia. lia.
  - simpl. lia.
Qed.

(** A positive integer below [2 ^ 53] converts to the double with the same
    value: a mantissa of 53 bits and the exponent that goes with it. *)
Lemma d_of_u32_finite z :
  1 <= z < 2 ^ 53 ->
  exists m d,
    d_of_u32 z = S754_finite false m (d - 53) /\
    Zpos m = z * 2 ^ (53 - d) /\ 1 <= d <= 53 /\ 2 ^ (d - 1) <= z < 2 ^ d.
Proof.
  intros Hz. destruct z as [|p|p]; try lia.
  pose proof (digits2_pos_bounds p) as Hb.
  set (d := Zpos (digits2_pos p)) in *.
  assert (1 <= d <= 53) as Hd.
  { split; [unfold d; lia|]. destruct (Z.le_gt_cases d 53); [done|].
    assert (2 ^ 53 <= 2 ^ (d - 1)) by (apply Z.pow_le_mono_r; lia). lia. }
  unfold d_of_u32, binary_normalize, binary_round, shl_align, fexp, emin.
  fold d. rewrite Z.add_0_r, Z.sub_0_r.
  rewrite Z.max_l by lia.
  assert (forall (mz : positive) e, Zpos (digits2_pos mz) = 53 ->
            -52 <= e <= 0 ->
            binary_round_aux 53 1024 false (Zpos mz) e loc_Exact
            = S754_finite false mz e) as Haux.
  { clear. intros mz e Hmz He.
    unfold binary_round_aux, shr_fexp, fexp, emin. cbn [Zdigits2].
    rewrite Hmz. rewrite Z.max_l by lia.
    replace (53 + e - 53 - e) with 0 by lia.
    cbn [shr shr_record_of_loc shr_m loc_of_shr_record round_nearest_even
         Zdigits2].
    rewrite Hmz. rewrite Z.max_l by lia.
    replace (53 + e - 53 - e) with 0 by lia.
    cbn [shr shr_record_of_loc shr_m].
    destruct (Z.leb_spec e (1024 - 53)); [done|lia]. }
  destruct (d - 53) as [|k|k] eqn:Ek.
  - exists p, d. rewrite Haux by (fold d; lia). rewrite Ek.
    replace (53 - d) with 0 by lia. split; [done|]. split; [lia|done].
  - lia.
  - exists (Pos.iter xO p k), d.
    rewrite Haux by (rewrite ?digits2_pos_iter; fold d; lia). rewrite Ek.
    split; [done|]. split; [|done].
    rewrite Zpos_iter_xO. f_equal. f_equal. lia.
Qed.

Lemma d_of_u32_zero : d_of_u32 0 = d_zero.
Proof. reflexivity. Qed.

Lemma d_of_u32_not_nan z : 0 <= z < 2 ^ 53 -> is_nan (d_of_u32 z) = false.
Proof.
  intros Hz. destruct (decide (z = 0)) as [->|]; [done|].
  destruct (d_of_u32_finite z) as (m & d & -> & _); [lia|done].
Qed.

(** The conversion keeps the order. *)
Lemma d_of_u32_lt a b :
  0 <= a < b -> b < 2 ^ 53 -> d_lt (d_of_u32 a) (d_of_u32 b) = true.
Proof.
  intros Ha Hb.
  apply d_lt_key; try (apply d_of_u32_not_nan; lia).
  destruct (d_of_u32_finite b) as (mb & db & -> & Emb & Hdb & Bb); [lia|].
  destruct (decide (a = 0)) as [->|].
  { rewrite d_of_u32_zero. simpl. lia. }
  destruct (d_of_u32_finite a) as (ma & da & -> & Ema & Hda & Ba); [lia|].
  cbn [float_key key_lt]. right. split; [done|].
  destruct (Z.lt_trichotomy da db) as [Hlt|[->|Hgt]].
  - left. lia.
  - right. split; [done|]. rewrite Ema, Emb.
    apply Z.mul_lt_mono_pos_r; [apply Z.pow_pos_nonneg; lia|lia].
  - exfalso.
    assert (2 ^ db <= 2 ^ (da - 1)) by (apply Z.pow_le_mono_r; lia). lia.
Qed.

Lemma d_lt_le_trans a b c :
  is_nan a = false -> is_nan b = false -> is_nan c = false ->
  d_lt a b = true -> d_lt c b = false -> d_lt a c = true.
Proof.
  intros Na Nb Nc Hab Hcb.
  apply d_lt_key in Hab; try done. apply d_lt_false_key in Hcb; try done.
  apply d_lt_key; try done.
  destruct (float_key a) as [[a1 a2] a3], (float_key b) as [[b1 b2] b3],
    (float_key c) as [[c1 c2] c3]. unfold key_lt in *. lia.
Qed.

Lemma d_le_lt_trans a b c :
  is_nan a = false -> is_nan b = false -> is_nan c = false ->
  d_lt b a = false -> d_lt b c = true -> d_lt a c = true.
Proof.
  intros Na Nb Nc Hba Hbc.
  apply d_lt_key in Hbc; try done. apply d_lt_false_key in Hba; try done.
  apply d_lt_key; try done.
  destruct (float_key a) as [[a1 a2] a3], (float_key b) as [[b1 b2] b3],
    (float_key c) as [[c1 c2] c3]. unfold key_lt in *. lia.
Qed.

Lemma d_le_trans a b c :
  is_nan a = false -> is_nan b = false -> is_nan c = false ->
  d_lt b a = false -> d_lt c b = false -> d_lt c a = false.
Proof.
  intros Na Nb Nc Hba Hcb.
  apply d_lt_false_key in Hba, Hcb; try done.
  apply d_lt_false_key; try done. by eapply key_lt_trans_neg.
Qed.

(** ** sparse_tree_iterator_next: the tree it leaves *)

Lemma root_climb_top N parent :
  climbs N (parent_of parent) -> Z.of_nat (length parent) = N + 1 ->
  forall fuel root, 0 <= root <= N -> N < root + Z.of_nat fuel ->
  exists root',
    root_climb fuel parent root = Some root' /\ 0 <= root' <= N /\
    parent_of parent root' = 0 /\
    (root' = root \/ anc (parent_of parent) root root').
Proof.
  intros Hc Hl. induction fuel as [|fuel IH]; intros root Hr Hf; [lia|].
  cbn [root_climb].
  destruct (rd_in_range parent root) as [p Ep]; [lia|]. rewrite Ep.
  cbn [mbind option_bind].
  assert (parent_of parent root = p) as Pp by (unfold parent_of; by rewrite Ep).
  destruct (Z.eqb_spec p 0) as [->|Hp].
  { exists root. by repeat split; try lia; try left. }
  pose proof (Hc root) as Hcr. rewrite Pp in Hcr. specialize (Hcr Hp).
  destruct (IH p) as (root' & E & Hr' & Htop & Hanc); try lia.
  exists root'. split; [done|]. split; [done|]. split; [done|]. right.
  apply anc_step; rewrite Pp; [done|].
  destruct Hanc as [->|Hanc]; [apply anc_refl|done].
Qed.

(** The last loop copies a run of stored mutations: those from the
    mutation index on that lie left of [right]. *)
Lemma tree_mutations_loop_run s right :
  Z.of_nat (length (mutations_position s)) = num_mutations s ->
  Z.of_nat (length (mutations_node s)) = num_mutations s ->
  forall fuel mutation_index num mutations,
  0 <= num <= mutation_index ->
  Z.of_nat (length mutations) = num_mutations s ->
  (Z.to_nat (num_mutations s - mutation_index) < fuel)%nat ->
  exists (c : nat) mutations',
    tree_mutations_loop s right (num_mutations s) fuel mutation_index num
      mutations
    = Some (mutation_index + Z.of_nat c, num + Z.of_nat c, mutations') /\
    mutation_index + Z.of_nat c <= Z.max mutation_index (num_mutations s) /\
    length mutations' = length mutations /\
    (forall q, 0 <= q < num -> rd mutations' q = rd mutations q) /\
    (forall q, 0 <= q < Z.of_nat c ->
       exists p u,
         rd (mutations_position s) (mutation_index + q) = Some p /\
         rd (mutations_node s) (mutation_index + q) = Some u /\
         d_lt p (d_of_u32 right) = true /\
         rd mutations' (num + q) = Some {| position := p; node := u |}) /\
    (mutation_index + Z.of_nat c < num_mutations s ->
     exists p, rd (mutations_position s) (mutation_index + Z.of_nat c)
               = Some p /\ d_lt p (d_of_u32 right) = false).
Proof.
  intros Lp Ln. induction fuel as [|fuel IH];
    intros mutation_index num mutations Hnum Hl Hf.
  - cbn [tree_mutations_loop]. lia.
  - cbn [tree_mutations_loop].
    destruct (Z.ltb_spec mutation_index (num_mutations s)).
    2:{ exists 0%nat, mutations. rewrite !Z.add_0_r.
        repeat match goal with |- _ /\ _ => split end; try done; lia. }
    destruct (rd_in_range (mutations_position s) mutation_index) as [p Ep];
      [lia|]. rewrite Ep. cbn [mbind option_bind].
    destruct (d_lt p (d_of_u32 right)) eqn:Elt.
    2:{ exists 0%nat, mutations. rewrite !Z.add_0_r.
        repeat match goal with |- _ /\ _ => split end; try done; try lia.
        intros _. by exists p. }
    destruct (Z.ltb_spec num (num_mutations s)); [|lia].
    destruct (rd_in_range (mutations_node s) mutation_index) as [u Eu];
      [lia|]. rewrite Eu. cbn [mbind option_bind].
    destruct (wr_ex mutations num {| position := p; node := u |})
      as (m & Em & Lm); [lia|]. rewrite Em. cbn [mbind option_bind].
    destruct (IH (mutation_index + 1) (num + 1) m)
      as (c & m' & E & Hle & Lm' & Hkeep & Hrun & Hstop); try lia.
    exists (S c), m'.
    replace (mutation_index + Z.of_nat (S c))
      with (mutation_index + 1 + Z.of_nat c) by lia.
    replace (num + Z.of_nat (S c)) with (num + 1 + Z.of_nat c) by lia.
    split; [done|]. split; [lia|]. split; [congruence|].
    split; [|split; [|done]].
    + intros q Hq. rewrite Hkeep by lia.
      apply (rd_wr_other _ _ _ _ _ Em). lia.
    + intros q Hq. destruct (decide (q = 0)) as [->|Hq0].
      * exists p, u. rewrite !Z.add_0_r. split; [done|]. split; [done|].
        split; [done|]. rewrite Hkeep by lia.
        apply (rd_wr_same _ _ _ _ Em).
      * destruct (Hrun (q - 1)) as (p' & u' & ? & ? & ? & ?); [lia|].
        exists p', u'.
        replace (mutation_index + q) with (mutation_index + 1 + (q - 1))
          by lia.
        replace (num + q) with (num + 1 + (q - 1)) by lia. done.
Qed.

(** ** sparse_tree_iterator_next, with or without leaf counts *)

Lemma tree_ok_layout `{msprime_h} s tracked live t :
  tree_ok s tracked live t -> tree_layout s t.
Proof.
  intros ((Ess & Enn & Hfl & Lp & Lt & Lc & Lnl & Lntl & Ls1 & Emm & Lm
           & Hroot) & _).
  unfold tree_layout.
  repeat match goal with |- _ /\ _ => split end; try done; lia.
Qed.

Lemma tree_ok_links `{msprime_h} s tracked live t :
  tree_ok s tracked live t -> tree_links s tracked live t.
Proof.
  intros Hok. split; [by eapply tree_ok_layout|]. split; [apply Hok|done].
Qed.

Section record_links.
Context `{msprime_h}.
Context (s : tree_sequence_t) (tracked : list Z).
Context (Hc : columns_ok s) (Hnest : records_nest s).

Lemma remove_record_links live t k :
  tree_links s tracked live t -> live k -> apart s live k ->
  exists t',
    remove_record s k t = Some t' /\
    tree_links s tracked (fun k' => live k' /\ k' <> k) t' /\
    t_left t' = t_left t /\ t_right t' = t_right t.
Proof.
  intros (Hlay & Hlinks & Hcnt) Hk Hap.
  destruct (decide (Z.land (t_flags t) MSP_COUNT_LEAVES = 0)) as [Hf|Hf].
  2:{ destruct (remove_record_spec s tracked Hc Hnest live t k (Hcnt Hf) Hk
                  Hap) as (t' & E & Hok' & El & Er).
      exists t'. split; [done|]. split; [by apply tree_ok_links|done]. }
  pose proof Hnest as (Hn1 & HnN & H32 & _ & _ & Hrec & _).
  pose proof Hlay as (Ess & Enn & Lp & Lt & Lc & Ls1 & Emm & Lm & Hroot).
  pose proof Hlinks as (Hr & _). pose proof (Hr k Hk) as Hkr.
  destruct (Hrec k Hkr) as (Rn & R0 & R1 & Rd).
  set (u := ts_node s k) in *. set (c0 := ts_child s k 0) in *.
  set (c1 := ts_child s k 1) in *.
  set (n := sample_size s) in *. set (N := num_nodes s) in *.
  destruct (wr_ex (t_parent t) c0 0) as (p1 & W1 & L1); [lia|].
  destruct (wr_ex p1 c1 0) as (p2 & W2 & L2); [lia|].
  destruct (wr_ex (t_children t) (2 * u + 0) 0) as (ch1 & W3 & L3); [lia|].
  destruct (wr_ex ch1 (2 * u + 1) 0) as (ch2 & W4 & L4); [lia|].
  destruct (wr_ex (t_time t) u d_zero) as (tm & W5 & L5); [lia|].
  destruct (links_after_removal s live _ _ k p1 p2 ch1 ch2 Hlinks Hk Hap
              W1 W2 W3 W4) as (Hlinks' & _).
  eexists. split.
  - unfold remove_record. rewrite rd_ts_node by done.
    cbn [mbind option_bind].
    replace (wrap32 (2 * k)) with (wrap32 (2 * k + 0)) by (f_equal; lia).
    rewrite !rd_ts_child by (done || lia). cbn [mbind option_bind].
    fold u c0 c1. rewrite !wrap32_small by lia.
    rewrite W1. cbn [mbind option_bind]. rewrite W3. cbn [mbind option_bind].
    rewrite W2. cbn [mbind option_bind]. rewrite W4. cbn [mbind option_bind].
    rewrite W5. cbn [mbind option_bind].
    cbn [t_flags with_root with_links].
    destruct (Z.eqb_spec (Z.land (t_flags t) MSP_COUNT_LEAVES) 0); [|done].
    reflexivity.
  - cbn. split; [|done]. split; [|split; [done|done]].
    unfold tree_layout. cbn. fold n N.
    repeat match goal with |- _ /\ _ => split end; try done; try lia.
    all: destruct (u =? t_root t); lia.
Qed.

Lemma insert_record_links live t k :
  tree_links s tracked live t ->
  0 <= k < num_records s -> ~ live k -> apart s live k ->
  exists t',
    insert_record s k t = Some t' /\
    tree_links s tracked (fun k' => live k' \/ k' = k) t' /\
    t_left t' = t_left t /\ t_right t' = t_right t.
Proof.
  intros (Hlay & Hlinks & Hcnt) Hkr Hk Hap.
  destruct (decide (Z.land (t_flags t) MSP_COUNT_LEAVES = 0)) as [Hf|Hf].
  2:{ destruct (insert_record_spec s tracked Hc Hnest live t k (Hcnt Hf) Hkr
                  Hk Hap) as (t' & E & Hok' & El & Er).
      exists t'. split; [done|]. split; [by apply tree_ok_links|done]. }
  pose proof Hnest as (Hn1 & HnN & H32 & _ & _ & Hrec & _).
  pose proof Hlay as (Ess & Enn & Lp & Lt & Lc & Ls1 & Emm & Lm & Hroot).
  destruct (Hrec k Hkr) as (Rn & R0 & R1 & Rd).
  set (u := ts_node s k) in *. set (c0 := ts_child s k 0) in *.
  set (c1 := ts_child s k 1) in *.
  set (n := sample_size s) in *. set (N := num_nodes s) in *.
  destruct (wr_ex (t_parent t) c0 u) as (p1 & W1 & L1); [lia|].
  destruct (wr_ex p1 c1 u) as (p2 & W2 & L2); [lia|].
  destruct (wr_ex (t_children t) (2 * u + 0) c0) as (ch1 & W3 & L3); [lia|].
  destruct (wr_ex ch1 (2 * u + 1) c1) as (ch2 & W4 & L4); [lia|].
  destruct (wr_ex (t_time t) u (ts_time s k)) as (tm & W5 & L5); [lia|].
  destruct (links_after_insertion s live _ _ k p1 p2 ch1 ch2 Hlinks Hkr Hk
              Hap W1 W2 W3 W4) as (Hlinks' & _).
  eexists. split.
  - unfold insert_record. rewrite rd_ts_node by done.
    cbn [mbind option_bind].
    replace (wrap32 (2 * k)) with (wrap32 (2 * k + 0)) by (f_equal; lia).
    rewrite !rd_ts_child by (done || lia). cbn [mbind option_bind].
    fold u c0 c1. rewrite !wrap32_small by lia.
    rewrite W1. cbn [mbind option_bind]. rewrite W3. cbn [mbind option_bind].
    rewrite W2. cbn [mbind option_bind]. rewrite W4. cbn [mbind option_bind].
    rewrite rd_ts_time by done. cbn [mbind option_bind].
    rewrite W5. cbn [mbind option_bind].
    cbn [t_flags with_root with_links].
    destruct (Z.eqb_spec (Z.land (t_flags t) MSP_COUNT_LEAVES) 0); [|done].
    reflexivity.
  - cbn. split; [|done]. split; [|split; [done|done]].
    unfold tree_layout. cbn. fold n N.
    repeat match goal with |- _ /\ _ => split end; try done; try lia.
    all: destruct (t_root t <? u); lia.
Qed.

End record_links.

Lemma links_hold_ext s (live1 live2 : Z -> Prop) parent children :
  (forall k, live1 k <-> live2 k) ->
  links_hold s live1 parent children -> links_hold s live2 parent children.
Proof.
  intros E (Hr & Hl & Hch & Hpa).
  split; [|split; [|split]].
  - intros k Hk. apply Hr. by apply E.
  - intros k j Hk. apply Hl. by apply E.
  - intros v j Hj Hne. destruct (Hch v j Hj Hne) as (k & Hk & ?).
    exists k. split; [by apply E|done].
  - intros c Hne. destruct (Hpa c Hne) as (k & j & Hk & ?).
    exists k, j. split; [by apply E|done].
Qed.

Lemma tree_links_ext `{msprime_h} s tracked (live1 live2 : Z -> Prop) t :
  (forall k, live1 k <-> live2 k) ->
  tree_links s tracked live1 t -> tree_links s tracked live2 t.
Proof.
  intros E (Hlay & Hlinks & Hcnt).
  split; [done|]. split; [by eapply links_hold_ext|].
  intros Hf. eapply tree_ok_ext; [exact E|by apply Hcnt].
Qed.

Section loop_links.
Context `{msprime_h}.
Context (s : tree_sequence_t) (tracked : list Z).
Context (Htile : records_tile s) (Hnest : records_nest s).

Lemma tree_remove_loop_links (i r : nat) x :
  indexes_at s i r x ->
  let mr := run_length (ts_right s) x (drop r (trees_removal_order s)) in
  (r + mr < length (trees_removal_order s))%nat ->
  forall (m q : nat) t fuel,
  (q + m = r + mr)%nat -> (r <= q)%nat ->
  tree_links s tracked (live s i q) t -> t_right t = x -> (m < fuel)%nat ->
  exists t',
    tree_remove_loop s fuel (Z.of_nat q) t = Some (Z.of_nat (r + mr), t') /\
    tree_links s tracked (live s i (r + mr)) t' /\
    t_right t' = x /\ t_left t' = t_left t.
Proof.
  intros Hidx mr Hstop. pose proof Htile as (Hc & _).
  induction m as [|m IH]; intros q t fuel Hq Hrq Hok Hx Hfuel;
    (destruct fuel as [|fuel]; [lia|]); cbn [tree_remove_loop].
  - replace q with (r + mr)%nat in * by lia.
    destruct (lookup_lt_is_Some_2 _ _ Hstop) as [k' Hk'].
    rewrite rd_lookup, Nat2Z.id, Hk' by lia. cbn [mbind option_bind].
    assert (0 <= k' < num_records s) as Hk'r
      by (by eapply removal_order_elem, list_elem_of_lookup_2).
    rewrite rd_ts_right by done. cbn [mbind option_bind].
    assert (ts_right s k' <> x) as Hne.
    { apply (run_length_stop _ _ (drop r (trees_removal_order s))).
      by rewrite lookup_drop. }
    rewrite Hx. destruct (Z.eqb_spec (ts_right s k') x); [done|].
    by exists t.
  - destruct (lookup_lt_is_Some_2 (trees_removal_order s) q) as [k Hk];
      [lia|].
    rewrite rd_lookup, Nat2Z.id, Hk by lia. cbn [mbind option_bind].
    assert (0 <= k < num_records s) as Hkr
      by (by eapply removal_order_elem, list_elem_of_lookup_2).
    rewrite rd_ts_right by done. cbn [mbind option_bind].
    assert (ts_right s k = x) as Ek.
    { apply (run_length_lookup _ _ (drop r (trees_removal_order s))
               (q - r)); [fold mr; lia|].
      rewrite lookup_drop. by replace (r + (q - r))%nat with q by lia. }
    rewrite Hx. destruct (Z.eqb_spec (ts_right s k) x); [|done].
    assert (live s i q k) as Hlive.
    { split; [|by apply not_removed_at].
      pose proof (proj2 (insertion_order_elem s Hnest k) Hkr) as Hin.
      apply list_elem_of_lookup_1 in Hin as (p & Hp).
      apply elem_of_take_lookup. exists p. split; [|done].
      destruct (decide (p < i)%nat); [done|]. exfalso.
      destruct Hidx as (_ & _ & Hio & _).
      destruct (Hio p k Hp) as [_ Hge]. specialize (Hge ltac:(lia)).
      destruct Htile as (_ & _ & _ & Hlr & _). specialize (Hlr k Hkr). lia. }
    destruct (remove_record_links s tracked Hc Hnest _ t k Hok Hlive)
      as (t1 & -> & Hok1 & Hl1 & Hr1).
    { apply (apart_of_cover s _ k x Hnest).
      - intros k' Hk'. by apply (live_cover s Hnest i r q).
      - done.
      - by apply (live_cover s Hnest i r q). }
    cbn [mbind option_bind].
    replace (Z.of_nat q + 1) with (Z.of_nat (S q)) by lia.
    destruct (IH (S q) t1 fuel) as (t' & E & Hok' & Hr' & Hl');
      try lia; try congruence.
    { eapply tree_links_ext; [|exact Hok1]. intros k'. symmetry.
      by apply live_remove. }
    exists t'. split; [done|]. split; [done|]. split; [done|congruence].
Qed.

Lemma tree_insert_loop_links (i r' : nat) x x' :
  let mi := run_length (ts_left s) x (drop i (trees_insertion_order s)) in
  indexes_at s (i + mi) r' x' -> x < x' ->
  (forall q k, (q < r')%nat -> trees_removal_order s !! q = Some k ->
     ts_right s k <= x) ->
  forall (m p : nat) t fuel,
  (p + m = i + mi)%nat -> (i <= p)%nat ->
  tree_links s tracked (live s p r') t -> t_left t = x -> (m < fuel)%nat ->
  exists t',
    tree_insert_loop s (num_records s) fuel (Z.of_nat p) t
      = Some (Z.of_nat (i + mi), t') /\
    tree_links s tracked (live s (i + mi) r') t' /\
    t_left t' = x /\ t_right t' = t_right t.
Proof.
  intros mi Hidx Hxx' Hpast. pose proof Htile as (Hc & _).
  pose proof Hc as (_ & _ & _ & _ & _ & _ & Hlio & _).
  pose proof (run_length_le (ts_left s) x (drop i (trees_insertion_order s)))
    as Hmi. fold mi in Hmi. rewrite length_drop in Hmi.
  induction m as [|m IH]; intros p t fuel Hp Hip Hok Hx Hfuel;
    (destruct fuel as [|fuel]; [lia|]); cbn [tree_insert_loop].
  - replace p with (i + mi)%nat in * by lia.
    destruct (Z.ltb_spec (Z.of_nat (i + mi)) (num_records s)); [|by exists t].
    destruct (lookup_lt_is_Some_2 (trees_insertion_order s) (i + mi))
      as [k Hk]; [lia|].
    rewrite rd_lookup, Nat2Z.id, Hk by lia. cbn [mbind option_bind].
    assert (0 <= k < num_records s) as Hkr
      by (by eapply insertion_order_elem, list_elem_of_lookup_2).
    rewrite rd_ts_left by done. cbn [mbind option_bind].
    assert (ts_left s k <> x) as Hne.
    { apply (run_length_stop _ _ (drop i (trees_insertion_order s))).
      by rewrite lookup_drop. }
    rewrite Hx. destruct (Z.eqb_spec (ts_left s k) x); [done|].
    by exists t.
  - destruct (Z.ltb_spec (Z.of_nat p) (num_records s)); [|lia].
    destruct (lookup_lt_is_Some_2 (trees_insertion_order s) p) as [k Hk];
      [lia|].
    rewrite rd_lookup, Nat2Z.id, Hk by lia. cbn [mbind option_bind].
    assert (0 <= k < num_records s) as Hkr
      by (by eapply insertion_order_elem, list_elem_of_lookup_2).
    rewrite rd_ts_left by done. cbn [mbind option_bind].
    assert (ts_left s k = x) as Ek.
    { apply (run_length_lookup _ _ (drop i (trees_insertion_order s))
               (p - i)); [fold mi; lia|].
      rewrite lookup_drop. by replace (i + (p - i))%nat with p by lia. }
    rewrite Hx. destruct (Z.eqb_spec (ts_left s k) x); [|done].
    assert (k ∉ take r' (trees_removal_order s)) as Hnr.
    { intros (q & Hq & Hqk)%elem_of_take_lookup.
      specialize (Hpast q k Hq Hqk).
      destruct Htile as (_ & _ & _ & Hlr & _). specialize (Hlr k Hkr). lia. }
    assert (forall p', (p' <= i + mi)%nat -> forall k', live s p' r' k' ->
              0 <= k' < num_records s /\
              ts_left s k' < x' <= ts_right s k') as Hcover.
    { intros p' Hp' k' [Hin Hout].
      apply (live_cover s Hnest (i + mi) r' r' x' k' Hidx ltac:(lia)).
      split; [|done].
      apply elem_of_take_lookup in Hin as (p'' & ? & ?).
      apply elem_of_take_lookup. exists p''. split; [lia|done]. }
    destruct (insert_record_links s tracked Hc Hnest _ t k Hok Hkr)
      as (t1 & -> & Hok1 & Hl1 & Hr1).
    { by apply not_live_at. }
    { apply (apart_of_cover s _ k x' Hnest).
      - by apply (Hcover p ltac:(lia)).
      - done.
      - apply (Hcover (S p) ltac:(lia)). apply (live_insert s p r' k Hk Hnr).
        by right. }
    cbn [mbind option_bind].
    replace (Z.of_nat p + 1) with (Z.of_nat (S p)) by lia.
    destruct (IH (S p) t1 fuel) as (t' & E & Hok' & Hl' & Hr');
      try lia; try congruence.
    { eapply tree_links_ext; [|exact Hok1]. intros k'. symmetry.
      by apply live_insert. }
    exists t'. split; [done|]. split; [done|]. split; [done|congruence].
Qed.

End loop_links.

Section step.
Context `{msprime_h}.
Context (s : tree_sequence_t) (tracked : list Z).
Context (Htile : records_tile s) (Hnest : records_nest s).

(** A call that finds records left to insert: where it leaves the two
    indexes, the interval, the links, the root and the mutations. *)
Lemma sparse_tree_iterator_next_step self t :
  iterator_links s tracked self t ->
  it_insertion_index self < num_records s ->
  let i := Z.to_nat (it_insertion_index self) in
  let r := Z.to_nat (it_removal_index self) in
  let mr :=
    run_length (ts_right s) (t_right t) (drop r (trees_removal_order s)) in
  let mi :=
    run_length (ts_left s) (t_right t) (drop i (trees_insertion_order s)) in
  exists self' t' k' (c : nat),
    sparse_tree_iterator_next s self t = Some (1, self', t') /\
    iterator_links s tracked self' t' /\
    it_insertion_index self' = Z.of_nat (i + mi) /\
    it_removal_index self' = Z.of_nat (r + mr) /\
    rd (trees_removal_order s) (it_removal_index self') = Some k' /\
    t_right t' = ts_right s k' /\
    t_left t' = t_right t /\ t_right t < t_right t' /\
    (forall k, live s (i + mi) (r + mr) k <->
               covers s k (t_left t') (t_right t')) /\
    (forall k, 0 <= k < num_records s ->
       (ts_left s k <= t_left t' \/ t_right t' <= ts_left s k) /\
       (ts_right s k <= t_left t' \/ t_right t' <= ts_right s k)) /\
    parent_of (t_parent t') (t_root t') = 0 /\
    it_mutation_index self' = it_mutation_index self + Z.of_nat c /\
    t_num_mutations t' = Z.of_nat c /\
    it_mutation_index self'
      <= Z.max (it_mutation_index self) (num_mutations s) /\
    (forall q, 0 <= q < Z.of_nat c ->
       exists p u,
         rd (mutations_position s) (it_mutation_index self + q) = Some p /\
         rd (mutations_node s) (it_mutation_index self + q) = Some u /\
         d_lt p (d_of_u32 (t_right t')) = true /\
         rd (t_mutations t') q = Some {| position := p; node := u |}) /\
    (it_mutation_index self' < num_mutations s ->
     exists p, rd (mutations_position s) (it_mutation_index self') = Some p /\
               d_lt p (d_of_u32 (t_right t')) = false).
Proof.
  intros (Enr & Hi0 & Hr0 & Hm0 & Hx0 & Hidx & Hok) Hlt i r mr mi.
  unfold sparse_tree_iterator_next. rewrite Enr.
  destruct (Z.ltb_spec (it_insertion_index self) (num_records s)); [|lia].
  fold i r in Hidx, Hok.
  set (x := t_right t) in *.
  pose proof Htile as (Hc & _).
  pose proof Hc as (_ & _ & _ & _ & _ & _ & Hlio & Hlro & _).
  destruct (indexes_at_advance s i r x Htile Hidx Hx0 ltac:(lia))
    as (k' & Hk' & Hxk' & Hidx').
  fold mr mi in Hk', Hidx'.
  pose proof (lookup_lt_Some _ _ _ Hk') as Hstop.
  assert (0 <= k' < num_records s) as Hk'r
    by (by eapply removal_order_elem, list_elem_of_lookup_2).
  destruct (tree_remove_loop_links s tracked Htile Hnest i r x Hidx Hstop mr r
              t (S (length (trees_removal_order s))))
    as (t1 & E1 & Hok1 & Hr1 & Hl1); try done; try lia.
  replace (it_removal_index self) with (Z.of_nat r) by lia.
  fold mr in E1. rewrite E1. cbn [mbind option_bind fst snd].
  rewrite rd_lookup, Nat2Z.id, Hk' by lia. cbn [mbind option_bind].
  rewrite rd_ts_right by done. cbn [mbind option_bind].
  set (t2 := with_interval t1 (t_right t1) (ts_right s k')).
  pose proof (run_length_le (ts_left s) x (drop i (trees_insertion_order s)))
    as Hmi. fold mi in Hmi. rewrite length_drop in Hmi.
  destruct (tree_insert_loop_links s tracked Htile Hnest i (r + mr) x
              (ts_right s k') Hidx' Hxk') with (m := mi) (p := i) (t := t2)
              (fuel := S (Z.to_nat (num_records s)))
    as (t3 & E3 & Hok3 & Hl3 & Hr3); try done; try lia.
  { intros q k Hq Hqk. destruct (decide (q < r)%nat) as [Hqr|Hqr].
    - destruct Hidx as (_ & _ & _ & Hro).
      destruct (Hro q k Hqk) as [Hl _]. specialize (Hl Hqr). lia.
    - assert (ts_right s k = x); [|lia].
      apply (run_length_lookup _ _ (drop r (trees_removal_order s))
               (q - r)); [fold mr; lia|].
      rewrite lookup_drop. by replace (r + (q - r))%nat with q by lia. }
  replace (it_insertion_index self) with (Z.of_nat i) by lia.
  fold mi in E3. rewrite E3. cbn [mbind option_bind fst snd].
  pose proof Hok3 as (Hlay3 & Hlinks3 & Hcnt3).
  pose proof Hlay3 as (Ess & Enn & Lp & Lt & Lc & Ls1 & Emm & Lm & Hroot).
  pose proof (forest_climbs _ _ _ _ (links_forest s _ _ _ Hnest Hlinks3))
    as Hclimb.
  destruct (root_climb_top _ _ Hclimb Lp (S (length (t_parent t3)))
              (t_root t3) Hroot ltac:(lia)) as (root & -> & Hroot' & Htop & _).
  cbn [mbind option_bind].
  pose proof Hnest as (_ & _ & _ & _ & _ & _ & _ & _ & Lmp & Lmn).
  cbn [t_right t_max_mutations t_mutations with_root].
  rewrite Emm.
  destruct (tree_mutations_loop_run s (t_right t3) Lmp Lmn
              (S (Z.to_nat (num_mutations s))) (it_mutation_index self) 0
              (t_mutations t3))
    as (c & m' & -> & Hcle & Lm' & _ & Hrun & Hend); try lia.
  cbn [mbind option_bind fst snd].
  eexists _, _, k', c. split; [reflexivity|].
  cbn [it_num_records it_insertion_index it_removal_index it_mutation_index
       t_right t_left t_root t_parent t_num_mutations t_mutations
       with_tree_mutations with_root].
  assert (t_right t3 = ts_right s k') as Er3 by (by rewrite Hr3).
  assert (t_left t3 = x) as El3 by done.
  split.
  { unfold iterator_links.
    cbn [it_num_records it_insertion_index it_removal_index it_mutation_index
         t_right with_tree_mutations with_root].
    rewrite !Nat2Z.id. rewrite Er3.
    split; [done|]. split; [lia|]. split; [lia|]. split; [lia|].
    split; [lia|]. split; [done|].
    split; [|split; [done|]].
    - unfold tree_layout.
      cbn [t_sample_size t_num_nodes t_parent t_time t_children t_stack1
           t_max_mutations t_mutations t_root with_tree_mutations with_root].
      repeat match goal with |- _ /\ _ => split end; try done; try lia.
    - cbn [t_flags with_tree_mutations with_root]. intros Hf.
      destruct (Hcnt3 Hf) as ((Ess2 & Enn2 & Hfl2 & Lp2 & Lt2 & Lc2 & Lnl2
                               & Lntl2 & Ls2 & Emm2 & Lm2 & Hroot2) & Hrest).
      split; [|exact Hrest].
      unfold tree_shape.
      cbn [t_sample_size t_num_nodes t_flags t_parent t_time t_children
           t_num_leaves t_num_tracked_leaves t_stack1 t_max_mutations
           t_mutations t_root with_tree_mutations with_root].
      repeat match goal with |- _ /\ _ => split end; try done; try lia. }
  split; [done|]. split; [done|].
  split; [by rewrite rd_lookup, Nat2Z.id by lia|].
  split; [done|]. split; [done|]. split; [lia|].
  split.
  { intros k. rewrite Er3, El3. split.
    - intros Hlive.
      destruct (live_cover s Hnest _ _ (r + mr) _ k Hidx' ltac:(lia) Hlive)
        as (Hk & Hlk & Hrk).
      split; [done|]. split; [|done].
      destruct Hlive as [Hin _].
      apply elem_of_take_lookup in Hin as (p & Hp & Hpk).
      destruct (decide (p < i)%nat) as [Hpi|Hpi].
      + destruct Hidx as (_ & _ & Hio & _).
        destruct (Hio p k Hpk) as [Hl _]. specialize (Hl Hpi). lia.
      + assert (ts_left s k = x); [|lia].
        apply (run_length_lookup _ _ (drop i (trees_insertion_order s))
                 (p - i)); [fold mi; lia|].
        rewrite lookup_drop. by replace (i + (p - i))%nat with p by lia.
    - intros (Hk & Hlk & Hrk).
      destruct Hidx' as (_ & _ & Hio & Hro). split.
      + pose proof (proj2 (insertion_order_elem s Hnest k) Hk) as Hin.
        apply list_elem_of_lookup_1 in Hin as (p & Hp).
        apply elem_of_take_lookup. exists p. split; [|done].
        destruct (decide (p < i + mi)%nat); [done|]. exfalso.
        destruct (Hio p k Hp) as [_ Hge]. specialize (Hge ltac:(lia)). lia.
      + intros (q & Hq & Hqk)%elem_of_take_lookup.
        destruct (Hro q k Hqk) as [Hl _]. specialize (Hl Hq). lia. }
  split.
  { intros k Hk. rewrite Er3, El3. split.
    - pose proof (proj2 (insertion_order_elem s Hnest k) Hk) as Hin.
      apply list_elem_of_lookup_1 in Hin as (p & Hp).
      destruct (decide (p < i)%nat) as [Hpi|Hpi].
      + destruct Hidx as (_ & _ & Hio & _).
        destruct (Hio p k Hp) as [Hl _]. specialize (Hl Hpi). lia.
      + destruct (decide (p < i + mi)%nat) as [Hpm|Hpm].
        * left. assert (ts_left s k = x); [|lia].
          apply (run_length_lookup _ _ (drop i (trees_insertion_order s))
                   (p - i)); [fold mi; lia|].
          rewrite lookup_drop. by replace (i + (p - i))%nat with p by lia.
        * right. destruct Hidx' as (_ & _ & Hio & _).
          destruct (Hio p k Hp) as [_ Hge]. apply Hge. lia.
    - pose proof (proj2 (removal_order_elem s Hnest k) Hk) as Hin.
      apply list_elem_of_lookup_1 in Hin as (q & Hq).
      destruct (decide (q < r)%nat) as [Hqr|Hqr].
      + destruct Hidx as (_ & _ & _ & Hro).
        destruct (Hro q k Hq) as [Hl _]. specialize (Hl Hqr). lia.
      + destruct (decide (q < r + mr)%nat) as [Hqm|Hqm].
        * left. assert (ts_right s k = x); [|lia].
          apply (run_length_lookup _ _ (drop r (trees_removal_order s))
                   (q - r)); [fold mr; lia|].
          rewrite lookup_drop. by replace (r + (q - r))%nat with q by lia.
        * right. destruct Hidx' as (_ & _ & _ & Hro).
          destruct (Hro q k Hq) as [_ Hge]. apply Hge. lia. }
  split; [done|]. split; [done|]. split; [lia|].
  split; [lia|].
  split; [|done].
  intros q Hq. destruct (Hrun q Hq) as (p & u & ? & ? & ? & Hm).
  exists p, u. by rewrite Z.add_0_l in Hm.
Qed.

End step.

Lemma sparse_tree_iterate_zero `{msprime_h} `{heap} s tracked flags self t :
  sparse_tree_iterate s tracked flags 0 = Some (self, t) ->
  it_insertion_index self = 0 /\ it_removal_index self = 0 /\
  it_mutation_index self = 0 /\ t_left t = 0 /\ t_right t = 0.
Proof.
  cbn [sparse_tree_iterate].
  destruct (tree_sequence_alloc_sparse_tree s tracked _ flags)
    as [[a1 a2]|]; [|done]. cbn [mbind option_bind fst snd].
  destruct (negb (a1 =? 0)); [done|].
  unfold sparse_tree_iterator_alloc.
  destruct (_ || _); [done|].
  unfold sparse_tree_clear.
  destruct (memset (t_parent a2) _ _ _); [|done].
  destruct (memset (t_time a2) _ _ _); [|done].
  destruct (memset (t_children a2) _ _ _); [|done].
  cbn [mbind option_bind fst snd].
  destruct (Z.land _ _ =? 0).
  - cbn [mbind option_bind fst snd negb Z.eqb]. intros [= <- <-]. by cbn.
  - destruct (memset (t_num_leaves _) _ _ _); [|done].
    cbn [mbind option_bind].
    destruct (memset (t_num_tracked_leaves _) _ _ _); [|done].
    cbn [mbind option_bind fst snd negb Z.eqb]. intros [= <- <-]. by cbn.
Qed.

Lemma StronglySorted_lookup {A} (R : A -> A -> Prop) l (i j : nat) a b :
  StronglySorted R l -> (i < j)%nat -> l !! i = Some a -> l !! j = Some b ->
  R a b.
Proof.
  intros Hs. revert i j. induction Hs as [|x l Hs IH Hx]; intros i j Hij;
    [done|].
  destruct i as [|i], j as [|j]; try lia; cbn [lookup list_lookup].
  - intros [= <-] Hb. rewrite Forall_forall in Hx. apply Hx.
    by eapply list_elem_of_lookup_2.
  - apply IH. lia.
Qed.

Lemma filter_all {A} (P : A -> Prop) `{forall a, Decision (P a)} l :
  Forall P l -> filter P l = l.
Proof.
  induction 1 as [|a l Ha _ IH]; [done|].
  rewrite filter_cons_True by done. by rewrite IH.
Qed.

(** A filter that keeps the cells from [a] on, [c] of them. *)
Lemma filter_slice {A} (P : A -> Prop) `{forall a, Decision (P a)} l
    (a c : nat) :
  (forall j x, l !! j = Some x -> P x <-> (a <= j < a + c)%nat) ->
  filter P l = take c (drop a l).
Proof.
  intros HP.
  rewrite <- (take_drop a l) at 1.
  rewrite <- (take_drop c (drop a l)) at 1.
  rewrite !filter_app.
  rewrite filter_none, filter_all, filter_none, app_nil_l, app_nil_r; [done|..].
  - apply Forall_lookup. intros j x Hj. rewrite !lookup_drop in Hj.
    rewrite (HP _ _ Hj). lia.
  - apply Forall_lookup. intros j x Hj.
    pose proof (lookup_lt_Some _ _ _ Hj) as Hlt. rewrite length_take in Hlt.
    rewrite lookup_take_lt, lookup_drop in Hj by lia.
    rewrite (HP _ _ Hj). lia.
  - apply Forall_lookup. intros j x Hj.
    pose proof (lookup_lt_Some _ _ _ Hj) as Hlt. rewrite length_take in Hlt.
    rewrite lookup_take_lt in Hj by lia.
    rewrite (HP _ _ Hj). lia.
Qed.

Lemma d_lt_trans a b c :
  d_lt a b = true -> d_lt b c = true -> d_lt a c = true.
Proof.
  intros Hab Hbc.
  destruct (d_lt_not_nan _ _ Hab) as [Na Nb].
  destruct (d_lt_not_nan _ _ Hbc) as [_ Nc].
  apply d_lt_key in Hab, Hbc; try done. apply d_lt_key; try done.
  destruct (float_key a) as [[a1 a2] a3], (float_key b) as [[b1 b2] b3],
    (float_key c) as [[c1 c2] c3]. unfold key_lt in *. lia.
Qed.

Section begin.
Context `{msprime_h} `{heap}.
Context (s : tree_sequence_t) (tracked : list Z) (flags : Z).
Context (Htile : records_tile s) (Hnest : records_nest s).
Context (Htracked : Z.land flags MSP_COUNT_LEAVES <> 0 ->
                    Forall (fun u => 1 <= u <= sample_size s) tracked).

Lemma sparse_tree_iterate_begin :
  exists self t,
    sparse_tree_iterate s tracked flags 0 = Some (self, t) /\
    iterator_links s tracked self t.
Proof.
  destruct (decide (Z.land flags MSP_COUNT_LEAVES = 0)) as [Hf|Hf].
  2:{ destruct (sparse_tree_iterate_start s tracked flags Htile Hnest Hf
                  (Htracked Hf)) as (self & t & E & Hok).
      exists self, t. split; [done|].
      destruct Hok as (? & ? & ? & ? & ? & ? & Hok).
      unfold iterator_links. do 6 (split; [done|]). by apply tree_ok_links. }
  pose proof Hnest as (Hn1 & HnN & H32 & _ & _ & _ & _ & _ & Lmp & Lmn).
  set (n := sample_size s) in *. set (N := num_nodes s) in *.
  assert (0 <= num_mutations s) as HM by lia.
  cbn [sparse_tree_iterate].
  unfold tree_sequence_alloc_sparse_tree, sparse_tree_alloc. fold n N.
  destruct (Z.eqb_spec N 0); [lia|]. destruct (Z.eqb_spec n 0); [lia|].
  cbn [orb]. destruct (Z.eqb_spec (Z.land flags MSP_COUNT_LEAVES) 0); [|done].
  rewrite !wrap32_small by (rewrite ?wrap32_small; lia).
  cbn [mbind option_bind fst snd]. change (negb (0 =? 0)) with false.
  cbv iota.
  unfold sparse_tree_iterator_alloc.
  cbn [t_num_nodes t_sample_size t_max_mutations].
  fold n N. rewrite !Z.eqb_refl. cbn [negb orb].
  unfold sparse_tree_clear.
  cbn [t_num_nodes t_sample_size t_parent t_time t_children t_flags
       with_links with_root with_interval].
  rewrite wrap32_small by lia.
  destruct (memset_spec (malloc_u32 (N + 1)) 0 (N + 1) 0)
    as (parent & -> & Lp & Hp); [lia|lia|rewrite length_malloc_u32; lia|].
  cbn [mbind option_bind].
  destruct (memset_spec (malloc_f64 (N + 1)) 0 (N + 1) d_zero)
    as (time & -> & Lt & _); [lia|lia|rewrite length_malloc_f64; lia|].
  cbn [mbind option_bind].
  destruct (memset_spec (malloc_u32 (2 * (N + 1))) 0 (2 * (N + 1)) 0)
    as (children & -> & Lc & Hch);
    [lia|lia|rewrite length_malloc_u32; lia|].
  cbn [mbind option_bind].
  destruct (Z.eqb_spec (Z.land flags MSP_COUNT_LEAVES) 0); [|done].
  cbn [mbind option_bind fst snd]. change (negb (0 =? 0)) with false.
  cbv iota. eexists _, _. split; [reflexivity|].
  apply (f_equal Z.of_nat) in Lp, Lt, Lc.
  rewrite length_malloc_u32 in Lp, Lc by lia.
  rewrite length_malloc_f64 in Lt by lia.
  assert (forall v j, 0 <= j <= 1 -> child_of children v j = 0) as Ech.
  { intros v j Hj. unfold child_of. rewrite Hch.
    destruct (decide (0 <= 2 * v + j < 0 + 2 * (N + 1))); [done|].
    rewrite rd_None_range; [done|]. rewrite length_malloc_u32; lia. }
  assert (forall v, parent_of parent v = 0) as Epa.
  { intros v. unfold parent_of. rewrite Hp.
    destruct (decide (0 <= v < 0 + (N + 1))); [done|].
    rewrite rd_None_range; [done|]. rewrite length_malloc_u32; lia. }
  unfold iterator_links.
  cbn [it_num_records it_insertion_index it_removal_index it_mutation_index
       t_right with_links with_root with_interval].
  split; [done|]. split; [done|]. split; [done|]. split; [done|].
  split; [done|]. split.
  { by destruct (diff_iterator_ok_alloc s Htile) as (_ & _ & _ & _ & _ & ?). }
  split; [|split].
  - unfold tree_layout.
    cbn [t_sample_size t_num_nodes t_parent t_time t_children t_stack1
         t_max_mutations t_mutations t_root with_links with_root
         with_interval].
    fold n N. rewrite length_malloc_mutations, length_malloc_u32 by lia.
    repeat match goal with |- _ /\ _ => split end; try done; lia.
  - cbn [t_parent t_children with_links with_root with_interval].
    split; [|split; [|split]].
    + intros k [Hk _]. rewrite take_0 in Hk. by apply elem_of_nil in Hk.
    + intros k j [Hk _]. rewrite take_0 in Hk. by apply elem_of_nil in Hk.
    + intros v j Hj Hne. by rewrite Ech in Hne.
    + intros c Hne. by rewrite Epa in Hne.
  - cbn [t_flags with_links with_root with_interval]. done.
Qed.

Lemma sparse_tree_iterator_next_done self t :
  iterator_links s tracked self t ->
  num_records s <= it_insertion_index self ->
  sparse_tree_iterator_next s self t = Some (0, self, t).
Proof.
  intros (Enr & _) Hge. unfold sparse_tree_iterator_next. rewrite Enr.
  by destruct (Z.ltb_spec (it_insertion_index self) (num_records s));
    [lia|].
Qed.

Lemma sparse_tree_iterate_links m :
  exists self t,
    sparse_tree_iterate s tracked flags m = Some (self, t) /\
    iterator_links s tracked self t.
Proof.
  induction m as [|m (self & t & E & Hok)].
  - by apply sparse_tree_iterate_begin.
  - cbn [sparse_tree_iterate]. rewrite E. cbn [mbind option_bind fst snd].
    destruct (Z.lt_ge_cases (it_insertion_index self) (num_records s))
      as [Hlt|Hge].
    + destruct (sparse_tree_iterator_next_step s tracked Htile Hnest self t
                  Hok Hlt) as (self' & t' & k' & c & -> & Hok' & _).
      by exists self', t'.
    + rewrite sparse_tree_iterator_next_done by done. by exists self, t.
Qed.

End begin.

(** ** The two iterators over the trees of a tree sequence *)

Lemma run_length_head key x l k :
  l !! 0%nat = Some k -> key k = x -> (1 <= run_length key x l)%nat.
Proof.
  destruct l as [|a l]; [done|]. intros [= ->] E. cbn [run_length].
  destruct (Z.eqb_spec (key k) x); [lia|done].
Qed.

(** How far the diff iterator has come after [m] calls: as long as it is
    not done, every call but the first has moved the removal index. *)
Lemma diff_iterate_progress s m :
  records_tile s -> sample_size s < 2 ^ 31 ->
  exists self,
    diff_iterate s m = Some self /\ diff_iterator_ok s self /\
    (di_insertion_index self < num_records s ->
     Z.of_nat m <= di_removal_index self + 1 /\
     (m <> 0%nat ->
      exists k, rd (trees_removal_order s) (di_removal_index self) = Some k /\
                di_tree_left self = ts_right s k)).
Proof.
  intros Ht H31. induction m as [|m (self & E & Hok & Hprog)].
  - eexists. split; [done|]. split; [by apply diff_iterator_ok_alloc|].
    intros _. cbn. split; [lia|done].
  - cbn [diff_iterate]. rewrite E. cbn [mbind option_bind].
    destruct (Z.lt_ge_cases (di_insertion_index self) (num_records s))
      as [Hlt|Hge].
    + destruct (diff_next_step s self Ht Hok Hlt)
        as (self' & k & E' & Hk & Ex & Er & Ei & Hx & Hok').
      rewrite (E' H31). exists self'. cbn [mbind option_bind snd]. split; [done|].
      split; [done|]. intros _. split; [|intros _; by exists k].
      destruct (Hprog Hlt) as [Hm Hrun]. rewrite Er.
      destruct m as [|m]; [lia|].
      destruct Hrun as (k0 & Hk0 & Ek0); [done|].
      destruct Hok as (_ & _ & _ & Hr0 & _).
      rewrite rd_lookup in Hk0 by done.
      pose proof (run_length_head (ts_right s) (di_tree_left self)
                    (drop (Z.to_nat (di_removal_index self))
                       (trees_removal_order s)) k0) as Hone.
      rewrite lookup_drop, Nat.add_0_r in Hone.
      specialize (Hone Hk0 (eq_sym Ek0)). lia.
    + rewrite diff_next_done by (destruct Hok as (_ & -> & _); lia).
      exists self. cbn [mbind option_bind snd]. split; [done|].
      split; [done|]. lia.
Qed.

Lemma diff_iterate_exhausts s m :
  records_tile s -> sample_size s < 2 ^ 31 ->
  (Z.to_nat (num_records s) <= m)%nat ->
  exists self,
    diff_iterate s m = Some self /\ diff_iterator_ok s self /\
    di_insertion_index self = num_records s.
Proof.
  intros Ht H31 Hm.
  destruct (diff_iterate_progress s m Ht H31) as (self & E & Hok & Hprog).
  exists self. split; [done|]. split; [done|].
  pose proof Hok as (_ & _ & Hi0 & Hr0 & _ & Hidx).
  pose proof Ht as (Hc & _).
  pose proof Hc as (_ & _ & _ & _ & _ & _ & Hlio & Hlro & _).
  destruct (Z.lt_ge_cases (di_insertion_index self) (num_records s))
    as [Hlt|Hge].
  - exfalso. destruct (Hprog Hlt) as [Hmr Hrun].
    destruct (diff_next_step s self Ht Hok Hlt)
      as (self' & k & _ & Hk & _ & Er & _).
    apply rd_Some_range in Hk. rewrite Er in Hk.
    destruct Hrun as (k0 & Hk0 & Ek0); [lia|].
    rewrite rd_lookup in Hk0 by done.
    pose proof (run_length_head (ts_right s) (di_tree_left self)
                  (drop (Z.to_nat (di_removal_index self))
                     (trees_removal_order s)) k0) as Hone.
    rewrite lookup_drop, Nat.add_0_r in Hone.
    specialize (Hone Hk0 (eq_sym Ek0)). lia.
  - destruct Hidx as (Hi & _). lia.
Qed.

(** X4: on a tree sequence whose records tile the genome from coordinate 0
    and whose sample size is below 2^31, a diff iterator is done after at
    most [num_records] calls of [tree_diff_iterator_next]: from then on a
    call returns 0 with length 0 and no records, and leaves the iterator
    as it is. *)
Theorem tree_diff_iterator_next_exhausts s m :
  records_tile s -> sample_size s < 2 ^ 31 ->
  (Z.to_nat (num_records s) <= m)%nat ->
  exists self,
    diff_iterate s m = Some self /\
    tree_diff_iterator_next s self = Some (0, 0, [], [], self).
Proof.
  intros Ht H31 Hm.
  destruct (diff_iterate_exhausts s m Ht H31 Hm) as (self & E & Hok & Ei).
  exists self. split; [done|]. apply diff_next_done.
  destruct Hok as (_ & -> & _). lia.
Qed.

Lemma tree_diff_iterator_next_exhausts_witness :
  exists self,
    diff_iterate example_ts 3 = Some self /\
    tree_diff_iterator_next example_ts self = Some (0, 0, [], [], self).
Proof.
  apply (tree_diff_iterator_next_exhausts example_ts 3 example_ts_tiles).
  - reflexivity.
  - vm_compute. lia.
Defined.

Lemma records_nest_sample_size s : records_nest s -> sample_size s < 2 ^ 31.
Proof. intros (_ & Hn & H32 & _). lia. Qed.

Section agree.
Context `{msprime_h} `{heap}.
Context (s : tree_sequence_t) (tracked : list Z) (flags : Z).
Context (Htile : records_tile s) (Hnest : records_nest s).
Context (Htracked : Z.land flags MSP_COUNT_LEAVES <> 0 ->
                    Forall (fun u => 1 <= u <= sample_size s) tracked).

Lemma iterators_agree m :
  exists self t d,
    sparse_tree_iterate s tracked flags m = Some (self, t) /\
    diff_iterate s m = Some d /\
    iterator_links s tracked self t /\ diff_iterator_ok s d /\
    it_insertion_index self = di_insertion_index d /\
    it_removal_index self = di_removal_index d /\
    t_right t = di_tree_left d.
Proof.
  induction m as [|m (self & t & d & E & Ed & Hok & Hdok & Ei & Er & Ex)].
  - destruct (sparse_tree_iterate_begin s tracked flags Htile Hnest
                Htracked) as (self & t & E & Hok).
    exists self, t, (snd (tree_diff_iterator_alloc s)).
    split; [done|]. split; [done|]. split; [done|].
    split; [by apply diff_iterator_ok_alloc|].
    destruct (sparse_tree_iterate_zero _ _ _ _ _ E)
      as (Ei & Er & _ & _ & Ex).
    by rewrite Ei, Er, Ex.
  - cbn [sparse_tree_iterate diff_iterate]. rewrite E, Ed.
    cbn [mbind option_bind fst snd].
    destruct (Z.lt_ge_cases (it_insertion_index self) (num_records s))
      as [Hlt|Hge].
    + destruct (sparse_tree_iterator_next_step s tracked Htile Hnest self t
                  Hok Hlt)
        as (self' & t' & k' & c & -> & Hok' & Ei' & Er' & Hk' & Ex' & _).
      destruct (diff_next_step s d Htile Hdok ltac:(lia))
        as (d' & k & Ed' & Hk & Exd & Erd & Eid & _ & Hdok').
      rewrite (Ed' (records_nest_sample_size s Hnest)).
      exists self', t', d'. cbn [mbind option_bind fst snd].
      split; [done|]. split; [done|]. split; [done|]. split; [done|].
      assert (it_removal_index self' = di_removal_index d') as Er2
        by (rewrite Er', Erd, Er, Ex; done).
      split; [by rewrite Ei', Eid, Ei, Ex|]. split; [done|].
      rewrite Ex', Exd. rewrite Er2 in Hk'. congruence.
    + rewrite (sparse_tree_iterator_next_done s tracked self t Hok Hge).
      rewrite diff_next_done by (destruct Hdok as (_ & -> & _); lia).
      exists self, t, d. by cbn [mbind option_bind fst snd].
Qed.

Lemma sparse_tree_iterate_exhausts m :
  (Z.to_nat (num_records s) <= m)%nat ->
  exists self t,
    sparse_tree_iterate s tracked flags m = Some (self, t) /\
    iterator_links s tracked self t /\
    num_records s <= it_insertion_index self.
Proof.
  intros Hm.
  destruct (iterators_agree m)
    as (self & t & d & E & Ed & Hok & Hdok & Ei & Er & Ex).
  destruct (diff_iterate_exhausts s m Htile
              (records_nest_sample_size s Hnest) Hm) as (d' & Ed' & _ & Ei').
  rewrite Ed in Ed'. injection Ed' as <-.
  exists self, t. split; [done|]. split; [done|]. lia.
Qed.

End agree.

Section trees.
Context `{msprime_h} `{heap}.
Context (s : tree_sequence_t) (tracked : list Z) (flags : Z).
Context (Htile : records_tile s) (Hnest : records_nest s).
Context (Htracked : Z.land flags MSP_COUNT_LEAVES <> 0 ->
                    Forall (fun u => 1 <= u <= sample_size s) tracked).

Lemma mutations_at_step self t self' t' :
  mutations_sorted s ->
  iterator_links s tracked self t -> mutations_at s self t ->
  it_insertion_index self < num_records s ->
  sparse_tree_iterator_next s self t = Some (1, self', t') ->
  mutations_at s self' t' /\
  take (Z.to_nat (t_num_mutations t')) (t_mutations t')
    = filter (within (t_left t') (t_right t')) (stored_mutations s).
Proof.
  intros [Hnum Hsort] Hok [Hmi Hat] Hlt E.
  destruct (sparse_tree_iterator_next_step s tracked Htile Hnest self t
              Hok Hlt)
    as (self1 & t1 & k' & c & E1 & Hok' & _ & _ & Hk' & Ex' & El & Hxx
        & _ & _ & _ & Emi & Ec & Hmle & Hrun & Hstop).
  rewrite E in E1. injection E1 as <- <-.
  pose proof Hnest as (_ & _ & _ & _ & _ & _ & _ & _ & Lmp & Lmn).
  pose proof Hok as (_ & _ & _ & _ & Hx0 & _).
  pose proof Htile as (Hc & _ & _ & _ & H32 & _).
  assert (0 <= k' < num_records s) as Hk'r.
  { pose proof (rd_Some_range _ _ _ Hk') as Hrg.
    destruct Hc as (_ & _ & _ & _ & _ & _ & _ & Hlro & _ & Hro & _).
    apply Hro. rewrite rd_lookup in Hk' by lia.
    by eapply list_elem_of_lookup_2. }
  assert (t_right t' < 2 ^ 32) as Hx32 by (rewrite Ex'; by apply H32).
  set (x := t_right t) in *. set (x' := t_right t') in *.
  assert (d_lt (d_of_u32 x) (d_of_u32 x') = true) as Hdx
    by (apply d_of_u32_lt; lia).
  assert (forall j p, rd (mutations_position s) j = Some p ->
            is_nan p = false) as Hnan.
  { intros j p Hj. pose proof (rd_Some_range _ _ _ Hj) as Hr.
    rewrite rd_lookup in Hj by lia. rewrite Forall_forall in Hnum.
    apply (Hnum p). by eapply list_elem_of_lookup_2. }
  assert (is_nan (d_of_u32 x') = false) as Nx'
    by (apply d_of_u32_not_nan; lia).
  assert (forall j p, rd (mutations_position s) j = Some p ->
            (j < it_mutation_index self' ->
             d_lt p (d_of_u32 x') = true) /\
            (it_mutation_index self' <= j ->
             d_lt p (d_of_u32 x') = false)) as Hat'.
  { intros j p Hj. pose proof (rd_Some_range _ _ _ Hj) as Hjr. split.
    - intros Hjlt. destruct (Z.lt_ge_cases j (it_mutation_index self))
        as [Hjo|Hjo].
      + apply (d_lt_trans _ (d_of_u32 x)); [|done]. by apply (Hat j p Hj).
      + destruct (Hrun (j - it_mutation_index self))
          as (p' & u & Hp' & _ & Hlt' & _); [lia|].
        replace (it_mutation_index self + (j - it_mutation_index self))
          with j in Hp' by lia. congruence.
    - intros Hjge. destruct Hstop as (p0 & Hp0 & Hge0); [lia|].
      destruct (decide (j = it_mutation_index self')) as [->|Hne];
        [congruence|].
      apply (d_le_trans _ p0); try done; [by eapply Hnan..|].
      rewrite rd_lookup in Hj, Hp0 by lia.
      eapply (StronglySorted_lookup _ _ _ _ _ _ Hsort);
        [|exact Hp0|exact Hj]. lia. }
  split; [split; [lia|done]|].
  rewrite (filter_slice _ _ (Z.to_nat (it_mutation_index self)) c).
  - rewrite Ec, Nat2Z.id. apply list_eq. intros q.
    destruct (decide (q < c)%nat) as [Hq|Hq].
    + rewrite !lookup_take_lt, lookup_drop by done.
      destruct (Hrun (Z.of_nat q)) as (p & u & Hp & Hu & _ & Hm); [lia|].
      rewrite rd_lookup, Nat2Z.id in Hm by lia. rewrite Hm.
      rewrite rd_lookup in Hp by lia. rewrite rd_lookup in Hu by lia.
      unfold stored_mutations. rewrite lookup_zip_with.
      replace (Z.to_nat (it_mutation_index self) + q)%nat
        with (Z.to_nat (it_mutation_index self + Z.of_nat q)) by lia.
      by rewrite Hp, Hu.
    + by rewrite !lookup_take_ge by lia.
  - intros j m Hj. unfold stored_mutations in Hj.
    rewrite lookup_zip_with in Hj.
    destruct (mutations_position s !! j) as [p|] eqn:Hp; [|done].
    destruct (mutations_node s !! j) as [u|] eqn:Hu; [|done].
    cbn [mbind option_bind] in Hj. injection Hj as <-.
    unfold within. cbn [position]. rewrite El. fold x x'.
    assert (rd (mutations_position s) (Z.of_nat j) = Some p) as Hrd
      by (by rewrite rd_lookup, Nat2Z.id by lia).
    destruct (Hat _ _ Hrd) as [Hlo Hhi].
    destruct (Hat' _ _ Hrd) as [Hlo' Hhi']. split.
    + intros [Hl Hr].
      destruct (Z.lt_ge_cases (Z.of_nat j) (it_mutation_index self))
        as [Hjo|Hjo]; [rewrite Hlo in Hl by done; done|].
      destruct (Z.lt_ge_cases (Z.of_nat j) (it_mutation_index self'))
        as [Hjo'|Hjo']; [lia|rewrite Hhi' in Hr by done; done].
    + intros Hjr. split; [apply Hhi; lia|apply Hlo'; lia].
Qed.

Lemma sparse_tree_iterate_mutations m :
  mutations_sorted s ->
  exists self t,
    sparse_tree_iterate s tracked flags m = Some (self, t) /\
    iterator_links s tracked self t /\ mutations_at s self t.
Proof.
  intros Hms. induction m as [|m (self & t & E & Hok & Hat)].
  - destruct (sparse_tree_iterate_begin s tracked flags Htile Hnest
                Htracked) as (self & t & E & Hok).
    exists self, t. split; [done|]. split; [done|].
    destruct (sparse_tree_iterate_zero _ _ _ _ _ E)
      as (_ & _ & Em & _ & Er).
    unfold mutations_at. rewrite Em, Er.
    pose proof Hnest as (_ & _ & _ & _ & _ & _ & _ & _ & Lmp & Lmn).
    split; [lia|]. intros j p Hj. split; [pose proof (rd_Some_range _ _ _ Hj); lia|].
    intros _. pose proof (rd_Some_range _ _ _ Hj) as Hr.
    rewrite rd_lookup in Hj by lia. destruct Hms as [Hnum _].
    rewrite Forall_forall in Hnum.
    apply (Hnum p). by eapply list_elem_of_lookup_2.
  - cbn [sparse_tree_iterate]. rewrite E. cbn [mbind option_bind fst snd].
    destruct (Z.lt_ge_cases (it_insertion_index self) (num_records s))
      as [Hlt|Hge].
    + destruct (sparse_tree_iterator_next_step s tracked Htile Hnest self t
                  Hok Hlt) as (self' & t' & k' & c & E' & Hok' & _).
      destruct (mutations_at_step self t self' t' Hms Hok Hat Hlt E')
        as [Hat' _].
      rewrite E'. by exists self', t'.
    + rewrite (sparse_tree_iterator_next_done s tracked self t Hok Hge).
      by exists self, t.
Qed.

End trees.

(** ** hapgen_generate_all_haplotypes *)

Lemma d_of_u32_le a b :
  0 <= a <= b -> b < 2 ^ 53 -> d_lt (d_of_u32 b) (d_of_u32 a) = false.
Proof.
  intros Hab Hb. destruct (decide (a = b)) as [->|Hne].
  - apply d_lt_false_key; try (apply d_of_u32_not_nan; lia).
    destruct (float_key (d_of_u32 b)) as [[k1 k2] k3]. unfold key_lt. lia.
  - apply d_lt_asym, d_of_u32_lt; lia.
Qed.

(** In a tree whose interval holds a position, the records that hold the
    position are those that span the interval. *)
Lemma holds_covers s l r p k :
  0 <= l -> l < r -> r < 2 ^ 32 ->
  (forall k, 0 <= k < num_records s ->
     0 <= ts_left s k < ts_right s k /\ ts_right s k < 2 ^ 32) ->
  (forall k, 0 <= k < num_records s ->
     (ts_left s k <= l \/ r <= ts_left s k) /\
     (ts_right s k <= l \/ r <= ts_right s k)) ->
  d_lt p (d_of_u32 l) = false -> d_lt p (d_of_u32 r) = true ->
  holds s k p <-> covers s k l r.
Proof.
  intros Hl Hlr Hr Hrec Hbr Hpl Hpr.
  destruct (d_lt_not_nan _ _ Hpr) as [Np _].
  split.
  - intros (Hk & Hkl & Hkr). split; [done|].
    destruct (Hrec k Hk) as [Hk1 Hk2]. destruct (Hbr k Hk) as [Bl Br].
    split.
    + destruct Bl as [|Bl]; [done|]. exfalso.
      assert (d_lt p (d_of_u32 (ts_left s k)) = true); [|congruence].
      apply (d_lt_le_trans _ (d_of_u32 r)); try done;
        try (apply d_of_u32_not_nan; lia).
      apply d_of_u32_le; lia.
    + destruct Br as [Br|]; [|done]. exfalso.
      assert (d_lt p (d_of_u32 l) = true); [|congruence].
      apply (d_lt_le_trans _ (d_of_u32 (ts_right s k))); try done;
        try (apply d_of_u32_not_nan; lia).
      apply d_of_u32_le; lia.
  - intros (Hk & Hkl & Hkr). split; [done|].
    destruct (Hrec k Hk) as [Hk1 Hk2]. split.
    + apply (d_le_trans _ (d_of_u32 l)); try done;
        try (apply d_of_u32_not_nan; lia).
      apply d_of_u32_le; lia.
    + apply (d_lt_le_trans _ (d_of_u32 r)); try done;
        try (apply d_of_u32_not_nan; lia).
      apply d_of_u32_le; lia.
Qed.

(** Along the links of such a tree a node descends from another as it
    does along the records that hold the position. *)
Lemma anc_descends s par l r p :
  (forall k, holds s k p <-> covers s k l r) ->
  (forall c u, u <> 0 ->
     par c = u <->
     exists k j, covers s k l r /\ 0 <= j <= 1 /\
                 ts_node s k = u /\ ts_child s k j = c) ->
  (forall k, 0 <= k < num_records s -> ts_node s k <> 0) ->
  forall x u, anc par x u <-> descends s p x u.
Proof.
  intros Hh Hpar Hnode x u. split.
  - induction 1 as [x|x u Hne Hanc IH]; [apply descends_refl|].
    destruct (proj1 (Hpar x (par x) Hne) eq_refl) as (k & j & Hk & Hj & En & Ec).
    apply (descends_step s p k j); [by apply Hh|done|done|].
    by rewrite En.
  - induction 1 as [x|k j x u Hk Hj Ec Hd IH]; [apply anc_refl|].
    assert (par x = ts_node s k) as Ep.
    { apply Hpar; [apply Hnode, Hk|]. exists k, j.
      split; [by apply Hh|]. done. }
    apply anc_step; rewrite Ep; [apply Hnode, Hk|done].
Qed.

Lemma links_of_covers s (live : Z -> Prop) parent children l r :
  links_hold s live parent children ->
  (forall k, live k <-> covers s k l r) ->
  (forall c u, u <> 0 ->
     parent_of parent c = u <->
     exists k j, covers s k l r /\ 0 <= j <= 1 /\
                 ts_node s k = u /\ ts_child s k j = c) /\
  (forall u j c, 0 <= j <= 1 -> c <> 0 ->
     child_of children u j = c <->
     exists k, covers s k l r /\ ts_node s k = u /\ ts_child s k j = c).
Proof.
  intros (_ & Hl & Hch & Hpa) Hlive. split.
  - intros c0 u Hu. split.
    + intros Ep. destruct (Hpa c0) as (k & j & Hk & Hj & Ec & En);
        [by rewrite Ep|].
      exists k, j. split; [by apply Hlive|]. split; [done|].
      split; [by rewrite En|done].
    + intros (k & j & Hk & Hj & <- & <-).
      by apply (Hl k j (proj2 (Hlive k) Hk) Hj).
  - intros u j c0 Hj Hc0. split.
    + intros Ec. destruct (Hch u j Hj) as (k & Hk & En & Ek);
        [by rewrite Ec|].
      exists k. split; [by apply Hlive|]. split; [done|]. by rewrite Ek.
    + intros (k & Hk & <- & <-).
      by apply (Hl k j (proj2 (Hlive k) Hk) Hj).
Qed.

Lemma iterator_links_closed `{msprime_h} s tracked self t :
  records_nest s -> iterator_links s tracked self t ->
  closed (sample_size s) (child_of (t_children t)).
Proof.
  intros Hnest (_ & _ & _ & _ & _ & Hidx & _ & (Hr & Hl & Hch & Hpa) & _)
    v j Hj Hne.
  set (i := Z.to_nat (it_insertion_index self)) in *.
  set (r := Z.to_nat (it_removal_index self)) in *.
  destruct (Hch v j Hj Hne) as (k & Hk & Ev & Ec). rewrite <- Ec.
  destruct (live_cover s Hnest i r r _ k Hidx ltac:(lia) Hk) as [Hkr Hx].
  pose proof Hnest as (_ & _ & _ & _ & _ & Hrec & _ & Hcl & _).
  destruct (Hcl k j (t_right t - 1) Hkr Hj ltac:(lia))
    as [?|(k' & Hk'r & Hx' & En)]; [by left|right].
  assert (live s i r k') as Hk'.
  { pose proof Hidx as (_ & _ & Hio & Hro). split.
    - pose proof (proj2 (insertion_order_elem s Hnest k') Hk'r) as Hin.
      apply list_elem_of_lookup_1 in Hin as (p & Hp).
      apply elem_of_take_lookup. exists p. split; [|done].
      destruct (decide (p < i)%nat); [done|].
      destruct (Hio p k' Hp) as [_ Hge]. specialize (Hge ltac:(lia)). lia.
    - intros (q & Hq & Hqk)%elem_of_take_lookup.
      destruct (Hro q k' Hqk) as [Hlt _]. specialize (Hlt Hq). lia. }
  destruct (Hl k' 0 Hk' ltac:(lia)) as [E _]. rewrite <- En, E.
  destruct (Hrec k' Hk'r) as (_ & ? & _). lia.
Qed.

Section tree_at.
Context `{msprime_h}.
Context (s : tree_sequence_t) (tracked : list Z).
Context (Htile : records_tile s) (Hnest : records_nest s).

(** What a call that returns 1 leaves, for the generator: a forest, and
    the stored mutations from the mutation index on, each with a node
    that the tree relates to the samples as the records do. *)
Lemma sparse_tree_iterator_next_at self t :
  iterator_links s tracked self t -> mutations_at s self t ->
  mutations_sorted s ->
  it_insertion_index self < num_records s ->
  exists self' t' (c : nat),
    sparse_tree_iterator_next s self t = Some (1, self', t') /\
    iterator_links s tracked self' t' /\ mutations_at s self' t' /\
    forest (sample_size s) (num_nodes s) (parent_of (t_parent t'))
      (child_of (t_children t')) /\
    closed (sample_size s) (child_of (t_children t')) /\
    Z.of_nat (length (t_children t')) = 2 * (num_nodes s + 1) /\
    it_mutation_index self' = it_mutation_index self + Z.of_nat c /\
    t_num_mutations t' = Z.of_nat c /\
    forall q, 0 <= q < Z.of_nat c ->
      exists m,
        stored_mutations s !! Z.to_nat (it_mutation_index self + q)
          = Some m /\
        rd (t_mutations t') q = Some m /\
        (forall x u, anc (parent_of (t_parent t')) x u <->
                     descends s (position m) x u) /\
        (mutations_in_trees s ->
         in_tree (sample_size s) (num_nodes s) (child_of (t_children t'))
           (node m)).
Proof.
  intros Hok Hat Hms Hlt.
  destruct (sparse_tree_iterator_next_step s tracked Htile Hnest self t
              Hok Hlt)
    as (self' & t' & k' & c & E' & Hok' & Ei' & Er' & Hk' & Ex' & El & Hxx
        & Hlive & Hbr & _ & Emi & Ec & _ & Hrun & _).
  destruct (mutations_at_step s tracked Htile Hnest self t self' t' Hms Hok
              Hat Hlt E') as [Hat' _].
  exists self', t', c. split; [done|]. split; [done|]. split; [done|].
  pose proof Hok' as (_ & _ & _ & _ & _ & _ & Hlay & Hlinks & _).
  rewrite Ei', Er', !Nat2Z.id in Hlinks.
  pose proof (links_forest s _ _ _ Hnest Hlinks) as HF.
  split; [done|].
  split; [by apply (iterator_links_closed s tracked self' t')|].
  split; [apply Hlay|]. split; [done|]. split; [done|].
  intros q Hq. destruct (Hrun q Hq) as (p & u & Hp & Hu & Hpr & Hm).
  pose proof Hok as (_ & _ & _ & Hmi0 & Hx0 & _).
  pose proof (rd_Some_range _ _ _ Hp) as Hrg.
  pose proof Hp as Hp'. rewrite rd_lookup in Hp' by lia.
  pose proof Hu as Hu'. rewrite rd_lookup in Hu' by lia.
  assert (stored_mutations s !! Z.to_nat (it_mutation_index self + q)
          = Some {| position := p; node := u |}) as Hst.
  { unfold stored_mutations. rewrite lookup_zip_with. by rewrite Hp', Hu'. }
  exists {| position := p; node := u |}. split; [done|].
  split; [done|]. cbn [position node].
  destruct Hat as [_ Hat]. destruct (Hat _ _ Hp) as [_ Hpl].
  specialize (Hpl ltac:(lia)). rewrite <- El in Hpl.
  pose proof Htile as (Hc & _ & _ & Hlr & H32 & _).
  assert (0 <= k' < num_records s) as Hk'r.
  { pose proof (rd_Some_range _ _ _ Hk') as Hrg'.
    destruct Hc as (_ & _ & _ & _ & _ & _ & _ & Hlro & _ & Hro & _).
    apply Hro. rewrite rd_lookup in Hk' by lia.
    by eapply list_elem_of_lookup_2. }
  assert (forall k, holds s k p <-> covers s k (t_left t') (t_right t'))
    as Hh.
  { intros k. apply holds_covers; try done; try lia.
    - rewrite Ex'. by apply H32.
    - intros k0 Hk0. split; [by apply Hlr|by apply H32]. }
  destruct (links_of_covers s _ _ _ _ _ Hlinks Hlive) as [Hpar Hkid].
  pose proof Hnest as (Hn1 & HnN & _ & _ & _ & Hrec & _).
  split.
  - apply (anc_descends s _ (t_left t') (t_right t') p Hh Hpar).
    intros k Hk. destruct (Hrec k Hk) as (? & _). lia.
  - intros Hin.
    destruct (Hin {| position := p; node := u |}) as [Hs|(k & Hk & En)].
    { by eapply list_elem_of_lookup_2. }
    + cbn [node] in Hs. split; [lia|left; lia].
    + cbn [node position] in Hk, En. apply Hh in Hk.
      pose proof Hk as (Hkr & _). destruct (Hrec k Hkr) as (Rn & R0 & _).
      split; [lia|]. right.
      assert (child_of (t_children t') u 0 = ts_child s k 0) as ->; [|lia].
      apply Hkid; [lia|lia|]. by exists k.
Qed.

End tree_at.

(** X5: a call of [sparse_tree_iterator_next] that finds records left to
    insert returns 1 and leaves the tree of the next interval: it starts
    where the tree before ended and is not empty, its parent and child
    links are exactly those of the records that span it, and its root has
    no parent. *)
Theorem sparse_tree_iterator_next_tree `{msprime_h} `{heap}
    (s : tree_sequence_t) (tracked : list Z) (flags : Z) (m : nat) :
  records_tile s -> records_nest s ->
  (Z.land flags MSP_COUNT_LEAVES <> 0 ->
   Forall (fun u => 1 <= u <= sample_size s) tracked) ->
  exists self t,
    sparse_tree_iterate s tracked flags m = Some (self, t) /\
    (it_insertion_index self < num_records s ->
     exists self' t',
       sparse_tree_iterator_next s self t = Some (1, self', t') /\
       t_left t' = t_right t /\ t_left t' < t_right t' /\
       (forall c u, u <> 0 ->
          parent_of (t_parent t') c = u <->
          exists k j, covers s k (t_left t') (t_right t') /\ 0 <= j <= 1 /\
                      ts_node s k = u /\ ts_child s k j = c) /\
       (forall u j c, 0 <= j <= 1 -> c <> 0 ->
          child_of (t_children t') u j = c <->
          exists k, covers s k (t_left t') (t_right t') /\
                    ts_node s k = u /\ ts_child s k j = c) /\
       parent_of (t_parent t') (t_root t') = 0).
Proof.
  intros Htile Hnest Htracked.
  destruct (sparse_tree_iterate_links s tracked flags Htile Hnest
              Htracked m) as (self & t & E & Hok).
  exists self, t. split; [done|]. intros Hlt.
  destruct (sparse_tree_iterator_next_step s tracked Htile Hnest self t
              Hok Hlt)
    as (self' & t' & k' & c & E' & Hok' & Ei' & Er' & _ & _ & El & Hxx
        & Hlive & _ & Htop & _).
  exists self', t'. split; [done|]. split; [done|]. split; [lia|].
  destruct Hok' as (_ & _ & _ & _ & _ & _ & _ & Hlinks & _).
  rewrite Ei', Er', !Nat2Z.id in Hlinks.
  destruct (links_of_covers s _ _ _ _ _ Hlinks Hlive) as [Hpar Hkid].
  by split.
Qed.

Lemma sparse_tree_iterator_next_tree_witness :
  exists self t,
    sparse_tree_iterate (H := sample_msprime_h) (H0 := zero_heap)
      example_ts [1; 3] 1 1 = Some (self, t) /\
    (it_insertion_index self < num_records example_ts ->
     exists self' t',
       sparse_tree_iterator_next (H := sample_msprime_h) example_ts self t
         = Some (1, self', t') /\
       t_left t' = t_right t /\ t_left t' < t_right t' /\
       (forall c u, u <> 0 ->
          parent_of (t_parent t') c = u <->
          exists k j, covers example_ts k (t_left t') (t_right t') /\
                      0 <= j <= 1 /\
                      ts_node example_ts k = u /\ ts_child example_ts k j = c) /\
       (forall u j c, 0 <= j <= 1 -> c <> 0 ->
          child_of (t_children t') u j = c <->
          exists k, covers example_ts k (t_left t') (t_right t') /\
                    ts_node example_ts k = u /\ ts_child example_ts k j = c) /\
       parent_of (t_parent t') (t_root t') = 0).
Proof.
  apply (@sparse_tree_iterator_next_tree sample_msprime_h zero_heap
           example_ts [1; 3] 1 1 example_ts_tiles example_ts_nests).
  intros _. repeat constructor; vm_compute; congruence.
Defined.

(** X6: the sparse tree iterator and the diff iterator walk a tree
    sequence in step: after the same number of calls their insertion and
    removal indexes agree and the right end of the tree is the left end
    the diff iterator has reached; their next calls return the same
    status, and when that is 1 the length the diff iterator reports is the
    length of the interval of the new tree. *)
Theorem iterators_walk_in_step `{msprime_h} `{heap}
    (s : tree_sequence_t) (tracked : list Z) (flags : Z) (m : nat) :
  records_tile s -> records_nest s ->
  (Z.land flags MSP_COUNT_LEAVES <> 0 ->
   Forall (fun u => 1 <= u <= sample_size s) tracked) ->
  exists self t d,
    sparse_tree_iterate s tracked flags m = Some (self, t) /\
    diff_iterate s m = Some d /\
    it_insertion_index self = di_insertion_index d /\
    it_removal_index self = di_removal_index d /\
    t_right t = di_tree_left d /\
    exists ret self' t' len out inn d',
      sparse_tree_iterator_next s self t = Some (ret, self', t') /\
      tree_diff_iterator_next s d = Some (ret, len, out, inn, d') /\
      (ret = 1 -> len = t_right t' - t_left t').
Proof.
  intros Htile Hnest Htracked.
  destruct (iterators_agree s tracked flags Htile Hnest Htracked m)
    as (self & t & d & E & Ed & Hok & Hdok & Ei & Er & Ex).
  exists self, t, d. do 5 (split; [done|]).
  destruct (Z.lt_ge_cases (it_insertion_index self) (num_records s))
    as [Hlt|Hge].
  - destruct (sparse_tree_iterator_next_step s tracked Htile Hnest self t
                Hok Hlt)
      as (self' & t' & k' & c & E' & _ & _ & Er' & Hk' & Ex' & El & _).
    destruct (diff_next_step s d Htile Hdok ltac:(lia))
      as (d' & k & Ed' & Hk & Exd & Erd & _).
    specialize (Ed' (records_nest_sample_size s Hnest)).
    eexists 1, self', t', _, _, _, d'. split; [done|]. split; [exact Ed'|].
    intros _. rewrite El, Ex, Ex', Exd. f_equal.
    assert (it_removal_index self' = di_removal_index d') as Er2
      by (rewrite Er', Erd, Er, Ex; done).
    rewrite Er2 in Hk'. congruence.
  - eexists 0, self, t, 0, [], [], d. split; [|split; [|done]].
    + by apply (sparse_tree_iterator_next_done s tracked).
    + apply diff_next_done. destruct Hdok as (_ & -> & _). lia.
Qed.

Lemma iterators_walk_in_step_witness :
  exists self t d,
    sparse_tree_iterate (H := sample_msprime_h) (H0 := zero_heap)
      example_ts [1; 3] 1 1 = Some (self, t) /\
    diff_iterate example_ts 1 = Some d /\
    it_insertion_index self = di_insertion_index d /\
    it_removal_index self = di_removal_index d /\
    t_right t = di_tree_left d /\
    exists ret self' t' len out inn d',
      sparse_tree_iterator_next (H := sample_msprime_h) example_ts self t
        = Some (ret, self', t') /\
      tree_diff_iterator_next example_ts d = Some (ret, len, out, inn, d') /\
      (ret = 1 -> len = t_right t' - t_left t').
Proof.
  apply (@iterators_walk_in_step sample_msprime_h zero_heap
           example_ts [1; 3] 1 1 example_ts_tiles example_ts_nests).
  intros _. repeat constructor; vm_compute; congruence.
Defined.

(** X7: a sparse tree iterator is done after at most [num_records] calls
    of [sparse_tree_iterator_next]: from then on a call returns 0 and
    leaves the iterator and the tree as they are. *)
Theorem sparse_tree_iterator_next_exhausts `{msprime_h} `{heap}
    (s : tree_sequence_t) (tracked : list Z) (flags : Z) (m : nat) :
  records_tile s -> records_nest s ->
  (Z.land flags MSP_COUNT_LEAVES <> 0 ->
   Forall (fun u => 1 <= u <= sample_size s) tracked) ->
  (Z.to_nat (num_records s) <= m)%nat ->
  exists self t,
    sparse_tree_iterate s tracked flags m = Some (self, t) /\
    sparse_tree_iterator_next s self t = Some (0, self, t).
Proof.
  intros Htile Hnest Htracked Hm.
  destruct (sparse_tree_iterate_exhausts s tracked flags Htile Hnest Htracked
              m Hm) as (self & t & E & Hok & Hge).
  exists self, t. split; [done|].
  by apply (sparse_tree_iterator_next_done s tracked).
Qed.

Lemma sparse_tree_iterator_next_exhausts_witness :
  exists self t,
    sparse_tree_iterate (H := sample_msprime_h) (H0 := zero_heap)
      example_ts [1; 3] 1 3 = Some (self, t) /\
    sparse_tree_iterator_next (H := sample_msprime_h) example_ts self t
      = Some (0, self, t).
Proof.
  apply (@sparse_tree_iterator_next_exhausts sample_msprime_h zero_heap
           example_ts [1; 3] 1 3 example_ts_tiles example_ts_nests).
  - intros _. repeat constructor; vm_compute; congruence.
  - vm_compute. lia.
Defined.

Lemma example_ts_mutations_sorted : mutations_sorted example_ts.
Proof.
  split.
  - repeat constructor; by vm_compute.
  - repeat constructor.
Qed.

(** X8: when the stored mutations lie at ascending positions, numbers not
    below zero, a call of [sparse_tree_iterator_next] that returns 1 hands
    the tree exactly the stored mutations whose position lies in its
    interval, in their order: they are the first [num_mutations] cells of
    the mutations of the tree. *)
Theorem sparse_tree_iterator_next_mutations `{msprime_h} `{heap}
    (s : tree_sequence_t) (tracked : list Z) (flags : Z) (m : nat) :
  records_tile s -> records_nest s ->
  (Z.land flags MSP_COUNT_LEAVES <> 0 ->
   Forall (fun u => 1 <= u <= sample_size s) tracked) ->
  mutations_sorted s ->
  exists self t,
    sparse_tree_iterate s tracked flags m = Some (self, t) /\
    (it_insertion_index self < num_records s ->
     exists self' t',
       sparse_tree_iterator_next s self t = Some (1, self', t') /\
       take (Z.to_nat (t_num_mutations t')) (t_mutations t')
         = filter (within (t_left t') (t_right t')) (stored_mutations s)).
Proof.
  intros Htile Hnest Htracked Hms.
  destruct (sparse_tree_iterate_mutations s tracked flags Htile Hnest
              Htracked m Hms) as (self & t & E & Hok & Hat).
  exists self, t. split; [done|]. intros Hlt.
  destruct (sparse_tree_iterator_next_step s tracked Htile Hnest self t
              Hok Hlt) as (self' & t' & k' & c & E' & _).
  exists self', t'. split; [done|].
  by apply (mutations_at_step s tracked Htile Hnest self t self' t' Hms Hok
              Hat Hlt E').
Qed.

Lemma sparse_tree_iterator_next_mutations_witness :
  exists self t,
    sparse_tree_iterate (H := sample_msprime_h) (H0 := zero_heap)
      example_ts [1; 3] 1 1 = Some (self, t) /\
    (it_insertion_index self < num_records example_ts ->
     exists self' t',
       sparse_tree_iterator_next (H := sample_msprime_h) example_ts self t
         = Some (1, self', t') /\
       take (Z.to_nat (t_num_mutations t')) (t_mutations t')
         = filter (within (t_left t') (t_right t'))
             (stored_mutations example_ts)).
Proof.
  apply (@sparse_tree_iterator_next_mutations sample_msprime_h zero_heap
           example_ts [1; 3] 1 1 example_ts_tiles example_ts_nests).
  - intros _. repeat constructor; vm_compute; congruence.
  - exact example_ts_mutations_sorted.
Defined.

(** ** hapgen_apply_tree_mutation *)

Lemma hapgen_set_bit_runs n self row column :
  matrix_for n self -> 0 <= row < n -> 0 <= column ->
  column / 64 < words_per_row self ->
  exists self',
    hapgen_set_bit self row column = Some (0, self') /\
    matrix_for n self' /\
    words_per_row self' = words_per_row self /\
    hg_num_mutations self' = hg_num_mutations self /\
    haplotype self' = haplotype self.
Proof.
  intros (Hn & Hw & Hl) Hr Hc Hcw. unfold hapgen_set_bit, HG_WORD_SIZE.
  destruct (Z.ltb_spec (column / 64) (words_per_row self)); [|lia].
  assert (0 <= column / 64) by (apply Z.div_pos; lia).
  assert (0 <= row * words_per_row self + column / 64
          < Z.of_nat (length (haplotype_matrix self))) as Hi by nia.
  destruct (rd_in_range _ _ Hi) as [w ->]. cbn [mbind option_bind].
  destruct (wr_ex (haplotype_matrix self) _
              (Z.lor w (wrap64 (Z.shiftl 1 (column mod 64)))) Hi)
    as (m & -> & Lm).
  cbn [mbind option_bind]. eexists. split; [done|].
  unfold matrix_for. cbn. rewrite Lm. done.
Qed.

Section apply_mutation.
Context (n N : Z) (children : list Z) (par : Z -> Z).
Let kid := child_of children.
Let L := weight_of (fun _ => 1) n kid.
Context (HN : 2 * (N + 1) < 2 ^ 32).
Context (HF : forest n N par kid) (Hclosed : closed n kid).
Context (Hlen : Z.of_nat (length children) = 2 * (N + 1)).
Context (site : Z) (Hsite : 0 <= site).

Lemma apply_tree_mutation_loop_spec :
  forall fuel st rest self,
  Forall (in_tree n N kid) st -> total L st <= n ->
  Z.of_nat (length (st ++ rest)) = n ->
  2 * total L st - Z.of_nat (length st) < Z.of_nat fuel ->
  matrix_for n self -> site / 64 < words_per_row self ->
  exists self' stack',
    apply_tree_mutation_loop children site fuel self (st ++ rest)
      (Z.of_nat (length st) - 1) = Some (self', stack') /\
    length stack' = length (st ++ rest) /\
    matrix_for n self' /\
    words_per_row self' = words_per_row self /\
    hg_num_mutations self' = hg_num_mutations self /\
    haplotype self' = haplotype self /\
    forall r c, 0 <= r -> 0 <= c < 64 * words_per_row self ->
      hapgen_bit self' r c = true <->
      hapgen_bit self r c = true \/
      (c = site /\ r + 1 <= n /\ exists v, v ∈ st /\ anc par (r + 1) v).
Proof.
  pose proof HF as (Hk & _ & _ & Hz & _).
  assert (forall v, in_tree n N kid v -> 1 <= L v) as HgoodL
    by (intros v Hv; by apply (good_weight n N children par HF Hclosed)).
  induction fuel as [|fuel IH]; intros st rest self Hgood Htot Hlen' Hfuel
    Hmat Hword.
  { pose proof (total_ge L st) as Hge.
    specialize (Hge ltac:(intros v Hv; apply HgoodL;
                          by eapply Forall_forall in Hgood)). lia. }
  destruct st as [|v st _] using rev_ind.
  { cbn [apply_tree_mutation_loop]. simpl. exists self, rest.
    repeat match goal with |- _ /\ _ => split end; try done.
    intros r c _ _. split; [by left|].
    intros [|(_ & _ & v & Hv & _)]; [done|]. by apply elem_of_nil in Hv. }
  cbn [apply_tree_mutation_loop].
  apply Forall_app in Hgood as [Hgood Hv].
  rewrite Forall_singleton in Hv. pose proof (HgoodL v Hv) as HLv.
  pose proof (total_ge L st) as Hge.
  specialize (Hge ltac:(intros v' Hv'; apply HgoodL;
                        by eapply Forall_forall in Hgood)).
  rewrite total_app in *. simpl in Htot, Hfuel.
  rewrite !length_app in Hlen'. rewrite !length_app in Hfuel.
  rewrite !length_app.
  simpl in Hlen', Hfuel |- *.
  destruct (Z.ltb_spec (Z.of_nat (length st + 1) - 1) 0); [lia|].
  replace (Z.of_nat (length st + 1) - 1) with (Z.of_nat (length st)) by lia.
  rewrite rd_lookup, Nat2Z.id by lia. rewrite <- app_assoc.
  change ([v] ++ rest) with (v :: rest).
  rewrite list_lookup_middle by done. cbn [mbind option_bind].
  destruct Hv as [Hv Hg].
  assert (forall j, 0 <= j <= 1 ->
            rd children (2 * v + j) = Some (kid v j)) as Hrd.
  { intros j Hj. unfold kid, child_of.
    destruct (rd_in_range children (2 * v + j)) as [c ->]; [lia|done]. }
  replace (wrap32 (2 * v)) with (wrap32 (2 * v + 0)) by (f_equal; lia).
  rewrite !wrap32_small by lia. rewrite !Hrd by lia.
  cbn [mbind option_bind].
  destruct (Z.eqb_spec (kid v 0) 0) as [Ev|Ev].
  - destruct Hg as [Hvn|]; [|done].
    assert (L v = 1) as ELv.
    { unfold L. rewrite (weight_of_unfold n N) by (done || lia).
      destruct (Z.leb_spec 1 v); [|lia]. by destruct (Z.leb_spec v n); [|lia]. }
    destruct (hapgen_set_bit_runs n self (v - 1) site Hmat ltac:(lia) Hsite
                Hword) as (self1 & E1 & Hmat1 & Ew1 & Em1 & Eh1).
    rewrite E1. cbn [mbind option_bind snd].
    destruct (hapgen_set_bit_spec self (v - 1) site self1 ltac:(lia) Hsite
                ltac:(destruct Hmat as (_ & ? & _); lia) E1) as [Hset Hoth].
    destruct (IH st (v :: rest) self1) as (self' & stack' & E & Hl & Hmat'
                                           & Ew' & Em' & Eh' & Hbits).
    { done. }
    { lia. }
    { rewrite length_app. simpl. lia. }
    { lia. }
    { done. }
    { by rewrite Ew1. }
    exists self', stack'. split; [exact E|].
    split; [rewrite Hl, !length_app; simpl; lia|].
    split; [done|]. split; [congruence|]. split; [congruence|].
    split; [congruence|].
    intros r c Hr Hc. rewrite Hbits by (rewrite ?Ew1; lia).
    destruct (decide ((r, c) = (v - 1, site))) as [[= -> ->]|Hne].
    + rewrite Hset. split; [|by left]. intros _. right.
      split; [done|]. split; [lia|]. exists v.
      split; [apply elem_of_app; right; apply list_elem_of_here|].
      replace (v - 1 + 1) with v by lia. apply anc_refl.
    + rewrite (Hoth r c Hr Hc Hne). split.
      * intros [?|(-> & Hrn & v' & Hv' & Hanc)]; [by left|right].
        split; [done|]. split; [done|]. exists v'. split; [|done].
        apply elem_of_app. by left.
      * intros [?|(-> & Hrn & v' & Hv' & Hanc)]; [by left|].
        apply elem_of_app in Hv' as [Hv'|Hv'%list_elem_of_singleton].
        { right. split; [done|]. split; [done|]. by exists v'. }
        subst v'. exfalso.
        destruct (decide (v = r + 1)) as [->|Hvr].
        { apply Hne. f_equal. lia. }
        by apply (anc_childless n N par kid (r + 1) v HF ltac:(done) Ev).
  - destruct Hg as [|Hg]; [destruct (Hk v 0 ltac:(lia) Ev); lia|].
    assert (kid v 1 <> 0) as Hb by (by rewrite <- Hz).
    destruct (Hk v 0 ltac:(lia) Hg) as [R0 Rv].
    destruct (Hk v 1 ltac:(lia) Hb) as [R1 _].
    assert (L v = L (kid v 0) + L (kid v 1)) as ELv.
    { unfold L. rewrite (weight_of_unfold n N _ _ v) by (done || lia).
      destruct (Z.leb_spec 1 v); [|lia]. destruct (Z.leb_spec v n); [lia|].
      cbn [andb]. by destruct (Z.eqb_spec (kid v 0) 0). }
    assert (in_tree n N kid (kid v 0)) as G0.
    { split; [lia|]. by apply Hclosed; [lia|]. }
    assert (in_tree n N kid (kid v 1)) as G1.
    { split; [lia|]. by apply Hclosed; [lia|]. }
    pose proof (HgoodL _ G0). pose proof (HgoodL _ G1).
    replace (Z.of_nat (length st) - 1 + 1) with (Z.of_nat (length st))
      by lia.
    replace (Z.of_nat (length st) - 1 + 2) with (Z.of_nat (length st + 1))
      by lia.
    destruct rest as [|x rest]; [simpl in Hlen'; lia|].
    rewrite wr_in_range by (rewrite length_app; simpl; lia).
    cbn [mbind option_bind]. rewrite Nat2Z.id.
    rewrite insert_app_r_alt, Nat.sub_diag by lia.
    rewrite wr_in_range by (rewrite length_app; simpl; lia).
    cbn [mbind option_bind]. rewrite Nat2Z.id.
    rewrite insert_app_r_alt by lia.
    replace (length st + 1 - length st)%nat with 1%nat by lia.
    change (<[1%nat:=kid v 1]> (<[0%nat:=kid v 0]> (v :: x :: rest)))
      with (kid v 0 :: kid v 1 :: rest).
    destruct (IH (st ++ [kid v 0; kid v 1]) rest self)
      as (self' & stack' & E & Hl & Hmat' & Ew' & Em' & Eh' & Hbits);
      try done.
    { apply Forall_app. split; [done|].
      constructor; [exact G0|]. constructor; [exact G1|constructor]. }
    { rewrite total_app. simpl. lia. }
    { rewrite !length_app. simpl. simpl in Hlen'. lia. }
    { rewrite total_app, length_app. simpl. lia. }
    rewrite length_app in E. simpl in E.
    replace (Z.of_nat (length st + 2) - 1) with (Z.of_nat (length st + 1))
      in E by lia.
    rewrite <- app_assoc in E. simpl in E.
    exists self', stack'. split; [exact E|].
    split; [rewrite Hl, !length_app; simpl; lia|].
    do 4 (split; [done|]).
    intros r c Hr Hc. rewrite (Hbits r c Hr Hc).
    split; (intros [?|(-> & Hrn & v' & Hv' & Hanc)]; [by left|right]);
      (split; [done|]); (split; [done|]).
    + apply elem_of_app in Hv' as [Hv'|Hv'].
      { exists v'. split; [|done]. apply elem_of_app. by left. }
      exists v. split; [apply elem_of_app; right; apply list_elem_of_here|].
      destruct (anc_kids n N par kid (r + 1) v HF ltac:(lia) Hg)
        as (A0 & A1 & _).
      apply elem_of_cons in Hv' as [->|Hv']; [by apply A0|].
      apply list_elem_of_singleton in Hv' as ->. by apply A1.
    + apply elem_of_app in Hv' as [Hv'|Hv'%list_elem_of_singleton].
      { exists v'. split; [|done]. apply elem_of_app. by left. }
      subst v'.
      destruct (anc_kids n N par kid (r + 1) v HF ltac:(lia) Hg)
        as (_ & _ & A & _).
      destruct (A Hanc) as [Ha|Ha].
      * exists (kid v 0). split; [|done]. apply elem_of_app. right.
        apply list_elem_of_here.
      * exists (kid v 1). split; [|done]. apply elem_of_app. right.
        apply list_elem_of_further, list_elem_of_here.
Qed.

End apply_mutation.

Lemma hapgen_apply_tree_mutation_run (n N : Z) (tree : sparse_tree_t)
    (self : hapgen_t) (stack : list Z) (site : Z) (mut : mutation_t)
    (fuel : nat) :
  1 <= n -> n <= N -> 2 * (N + 1) < 2 ^ 32 ->
  forest n N (parent_of (t_parent tree)) (child_of (t_children tree)) ->
  closed n (child_of (t_children tree)) ->
  Z.of_nat (length (t_children tree)) = 2 * (N + 1) ->
  matrix_for n self -> Z.of_nat (length stack) = n ->
  0 <= site < 64 * words_per_row self ->
  in_tree n N (child_of (t_children tree)) (node mut) ->
  2 * n < Z.of_nat fuel ->
  exists self' stack',
    hapgen_apply_tree_mutation fuel self tree stack site mut
      = Some (0, self', stack') /\
    matrix_for n self' /\
    words_per_row self' = words_per_row self /\
    Z.of_nat (length stack') = n /\
    forall row column,
      0 <= row < n -> 0 <= column < 64 * words_per_row self ->
      hapgen_bit self' row column = true <->
      hapgen_bit self row column = true \/
      (column = site /\
       anc (parent_of (t_parent tree)) (row + 1) (node mut)).
Proof.
  intros Hn HnN HN HF Hcl Lc Hmat Ls Hsite Hnode Hfuel.
  unfold hapgen_apply_tree_mutation.
  destruct stack as [|x rest]; [simpl in Ls; lia|].
  rewrite wr_in_range by (simpl; lia). cbn [mbind option_bind].
  change (<[Z.to_nat 0:=node mut]> (x :: rest)) with ([node mut] ++ rest).
  pose proof (weight_of_bound n N (fun _ => 1) _ _ (node mut) HF ltac:(lia)
                ltac:(intros; lia)) as Hb.
  destruct (apply_tree_mutation_loop_spec n N (t_children tree) _ HN
              HF Hcl Lc site ltac:(lia) fuel [node mut] rest self)
    as (self' & stack' & E & Ls' & Hmat' & Ew' & _ & _ & Hbits).
  { by constructor. }
  { simpl. lia. }
  { simpl in *. lia. }
  { simpl. lia. }
  { done. }
  { apply Z.div_lt_upper_bound; lia. }
  change (Z.of_nat (length [node mut]) - 1) with 0 in E. rewrite E.
  cbn [mbind option_bind fst snd]. exists self', stack'. split; [done|].
  split; [done|]. split; [done|].
  split; [rewrite Ls'; simpl in *; lia|].
  intros row column Hr Hc. rewrite (Hbits row column ltac:(lia) Hc).
  split; (intros [?|(-> & Hx)]; [by left|right]); (split; [done|]).
  - destruct Hx as (_ & v & Hv%list_elem_of_singleton & Hanc). by subst v.
  - split; [lia|]. exists (node mut). split; [|done].
    apply list_elem_of_here.
Qed.

(** X9: on a tree whose links form a forest in which every child is a
    sample or has children, [hapgen_apply_tree_mutation] for a node of the
    tree returns 0 and sets, in column [site] of the matrix, the bits of
    the samples that have the node of the mutation among their ancestors
    (or are that node); every other bit of the matrix stays as it was.  A
    stack of [sample_size] cells is enough. *)
Theorem hapgen_apply_tree_mutation_spec (n N : Z) (tree : sparse_tree_t)
    (self : hapgen_t) (stack : list Z) (site : Z) (mut : mutation_t)
    (fuel : nat) :
  1 <= n -> n <= N -> 2 * (N + 1) < 2 ^ 32 ->
  forest n N (parent_of (t_parent tree)) (child_of (t_children tree)) ->
  closed n (child_of (t_children tree)) ->
  Z.of_nat (length (t_children tree)) = 2 * (N + 1) ->
  matrix_for n self -> Z.of_nat (length stack) = n ->
  0 <= site < 64 * words_per_row self ->
  in_tree n N (child_of (t_children tree)) (node mut) ->
  2 * n < Z.of_nat fuel ->
  exists self' stack',
    hapgen_apply_tree_mutation fuel self tree stack site mut
      = Some (0, self', stack') /\
    forall row column,
      0 <= row < n -> 0 <= column < 64 * words_per_row self ->
      hapgen_bit self' row column = true <->
      hapgen_bit self row column = true \/
      (column = site /\
       anc (parent_of (t_parent tree)) (row + 1) (node mut)).
Proof.
  intros Hn HnN HN HF Hcl Lc Hmat Ls Hsite Hnode Hfuel.
  destruct (hapgen_apply_tree_mutation_run n N tree self stack site mut fuel
              Hn HnN HN HF Hcl Lc Hmat Ls Hsite Hnode Hfuel)
    as (self' & stack' & E & _ & _ & _ & Hbits).
  by exists self', stack'.
Qed.

Lemma example_tree_kid v j :
  0 <= j <= 1 -> child_of (t_children example_tree) v j <> 0 ->
  (v = 4 \/ v = 5) /\
  child_of (t_children example_tree) v j = 2 * v - 7 + j.
Proof.
  intros Hj Hne.
  destruct (decide (0 <= v <= 6)) as [Hv|Hv].
  - assert (v = 0 \/ v = 1 \/ v = 2 \/ v = 3 \/ v = 4 \/ v = 5 \/ v = 6)
      as Hc by lia.
    assert (j = 0 \/ j = 1) as Hj' by lia.
    destruct Hc as [->|[->|[->|[->|[->|[->| ->]]]]]], Hj' as [-> | ->];
      try (exfalso; apply Hne; reflexivity);
      (split; [lia|reflexivity]).
  - exfalso. apply Hne. unfold child_of.
    rewrite rd_None_range; [done|]. simpl. lia.
Qed.

Lemma example_tree_forest :
  forest 3 6 (parent_of (t_parent example_tree))
    (child_of (t_children example_tree)).
Proof.
  assert (forall c, parent_of (t_parent example_tree) c <> 0 ->
            (c = 1 \/ c = 2 \/ c = 3 \/ c = 4)) as Hpar.
  { intros c Hne. destruct (decide (0 <= c <= 6)) as [Hc|Hc].
    - assert (c = 0 \/ c = 1 \/ c = 2 \/ c = 3 \/ c = 4 \/ c = 5 \/ c = 6)
        as Hcs by lia.
      destruct Hcs as [->|[->|[->|[->|[->|[->| ->]]]]]]; try lia;
        exfalso; apply Hne; reflexivity.
    - exfalso. apply Hne. unfold parent_of.
      rewrite rd_None_range; [done|]. simpl. lia. }
  split; [|split; [|split; [|split]]].
  - intros v j Hj Hne. destruct (example_tree_kid v j Hj Hne) as [Hv ->].
    lia.
  - intros v j Hj Hne. destruct (example_tree_kid v j Hj Hne) as [Hv ->].
    assert (j = 0 \/ j = 1) as [-> | ->] by lia;
      destruct Hv as [-> | ->]; reflexivity.
  - intros c Hne.
    destruct (Hpar c Hne) as [->|[->|[->| ->]]];
      (split; [lia|]); vm_compute; auto.
  - intros v. split; intros E.
    + destruct (decide (child_of (t_children example_tree) v 1 = 0))
        as [|Hne]; [done|].
      destruct (example_tree_kid v 1 ltac:(lia) Hne) as [[-> | ->] _];
        vm_compute in E; lia.
    + destruct (decide (child_of (t_children example_tree) v 0 = 0))
        as [|Hne]; [done|].
      destruct (example_tree_kid v 0 ltac:(lia) Hne) as [[-> | ->] _];
        vm_compute in E; lia.
  - intros v Hne.
    destruct (example_tree_kid v 0 ltac:(lia) Hne) as [[-> | ->] _];
      vm_compute; lia.
Qed.

Lemma example_tree_closed :
  closed 3 (child_of (t_children example_tree)).
Proof.
  intros v j Hj Hne. destruct (example_tree_kid v j Hj Hne) as [Hv E].
  assert (j = 0 \/ j = 1) as Hj' by lia.
  destruct Hv as [-> | ->], Hj' as [-> | ->];
    try (left; vm_compute; congruence).
  right. vm_compute. congruence.
Qed.

(** In [example_tree], the mutation above node 4 at site 0 of a matrix
    of zeros. *)
Lemma hapgen_apply_tree_mutation_spec_witness :
  exists self' stack',
    hapgen_apply_tree_mutation 7 blank_hapgen example_tree [9; 9; 9] 0
      {| position := d_zero; node := 4 |} = Some (0, self', stack') /\
    forall row column,
      0 <= row < 3 -> 0 <= column < 64 * words_per_row blank_hapgen ->
      hapgen_bit self' row column = true <->
      hapgen_bit blank_hapgen row column = true \/
      (column = 0 /\
       anc (parent_of (t_parent example_tree)) (row + 1)
         (node {| position := d_zero; node := 4 |})).
Proof.
  apply (hapgen_apply_tree_mutation_spec 3 6 example_tree blank_hapgen
           [9; 9; 9] 0 {| position := d_zero; node := 4 |} 7 ltac:(lia)
           ltac:(lia) ltac:(lia) example_tree_forest example_tree_closed
           eq_refl).
  - unfold matrix_for. simpl. lia.
  - reflexivity.
  - simpl. lia.
  - split; [simpl; lia|]. right. vm_compute. congruence.
  - simpl. lia.
Defined.

Section tree_mutations.
Context (n N : Z) (tree : sparse_tree_t).
Let par := parent_of (t_parent tree).
Let kid := child_of (t_children tree).
Context (Hn : 1 <= n) (HnN : n <= N) (HN : 2 * (N + 1) < 2 ^ 32).
Context (HF : forest n N par kid) (Hclosed : closed n kid).
Context (Hlen : Z.of_nat (length (t_children tree)) = 2 * (N + 1)).
Context (fuel : nat) (Hfuel : 2 * n < Z.of_nat fuel).

(** The loop over the mutations of one tree: mutation [j + q] goes to
    column [site + q]. *)
Lemma apply_tree_mutations_spec :
  forall (c : nat) j ret self stack site,
  0 <= j -> 0 <= site ->
  (forall q, 0 <= q < Z.of_nat c ->
     exists m, rd (t_mutations tree) (j + q) = Some m /\
               in_tree n N kid (node m)) ->
  matrix_for n self -> Z.of_nat (length stack) = n ->
  site + Z.of_nat c <= 64 * words_per_row self ->
  exists ret' self' stack',
    apply_tree_mutations fuel tree c j ret self stack site
      = Some (false, ret', self', stack', site + Z.of_nat c) /\
    matrix_for n self' /\
    words_per_row self' = words_per_row self /\
    Z.of_nat (length stack') = n /\
    forall row column,
      0 <= row < n -> 0 <= column < 64 * words_per_row self ->
      hapgen_bit self' row column = true <->
      hapgen_bit self row column = true \/
      exists q m, 0 <= q < Z.of_nat c /\ column = site + q /\
                  rd (t_mutations tree) (j + q) = Some m /\
                  anc par (row + 1) (node m).
Proof.
  induction c as [|c IH]; intros j ret self stack site Hj Hsite Hmuts Hmat
    Ls Hcols; cbn [apply_tree_mutations].
  - exists ret, self, stack. rewrite Z.add_0_r. split; [done|].
    do 3 (split; [done|]). intros row column _ _. split; [by left|].
    intros [|(q & m & Hq & _)]; [done|lia].
  - destruct (Hmuts 0 ltac:(lia)) as (m & Hm & Hnode).
    rewrite Z.add_0_r in Hm. rewrite Hm. cbn [mbind option_bind].
    destruct (hapgen_apply_tree_mutation_run n N tree self stack site m fuel
                Hn HnN HN HF Hclosed Hlen Hmat Ls ltac:(lia) Hnode Hfuel)
      as (self1 & stack1 & -> & Hmat1 & Ew1 & Ls1 & Hbits1).
    cbn [mbind option_bind fst snd]. change (negb (0 =? 0)) with false.
    cbv iota.
    destruct (IH (j + 1) 0 self1 stack1 (site + 1))
      as (ret' & self' & stack' & E & Hmat' & Ew' & Ls' & Hbits');
      try done; try lia.
    { intros q Hq. destruct (Hmuts (q + 1) ltac:(lia)) as (m' & Hm' & Hn').
      exists m'. split; [|done]. by replace (j + 1 + q) with (j + (q + 1))
        by lia. }
    exists ret', self', stack'.
    replace (site + Z.of_nat (S c)) with (site + 1 + Z.of_nat c) by lia.
    split; [done|]. split; [done|]. split; [congruence|]. split; [done|].
    intros row column Hr Hc.
    rewrite (Hbits' row column Hr ltac:(lia)), (Hbits1 row column Hr Hc).
    split.
    + intros [[?|[-> Hanc]]|(q & m' & Hq & -> & Hm' & Hanc)]; [by left|..];
        right.
      * exists 0, m. rewrite !Z.add_0_r. split; [lia|done].
      * exists (q + 1), m'. split; [lia|]. split; [lia|].
        split; [|done]. by replace (j + (q + 1)) with (j + 1 + q) by lia.
    + intros [?|(q & m' & Hq & -> & Hm' & Hanc)]; [by left; left|].
      destruct (decide (q = 0)) as [->|Hq0].
      * left. right. rewrite Z.add_0_r in Hm' |- *.
        split; [done|]. assert (m' = m) as -> by congruence. exact Hanc.
      * right. exists (q - 1), m'. split; [lia|]. split; [lia|].
        split; [|done]. by replace (j + 1 + (q - 1)) with (j + q) by lia.
Qed.

End tree_mutations.

Section generate.
Context `{msprime_h} `{heap}.
Context (s : tree_sequence_t) (tracked : list Z) (flags : Z).
Context (Htile : records_tile s) (Hnest : records_nest s).
Context (Htracked : Z.land flags MSP_COUNT_LEAVES <> 0 ->
                    Forall (fun u => 1 <= u <= sample_size s) tracked).
Context (Hms : mutations_sorted s) (Hin : mutations_in_trees s).
Context (self0 : hapgen_t) (fuel : nat).
Context (Hfuel : 2 * sample_size s < Z.of_nat fuel).
Context (Hcols : num_mutations s <= 64 * words_per_row self0).

(** The matrix once the mutations before [site] have their column. *)
Let bits_upto (self : hapgen_t) (site : Z) : Prop :=
  forall row column,
    0 <= row < sample_size s -> 0 <= column < 64 * words_per_row self0 ->
    hapgen_bit self row column = true <->
    hapgen_bit self0 row column = true \/
    (column < site /\ carries s column (row + 1)).

Lemma generate_all_loop_spec :
  forall (d m : nat) it tree self stack,
  (Z.to_nat (num_records s) <= m + d)%nat ->
  sparse_tree_iterate s tracked flags m = Some (it, tree) ->
  iterator_links s tracked it tree -> mutations_at s it tree ->
  matrix_for (sample_size s) self ->
  words_per_row self = words_per_row self0 ->
  Z.of_nat (length stack) = sample_size s ->
  bits_upto self (it_mutation_index it) ->
  forall trees, (d < trees)%nat ->
  exists it' tree' self' stack',
    generate_all_loop s fuel trees it tree self stack (it_mutation_index it)
      = Some (0, it', tree', self', stack') /\
    bits_upto self' (it_mutation_index it').
Proof.
  pose proof Hnest as (Hn1 & HnN & H32 & _).
  induction d as [|d IH]; intros m it tree self stack Hm E Hok Hat Hmat Ew
    Ls Hbits trees Htrees;
    (destruct trees as [|trees]; [lia|]); cbn [generate_all_loop].
  - destruct (sparse_tree_iterate_exhausts s tracked flags Htile Hnest
                Htracked m ltac:(lia)) as (it1 & tree1 & E1 & _ & Hge).
    rewrite E in E1. injection E1 as <- <-.
    rewrite (sparse_tree_iterator_next_done s tracked it tree Hok Hge).
    cbn [mbind option_bind]. change (0 =? 1) with false. cbv iota.
    by exists it, tree, self, stack.
  - destruct (Z.lt_ge_cases (it_insertion_index it) (num_records s))
      as [Hlt|Hge].
    2:{ rewrite (sparse_tree_iterator_next_done s tracked it tree Hok Hge).
        cbn [mbind option_bind]. change (0 =? 1) with false. cbv iota.
        by exists it, tree, self, stack. }
    destruct (sparse_tree_iterator_next_at s tracked Htile Hnest it tree Hok
                Hat Hms Hlt)
      as (it' & tree' & c & E' & Hok' & Hat' & HF & Hcl & Lc & Emi & Ec
          & Hmuts).
    rewrite E'. cbn [mbind option_bind]. change (1 =? 1) with true.
    cbv iota. rewrite Ec, Nat2Z.id.
    pose proof Hok as (_ & _ & _ & Hmi0 & _).
    pose proof Hat' as [Hmi' _].
    destruct (apply_tree_mutations_spec (sample_size s) (num_nodes s) tree'
                Hn1 HnN H32 HF Hcl Lc fuel Hfuel c 0 1 self stack
                (it_mutation_index it))
      as (ret' & self1 & stack1 & -> & Hmat1 & Ew1 & Ls1 & Hbits1);
      try done; try lia.
    { intros q Hq. destruct (Hmuts q Hq) as (m0 & _ & Hm0 & _ & Hn0).
      exists m0. rewrite Z.add_0_l. split; [done|]. by apply Hn0. }
    cbn [mbind option_bind]. rewrite <- Emi.
    apply (IH (S m) it' tree' self1 stack1); try done; try lia.
    { cbn [sparse_tree_iterate]. rewrite E. cbn [mbind option_bind fst snd].
      by rewrite E'. }
    intros row column Hr Hc.
    rewrite (Hbits1 row column Hr ltac:(lia)), (Hbits row column Hr Hc).
    split.
    + intros [[?|[Hlo Hcar]]|(q & m0 & Hq & -> & Hm0 & Hanc)]; [by left|..];
        right.
      * split; [lia|done].
      * split; [lia|]. split; [lia|].
        destruct (Hmuts q Hq) as (m1 & Hst & Hm1 & Hdesc & _).
        rewrite Z.add_0_l in Hm0. assert (m0 = m1) as -> by congruence.
        exists m1. split; [done|]. by apply Hdesc.
    + intros [?|[Hlo Hcar]]; [by left; left|].
      destruct (Z.lt_ge_cases column (it_mutation_index it)) as [Hc1|Hc1];
        [by left; right|].
      right. destruct Hcar as (_ & m0 & Hst0 & Hdesc0).
      destruct (Hmuts (column - it_mutation_index it) ltac:(lia))
        as (m1 & Hst & Hm1 & Hdesc & _).
      replace (it_mutation_index it + (column - it_mutation_index it))
        with column in Hst by lia.
      assert (m0 = m1) as -> by congruence.
      exists (column - it_mutation_index it), m1. split; [lia|].
      split; [lia|]. rewrite Z.add_0_l. split; [done|]. by apply Hdesc.
Qed.

End generate.

(** [hapgen_generate_all_haplotypes] from a freshly allocated tree and
    iterator: the bits of the matrix afterwards. *)
Lemma hapgen_generate_all_haplotypes_run `{msprime_h} `{heap}
    (s : tree_sequence_t) (tracked : list Z) (flags : Z) (self : hapgen_t)
    (stack : list Z) (fuel trees : nat) :
  records_tile s -> records_nest s ->
  (Z.land flags MSP_COUNT_LEAVES <> 0 ->
   Forall (fun u => 1 <= u <= sample_size s) tracked) ->
  mutations_sorted s -> mutations_in_trees s ->
  hapgen_allocated self ->
  hg_sample_size self = sample_size s ->
  hg_num_mutations self = num_mutations s ->
  Z.of_nat (length stack) = sample_size s ->
  2 * sample_size s < Z.of_nat fuel -> num_records s < Z.of_nat trees ->
  exists it tree,
    sparse_tree_iterate s tracked flags 0 = Some (it, tree) /\
    exists it' tree' self' stack',
      hapgen_generate_all_haplotypes s fuel trees it tree self stack
        = Some (0, it', tree', self', stack') /\
      forall row site,
        0 <= row < sample_size s -> 0 <= site < num_mutations s ->
        hapgen_bit self' row site = true <->
        hapgen_bit self row site = true \/
        (site < it_mutation_index it' /\ carries s site (row + 1)).
Proof.
  intros Htile Hnest Htracked Hms Hin (Hs0 & Hm0 & Ew & Lm & _) Ess Emm Ls
    Hfuel Htrees.
  destruct (sparse_tree_iterate_mutations s tracked flags Htile Hnest
              Htracked 0 Hms) as (it & tree & E & Hok & Hat).
  exists it, tree. split; [done|].
  destruct (sparse_tree_iterate_zero _ _ _ _ _ E) as (_ & _ & Emi & _).
  assert (num_mutations s < 64 * words_per_row self) as Hcols.
  { rewrite Ew, Emm. unfold HG_WORD_SIZE.
    pose proof (Z.mod_pos_bound (num_mutations s) 64 ltac:(lia)).
    pose proof (Z.div_mod (num_mutations s) 64 ltac:(lia)). lia. }
  assert (0 < words_per_row self) as Hw.
  { rewrite Ew, Emm. unfold HG_WORD_SIZE.
    assert (0 <= num_mutations s / 64) by (apply Z.div_pos; lia). lia. }
  pose proof Htile as ((HR & _) & _).
  assert (matrix_for (sample_size s) self) as Hmat.
  { unfold matrix_for. rewrite Ess in Lm. done. }
  assert (forall row column : Z,
            0 <= row < sample_size s ->
            0 <= column < 64 * words_per_row self ->
            hapgen_bit self row column = true <->
            hapgen_bit self row column = true \/
            (column < it_mutation_index it /\ carries s column (row + 1)))
    as Hbits0.
  { intros row column _ Hc. split; [by left|]. intros [|[Hlt _]]; [done|].
    rewrite Emi in Hlt. lia. }
  destruct (generate_all_loop_spec s tracked flags Htile Hnest Htracked Hms
              Hin self fuel Hfuel ltac:(lia) (Z.to_nat (num_records s)) 0 it
              tree self stack ltac:(lia) E Hok Hat Hmat eq_refl Ls Hbits0
              trees ltac:(lia))
    as (it' & tree' & self' & stack' & E' & Hbits).
  exists it', tree', self', stack'. split.
  { unfold hapgen_generate_all_haplotypes. by rewrite Emi in E'. }
  intros row site Hr Hsite. apply Hbits; [done|lia].
Qed.

(** X10: on a freshly allocated tree and iterator,
    [hapgen_generate_all_haplotypes] returns 0 and fills the matrix: the
    stored mutations that the trees hand out get the columns 0, 1, ... in
    their order, and in the column of a mutation the bits set are those of
    the samples that descend from the node of the mutation along the
    records whose interval holds its position; every other bit stays as it
    was.  The number of mutations handed out is the mutation index the
    iterator ends with. *)
Theorem hapgen_generate_all_haplotypes_spec `{msprime_h} `{heap}
    (s : tree_sequence_t) (tracked : list Z) (flags : Z) (self : hapgen_t)
    (stack : list Z) (fuel trees : nat) :
  records_tile s -> records_nest s ->
  (Z.land flags MSP_COUNT_LEAVES <> 0 ->
   Forall (fun u => 1 <= u <= sample_size s) tracked) ->
  mutations_sorted s -> mutations_in_trees s ->
  hapgen_allocated self ->
  hg_sample_size self = sample_size s ->
  hg_num_mutations self = num_mutations s ->
  Z.of_nat (length stack) = sample_size s ->
  2 * sample_size s < Z.of_nat fuel -> num_records s < Z.of_nat trees ->
  exists it tree,
    sparse_tree_iterate s tracked flags 0 = Some (it, tree) /\
    exists it' tree' self' stack',
      hapgen_generate_all_haplotypes s fuel trees it tree self stack
        = Some (0, it', tree', self', stack') /\
      forall row site,
        0 <= row < sample_size s -> 0 <= site < num_mutations s ->
        hapgen_bit self' row site = true <->
        hapgen_bit self row site = true \/
        (site < it_mutation_index it' /\ carries s site (row + 1)).
Proof. apply hapgen_generate_all_haplotypes_run. Qed.

Lemma example_ts_mutations_in_trees : mutations_in_trees example_ts.
Proof.
  intros m Hm. cbn in Hm. apply list_elem_of_singleton in Hm as ->.
  right. exists 0. split; [|reflexivity].
  unfold holds. cbn [num_records example_ts]. split; [lia|].
  split; by vm_compute.
Qed.

(** On [example_ts], with a matrix of zeros. *)
Lemma hapgen_generate_all_haplotypes_spec_witness :
  exists it tree,
    sparse_tree_iterate (H := sample_msprime_h) (H0 := zero_heap)
      example_ts [] 0 0 = Some (it, tree) /\
    exists it' tree' self' stack',
      hapgen_generate_all_haplotypes (H := sample_msprime_h) example_ts 7 4
        it tree blank_hapgen [9; 9; 9] = Some (0, it', tree', self', stack') /\
      forall row site,
        0 <= row < sample_size example_ts ->
        0 <= site < num_mutations example_ts ->
        hapgen_bit self' row site = true <->
        hapgen_bit blank_hapgen row site = true \/
        (site < it_mutation_index it' /\ carries example_ts site (row + 1)).
Proof.
  apply (@hapgen_generate_all_haplotypes_spec sample_msprime_h zero_heap
           example_ts [] 0 blank_hapgen [9; 9; 9] 7 4 example_ts_tiles
           example_ts_nests).
  - intros _. constructor.
  - exact example_ts_mutations_sorted.
  - exact example_ts_mutations_in_trees.
  - unfold hapgen_allocated. simpl. repeat split; lia.
  - reflexivity.
  - reflexivity.
  - reflexivity.
  - simpl. lia.
  - simpl. lia.
Defined.

(** X11: after any number of calls of [sparse_tree_iterator_next],
    [sparse_tree_get_num_leaves] returns 0 and the number of leaves below
    the node, whether the tree keeps leaf counts (it reads the count) or
    not (it walks the tree). *)
Theorem sparse_tree_get_num_leaves_spec `{msprime_h} `{heap}
    (s : tree_sequence_t) (tracked : list Z) (flags : Z) (m : nat) :
  records_tile s -> records_nest s ->
  (Z.land flags MSP_COUNT_LEAVES <> 0 ->
   Forall (fun u => 1 <= u <= sample_size s) tracked) ->
  exists self t,
    sparse_tree_iterate s tracked flags m = Some (self, t) /\
    forall u fuel, 0 <= u <= num_nodes s ->
      2 * sample_size s < Z.of_nat fuel ->
      exists t',
        sparse_tree_get_num_leaves fuel t u
          = Some (0, leaves_below t u, t').
Proof.
  intros Htile Hnest Htracked.
  destruct (sparse_tree_iterate_links s tracked flags Htile Hnest Htracked m)
    as (self & t & E & Hok).
  exists self, t. split; [done|]. intros u fuel Hu Hfuel.
  pose proof (iterator_links_closed s tracked self t Hnest Hok) as Hcl.
  destruct Hok as (_ & _ & _ & _ & _ & _ & Hlay & Hlinks & Hcnt).
  pose proof Hlay as (Ess & Enn & Lp & Lt & Lc & Ls1 & _).
  pose proof Hnest as (Hn1 & HnN & H32 & _).
  pose proof (links_forest s _ _ _ Hnest Hlinks) as HF.
  unfold sparse_tree_get_num_leaves.
  destruct (Z.eqb_spec (Z.land (t_flags t) MSP_COUNT_LEAVES) 0) as [Hf|Hf];
    cbn [negb].
  - destruct (traversal_spec (sample_size s) (num_nodes s) (t_children t) _
                Hn1 H32 HnN HF Hcl Lc fuel (t_stack1 t) u Ls1 Hu Hfuel)
      as (stack' & stack'' & W & E').
    eexists. unfold sparse_tree_get_num_leaves_by_traversal. rewrite W.
    cbn [mbind option_bind]. rewrite Ess, E'.
    cbn [mbind option_bind fst snd]. unfold leaves_below. by rewrite Ess.
  - destruct (Hcnt Hf) as (_ & _ & Hnl & _).
    exists t. rewrite (Hnl u Hu). cbn [mbind option_bind].
    unfold leaves_below. by rewrite Ess.
Qed.

Lemma sparse_tree_get_num_leaves_spec_witness :
  exists self t,
    sparse_tree_iterate (H := sample_msprime_h) (H0 := zero_heap)
      example_ts [] 0 2 = Some (self, t) /\
    forall u fuel, 0 <= u <= num_nodes example_ts ->
      2 * sample_size example_ts < Z.of_nat fuel ->
      exists t',
        sparse_tree_get_num_leaves (H := sample_msprime_h) fuel t u
          = Some (0, leaves_below t u, t').
Proof.
  apply (@sparse_tree_get_num_leaves_spec sample_msprime_h zero_heap
           example_ts [] 0 2 example_ts_tiles example_ts_nests).
  intros _. constructor.
Defined.

(** ** tree_sequence_set_mutations, tree_sequence_get_mutations and the trees *)

Lemma get_mutations_loop_spec self :
  forall n j,
  0 <= j ->
  j + Z.of_nat n <= Z.of_nat (length (mutations_position self)) ->
  j + Z.of_nat n <= Z.of_nat (length (mutations_node self)) ->
  get_mutations_loop self j n
    = Some (take n (drop (Z.to_nat j) (stored_mutations self))).
Proof.
  induction n as [|n IH]; intros j Hj Lp Ln; cbn [get_mutations_loop];
    [done|].
  destruct (rd_in_range (mutations_position self) j) as [p Hp]; [lia|].
  destruct (rd_in_range (mutations_node self) j) as [u Hu]; [lia|].
  rewrite Hp, Hu. cbn [mbind option_bind].
  rewrite IH by lia. cbn [mbind option_bind]. f_equal.
  rewrite rd_lookup in Hp by lia. rewrite rd_lookup in Hu by lia.
  assert (stored_mutations self !! Z.to_nat j
          = Some {| position := p; node := u |}) as Hst.
  { unfold stored_mutations. rewrite lookup_zip_with. by rewrite Hp, Hu. }
  rewrite (drop_S _ _ _ Hst). cbn [take].
  by replace (Z.to_nat (j + 1)) with (S (Z.to_nat j)) by lia.
Qed.

Lemma records_tile_ext s s' :
  num_records s' = num_records s -> sample_size s' = sample_size s ->
  trees_left s' = trees_left s -> trees_right s' = trees_right s ->
  trees_node s' = trees_node s -> trees_children s' = trees_children s ->
  trees_time s' = trees_time s ->
  trees_insertion_order s' = trees_insertion_order s ->
  trees_removal_order s' = trees_removal_order s ->
  records_tile s -> records_tile s'.
Proof.
  intros ER En El Er Eu Ec Et Ei Eo.
  unfold records_tile, columns_ok, ts_left, ts_right.
  by rewrite ER, En, El, Er, Eu, Ec, Et, Ei, Eo.
Qed.

Lemma records_nest_ext s s' :
  num_records s' = num_records s -> sample_size s' = sample_size s ->
  num_nodes s' = num_nodes s ->
  trees_left s' = trees_left s -> trees_right s' = trees_right s ->
  trees_node s' = trees_node s -> trees_children s' = trees_children s ->
  trees_insertion_order s' = trees_insertion_order s ->
  trees_removal_order s' = trees_removal_order s ->
  Z.of_nat (length (mutations_position s')) = num_mutations s' ->
  Z.of_nat (length (mutations_node s')) = num_mutations s' ->
  records_nest s -> records_nest s'.
Proof.
  intros ER En EN El Er Eu Ec Ei Eo Lp Ln.
  unfold records_nest, ts_left, ts_right, ts_node, ts_child.
  rewrite ER, En, EN, El, Er, Eu, Ec, Ei, Eo.
  intros (? & ? & ? & ? & ? & ? & ? & ? & _ & _).
  repeat match goal with |- _ /\ _ => split end; done.
Qed.

Lemma stored_mutations_sorted (R : double -> double -> Prop) self :
  StronglySorted R (mutations_position self) ->
  StronglySorted (fun a b => R (position a) (position b))
    (stored_mutations self).
Proof.
  unfold stored_mutations. intros Hs. generalize (mutations_node self).
  induction Hs as [|p ps Hs IH Hp]; intros [|u us]; cbn [zip_with];
    try constructor.
  - apply IH.
  - apply Forall_forall. intros m Hm.
    apply list_elem_of_lookup_1 in Hm as (i & Hi).
    rewrite lookup_zip_with in Hi.
    destruct (ps !! i) as [q|] eqn:Eq; [|done].
    destruct (us !! i); [|done]. cbn in Hi. injection Hi as <-.
    cbn [position]. rewrite Forall_forall in Hp. apply Hp.
    by eapply list_elem_of_lookup_2.
Qed.

Section set_get.
Context `{msprime_h} `{heap} `{libc_qsort}.

(** What a call with mutations that are all accepted leaves. *)
Lemma set_mutations_accepted self ms :
  Forall (mutation_accepted self) ms ->
  let self' := snd (tree_sequence_set_mutations self ms) in
  fst (tree_sequence_set_mutations self ms) = 0 /\
  num_mutations self' = Z.of_nat (length ms) /\
  Z.of_nat (length (mutations_position self')) = num_mutations self' /\
  Z.of_nat (length (mutations_node self')) = num_mutations self' /\
  stored_mutations self' ≡ₚ ms /\
  StronglySorted (fun a b => d_lt b a = false) (mutations_position self') /\
  (num_records self' = num_records self /\
   sample_size self' = sample_size self /\
   num_nodes self' = num_nodes self /\
   trees_left self' = trees_left self /\
   trees_right self' = trees_right self /\
   trees_node self' = trees_node self /\
   trees_children self' = trees_children self /\
   trees_time self' = trees_time self /\
   trees_insertion_order self' = trees_insertion_order self /\
   trees_removal_order self' = trees_removal_order self).
Proof.
  intros Hacc self'. subst self'.
  assert (set_mutations_check self ms = true) as E.
  { destruct (set_mutations_check self ms) eqn:E; [done|].
    apply set_mutations_check_false, Exists_exists in E as (m & Hm & Hr).
    rewrite Forall_forall in Hacc. destruct (Hacc m Hm). congruence. }
  assert (Forall (fun m => is_nan (position m) = false) ms) as Hnan.
  { eapply Forall_impl; [exact Hacc|]. by intros m [_ ?]. }
  unfold tree_sequence_set_mutations.
  destruct (Z.ltb_spec 0 (Z.of_nat (length ms))) as [Hn|Hn].
  - rewrite set_mutations_check_alloc, E. cbn [fst snd].
    pose proof (stored_mutations_map (Z.of_nat (length ms))
                  (with_mutations (clear_mutations self) 0
                     (malloc_u32 (Z.of_nat (length ms)))
                     (malloc_f64 (Z.of_nat (length ms))))
                  (qsort cmp_mutation_pointer ms)) as Est.
    pose proof (qsort_perm _ cmp_mutation_pointer ms
                  (cmp_mutation_consistent ms Hnan)) as Hperm.
    pose proof (qsort_sorted _ cmp_mutation_pointer ms
                  (cmp_mutation_consistent ms Hnan)) as Hsort.
    split; [done|]. split; [done|].
    cbn [mutations_position mutations_node num_mutations with_mutations].
    rewrite !length_map, qsort_length.
    split; [done|]. split; [done|]. split; [by rewrite Est|].
    split; [|by cbn].
    apply (StronglySorted_map (fun a b => cmp_mutation_pointer a b <= 0)
             _ (fun _ => True)); [|by apply Forall_true|done].
    intros a b _ _. apply cmp_mutation_le.
  - destruct ms; [|simpl in Hn; lia]. cbn.
    repeat match goal with |- _ /\ _ => split end; try done. constructor.
Qed.

(** X12: when every supplied mutation passes the validation and no
    position is a NaN, [tree_sequence_set_mutations] returns 0 and
    [tree_sequence_get_mutations] then returns 0 and the supplied
    mutations, in ascending order of their positions. *)
Theorem set_then_get_mutations self ms :
  Forall (mutation_accepted self) ms ->
  fst (tree_sequence_set_mutations self ms) = 0 /\
  exists out,
    tree_sequence_get_mutations (snd (tree_sequence_set_mutations self ms))
      = Some (0, out) /\
    out ≡ₚ ms /\
    StronglySorted (fun a b => d_lt (position b) (position a) = false) out.
Proof.
  intros Hacc.
  destruct (set_mutations_accepted self ms Hacc)
    as (E & EM & Lp & Ln & Hperm & Hsort & _).
  split; [done|].
  set (self' := snd (tree_sequence_set_mutations self ms)) in *.
  exists (stored_mutations self'). split; [|split; [done|]].
  - unfold tree_sequence_get_mutations.
    rewrite (get_mutations_loop_spec self') by lia.
    cbn [mbind option_bind]. do 2 f_equal. cbn [drop Z.to_nat].
    apply take_ge. unfold stored_mutations. rewrite length_zip_with. lia.
  - by apply (stored_mutations_sorted (fun a b => d_lt b a = false)).
Qed.

End set_get.

Lemma set_then_get_mutations_witness :
  fst (tree_sequence_set_mutations (H := sample_msprime_h) (H0 := zero_heap)
         (H1 := isort_qsort) example_ts example_mutations) = 0 /\
  exists out,
    tree_sequence_get_mutations
      (snd (tree_sequence_set_mutations (H := sample_msprime_h)
              (H0 := zero_heap) (H1 := isort_qsort) example_ts
              example_mutations))
      = Some (0, out) /\
    out ≡ₚ example_mutations /\
    StronglySorted (fun a b => d_lt (position b) (position a) = false) out.
Proof.
  apply (@set_then_get_mutations sample_msprime_h zero_heap isort_qsort
           example_ts example_mutations).
  repeat constructor.
Defined.

Section set_trees.
Context `{msprime_h} `{heap} `{libc_qsort}.

Lemma set_mutations_keeps_records s ms :
  records_tile s -> records_nest s ->
  Forall (mutation_accepted s) ms ->
  let s' := snd (tree_sequence_set_mutations s ms) in
  records_tile s' /\ records_nest s' /\ mutations_sorted s' /\
  num_records s' = num_records s /\ sample_size s' = sample_size s /\
  stored_mutations s' ≡ₚ ms.
Proof.
  intros Htile Hnest Hacc s'.
  destruct (set_mutations_accepted s ms Hacc)
    as (E & EM & Lp & Ln & Hperm & Hsort
        & ER & En & EN & El & Er & Eu & Ec & Et & Ei & Eo).
  fold s' in EM, Lp, Ln, Hperm, Hsort, ER, En, EN, El, Er, Eu, Ec, Et, Ei, Eo.
  split; [by apply (records_tile_ext s)|].
  split; [by apply (records_nest_ext s)|].
  split; [|done]. split; [|done].
  apply Forall_lookup. intros i p Hp.
  destruct (lookup_lt_is_Some_2 (mutations_node s') i) as [u Hu].
  { apply lookup_lt_Some in Hp. lia. }
  assert ({| position := p; node := u |} ∈ ms) as Hin.
  { rewrite <- Hperm. apply (list_elem_of_lookup_2 _ i).
    unfold stored_mutations. rewrite lookup_zip_with. by rewrite Hp, Hu. }
  rewrite Forall_forall in Hacc. destruct (Hacc _ Hin) as [Hrej Hnan].
  cbn [position] in Hnan. split; [done|].
  unfold mutation_rejected in Hrej. cbn [position] in Hrej.
  by destruct (d_lt p d_zero).
Qed.

(** X13: once [tree_sequence_set_mutations] has stored mutations that it
    accepts (none at a NaN), every call of [sparse_tree_iterator_next] that
    returns 1 hands the tree the supplied mutations whose position lies in
    the interval of the tree, each once. *)
Theorem set_mutations_reach_trees (s : tree_sequence_t)
    (ms : list mutation_t) (tracked : list Z) (flags : Z) (m : nat) :
  records_tile s -> records_nest s ->
  (Z.land flags MSP_COUNT_LEAVES <> 0 ->
   Forall (fun u => 1 <= u <= sample_size s) tracked) ->
  Forall (mutation_accepted s) ms ->
  exists self t,
    sparse_tree_iterate (snd (tree_sequence_set_mutations s ms)) tracked
      flags m = Some (self, t) /\
    (it_insertion_index self < num_records s ->
     exists self' t',
       sparse_tree_iterator_next (snd (tree_sequence_set_mutations s ms))
         self t = Some (1, self', t') /\
       take (Z.to_nat (t_num_mutations t')) (t_mutations t')
         ≡ₚ filter (within (t_left t') (t_right t')) ms).
Proof.
  intros Htile Hnest Htracked Hacc.
  destruct (set_mutations_keeps_records s ms Htile Hnest Hacc)
    as (Htile' & Hnest' & Hms & ER & En & Hperm).
  set (s' := snd (tree_sequence_set_mutations s ms)) in *.
  rewrite <- En in Htracked.
  destruct (sparse_tree_iterate_mutations s' tracked flags Htile' Hnest'
              Htracked m Hms) as (self & t & E & Hok & Hat).
  exists self, t. split; [done|]. rewrite <- ER. intros Hlt.
  destruct (sparse_tree_iterator_next_step s' tracked Htile' Hnest' self t
              Hok Hlt) as (self' & t' & k' & c & E' & _).
  exists self', t'. split; [done|].
  destruct (mutations_at_step s' tracked Htile' Hnest' self t self' t' Hms
              Hok Hat Hlt E') as [_ ->].
  by rewrite Hperm.
Qed.

End set_trees.

Lemma set_mutations_reach_trees_witness :
  exists self t,
    sparse_tree_iterate (H := sample_msprime_h) (H0 := zero_heap)
      (snd (tree_sequence_set_mutations (H := sample_msprime_h)
              (H0 := zero_heap) (H1 := isort_qsort) example_ts
              example_mutations)) [] 0 1 = Some (self, t) /\
    (it_insertion_index self < num_records example_ts ->
     exists self' t',
       sparse_tree_iterator_next (H := sample_msprime_h)
         (snd (tree_sequence_set_mutations (H := sample_msprime_h)
                 (H0 := zero_heap) (H1 := isort_qsort) example_ts
                 example_mutations)) self t = Some (1, self', t') /\
       take (Z.to_nat (t_num_mutations t')) (t_mutations t')
         ≡ₚ filter (within (t_left t') (t_right t')) example_mutations).
Proof.
  apply (@set_mutations_reach_trees sample_msprime_h zero_heap isort_qsort
           example_ts example_mutations [] 0 1 example_ts_tiles
           example_ts_nests).
  - intros _. constructor.
  - repeat constructor.
Defined.

(** ** tree_sequence_dump after tree_sequence_set_mutations *)

Lemma h5_take_all {A} (n : Z) (l : list A) :
  Z.of_nat (length l) = n -> h5_take n l = Some l.
Proof.
  intros <-. unfold h5_take. rewrite Nat2Z.id.
  destruct (Nat.leb_spec (length l) (length l)); [|lia].
  by rewrite firstn_all.
Qed.

Lemma write_hdf5_data_runs self file flags :
  Z.of_nat (length (trees_left self)) = num_records self ->
  Z.of_nat (length (trees_right self)) = num_records self ->
  Z.of_nat (length (trees_node self)) = num_records self ->
  Z.of_nat (length (trees_children self)) = 2 * num_records self ->
  Z.of_nat (length (trees_time self)) = num_records self ->
  Z.of_nat (length (mutations_node self)) = num_mutations self ->
  Z.of_nat (length (mutations_position self)) = num_mutations self ->
  exists file',
    tree_sequence_write_hdf5_data self file flags = Some (0, file') /\
    "/trees"%string ∈ h5_groups file'.
Proof.
  intros Ll Lr Lu Lc Lt Ln Lp. unfold tree_sequence_write_hdf5_data.
  rewrite !h5_take_all by done. cbn [mbind option_bind].
  destruct (0 <? num_records self), (0 <? num_mutations self),
    (num_mutations self =? 0); cbn [mbind option_bind];
    (eexists; split; [reflexivity|]); cbn; set_solver.
Qed.

Section dump_mutations.
Context `{msprime_h} `{heap} `{libc_qsort}.

(** X14: a tree sequence whose mutations [tree_sequence_set_mutations] has
    stored cannot be dumped: that function leaves the two provenance
    strings of the mutations NULL, and [tree_sequence_dump], once it has
    written the columns and the provenance of the trees, stops at the
    [assert] that wants them. *)
Theorem dump_after_set_mutations_stops (self : tree_sequence_t)
    (ms : list mutation_t) (lib : h5_library) (flags : Z) (te tp : string) :
  columns_ok self ->
  trees_environment self = Some te -> te <> ""%string ->
  trees_parameters self = Some tp -> tp <> ""%string ->
  ms <> [] -> Forall (mutation_accepted self) ms ->
  fst (tree_sequence_set_mutations self ms) = 0 /\
  exists file,
    tree_sequence_write_hdf5_data (snd (tree_sequence_set_mutations self ms))
      (snd (tree_sequence_write_hdf5_metadata
              (snd (tree_sequence_set_mutations self ms)) h5_empty)) flags
      = Some (0, file) /\
    tree_sequence_write_hdf5_provenance
      (snd (tree_sequence_set_mutations self ms)) file = None /\
    tree_sequence_dump (snd (tree_sequence_set_mutations self ms)) lib flags
      = None.
Proof.
  intros (HR & Ll & Lr & Lu & Lc & Lt & _) Ete Hte Etp Htp Hms Hacc.
  destruct (set_mutations_accepted self ms Hacc)
    as (E & EM & Lp & Ln & _ & _
        & ER & En & EN & El & Er & Eu & Ec & Et & Ei & Eo).
  split; [done|].
  assert (trees_environment (snd (tree_sequence_set_mutations self ms))
          = Some te /\
          trees_parameters (snd (tree_sequence_set_mutations self ms))
          = Some tp /\
          mutations_environment (snd (tree_sequence_set_mutations self ms))
          = None) as (Ete' & Etp' & Eme').
  { unfold tree_sequence_set_mutations.
    destruct (Z.ltb_spec 0 (Z.of_nat (length ms)));
      [|destruct ms; [done|simpl in *; lia]].
    destruct (set_mutations_check _ ms); by cbn. }
  set (self' := snd (tree_sequence_set_mutations self ms)) in *.
  assert (0 < num_mutations self') as HM.
  { rewrite EM. destruct ms; [done|simpl; lia]. }
  destruct (write_hdf5_data_runs self'
              (snd (tree_sequence_write_hdf5_metadata self' h5_empty)) flags)
    as (file & Ed & Hg); try congruence.
  assert (tree_sequence_write_hdf5_provenance self' file = None) as Ep.
  { unfold tree_sequence_write_hdf5_provenance, write_string_attribute.
    rewrite Ete', Etp', Eme'. cbn [mbind option_bind].
    rewrite bool_decide_true by done. cbn [negb].
    destruct te as [|a te]; [done|]. cbn [String.length Nat.eqb].
    cbn [mbind option_bind fst snd]. change (negb (0 =? 0)) with false.
    cbv iota.
    rewrite bool_decide_true by (cbn; done). cbn [negb].
    destruct tp as [|b tp]; [done|]. cbn [String.length Nat.eqb].
    cbn [mbind option_bind fst snd]. change (negb (0 =? 0)) with false.
    cbv iota.
    destruct (Z.ltb_spec 0 (num_mutations self')); [|lia]. done. }
  exists file. split; [done|]. split; [done|].
  unfold tree_sequence_dump.
  destruct (tree_sequence_write_hdf5_metadata self' h5_empty)
    as [status file0] eqn:Em.
  assert (status = 0) as -> by (unfold tree_sequence_write_hdf5_metadata in Em;
                                 by injection Em).
  change (0 <? 0) with false. cbv iota. cbn [snd] in Ed. rewrite Ed.
  cbn [mbind option_bind]. change (0 <? 0) with false. cbv iota.
  by rewrite Ep.
Qed.

End dump_mutations.

Lemma dump_after_set_mutations_stops_witness :
  fst (tree_sequence_set_mutations (H := sample_msprime_h) (H0 := zero_heap)
         (H1 := isort_qsort) example_ts example_mutations) = 0 /\
  exists file,
    tree_sequence_write_hdf5_data
      (snd (tree_sequence_set_mutations (H := sample_msprime_h)
              (H0 := zero_heap) (H1 := isort_qsort) example_ts
              example_mutations))
      (snd (tree_sequence_write_hdf5_metadata (H := sample_msprime_h)
              (snd (tree_sequence_set_mutations (H := sample_msprime_h)
                      (H0 := zero_heap) (H1 := isort_qsort) example_ts
                      example_mutations)) h5_empty)) 0
      = Some (0, file) /\
    tree_sequence_write_hdf5_provenance
      (snd (tree_sequence_set_mutations (H := sample_msprime_h)
              (H0 := zero_heap) (H1 := isort_qsort) example_ts
              example_mutations)) file = None /\
    tree_sequence_dump (H := sample_msprime_h)
      (snd (tree_sequence_set_mutations (H := sample_msprime_h)
              (H0 := zero_heap) (H1 := isort_qsort) example_ts
              example_mutations)) h5_ok 0
      = None.
Proof.
  destruct example_ts_tiles as [Hc _].
  apply (@dump_after_set_mutations_stops sample_msprime_h zero_heap
           isort_qsort example_ts example_mutations h5_ok 0 "{}" "{}" Hc);
    try reflexivity; try discriminate.
  repeat constructor.
Defined.

(** ** hapgen_generate_all_haplotypes and hapgen_get_haplotype *)

Lemma layout_kept_refl a : layout_kept a a.
Proof. by repeat split. Qed.

Lemma layout_kept_trans a b c :
  layout_kept a b -> layout_kept b c -> layout_kept a c.
Proof.
  intros (A1 & A2 & A3 & A4 & A5) (B1 & B2 & B3 & B4 & B5).
  repeat split; congruence.
Qed.

Lemma hapgen_set_bit_kept self row column r :
  hapgen_set_bit self row column = Some r -> layout_kept self r.2.
Proof.
  unfold hapgen_set_bit.
  destruct (_ <? words_per_row self); [|done].
  destruct (rd _ _) as [w|]; cbn [mbind option_bind]; [|done].
  destruct (wr _ _ _) as [m|] eqn:W; cbn [mbind option_bind]; [|done].
  intros [= <-]. cbn [snd]. repeat split.
  cbn [haplotype_matrix with_haplotype_matrix].
  unfold wr in W. destruct (_ && _); [|done]. injection W as <-.
  apply length_insert.
Qed.

Lemma apply_tree_mutation_loop_kept children site :
  forall fuel self stack top r,
  apply_tree_mutation_loop children site fuel self stack top = Some r ->
  layout_kept self r.1.
Proof.
  induction fuel as [|fuel IH]; intros self stack top r;
    cbn [apply_tree_mutation_loop]; destruct (top <? 0);
    try (intros [= <-]; apply layout_kept_refl); try done.
  destruct (rd stack top) as [u|]; cbn [mbind option_bind]; [|done].
  destruct (rd children (wrap32 (2 * u))) as [c|];
    cbn [mbind option_bind]; [|done].
  destruct (c =? 0).
  - destruct (hapgen_set_bit _ _ _) as [b|] eqn:Eb; [|done].
    cbn [mbind option_bind]. intros E.
    eapply layout_kept_trans; [by eapply hapgen_set_bit_kept|by eapply IH].
  - destruct (rd children (wrap32 (2 * u + 0))) as [c0|];
      cbn [mbind option_bind]; [|done].
    destruct (wr stack _ _) as [s1|]; cbn [mbind option_bind]; [|done].
    destruct (rd children (wrap32 (2 * u + 1))) as [c1|];
      cbn [mbind option_bind]; [|done].
    destruct (wr s1 _ _) as [s2|]; cbn [mbind option_bind]; [|done].
    apply IH.
Qed.

Lemma apply_tree_mutations_kept fuel tree :
  forall n j ret self stack site out ret' self' stack' site',
  apply_tree_mutations fuel tree n j ret self stack site
    = Some (out, ret', self', stack', site') ->
  layout_kept self self'.
Proof.
  induction n as [|n IH]; intros j ret self stack site out ret' self' stack'
    site'; cbn [apply_tree_mutations].
  { intros [= _ _ <- _ _]. apply layout_kept_refl. }
  destruct (rd _ j) as [mut|]; cbn [mbind option_bind]; [|done].
  unfold hapgen_apply_tree_mutation.
  destruct (wr stack 0 _) as [s0|]; cbn [mbind option_bind]; [|done].
  destruct (apply_tree_mutation_loop _ _ _ _ _ _) as [r|] eqn:Er; [|done].
  cbn [mbind option_bind fst snd]. change (negb (0 =? 0)) with false.
  cbv iota. intros E.
  eapply layout_kept_trans; [|by eapply IH].
  by eapply apply_tree_mutation_loop_kept in Er.
Qed.

Lemma generate_all_loop_kept `{msprime_h} s fuel :
  forall trees it tree self stack site ret it' tree' self' stack',
  generate_all_loop s fuel trees it tree self stack site
    = Some (ret, it', tree', self', stack') ->
  layout_kept self self'.
Proof.
  induction trees as [|trees IH]; intros it tree self stack site ret it' tree'
    self' stack'; cbn [generate_all_loop]; [done|].
  destruct (sparse_tree_iterator_next s it tree) as [[[r i] t]|]; cbn [mbind option_bind];
    [|done].
  destruct (r =? 1); [|intros [= _ _ _ <- _]; apply layout_kept_refl].
  destruct (apply_tree_mutations _ _ _ _ _ _ _ _)
    as [[[[[out r1] self1] stack1] site1]|] eqn:Ea; cbn [mbind option_bind];
    [|done].
  apply apply_tree_mutations_kept in Ea.
  destruct out.
  - by intros [= _ _ _ <- _].
  - intros E. eapply layout_kept_trans; [exact Ea|by eapply IH].
Qed.

Lemma hapgen_allocated_kept a b :
  layout_kept a b -> hapgen_allocated a -> hapgen_allocated b.
Proof.
  intros (E1 & E2 & E3 & E4 & E5) (A1 & A2 & A3 & A4 & A5).
  unfold hapgen_allocated. rewrite E1, E2, E3, E4, E5. done.
Qed.

(** [hapgen_get_haplotype] for a sample of the generator: the string it
    leaves in the buffer spells the row of the sample. *)
Lemma hapgen_get_haplotype_runs self sample_id :
  hapgen_allocated self -> 1 <= sample_id <= hg_sample_size self ->
  exists self' str,
    hapgen_get_haplotype self sample_id = Some (0, self') /\
    c_string (haplotype self') = Some str /\
    Z.of_nat (length str) = hg_num_mutations self /\
    forall s, 0 <= s < hg_num_mutations self ->
      rd str s = Some (bit_char self (sample_id - 1) s).
Proof.
  intros Hal Hid. unfold hapgen_get_haplotype.
  destruct (Z.ltb_spec sample_id 1) as [H1|H1]; [lia|].
  destruct (Z.ltb_spec (hg_sample_size self) sample_id) as [H2|H2]; [lia|].
  cbn [orb].
  pose proof Hal as (Hs & Hm & Hwpr & Hlm & Hlh).
  unfold HG_WORD_SIZE in *.
  assert (0 <= hg_num_mutations self / 64) as Hdiv
    by (apply Z.div_pos; lia).
  assert (hg_num_mutations self < 64 * words_per_row self) as Hlt.
  { pose proof (Z.mod_pos_bound (hg_num_mutations self) 64 ltac:(lia)).
    pose proof (Z.div_mod (hg_num_mutations self) 64 ltac:(lia)). lia. }
  destruct (get_haplotype_words_spec self (sample_id - 1)
              (Z.to_nat (words_per_row self)) 0 (haplotype self) 0)
    as (buf & E & Hlen & Hrow); try done; try lia.
  { split; [done|]. intros p Hp. lia. }
  rewrite E. cbn [mbind option_bind fst snd].
  rewrite wr_in_range by lia. cbn [mbind option_bind].
  eexists _, _. split; [done|]. cbn [haplotype with_haplotype].
  set (n := Z.to_nat (hg_num_mutations self)).
  set (buf' := <[n := zero]> buf).
  assert (forall p, (p < n)%nat ->
            buf' !! p = Some (bit_char self (sample_id - 1) (Z.of_nat p)))
    as Hchars.
  { intros p Hp. unfold buf'. rewrite list_lookup_insert_ne by lia.
    rewrite <- (Nat2Z.id p) at 1. rewrite <- rd_lookup by lia.
    apply Hrow. lia. }
  split; [|split].
  - apply (c_string_take n).
    + intros p Hp. eexists. split; [by apply Hchars|].
      unfold bit_char. by destruct (hapgen_bit _ _ _).
    + unfold buf'. apply list_lookup_insert_eq. lia.
  - rewrite length_take, Nat.min_l; [lia|].
    unfold buf'. rewrite length_insert. lia.
  - intros s Hs'. rewrite rd_lookup by lia.
    rewrite lookup_take_lt by lia. rewrite Hchars by lia.
    rewrite Z2Nat.id by lia. done.
Qed.

Lemma hapgen_bit_zero self row column :
  Forall (fun w => w = 0) (haplotype_matrix self) ->
  hapgen_bit self row column = false.
Proof.
  intros Hz. unfold hapgen_bit.
  destruct (rd _ _) as [w|] eqn:E; [|done].
  unfold rd in E. destruct (0 <=? _); [|done].
  apply list_elem_of_lookup_2 in E. rewrite Forall_forall in Hz.
  rewrite (Hz w E). apply Z.testbit_0_l.
Qed.

(** X18: the haplotypes of a tree sequence.  On a generator whose matrix
    is all zero (as [calloc] leaves it in [hapgen_alloc]), with a freshly
    allocated tree and iterator, [hapgen_generate_all_haplotypes] returns
    0, and then [hapgen_get_haplotype] returns 0 for every sample and
    leaves a string of [num_mutations] characters, each '0' or '1': the
    character at a site is '1' exactly when the mutation of that site was
    handed out by a tree and the sample descends from the node of the
    mutation along the records whose interval holds its position. *)
Theorem hapgen_haplotypes_spec `{msprime_h} `{heap}
    (s : tree_sequence_t) (tracked : list Z) (flags : Z) (self : hapgen_t)
    (stack : list Z) (fuel trees : nat) :
  records_tile s -> records_nest s ->
  (Z.land flags MSP_COUNT_LEAVES <> 0 ->
   Forall (fun u => 1 <= u <= sample_size s) tracked) ->
  mutations_sorted s -> mutations_in_trees s ->
  hapgen_allocated self ->
  Forall (fun w => w = 0) (haplotype_matrix self) ->
  hg_sample_size self = sample_size s ->
  hg_num_mutations self = num_mutations s ->
  Z.of_nat (length stack) = sample_size s ->
  2 * sample_size s < Z.of_nat fuel -> num_records s < Z.of_nat trees ->
  exists it tree it' tree' self' stack',
    sparse_tree_iterate s tracked flags 0 = Some (it, tree) /\
    hapgen_generate_all_haplotypes s fuel trees it tree self stack
      = Some (0, it', tree', self', stack') /\
    forall sample_id, 1 <= sample_id <= sample_size s ->
      exists self'' str,
        hapgen_get_haplotype self' sample_id = Some (0, self'') /\
        c_string (haplotype self'') = Some str /\
        Z.of_nat (length str) = num_mutations s /\
        forall site, 0 <= site < num_mutations s ->
          (rd str site = Some "1"%char <->
             site < it_mutation_index it' /\ carries s site sample_id) /\
          (rd str site = Some "0"%char \/ rd str site = Some "1"%char).
Proof.
  intros Htile Hnest Htracked Hms Hin Hal Hzero Ess Emm Ls Hfuel Htrees.
  destruct (hapgen_generate_all_haplotypes_run s tracked flags self stack
              fuel trees Htile Hnest Htracked Hms Hin Hal Ess Emm Ls Hfuel
              Htrees)
    as (it & tree & E & it' & tree' & self' & stack' & E' & Hbits).
  exists it, tree, it', tree', self', stack'. split; [done|].
  split; [done|].
  pose proof (generate_all_loop_kept _ _ _ _ _ _ _ _ _ _ _ _ _ E') as Hk.
  pose proof (hapgen_allocated_kept _ _ Hk Hal) as Hal'.
  destruct Hk as (K1 & K2 & _).
  intros sample_id Hid.
  destruct (hapgen_get_haplotype_runs self' sample_id Hal' ltac:(lia))
    as (self'' & str & Eget & Estr & Elen & Hchars).
  exists self'', str. split; [done|]. split; [done|].
  split; [lia|]. intros site Hsite.
  rewrite Hchars by lia. unfold bit_char.
  specialize (Hbits (sample_id - 1) site ltac:(lia) Hsite).
  rewrite (hapgen_bit_zero self) in Hbits by done.
  replace (sample_id - 1 + 1) with sample_id in Hbits by lia.
  destruct (hapgen_bit self' (sample_id - 1) site).
  - split; [|by right]. split; [intros _|done].
    destruct (proj1 Hbits eq_refl) as [|]; done.
  - split; [|by left]. split; [done|]. intros Hc.
    by pose proof (proj2 Hbits (or_intror Hc)).
Qed.

(** The haplotypes of [example_ts], from [blank_hapgen]. *)
Lemma hapgen_haplotypes_spec_witness :
  exists it tree it' tree' self' stack',
    sparse_tree_iterate (H := sample_msprime_h) (H0 := zero_heap)
      example_ts [] 0 0 = Some (it, tree) /\
    hapgen_generate_all_haplotypes (H := sample_msprime_h) example_ts 7 4
      it tree blank_hapgen [9; 9; 9] = Some (0, it', tree', self', stack') /\
    forall sample_id, 1 <= sample_id <= sample_size example_ts ->
      exists self'' str,
        hapgen_get_haplotype self' sample_id = Some (0, self'') /\
        c_string (haplotype self'') = Some str /\
        Z.of_nat (length str) = num_mutations example_ts /\
        forall site, 0 <= site < num_mutations example_ts ->
          (rd str site = Some "1"%char <->
             site < it_mutation_index it' /\
             carries example_ts site sample_id) /\
          (rd str site = Some "0"%char \/ rd str site = Some "1"%char).
Proof.
  apply (@hapgen_haplotypes_spec sample_msprime_h zero_heap
           example_ts [] 0 blank_hapgen [9; 9; 9] 7 4 example_ts_tiles
           example_ts_nests).
  - intros _. constructor.
  - exact example_ts_mutations_sorted.
  - exact example_ts_mutations_in_trees.
  - unfold hapgen_allocated. simpl. repeat split; lia.
  - repeat constructor.
  - reflexivity.
  - reflexivity.
  - reflexivity.
  - simpl. lia.
  - simpl. lia.
Defined.

(** ** tree_sequence_create, tree_sequence_dump and tree_sequence_load *)

Lemma tree_sequence_ext (a b : tree_sequence_t) :
  sample_size a = sample_size b -> num_loci a = num_loci b ->
  num_nodes a = num_nodes b -> num_records a = num_records b ->
  num_mutations a = num_mutations b ->
  trees_left a = trees_left b -> trees_right a = trees_right b ->
  trees_node a = trees_node b -> trees_children a = trees_children b ->
  trees_time a = trees_time b ->
  trees_insertion_order a = trees_insertion_order b ->
  trees_removal_order a = trees_removal_order b ->
  trees_parameters a = trees_parameters b ->
  trees_environment a = trees_environment b ->
  mutations_node a = mutations_node b ->
  mutations_position a = mutations_position b ->
  mutations_parameters a = mutations_parameters b ->
  mutations_environment a = mutations_environment b ->
  a = b.
Proof.
  destruct a, b. cbn. intros. by subst.
Qed.

Lemma h5_read_into_all {A} (data dest : list A) :
  length data = length dest -> h5_read_into data dest = Some data.
Proof.
  intros E. unfold h5_read_into.
  destruct (Nat.leb_spec (length data) (length dest)); [|lia].
  rewrite E, drop_all. by rewrite app_nil_r.
Qed.

Lemma to_int32_wrap32 z : - 2 ^ 31 <= z < 2 ^ 31 -> to_int32 (wrap32 z) = z.
Proof.
  intros Hz. unfold to_int32, wrap32.
  destruct (Z.ltb_spec (z mod 2 ^ 32) (2 ^ 31)) as [Hlt|Hge].
  - destruct (Z.lt_ge_cases z 0) as [Hneg|Hpos].
    + rewrite <- (Z.mod_add z 1) in Hlt by lia.
      rewrite Z.mod_small in Hlt by lia. lia.
    + apply Z.mod_small. lia.
  - destruct (Z.lt_ge_cases z 0) as [Hneg|Hpos].
    + rewrite <- (Z.mod_add z 1) by lia. rewrite Z.mod_small by lia. lia.
    + rewrite Z.mod_small in Hge by lia. lia.
Qed.

Lemma write_string_attribute_runs file group name v :
  ("/" +:+ group)%string ∈ h5_groups file -> v <> ""%string ->
  write_string_attribute file group name (Some v)
    = Some (0, h5_add_attribute file group name (H5A_string v)).
Proof.
  intros Hg Hv. unfold write_string_attribute. cbn [mbind option_bind].
  rewrite bool_decide_eq_true_2 by done. cbn [negb].
  by destruct v.
Qed.

Ltac h5_lookup :=
  cbn [h5_attributes h5_datasets h5_groups h5_add_attribute h5_add_dataset
       h5_add_group h5_empty];
  rewrite ?lookup_insert_ne by done; apply lookup_insert_eq.

Section round_trip.
Context `{msprime_h} `{heap} `{libc_qsort}.

Lemma read_metadata_written (file : archive) (n loci minor : Z) :
  h5_attributes file !! ("/", "format_version")%string
    = Some (H5A_numeric
              {| h5_dims := [2];
                 h5_data := H5_u32 [wrap32 MSP_FILE_FORMAT_VERSION_MAJOR;
                                    minor] |}) ->
  h5_attributes file !! ("/", "sample_size")%string
    = Some (H5A_numeric {| h5_dims := []; h5_data := H5_u32 [n] |}) ->
  h5_attributes file !! ("/", "num_loci")%string
    = Some (H5A_numeric {| h5_dims := []; h5_data := H5_u32 [loci] |}) ->
  - 2 ^ 31 <= MSP_FILE_FORMAT_VERSION_MAJOR < 2 ^ 31 ->
  tree_sequence_read_hdf5_metadata tree_sequence_zero file
    = (0, with_counts tree_sequence_zero n 0 loci 0 0).
Proof.
  intros Av As Al Hver.
  unfold tree_sequence_read_hdf5_metadata, read_metadata_field.
  rewrite Av, As, Al.
  unfold h5_rank. cbn [h5_dims length hd h5_u32_values h5_data].
  change (Z.of_nat 1) with 1. change (Z.of_nat 0) with 0.
  change (2 =? 0) with false. change (0 =? 0) with true.
  change (1 =? 1) with true. change (2 =? 2) with true.
  cbn [negb orb hd]. cbv iota.
  rewrite to_int32_wrap32 by done. rewrite Z.eqb_refl. by cbn [negb].
Qed.

Lemma check_dimension_written (file : archive) (name : string)
    (dims : list Z) (data : h5_values) (size dimensions : Z) :
  h5_datasets file !! name = Some {| h5_dims := size :: dims;
                                     h5_data := data |} ->
  Z.of_nat (length (size :: dims)) = dimensions ->
  check_dimension file name dimensions size = 0.
Proof.
  intros E <-. unfold check_dimension. rewrite E. unfold h5_rank.
  cbn [h5_dims length hd]. by rewrite !Z.eqb_refl.
Qed.

Lemma read_dimensions_written (s : tree_sequence_t) (file : archive)
    (r : Z) (l rr u c : list Z) (t : list double) :
  h5_datasets file !! "/trees/left"%string
    = Some {| h5_dims := [r]; h5_data := H5_u32 l |} ->
  h5_datasets file !! "/trees/right"%string
    = Some {| h5_dims := [r]; h5_data := H5_u32 rr |} ->
  h5_datasets file !! "/trees/node"%string
    = Some {| h5_dims := [r]; h5_data := H5_u32 u |} ->
  h5_datasets file !! "/trees/children"%string
    = Some {| h5_dims := [r; 2]; h5_data := H5_u32 c |} ->
  h5_datasets file !! "/trees/time"%string
    = Some {| h5_dims := [r]; h5_data := H5_f64 t |} ->
  "/mutations"%string ∉ h5_groups file ->
  tree_sequence_read_hdf5_dimensions s file
    = (0, with_counts s (sample_size s) (num_nodes s) (num_loci s) r 0).
Proof.
  intros Dl Dr Du Dc Dt Hg.
  unfold tree_sequence_read_hdf5_dimensions, read_dimension.
  rewrite bool_decide_eq_false_2 by done. rewrite Dl.
  unfold h5_rank. cbn [h5_dims length hd].
  change (Z.of_nat 1) with 1. change (1 =? 1) with true.
  cbn [negb]. cbv iota.
  unfold tree_sequence_check_hdf5_dimensions.
  cbn [with_counts sample_size num_loci num_nodes num_records num_mutations].
  change (0 <? 0) with false. cbn [check_dimensions].
  rewrite (check_dimension_written file _ [] _ r 1 Dl eq_refl),
    (check_dimension_written file _ [] _ r 1 Dr eq_refl),
    (check_dimension_written file _ [] _ r 1 Du eq_refl),
    (check_dimension_written file _ [2] _ r 2 Dc eq_refl),
    (check_dimension_written file _ [] _ r 1 Dt eq_refl).
  done.
Qed.

Lemma read_u32_dataset_written (file : archive) (name : string)
    (dims : list Z) (l dest : list Z) :
  h5_datasets file !! name = Some {| h5_dims := dims; h5_data := H5_u32 l |} ->
  length l = length dest ->
  read_u32_dataset file name dest = Some (0, l).
Proof.
  intros E El. unfold read_u32_dataset. rewrite E.
  cbn [h5_u32_values h5_data]. by rewrite h5_read_into_all.
Qed.

Lemma read_f64_dataset_written (file : archive) (name : string)
    (dims : list Z) (l dest : list double) :
  h5_datasets file !! name = Some {| h5_dims := dims; h5_data := H5_f64 l |} ->
  length l = length dest ->
  read_f64_dataset file name dest = Some (0, l).
Proof.
  intros E El. unfold read_f64_dataset. rewrite E.
  cbn [h5_f64_values h5_data]. by rewrite h5_read_into_all.
Qed.

Lemma read_data_written (s : tree_sequence_t) (file : archive)
    (d1 d2 d3 d4 d5 : list Z) (l r u c : list Z) (t : list double) :
  h5_datasets file !! "/trees/left"%string
    = Some {| h5_dims := d1; h5_data := H5_u32 l |} ->
  h5_datasets file !! "/trees/right"%string
    = Some {| h5_dims := d2; h5_data := H5_u32 r |} ->
  h5_datasets file !! "/trees/node"%string
    = Some {| h5_dims := d3; h5_data := H5_u32 u |} ->
  h5_datasets file !! "/trees/children"%string
    = Some {| h5_dims := d4; h5_data := H5_u32 c |} ->
  h5_datasets file !! "/trees/time"%string
    = Some {| h5_dims := d5; h5_data := H5_f64 t |} ->
  length l = length (trees_left s) -> length r = length (trees_right s) ->
  length u = length (trees_node s) -> length c = length (trees_children s) ->
  length t = length (trees_time s) ->
  num_mutations s = 0 ->
  tree_sequence_read_hdf5_data s file = Some (0, with_columns s l r u c t).
Proof.
  intros Dl Dr Du Dc Dt Ll Lr Lu Lc Lt Hm.
  unfold tree_sequence_read_hdf5_data.
  rewrite (read_u32_dataset_written _ _ _ _ _ Dl Ll).
  cbn [mbind option_bind fst snd]. change (negb (0 =? 0)) with false.
  cbv iota. cbn [with_columns trees_left trees_right trees_node
                 trees_children trees_time].
  rewrite (read_u32_dataset_written _ _ _ _ _ Dr Lr).
  cbn [mbind option_bind fst snd]. change (negb (0 =? 0)) with false.
  cbv iota. cbn [with_columns trees_left trees_right trees_node
                 trees_children trees_time].
  rewrite (read_u32_dataset_written _ _ _ _ _ Du Lu).
  cbn [mbind option_bind fst snd]. change (negb (0 =? 0)) with false.
  cbv iota. cbn [with_columns trees_left trees_right trees_node
                 trees_children trees_time].
  rewrite (read_u32_dataset_written _ _ _ _ _ Dc Lc).
  cbn [mbind option_bind fst snd]. change (negb (0 =? 0)) with false.
  cbv iota. cbn [with_columns trees_left trees_right trees_node
                 trees_children trees_time].
  rewrite (read_f64_dataset_written _ _ _ _ _ Dt Lt).
  cbn [mbind option_bind fst snd]. change (negb (0 =? 0)) with false.
  cbv iota. cbn [with_columns trees_left trees_right trees_node
                 trees_children trees_time num_mutations].
  rewrite Hm. change (0 =? 0) with true. cbv iota.
  done.
Qed.

Lemma read_provenance_written (s : tree_sequence_t) (file : archive)
    (te tp : string) :
  h5_attributes file !! ("trees", "environment")%string
    = Some (H5A_string te) ->
  h5_attributes file !! ("trees", "parameters")%string
    = Some (H5A_string tp) ->
  num_mutations s = 0 ->
  tree_sequence_read_hdf5_provenance s file
    = (0, with_provenance s (Some tp) (Some te) (mutations_parameters s)
            (mutations_environment s)).
Proof.
  intros Ae Ap Hm.
  unfold tree_sequence_read_hdf5_provenance, read_string_attribute.
  rewrite Ae, Ap. cbn [with_provenance num_mutations]. rewrite Hm.
  change (0 <? 0) with false. cbv iota. done.
Qed.

(** A tree sequence without mutations whose indexes and number of nodes are
    those [tree_sequence_make_indexes] computes is dumped, and the archive
    loads as the same tree sequence. *)
Lemma load_after_dump (self : tree_sequence_t) (lib lib' : h5_library)
    (flags flags' : Z) (fs : archives) (filename : string) (te tp : string) :
  tree_sequence_make_indexes self = Some (0, self) ->
  Z.of_nat (length (trees_left self)) = num_records self ->
  Z.of_nat (length (trees_right self)) = num_records self ->
  Z.of_nat (length (trees_node self)) = num_records self ->
  Z.of_nat (length (trees_children self)) = 2 * num_records self ->
  Z.of_nat (length (trees_time self)) = num_records self ->
  Z.of_nat (length (trees_insertion_order self)) = num_records self ->
  Z.of_nat (length (trees_removal_order self)) = num_records self ->
  num_mutations self = 0 ->
  mutations_node self = [] -> mutations_position self = [] ->
  mutations_parameters self = None -> mutations_environment self = None ->
  trees_environment self = Some te -> te <> ""%string ->
  trees_parameters self = Some tp -> tp <> ""%string ->
  - 2 ^ 31 <= MSP_FILE_FORMAT_VERSION_MAJOR < 2 ^ 31 ->
  0 <= H5Fclose_status lib ->
  Z.land flags MSP_SKIP_H5CLOSE <> 0 \/ 0 <= H5close_status lib ->
  0 <= H5Fclose_status lib' ->
  Z.land flags' MSP_SKIP_H5CLOSE <> 0 \/ 0 <= H5close_status lib' ->
  exists file,
    tree_sequence_dump self lib flags = Some (0, file) /\
    tree_sequence_load (<[filename := file]> fs) lib' filename flags'
      = Some (0, self).
Proof.
  intros Hmk Ll Lr Lu Lc Lt Lio Lro Hm Hmn Hmp Hmpa Hmen Hte Hten Htp Htpn
    Hver Hf Hc Hf' Hc'.
  pose proof (make_indexes_Some _ _ Hmk) as HR.
  unfold tree_sequence_dump, tree_sequence_write_hdf5_metadata.
  change (0 <? 0) with false. cbv iota.
  unfold tree_sequence_write_hdf5_data.
  rewrite Hm, Hmn, Hmp.
  rewrite (h5_take_all _ (trees_left self)), (h5_take_all _ (trees_right self)),
    (h5_take_all _ (trees_node self)), (h5_take_all _ (trees_children self)),
    (h5_take_all _ (trees_time self)) by done.
  change (0 =? 0) with true. change (0 <? 0) with false. cbv iota.
  destruct (Z.ltb_spec 0 (num_records self)); [|lia].
  cbn [mbind option_bind]. change (0 <? 0) with false. cbv iota.
  match goal with
  | |- context [tree_sequence_write_hdf5_provenance _ ?f] => set (filed := f)
  end.
  assert (("/" +:+ "trees")%string ∈ h5_groups filed) as Hgroups.
  { subst filed.
    cbn [h5_groups h5_add_attribute h5_add_dataset h5_add_group h5_empty].
    apply elem_of_union_l. by apply elem_of_singleton. }
  unfold tree_sequence_write_hdf5_provenance.
  rewrite Hte, Htp, Hm.
  rewrite write_string_attribute_runs by done.
  cbn [mbind option_bind fst snd]. change (negb (0 =? 0)) with false.
  cbv iota.
  rewrite write_string_attribute_runs by done.
  cbn [mbind option_bind fst snd]. change (negb (0 =? 0)) with false.
  change (0 <? 0) with false. cbv iota.
  cbn [mbind option_bind fst snd]. change (0 <? 0) with false. cbv iota.
  destruct (Z.ltb_spec (H5Fclose_status lib) 0); [lia|].
  match goal with
  | |- context [Some (0, ?f)] => set (file := f)
  end.
  assert (tree_sequence_dump_tail :
    (if negb (Z.land flags MSP_SKIP_H5CLOSE =? 0) then Some (0, file)
     else if H5close_status lib <? 0 then Some (MSP_ERR_HDF5, file)
          else Some (0, file)) = Some (0, file)).
  { destruct (Z.eqb_spec (Z.land flags MSP_SKIP_H5CLOSE) 0); [|done].
    cbn [negb]. destruct (Z.ltb_spec (H5close_status lib) 0); [|done].
    destruct Hc; [done|lia]. }
  rewrite tree_sequence_dump_tail. exists file. split; [done|].
  clear tree_sequence_dump_tail.
  assert (h5_attributes file !! ("/", "format_version")%string
          = Some (H5A_numeric
                    {| h5_dims := [2];
                       h5_data := H5_u32 [wrap32 MSP_FILE_FORMAT_VERSION_MAJOR;
                                          wrap32 MSP_FILE_FORMAT_VERSION_MINOR]
                    |})) as Av by (subst file filed; h5_lookup).
  assert (h5_attributes file !! ("/", "sample_size")%string
          = Some (H5A_numeric {| h5_dims := [];
                                 h5_data := H5_u32 [sample_size self] |}))
    as As by (subst file filed; h5_lookup).
  assert (h5_attributes file !! ("/", "num_loci")%string
          = Some (H5A_numeric {| h5_dims := [];
                                 h5_data := H5_u32 [num_loci self] |}))
    as Al by (subst file filed; h5_lookup).
  assert (h5_attributes file !! ("trees", "environment")%string
          = Some (H5A_string te)) as Ae by (subst file filed; h5_lookup).
  assert (h5_attributes file !! ("trees", "parameters")%string
          = Some (H5A_string tp)) as Ap by (subst file filed; h5_lookup).
  assert (h5_datasets file !! "/trees/left"%string
          = Some {| h5_dims := [num_records self];
                    h5_data := H5_u32 (trees_left self) |}) as Dl
    by (subst file filed; h5_lookup).
  assert (h5_datasets file !! "/trees/right"%string
          = Some {| h5_dims := [num_records self];
                    h5_data := H5_u32 (trees_right self) |}) as Dr
    by (subst file filed; h5_lookup).
  assert (h5_datasets file !! "/trees/node"%string
          = Some {| h5_dims := [num_records self];
                    h5_data := H5_u32 (trees_node self) |}) as Du
    by (subst file filed; h5_lookup).
  assert (h5_datasets file !! "/trees/children"%string
          = Some {| h5_dims := [num_records self; 2];
                    h5_data := H5_u32 (trees_children self) |}) as Dc
    by (subst file filed; h5_lookup).
  assert (h5_datasets file !! "/trees/time"%string
          = Some {| h5_dims := [num_records self];
                    h5_data := H5_f64 (trees_time self) |}) as Dt
    by (subst file filed; h5_lookup).
  assert ("/mutations"%string ∉ h5_groups file) as Hg.
  { subst file filed.
    cbn [h5_groups h5_add_attribute h5_add_dataset h5_add_group h5_empty].
    intros [Hx|Hx]%elem_of_union; [by apply elem_of_singleton in Hx|].
    by apply elem_of_empty in Hx. }
  clearbody file. clear filed Hgroups.
  unfold tree_sequence_load. rewrite lookup_insert_eq.
  rewrite (read_metadata_written file _ _ _ Av As Al Hver).
  change (0 <? 0) with false. cbv iota.
  rewrite (read_dimensions_written _ file _ _ _ _ _ _ Dl Dr Du Dc Dt Hg).
  change (negb (0 =? 0)) with false. cbv iota.
  unfold tree_sequence_alloc.
  cbn [with_counts num_mutations num_records]. change (0 <? 0) with false.
  cbv iota. change (negb (0 =? 0)) with false. cbv iota.
  rewrite (read_data_written _ file _ _ _ _ _ _ _ _ _ _ Dl Dr Du Dc Dt);
    [|cbn [with_indexes with_columns trees_left trees_right trees_node
           trees_children trees_time num_mutations with_counts];
      try done; apply Nat2Z.inj;
      rewrite ?length_malloc_u32, ?length_malloc_f64 by lia; lia..].
  cbn [mbind option_bind]. change (negb (0 =? 0)) with false. cbv iota.
  rewrite (read_provenance_written _ file te tp Ae Ap) by done.
  change (0 <? 0) with false. cbv iota.
  destruct (Z.ltb_spec (H5Fclose_status lib') 0); [lia|].
  match goal with
  | |- context [tree_sequence_make_indexes ?s] => set (loaded := s)
  end.
  assert (tree_sequence_make_indexes loaded = Some (0, self)) as Hloaded.
  { etransitivity; [|exact Hmk].
    rewrite (make_indexes_value self) by done.
    rewrite (make_indexes_value loaded)
      by (subst loaded;
          cbn [with_provenance with_indexes with_columns with_counts
               trees_left trees_right trees_node trees_children trees_time
               trees_insertion_order trees_removal_order num_records];
          done || (apply length_malloc_u32; lia)).
    subst loaded. unfold ts_node.
    cbn [with_provenance with_indexes with_columns with_counts
         trees_left trees_right trees_node trees_children trees_time
         num_records sample_size num_loci num_mutations num_nodes].
    f_equal. f_equal.
    apply tree_sequence_ext;
      cbn [with_provenance with_indexes with_columns with_counts
           trees_left trees_right trees_node trees_children trees_time
           num_records sample_size num_loci num_mutations num_nodes
           trees_insertion_order trees_removal_order
           trees_parameters trees_environment mutations_node
           mutations_position mutations_parameters mutations_environment
           tree_sequence_zero]; congruence. }
  rewrite Hloaded. cbn [mbind option_bind].
  change (negb (0 =? 0)) with false. cbv iota.
  destruct (Z.eqb_spec (Z.land flags' MSP_SKIP_H5CLOSE) 0); [|done].
  cbn [negb]. destruct (Z.ltb_spec (H5close_status lib') 0); [|done].
  destruct Hc'; [done|lia].
Qed.

Lemma create_runs (sim : msp_t) :
  let records := msp_records sim in
  let R := Z.of_nat (length records) in
  1 <= R < 2 ^ 31 ->
  msp_records_status sim = 0 ->
  msp_environment_status sim = 0 -> msp_parameters_status sim = 0 ->
  exists self,
    tree_sequence_create sim = Some (0, self) /\
    tree_sequence_make_indexes self = Some (0, self) /\
    Z.of_nat (length (trees_left self)) = num_records self /\
    Z.of_nat (length (trees_right self)) = num_records self /\
    Z.of_nat (length (trees_node self)) = num_records self /\
    Z.of_nat (length (trees_children self)) = 2 * num_records self /\
    Z.of_nat (length (trees_time self)) = num_records self /\
    Z.of_nat (length (trees_insertion_order self)) = num_records self /\
    Z.of_nat (length (trees_removal_order self)) = num_records self /\
    num_mutations self = 0 /\
    mutations_node self = [] /\ mutations_position self = [] /\
    mutations_parameters self = None /\ mutations_environment self = None /\
    trees_environment self = Some (msp_environment sim) /\
    trees_parameters self = Some (msp_parameters sim).
Proof.
  intros records R HR Hrs Hes Hps.
  rewrite tree_sequence_create_copies by done. fold records R.
  match goal with
  | |- context [tree_sequence_make_indexes ?s] => set (self2 := s)
  end.
  assert (num_records self2 = R) as ER by done.
  assert (trees_left self2 = map cr_left records) as El by done.
  assert (trees_right self2 = map cr_right records) as Er by done.
  assert (trees_node self2 = map cr_node records) as Eu by done.
  assert (trees_time self2 = map cr_time records) as Et by done.
  assert (trees_insertion_order self2 = malloc_u32 R) as Eio by done.
  assert (trees_removal_order self2 = malloc_u32 R) as Ero by done.
  assert (trees_children self2 =
            flat_map (fun r => [fst (cr_children r); snd (cr_children r)])
              records) as Ec by done.
  assert (num_mutations self2 = 0 /\ mutations_node self2 = [] /\
          mutations_position self2 = [] /\ mutations_parameters self2 = None
          /\ mutations_environment self2 = None)
    as (Em & Emn & Emp & Empa & Emen) by done.
  rewrite (make_indexes_value self2)
    by (rewrite ?ER, ?El, ?Er, ?Eu, ?Et, ?Eio, ?Ero, ?length_map,
          ?length_malloc_u32 by lia; done || lia).
  cbn [mbind option_bind fst snd].
  change (negb (0 =? 0)) with false. cbv iota.
  rewrite ER, El, Er, Et.
  set (io := map is_index (qsort cmp_index_sort _)).
  set (ro := map is_index (qsort cmp_index_sort _)).
  assert (Z.of_nat (length io) = R) as Lio.
  { subst io. rewrite length_map, qsort_length, length_map, length_seqZ.
    lia. }
  assert (Z.of_nat (length ro) = R) as Lro.
  { subst ro. rewrite length_map, qsort_length, length_map, length_seqZ.
    lia. }
  clearbody self2.
  eexists. split; [reflexivity|].
  cbn [with_provenance with_counts with_indexes
       trees_left trees_right trees_node trees_children trees_time
       trees_insertion_order trees_removal_order
       num_records sample_size num_loci num_mutations num_nodes
       trees_parameters trees_environment mutations_node
       mutations_position mutations_parameters mutations_environment].
  rewrite El, Er, Eu, Ec, Et, !length_map, flat_map_pair_length.
  split.
  { rewrite make_indexes_value;
      cbn [with_provenance with_counts with_indexes
           trees_left trees_right trees_node trees_children trees_time
           trees_insertion_order trees_removal_order
           num_records sample_size num_loci num_mutations num_nodes
           trees_parameters trees_environment mutations_node
           mutations_position mutations_parameters mutations_environment];
      rewrite ?El, ?Er, ?Eu, ?Et, ?length_map; done || lia. }
  repeat match goal with |- _ /\ _ => split end; try done; lia.
Qed.

End round_trip.

(** X15: a tree sequence that [tree_sequence_create] builds from a
    simulation that hands out its records, at least one and fewer than
    2^31, survives [tree_sequence_dump] and [tree_sequence_load] unchanged:
    the three calls return 0 and the tree sequence loaded from the archive
    is the one that was dumped, indexes and number of nodes included.  The
    two provenance strings are encoded and not empty, the major version
    number fits an [int32_t], and both times the file closes and the
    library shuts down or the shutdown is skipped. *)
Theorem create_dump_load_round_trip `{msprime_h} `{heap} `{libc_qsort}
    (sim : msp_t) (lib lib' : h5_library) (flags flags' : Z) (fs : archives)
    (filename : string) :
  1 <= Z.of_nat (length (msp_records sim)) < 2 ^ 31 ->
  msp_records_status sim = 0 ->
  msp_environment_status sim = 0 -> msp_parameters_status sim = 0 ->
  msp_environment sim <> ""%string -> msp_parameters sim <> ""%string ->
  - 2 ^ 31 <= MSP_FILE_FORMAT_VERSION_MAJOR < 2 ^ 31 ->
  0 <= H5Fclose_status lib ->
  Z.land flags MSP_SKIP_H5CLOSE <> 0 \/ 0 <= H5close_status lib ->
  0 <= H5Fclose_status lib' ->
  Z.land flags' MSP_SKIP_H5CLOSE <> 0 \/ 0 <= H5close_status lib' ->
  exists self file,
    tree_sequence_create sim = Some (0, self) /\
    tree_sequence_dump self lib flags = Some (0, file) /\
    tree_sequence_load (<[filename := file]> fs) lib' filename flags'
      = Some (0, self).
Proof.
  intros HR Hrs Hes Hps He Hp Hver Hf Hc Hf' Hc'.
  destruct (create_runs sim HR Hrs Hes Hps)
    as (self & Ecreate & Hmk & Ll & Lr & Lu & Lc & Lt & Lio & Lro & Hm &
        Hmn & Hmp & Hmpa & Hmen & Hte & Htp).
  destruct (load_after_dump self lib lib' flags flags' fs filename
              (msp_environment sim) (msp_parameters sim))
    as (file & Edump & Eload); try done.
  by exists self, file.
Qed.

(** The round trip of [example_sim] through the archive "sim.hdf5". *)
Lemma create_dump_load_round_trip_witness :
  exists self file,
    tree_sequence_create (H := zero_heap) (H0 := isort_qsort) example_sim
      = Some (0, self) /\
    tree_sequence_dump (H := sample_msprime_h) self h5_ok 0
      = Some (0, file) /\
    tree_sequence_load (H := sample_msprime_h) (H0 := zero_heap)
      (H1 := isort_qsort) (<["sim.hdf5"%string := file]> ∅) h5_ok
      "sim.hdf5" 0 = Some (0, self).
Proof.
  apply (@create_dump_load_round_trip sample_msprime_h zero_heap isort_qsort
           example_sim h5_ok h5_ok 0 0 ∅ "sim.hdf5").
  - vm_compute. split; [discriminate|reflexivity].
  - reflexivity.
  - reflexivity.
  - reflexivity.
  - vm_compute. discriminate.
  - vm_compute. discriminate.
  - vm_compute. split; [discriminate|reflexivity].
  - vm_compute. discriminate.
  - right. vm_compute. discriminate.
  - vm_compute. discriminate.
  - right. vm_compute. discriminate.
Defined.

(** ** tree_file_finalise and tree_file_open *)

Lemma byte_of_to_N (n : Z) :
  0 <= n < 256 ->
  Z.of_N (Byte.to_N (default x00 (Byte.of_N (Z.to_N n)))) = n.
Proof.
  intros Hn. destruct (Byte.of_N (Z.to_N n)) as [b|] eqn:E.
  - apply Byte.to_of_N in E. change (default x00 (Some b)) with b.
    rewrite E. lia.
  - apply Byte.of_N_None_iff in E. lia.
Qed.

Lemma length_le_encode w z : length (le_encode w z) = w.
Proof.
  revert z. induction w as [|w IH]; intros z; [done|].
  cbn [le_encode length]. by rewrite IH.
Qed.

Lemma le_decode_encode w z :
  0 <= z < 256 ^ Z.of_nat w -> le_decode (le_encode w z) = z.
Proof.
  revert z. induction w as [|w IH]; intros z Hz.
  - cbn in *. lia.
  - cbn [le_encode le_decode].
    rewrite byte_of_to_N by (apply Z.mod_pos_bound; lia).
    rewrite IH.
    + pose proof (Z.div_mod z 256 ltac:(lia)). lia.
    + rewrite Nat2Z.inj_succ, Z.pow_succ_r in Hz by lia.
      split; [apply Z.div_pos; lia|].
      apply Z.div_lt_upper_bound; lia.
Qed.

Lemma length_encode_word host w z : length (encode_word host w z) = w.
Proof.
  destruct host; cbn [encode_word]; rewrite ?length_rev;
    apply length_le_encode.
Qed.

Lemma decode_encode_word host w z :
  0 <= z < 256 ^ Z.of_nat w -> decode_word host (encode_word host w z) = z.
Proof.
  intros Hz. destruct host; cbn [encode_word decode_word];
    rewrite ?rev_involutive; by apply le_decode_encode.
Qed.

Lemma word_at_here host (w : nat) (a l : list byte) :
  length a = w -> word_at host w (a ++ l) 0 = decode_word host a.
Proof.
  intros <-. unfold word_at. cbn [Nat.mul]. rewrite drop_0.
  by rewrite take_app_length.
Qed.

Lemma word_at_next host (w : nat) (a l : list byte) (i : nat) :
  length a = w -> word_at host w (a ++ l) (S i) = word_at host w l i.
Proof.
  intros <-. unfold word_at. cbn [Nat.mul].
  rewrite <- drop_drop. by rewrite drop_app_length.
Qed.

(** The header that [tree_file_write_header] writes for [self]. *)
Lemma tree_file_write_header_spec host self f :
  28 <= Z.of_nat (length (f_bytes f)) ->
  tree_file_write_header host self f =
    (0, {| f_bytes :=
             (encode_word host 4 MSP_TREE_FILE_MAGIC
              ++ encode_word host 4 MSP_TREE_FILE_VERSION
              ++ encode_word host 4 (tf_sample_size self)
              ++ encode_word host 4 (tf_num_loci self)
              ++ encode_word host 4 (tf_flags self))
             ++ encode_word host 8 (tf_metadata_offset self)
             ++ drop 28 (f_bytes f);
           f_pos := 28 |}).
Proof.
  intros Hlen. unfold tree_file_write_header, fseek_set, fwrite.
  change (0 <? 0) with false. cbv iota. change (negb (0 =? 0)) with false.
  cbv iota. change (negb (1 =? 1)) with false. cbv iota.
  cbn [f_bytes f_pos].
  set (h32 := encode_word host 4 MSP_TREE_FILE_MAGIC ++ _).
  set (h64 := encode_word host 8 _).
  assert (length h32 = 20%nat) as L32.
  { subst h32. by rewrite !length_app, !length_encode_word. }
  assert (length h64 = 8%nat) as L64 by apply length_encode_word.
  rewrite L32, L64. change (Z.to_nat 0) with 0%nat.
  change (0 + Z.of_nat 20) with 20. change (Z.to_nat 20) with 20%nat.
  change (20 + Z.of_nat 8) with 28.
  f_equal. f_equal.
  rewrite take_0. change (0 - length (f_bytes f))%nat with 0%nat.
  cbn [repeat app Nat.add].
  rewrite take_app_length' by done.
  rewrite length_app, length_drop, L32.
  replace (20 - (20 + (length (f_bytes f) - 20)))%nat with 0%nat by lia.
  cbn [repeat app]. f_equal. f_equal.
  rewrite drop_app_ge by lia. rewrite L32, drop_drop. done.
Qed.

Lemma to_long_small z : 0 <= z < 2 ^ 63 -> to_long z = z.
Proof.
  intros Hz. unfold to_long. by destruct (Z.ltb_spec z (2 ^ 63)); [|lia].
Qed.

(** What [tree_file_read_info] reads from a file that holds a header,
    records and metadata. *)
Lemma tree_file_read_info_written host self (n loci flags : Z)
    (rest md : list byte) :
  let off := 28 + Z.of_nat (length rest) in
  let bytes :=
    (encode_word host 4 MSP_TREE_FILE_MAGIC
     ++ encode_word host 4 MSP_TREE_FILE_VERSION
     ++ encode_word host 4 n ++ encode_word host 4 loci
     ++ encode_word host 4 flags)
    ++ encode_word host 8 off ++ rest ++ md in
  0 <= n < 2 ^ 32 -> 0 <= loci < 2 ^ 32 -> 0 <= flags < 2 ^ 32 ->
  md <> [] -> Z.of_nat (length bytes) < 2 ^ 63 ->
  tree_file_read_info host self {| f_bytes := bytes; f_pos := 0 |} =
    (0, {| tf_filename := tf_filename self; tf_mode := tf_mode self;
           tf_file :=
             Some {| f_bytes := bytes;
                     f_pos := Z.of_nat (length bytes) |};
           tf_sample_size := n; tf_num_loci := loci; tf_flags := flags;
           tf_metadata_offset := off;
           tf_coalescence_record_offset := 28;
           tf_metadata := Some md |}).
Proof.
  intros off bytes Hn Hloci Hflags Hmd Hlen.
  assert (Z.of_nat (length bytes) = off + Z.of_nat (length md)) as Elen.
  { subst bytes off. rewrite !length_app, !length_encode_word. lia. }
  assert (0 < length md)%nat as Hmd'.
  { destruct md; [done|]. cbn [length]. lia. }
  unfold tree_file_read_info.
  destruct (fread_header_words bytes ltac:(lia)) as [-> ->].
  change (negb (1 =? 1)) with false. cbv iota.
  assert (take 20 bytes =
            encode_word host 4 MSP_TREE_FILE_MAGIC
            ++ encode_word host 4 MSP_TREE_FILE_VERSION
            ++ encode_word host 4 n ++ encode_word host 4 loci
            ++ encode_word host 4 flags ++ []) as ->.
  { subst bytes. rewrite app_nil_r. apply take_app_length'.
    by rewrite !length_app, !length_encode_word. }
  assert (take 8 (drop 20 bytes) = encode_word host 8 off ++ []) as ->.
  { subst bytes. rewrite app_nil_r. rewrite drop_app_length'
      by (by rewrite !length_app, !length_encode_word).
    apply take_app_length'. by rewrite length_encode_word. }
  rewrite !word_at_next, !word_at_here by apply length_encode_word.
  rewrite !decode_encode_word by (done || (change (256 ^ _) with (2 ^ 64);
                                            lia)).
  change (negb (MSP_TREE_FILE_MAGIC =? MSP_TREE_FILE_MAGIC)) with false.
  change (negb (MSP_TREE_FILE_VERSION =? MSP_TREE_FILE_VERSION)) with false.
  cbv iota.
  unfold fseek_end, fseek_set, ftell.
  cbn [f_bytes f_pos tf_with_file tf_with_metadata tf_metadata_offset
       tf_filename tf_mode tf_file tf_sample_size tf_num_loci tf_flags
       tf_coalescence_record_offset tf_metadata].
  rewrite to_long_small by lia.
  destruct (Z.ltb_spec off 0); [lia|].
  change (negb (0 =? 0)) with false. cbv iota.
  rewrite Elen. replace (off + Z.of_nat (length md) - off)
    with (Z.of_nat (length md)) by lia.
  unfold wrap64. rewrite Z.mod_small by lia.
  unfold fread. cbn [f_bytes f_pos].
  destruct (Z.ltb_spec 0 (Z.of_nat (length md))); [|lia].
  rewrite Elen.
  destruct (Z.leb_spec (off + Z.of_nat (length md))
              (off + Z.of_nat (length md))); [|lia].
  cbn [andb]. change (negb (1 =? 1)) with false. cbv iota.
  f_equal. f_equal. rewrite Nat2Z.id.
  subst bytes off. rewrite !app_assoc.
  rewrite drop_app_length'
    by (rewrite !length_app, !length_encode_word; lia).
  by rewrite firstn_all.
Qed.

Lemma lor_complete_bound flags :
  0 <= flags < 2 ^ 32 -> 0 <= Z.lor flags MSP_FLAGS_COMPLETE < 2 ^ 32.
Proof.
  intros Hf. unfold MSP_FLAGS_COMPLETE.
  split; [apply Z.lor_nonneg; lia|].
  assert (0 < Z.lor flags 1) as Hpos.
  { destruct (Z.eq_dec (Z.lor flags 1) 0) as [E|E].
    - apply Z.lor_eq_0_iff in E. lia.
    - pose proof (proj2 (Z.lor_nonneg flags 1) ltac:(lia)). lia. }
  apply Z.log2_lt_pow2; [done|].
  rewrite Z.log2_lor by lia. change (Z.log2 1) with 0.
  destruct (Z.eq_dec flags 0) as [->|Hne]; [done|].
  apply Z.max_lub_lt; [|lia]. apply Z.log2_lt_pow2; lia.
Qed.

Lemma lor_complete_set flags :
  Z.land (Z.lor flags MSP_FLAGS_COMPLETE) MSP_FLAGS_COMPLETE <> 0.
Proof.
  intros E. apply (f_equal (fun z => Z.testbit z 0)) in E.
  rewrite Z.land_spec, Z.lor_spec in E. unfold MSP_FLAGS_COMPLETE in E.
  change (Z.testbit 1 0) with true in E. rewrite orb_true_r in E.
  by cbn in E.
Qed.

(** X16: [tree_file_finalise] on a file open for writing, its stream at
    the end of a file that holds at least the 28 bytes of the header,
    returns 0 once [msp_write_metadata] has appended the metadata, and
    sets the flag that [tree_file_is_complete] tests.  The file it leaves
    opens for reading with status 0: [tree_file_open] finds the sample
    size, the number of loci and the flags of the writer, the metadata
    that was appended, at the offset where the writer stood, and leaves
    the stream at byte 28, where the records start; the bytes after the
    header are those the writer had, followed by the metadata. *)
Theorem tree_file_finalise_then_open (host : byte_order)
    (write_metadata : FILE -> Z * FILE) (self : tree_file_t) (f f1 : FILE)
    (md : list byte) (fs : filesystem) (filename : string) :
  tf_mode self = "w"%char ->
  tf_file self = Some f ->
  f_pos f = Z.of_nat (length (f_bytes f)) ->
  MSP_TREE_FILE_HEADER_SIZE <= f_pos f ->
  write_metadata f = (0, f1) ->
  f_bytes f1 = f_bytes f ++ md -> md <> [] ->
  Z.of_nat (length (f_bytes f1)) < 2 ^ 63 ->
  0 <= tf_sample_size self < 2 ^ 32 ->
  0 <= tf_num_loci self < 2 ^ 32 ->
  0 <= tf_flags self < 2 ^ 32 ->
  exists self' f',
    tree_file_finalise host write_metadata self = Some (0, self') /\
    tf_file self' = Some f' /\
    tree_file_is_complete self' <> 0 /\
    exists r fr,
      tree_file_open host (<[filename := f_bytes f']> fs) filename "r"
        = (0, r) /\
      tf_sample_size r = tf_sample_size self /\
      tf_num_loci r = tf_num_loci self /\
      tf_flags r = Z.lor (tf_flags self) MSP_FLAGS_COMPLETE /\
      tree_file_is_complete r <> 0 /\
      tf_metadata_offset r = f_pos f /\
      tf_coalescence_record_offset r = MSP_TREE_FILE_HEADER_SIZE /\
      tf_metadata r = Some md /\
      tf_file r = Some fr /\
      f_pos fr = MSP_TREE_FILE_HEADER_SIZE /\
      drop 28 (f_bytes fr) = drop 28 (f_bytes f) ++ md.
Proof.
  intros Hmode Hfile Hpos Hhead Hwrite Hbytes Hmd Hlen Hn Hloci Hflags.
  unfold MSP_TREE_FILE_HEADER_SIZE in *.
  unfold tree_file_finalise, tree_file_check_write_mode.
  rewrite Hmode. change (negb (Ascii.eqb "w" "w")) with false. cbv iota.
  rewrite Hfile. cbn [mbind option_bind]. rewrite Hwrite.
  change (negb (0 =? 0)) with false. cbv iota.
  rewrite tree_file_write_header_spec
    by (rewrite Hbytes, length_app; lia).
  change (negb (0 =? 0)) with false. cbv iota.
  unfold fflush. change (negb (0 =? 0)) with false. cbv iota.
  cbn [tf_with_flags tf_with_file tf_with_metadata_offset tf_sample_size
       tf_num_loci tf_flags tf_metadata_offset tf_file ftell].
  eexists _, _. split; [reflexivity|]. split; [reflexivity|].
  split; [unfold tree_file_is_complete; cbn [tf_flags];
          apply lor_complete_set|].
  cbn [f_bytes].
  unfold tree_file_open. change (Ascii.eqb "r" "r") with true. cbv iota.
  unfold tree_file_open_read_mode, fopen_existing.
  rewrite lookup_insert_eq. cbn [mbind option_bind].
  assert (drop 28 (f_bytes f1) = drop 28 (f_bytes f) ++ md) as Edrop.
  { rewrite Hbytes. apply drop_app_le. lia. }
  rewrite Edrop.
  assert (f_pos f = 28 + Z.of_nat (length (drop 28 (f_bytes f)))) as Eoff.
  { rewrite length_drop. lia. }
  unfold ftell. rewrite Eoff.
  pose proof (lor_complete_bound _ Hflags) as Hflags'.
  rewrite tree_file_read_info_written; try done.
  2: { rewrite !length_app, !length_encode_word, length_drop.
       rewrite Hbytes, length_app in Hlen. lia. }
  change (negb (0 =? 0)) with false. cbv iota.
  cbn [tf_file tf_coalescence_record_offset]. unfold fseek_set.
  change (28 <? 0) with false. cbv iota.
  change (negb (0 =? 0)) with false. cbv iota.
  eexists _, _. split; [reflexivity|].
  unfold tree_file_is_complete.
  cbn [tf_with_file tf_sample_size tf_num_loci tf_flags tf_metadata_offset
       tf_coalescence_record_offset tf_metadata tf_file f_bytes f_pos].
  repeat match goal with |- _ /\ _ => split end; try done.
  - apply lor_complete_set.
  - cbn [f_bytes]. rewrite app_assoc. rewrite drop_app_length'; [done|].
    by rewrite !length_app, !length_encode_word.
Qed.

(** [example_new_tree_file], finalised with the metadata "{}", opens for
    reading. *)
Lemma tree_file_finalise_then_open_witness :
  exists self' f',
    tree_file_finalise LittleEndian example_write_metadata
      example_new_tree_file = Some (0, self') /\
    tf_file self' = Some f' /\
    tree_file_is_complete self' <> 0 /\
    exists r fr,
      tree_file_open LittleEndian (<["trees.dat"%string := f_bytes f']> ∅)
        "trees.dat" "r" = (0, r) /\
      tf_sample_size r = tf_sample_size example_new_tree_file /\
      tf_num_loci r = tf_num_loci example_new_tree_file /\
      tf_flags r = Z.lor (tf_flags example_new_tree_file) MSP_FLAGS_COMPLETE /\
      tree_file_is_complete r <> 0 /\
      tf_metadata_offset r = f_pos {| f_bytes := repeat x00 28; f_pos := 28 |} /\
      tf_coalescence_record_offset r = MSP_TREE_FILE_HEADER_SIZE /\
      tf_metadata r = Some [x7b; x7d] /\
      tf_file r = Some fr /\
      f_pos fr = MSP_TREE_FILE_HEADER_SIZE /\
      drop 28 (f_bytes fr)
        = drop 28 (f_bytes {| f_bytes := repeat x00 28; f_pos := 28 |})
          ++ [x7b; x7d].
Proof.
  apply (tree_file_finalise_then_open LittleEndian example_write_metadata
           example_new_tree_file {| f_bytes := repeat x00 28; f_pos := 28 |}
           {| f_bytes := repeat x00 28 ++ [x7b; x7d]; f_pos := 30 |}
           [x7b; x7d] ∅ "trees.dat").
  - reflexivity.
  - reflexivity.
  - reflexivity.
  - vm_compute. discriminate.
  - reflexivity.
  - reflexivity.
  - discriminate.
  - reflexivity.
  - vm_compute. split; [discriminate|reflexivity].
  - vm_compute. split; [discriminate|reflexivity].
  - vm_compute. split; [discriminate|reflexivity].
Defined.

(** ** tree_sequence_get_record *)

Lemma get_record_reads `{msprime_order} self j :
  0 <= j < num_records self ->
  Z.of_nat (length (trees_left self)) = num_records self ->
  Z.of_nat (length (trees_right self)) = num_records self ->
  Z.of_nat (length (trees_node self)) = num_records self ->
  Z.of_nat (length (trees_children self)) = 2 * num_records self ->
  Z.of_nat (length (trees_time self)) = num_records self ->
  (l ← rd (trees_left self) j;
   r ← rd (trees_right self) j;
   u ← rd (trees_node self) j;
   c0 ← rd (trees_children self) (2 * j);
   c1 ← rd (trees_children self) (2 * j + 1);
   t ← rd (trees_time self) j;
   Some (0, {| cr_left := l; cr_right := r; cr_node := u;
               cr_children := (c0, c1); cr_time := t |}))
  = Some (0, record_of self j).
Proof.
  intros Hj Ll Lr Lu Lc Lt.
  unfold record_of, ts_left, ts_right, ts_node, ts_child, ts_time.
  destruct (rd_in_range (trees_left self) j) as [l ->]; [lia|].
  destruct (rd_in_range (trees_right self) j) as [r ->]; [lia|].
  destruct (rd_in_range (trees_node self) j) as [u ->]; [lia|].
  destruct (rd_in_range (trees_children self) (2 * j)) as [c0 E0]; [lia|].
  destruct (rd_in_range (trees_children self) (2 * j + 1)) as [c1 E1];
    [lia|].
  destruct (rd_in_range (trees_time self) j) as [t ->]; [lia|].
  rewrite Z.add_0_r, E0, E1. done.
Qed.

Section get_record.
Context `{msprime_order} `{libc_qsort}.

(** X17: once [tree_sequence_make_indexes] has run (at least one record and
    fewer than 2^32, columns and indexes of [num_records] cells, every time
    a number), [tree_sequence_get_record] refuses an index that is not
    below [num_records] with [MSP_ERR_OUT_OF_BOUNDS] and an unknown
    order with [MSP_ERR_BAD_ORDERING], leaving [*record] as it is.  In
    [MSP_ORDER_TIME] it returns the record stored at the index; in
    [MSP_ORDER_LEFT] every record is returned at some index and the
    records come by ascending left end, equal left ends by ascending time;
    in [MSP_ORDER_RIGHT] likewise by ascending right end, equal right ends
    by descending time. *)
Theorem get_record_orders (self : tree_sequence_t)
    (record : coalescence_record_t) :
  let R := num_records self in
  1 <= R < 2 ^ 32 ->
  Z.of_nat (length (trees_left self)) = R ->
  Z.of_nat (length (trees_right self)) = R ->
  Z.of_nat (length (trees_node self)) = R ->
  Z.of_nat (length (trees_children self)) = 2 * R ->
  Z.of_nat (length (trees_time self)) = R ->
  Z.of_nat (length (trees_insertion_order self)) = R ->
  Z.of_nat (length (trees_removal_order self)) = R ->
  Forall (fun t => is_nan t = false) (trees_time self) ->
  exists self',
    tree_sequence_make_indexes self = Some (0, self') /\
    (forall index order, R <= index ->
       tree_sequence_get_record self' index record order
         = Some (MSP_ERR_OUT_OF_BOUNDS, record)) /\
    (forall index order, 0 <= index < R ->
       order <> MSP_ORDER_TIME -> order <> MSP_ORDER_LEFT ->
       order <> MSP_ORDER_RIGHT ->
       tree_sequence_get_record self' index record order
         = Some (MSP_ERR_BAD_ORDERING, record)) /\
    (forall index, 0 <= index < R ->
       tree_sequence_get_record self' index record MSP_ORDER_TIME
         = Some (0, record_of self index)) /\
    (forall k, 0 <= k < R ->
       (exists index, 0 <= index < R /\
          tree_sequence_get_record self' index record MSP_ORDER_LEFT
            = Some (0, record_of self k)) /\
       (exists index, 0 <= index < R /\
          tree_sequence_get_record self' index record MSP_ORDER_RIGHT
            = Some (0, record_of self k))) /\
    (forall i j, 0 <= i < j -> j < R ->
       exists a b,
         tree_sequence_get_record self' i record MSP_ORDER_LEFT
           = Some (0, a) /\
         tree_sequence_get_record self' j record MSP_ORDER_LEFT
           = Some (0, b) /\
         (cr_left a < cr_left b \/
          (cr_left a = cr_left b /\ d_lt (cr_time b) (cr_time a) = false))) /\
    (forall i j, 0 <= i < j -> j < R ->
       exists a b,
         tree_sequence_get_record self' i record MSP_ORDER_RIGHT
           = Some (0, a) /\
         tree_sequence_get_record self' j record MSP_ORDER_RIGHT
           = Some (0, b) /\
         (cr_right a < cr_right b \/
          (cr_right a = cr_right b /\
           d_lt (cr_time a) (cr_time b) = false))).
Proof.
  intros R HR Ll Lr Lu Lc Lt Lio Lro Hnan.
  destruct (make_indexes_sorted self HR Ll Lr Lu Lt Lio Lro Hnan)
    as (self' & E & ER & El & Er & Et & Pi & Pr & Si & Sr).
  destruct (make_indexes_keeps _ _ E) as (Eu & Ec & _).
  assert (R = num_records self) as ER0 by done. clearbody R.
  rewrite <- ER0 in ER, Pi, Pr.
  exists self'. split; [done|].
  assert (forall j, 0 <= j < R ->
            (l ← rd (trees_left self') j;
             r ← rd (trees_right self') j;
             u ← rd (trees_node self') j;
             c0 ← rd (trees_children self') (2 * j);
             c1 ← rd (trees_children self') (2 * j + 1);
             t ← rd (trees_time self') j;
             Some (0, {| cr_left := l; cr_right := r; cr_node := u;
                         cr_children := (c0, c1); cr_time := t |}))
            = Some (0, record_of self j)) as Hread.
  { intros j Hj. rewrite El, Er, Eu, Ec, Et. apply get_record_reads; lia. }
  assert (forall index order, 0 <= index < R ->
            forall j, get_record_index self' index order = Some (Some j) ->
            0 <= j < R ->
            tree_sequence_get_record self' index record order
              = Some (0, record_of self j)) as Hget.
  { intros index order Hi j Ej Hj. unfold tree_sequence_get_record.
    rewrite ER. destruct (Z.leb_spec R index); [lia|].
    rewrite Ej. cbn [mbind option_bind]. exact (Hread j Hj). }
  assert (forall (l : list Z) index, l ≡ₚ seqZ 0 R -> 0 <= index < R ->
            exists k, rd l index = Some k /\ 0 <= k < R) as Hperm.
  { intros l index Hp Hi.
    destruct (rd_in_range l index) as [k Ek].
    { rewrite Hp, length_seqZ. lia. }
    exists k. split; [done|].
    rewrite rd_lookup in Ek by lia. apply list_elem_of_lookup_2 in Ek.
    rewrite Hp in Ek. apply elem_of_seqZ in Ek. lia. }
  assert (forall (l : list Z) k, l ≡ₚ seqZ 0 R -> 0 <= k < R ->
            exists index, 0 <= index < R /\ rd l index = Some k) as Hfind.
  { intros l k Hp Hk.
    assert (k ∈ l) as Hin by (rewrite Hp; apply elem_of_seqZ; lia).
    apply list_elem_of_lookup_1 in Hin as [p Ep].
    pose proof (lookup_lt_Some _ _ _ Ep) as Hlt.
    rewrite Hp, length_seqZ in Hlt.
    exists (Z.of_nat p). split; [lia|].
    by rewrite rd_lookup, Nat2Z.id by lia. }
  assert (forall index, get_record_index self' index MSP_ORDER_LEFT
            = (j ← rd (trees_insertion_order self') index; Some (Some j)))
    as Hleft.
  { intros index. unfold get_record_index.
    destruct (Z.eqb_spec MSP_ORDER_LEFT MSP_ORDER_TIME) as [E0|_].
    { by destruct order_time_left. }
    by rewrite Z.eqb_refl. }
  assert (forall index, get_record_index self' index MSP_ORDER_RIGHT
            = (j ← rd (trees_removal_order self') index; Some (Some j)))
    as Hright.
  { intros index. unfold get_record_index.
    destruct (Z.eqb_spec MSP_ORDER_RIGHT MSP_ORDER_TIME) as [E0|_].
    { by destruct order_time_right. }
    destruct (Z.eqb_spec MSP_ORDER_RIGHT MSP_ORDER_LEFT) as [E0|_].
    { by destruct order_left_right. }
    by rewrite Z.eqb_refl. }
  repeat match goal with |- _ /\ _ => split end.
  - intros index order Hi. unfold tree_sequence_get_record.
    rewrite ER.
    by destruct (Z.leb_spec R index); [|lia].
  - intros index order Hi H1' H2' H3'. unfold tree_sequence_get_record.
    rewrite ER. destruct (Z.leb_spec R index); [lia|].
    unfold get_record_index.
    destruct (Z.eqb_spec order MSP_ORDER_TIME); [done|].
    destruct (Z.eqb_spec order MSP_ORDER_LEFT); [done|].
    by destruct (Z.eqb_spec order MSP_ORDER_RIGHT).
  - intros index Hi. apply Hget; [done| |done].
    unfold get_record_index. by rewrite Z.eqb_refl.
  - intros k Hk. split.
    + destruct (Hfind _ k Pi Hk) as (index & Hi & Ei).
      exists index. split; [done|]. apply Hget; [done| |done].
      rewrite Hleft, Ei. done.
    + destruct (Hfind _ k Pr Hk) as (index & Hi & Ei).
      exists index. split; [done|]. apply Hget; [done| |done].
      rewrite Hright, Ei. done.
  - intros i j Hi Hj.
    destruct (Hperm _ i Pi ltac:(lia)) as (a & Ea & Ha).
    destruct (Hperm _ j Pi ltac:(lia)) as (b & Eb & Hb).
    exists (record_of self a), (record_of self b).
    split; [apply Hget; [lia| |done]; by rewrite Hleft, Ea|].
    split; [apply Hget; [lia| |done]; by rewrite Hleft, Eb|].
    rewrite rd_lookup in Ea, Eb by lia.
    pose proof (StronglySorted_lookup _ _ (Z.to_nat i) (Z.to_nat j) a b Si
                  ltac:(lia) Ea Eb) as Hab.
    unfold inserts_before, ts_left, ts_time in Hab.
    rewrite El, Et in Hab. exact Hab.
  - intros i j Hi Hj.
    destruct (Hperm _ i Pr ltac:(lia)) as (a & Ea & Ha).
    destruct (Hperm _ j Pr ltac:(lia)) as (b & Eb & Hb).
    exists (record_of self a), (record_of self b).
    split; [apply Hget; [lia| |done]; by rewrite Hright, Ea|].
    split; [apply Hget; [lia| |done]; by rewrite Hright, Eb|].
    rewrite rd_lookup in Ea, Eb by lia.
    pose proof (StronglySorted_lookup _ _ (Z.to_nat i) (Z.to_nat j) a b Sr
                  ltac:(lia) Ea Eb) as Hab.
    unfold removes_before, ts_right, ts_time in Hab.
    rewrite Er, Et in Hab. exact Hab.
Qed.

End get_record.

(** [get_record_orders] on [example_ts], sorted by insertion sort. *)
Lemma get_record_orders_witness :
  exists self',
    tree_sequence_make_indexes (H := isort_qsort) example_ts
      = Some (0, self') /\
    (forall index order, 3 <= index ->
       tree_sequence_get_record (H := sample_msprime_order) self' index
         blank_record order = Some (MSP_ERR_OUT_OF_BOUNDS, blank_record)) /\
    (forall index order, 0 <= index < 3 ->
       order <> 0 -> order <> 1 -> order <> 2 ->
       tree_sequence_get_record (H := sample_msprime_order) self' index
         blank_record order = Some (MSP_ERR_BAD_ORDERING, blank_record)) /\
    (forall index, 0 <= index < 3 ->
       tree_sequence_get_record (H := sample_msprime_order) self' index
         blank_record 0 = Some (0, record_of example_ts index)) /\
    (forall k, 0 <= k < 3 ->
       (exists index, 0 <= index < 3 /\
          tree_sequence_get_record (H := sample_msprime_order) self' index
            blank_record 1 = Some (0, record_of example_ts k)) /\
       (exists index, 0 <= index < 3 /\
          tree_sequence_get_record (H := sample_msprime_order) self' index
            blank_record 2 = Some (0, record_of example_ts k))) /\
    (forall i j, 0 <= i < j -> j < 3 ->
       exists a b,
         tree_sequence_get_record (H := sample_msprime_order) self' i
           blank_record 1 = Some (0, a) /\
         tree_sequence_get_record (H := sample_msprime_order) self' j
           blank_record 1 = Some (0, b) /\
         (cr_left a < cr_left b \/
          (cr_left a = cr_left b /\ d_lt (cr_time b) (cr_time a) = false))) /\
    (forall i j, 0 <= i < j -> j < 3 ->
       exists a b,
         tree_sequence_get_record (H := sample_msprime_order) self' i
           blank_record 2 = Some (0, a) /\
         tree_sequence_get_record (H := sample_msprime_order) self' j
           blank_record 2 = Some (0, b) /\
         (cr_right a < cr_right b \/
          (cr_right a = cr_right b /\
           d_lt (cr_time a) (cr_time b) = false))).
Proof.
  apply (@get_record_orders sample_msprime_order isort_qsort example_ts
           blank_record); try reflexivity.
  - vm_compute. split; [discriminate|reflexivity].
  - repeat constructor.
Defined.

(** ** sparse_tree_alloc *)

Lemma alloc_tracked_leaves_total n tracked :
  forall suf pre ntl,
  tracked = pre ++ suf ->
  Forall (fun u => 0 <= u) suf -> n < Z.of_nat (length ntl) ->
  exists ret ntl',
    alloc_tracked_leaves n tracked
      (seqZ (Z.of_nat (length pre)) (Z.of_nat (length suf))) ntl
      = Some (ret, ntl') /\
    length ntl' = length ntl /\
    ((ret = 0 /\ Forall (fun u => 1 <= u <= n) suf) \/
     (ret = MSP_ERR_BAD_PARAM_VALUE /\
      Exists (fun u => u = 0 \/ n < u) suf)).
Proof.
  induction suf as [|u suf IH]; intros pre ntl Et Hsuf Hl.
  - cbn [length Z.of_nat seqZ]. exists 0, ntl.
    split; [done|]. split; [done|]. left. by split.
  - rewrite seqZ_cons by (cbn [length]; lia). cbn [alloc_tracked_leaves].
    rewrite rd_lookup, Nat2Z.id by lia. rewrite Et.
    rewrite list_lookup_middle by done. cbn [mbind option_bind].
    inversion Hsuf as [|? ? Hu Hsuf']; subst.
    destruct (Z.eqb_spec u 0) as [->|Hu0].
    { cbn [orb]. exists MSP_ERR_BAD_PARAM_VALUE, ntl.
      split; [done|]. split; [done|]. right. split; [done|].
      apply Exists_cons_hd. by left. }
    destruct (Z.ltb_spec n u) as [Hnu|Hnu].
    { cbn [orb]. exists MSP_ERR_BAD_PARAM_VALUE, ntl.
      split; [done|]. split; [done|]. right. split; [done|].
      apply Exists_cons_hd. by right. }
    cbn [orb].
    destruct (wr_ex ntl u 1) as (ntl1 & W & L1); [lia|].
    rewrite W. cbn [mbind option_bind].
    destruct (IH (pre ++ [u]) ntl1) as (ret & ntl' & E & L' & Hret).
    { by rewrite <- app_assoc. }
    { done. }
    { lia. }
    rewrite length_app in E. cbn [length] in E.
    replace (Z.succ (Z.of_nat (length pre)))
      with (Z.of_nat (length pre + 1)) by lia.
    replace (Z.pred (Z.of_nat (length (u :: suf))))
      with (Z.of_nat (length suf)) by (cbn [length]; lia).
    exists ret, ntl'. split; [done|]. split; [congruence|].
    destruct Hret as [[-> Hall]|[-> Hex]].
    + left. split; [done|]. constructor; [lia|done].
    + right. split; [done|]. by apply Exists_cons_tl.
Qed.

(** X19: [sparse_tree_alloc] for at most [num_nodes] samples checks its
    arguments as follows.  It returns [MSP_ERR_BAD_PARAM_VALUE] exactly
    when [num_nodes] or [sample_size] is 0, or [MSP_COUNT_LEAVES] is set
    and one of the tracked leaves is 0 or above [sample_size]; without the
    flag the tracked leaves are not looked at.  Otherwise it returns 0
    with arrays of [num_nodes + 1] parents and times, twice as many
    children, two stacks of [sample_size + 1] cells and room for
    [max_mutations] mutations, none of them in the tree; with the flag
    every sample counts one leaf, and one tracked leaf exactly when it is
    in the list. *)
Theorem sparse_tree_alloc_validates `{msprime_h} `{heap}
    (n N max_mutations : Z) (tracked : list Z) (flags : Z) :
  0 <= n <= N -> 2 * (N + 1) < 2 ^ 32 -> 0 <= max_mutations ->
  Forall (fun u => 0 <= u) tracked ->
  exists ret t,
    sparse_tree_alloc n N max_mutations tracked (Z.of_nat (length tracked))
      flags = Some (ret, t) /\
    (ret = MSP_ERR_BAD_PARAM_VALUE <->
       N = 0 \/ n = 0 \/
       (Z.land flags MSP_COUNT_LEAVES <> 0 /\
        Exists (fun u => u = 0 \/ n < u) tracked)) /\
    (ret <> MSP_ERR_BAD_PARAM_VALUE ->
       ret = 0 /\
       t_sample_size t = n /\ t_num_nodes t = N /\ t_flags t = flags /\
       Z.of_nat (length (t_parent t)) = N + 1 /\
       Z.of_nat (length (t_time t)) = N + 1 /\
       Z.of_nat (length (t_children t)) = 2 * (N + 1) /\
       Z.of_nat (length (t_stack1 t)) = n + 1 /\
       Z.of_nat (length (t_stack2 t)) = n + 1 /\
       t_max_mutations t = max_mutations /\ t_num_mutations t = 0 /\
       Z.of_nat (length (t_mutations t)) = max_mutations /\
       (Z.land flags MSP_COUNT_LEAVES <> 0 ->
        rd (t_num_leaves t) 0 = Some 0 /\
        rd (t_num_tracked_leaves t) 0 = Some 0 /\
        forall u, 1 <= u <= n ->
          rd (t_num_leaves t) u = Some 1 /\
          rd (t_num_tracked_leaves t) u
            = Some (if decide (u ∈ tracked) then 1 else 0))).
Proof.
  intros Hn HN Hmax Htracked. unfold sparse_tree_alloc.
  destruct (Z.eqb_spec N 0) as [->|HN0].
  { cbn [orb]. eexists _, _. split; [done|]. split; [|done].
    split; [by left|done]. }
  destruct (Z.eqb_spec n 0) as [->|Hn0].
  { cbn [orb]. eexists _, _. split; [done|]. split; [|done].
    split; [by right; left|done]. }
  cbn [orb]. unfold wrap32. rewrite !Z.mod_small by lia.
  destruct (Z.eqb_spec (Z.land flags MSP_COUNT_LEAVES) 0) as [Hf|Hf].
  { eexists _, _. split; [done|]. split.
    { split; [discriminate|]. intros [|[|[? _]]]; done. }
    intros _. split; [done|].
    cbn [t_sample_size t_num_nodes t_flags t_parent t_time t_children
         t_stack1 t_stack2 t_max_mutations t_num_mutations t_mutations].
    rewrite !length_malloc_u32, !length_malloc_f64, length_malloc_mutations
      by lia.
    repeat match goal with |- _ /\ _ => split end; try done. }
  destruct (wr_ex (malloc_u32 (N + 1)) 0 0) as (nl & Wnl & Lnl).
  { rewrite length_malloc_u32; lia. }
  rewrite Wnl. cbn [mbind option_bind].
  destruct (alloc_leaf_counts_spec (seqZ 1 n) nl nl)
    as (nl' & ntl' & Ea & Lnl' & Lntl' & Hcounts); [|done|].
  { intros j Hj%elem_of_seqZ. rewrite Lnl, length_malloc_u32; lia. }
  rewrite Ea. cbn [mbind option_bind fst snd].
  assert (Z.of_nat (length ntl') = N + 1) as Lntl.
  { rewrite Lntl', Lnl, length_malloc_u32; lia. }
  destruct (alloc_tracked_leaves_total n tracked tracked [] ntl' eq_refl
              Htracked ltac:(lia))
    as (ret & ntl'' & Eb & Lntl'' & Hret).
  cbn [length] in Eb. change (Z.of_nat 0) with 0 in Eb. rewrite Eb. cbn [mbind option_bind fst snd].
  eexists _, _. split; [done|]. split.
  { destruct Hret as [[-> Hall]|[-> Hex]].
    - split; [discriminate|]. intros [|[|[_ Hex]]]; [done..|].
      apply Exists_exists in Hex as (u & Hu & Hbad).
      rewrite Forall_forall in Hall. specialize (Hall u Hu). lia.
    - split; [|done]. intros _. right. right. by split. }
  intros Hne. destruct Hret as [[-> Hall]|[-> _]]; [|done].
  split; [done|].
  cbn [t_sample_size t_num_nodes t_flags t_parent t_time t_children
       t_stack1 t_stack2 t_max_mutations t_num_mutations t_mutations
       t_num_leaves t_num_tracked_leaves with_leaf_counts].
  rewrite !length_malloc_u32, !length_malloc_f64, length_malloc_mutations
    by lia.
  repeat match goal with |- _ /\ _ => split end; try done.
  intros _.
  destruct (alloc_tracked_leaves_spec n tracked tracked [] ntl' eq_refl Hall
              ltac:(lia)) as (ntl3 & Eb' & _ & Hntl).
  cbn [length] in Eb'. change (Z.of_nat 0) with 0 in Eb'.
  rewrite Eb in Eb'. injection Eb' as ->.
  assert (forall u, 0 <= u <= n -> u ∈ seqZ 1 n <-> 1 <= u) as Hseq.
  { intros u Hu. rewrite elem_of_seqZ. lia. }
  assert (0 ∉ tracked) as Hzero.
  { intros Hin. rewrite Forall_forall in Hall. specialize (Hall 0 Hin). lia. }
  split; [|split].
  - destruct (Hcounts 0) as [-> _].
    rewrite decide_False by (rewrite Hseq; lia).
    by rewrite (rd_wr _ _ _ _ _ Wnl), decide_True.
  - rewrite Hntl, decide_False by done. destruct (Hcounts 0) as [_ ->].
    rewrite decide_False by (rewrite Hseq; lia).
    by rewrite (rd_wr _ _ _ _ _ Wnl), decide_True.
  - intros u Hu. destruct (Hcounts u) as [-> Entl].
    rewrite decide_True by (rewrite Hseq; lia). split; [done|].
    rewrite Hntl. destruct (decide (u ∈ tracked)); [done|].
    rewrite Entl. by rewrite decide_True by (rewrite Hseq; lia).
Qed.

(** [sparse_tree_alloc] for the trees of [example_ts], tracking samples 1
    and 3. *)
Lemma sparse_tree_alloc_validates_witness :
  exists ret t,
    sparse_tree_alloc (H := sample_msprime_h) (H0 := zero_heap) 3 6 1 [1; 3]
      (Z.of_nat (length [1; 3])) 1 = Some (ret, t) /\
    (ret = MSP_ERR_BAD_PARAM_VALUE <->
       6 = 0 \/ 3 = 0 \/
       (Z.land 1 (MSP_COUNT_LEAVES (msprime_h := sample_msprime_h)) <> 0 /\
        Exists (fun u => u = 0 \/ 3 < u) [1; 3])) /\
    (ret <> MSP_ERR_BAD_PARAM_VALUE ->
       ret = 0 /\
       t_sample_size t = 3 /\ t_num_nodes t = 6 /\ t_flags t = 1 /\
       Z.of_nat (length (t_parent t)) = 6 + 1 /\
       Z.of_nat (length (t_time t)) = 6 + 1 /\
       Z.of_nat (length (t_children t)) = 2 * (6 + 1) /\
       Z.of_nat (length (t_stack1 t)) = 3 + 1 /\
       Z.of_nat (length (t_stack2 t)) = 3 + 1 /\
       t_max_mutations t = 1 /\ t_num_mutations t = 0 /\
       Z.of_nat (length (t_mutations t)) = 1 /\
       (Z.land 1 (MSP_COUNT_LEAVES (msprime_h := sample_msprime_h)) <> 0 ->
        rd (t_num_leaves t) 0 = Some 0 /\
        rd (t_num_tracked_leaves t) 0 = Some 0 /\
        forall u, 1 <= u <= 3 ->
          rd (t_num_leaves t) u = Some 1 /\
          rd (t_num_tracked_leaves t) u
            = Some (if decide (u ∈ [1; 3]) then 1 else 0))).
Proof.
  apply (@sparse_tree_alloc_validates sample_msprime_h zero_heap 3 6 1
           [1; 3] 1).
  - lia.
  - reflexivity.
  - lia.
  - repeat constructor; lia.
Defined.

(** ** sparse_tree_get_mrca on the trees of the iterator *)

Section chains.
Context (n N : Z) (parent children : list Z).
Let par := parent_of parent.
Let kid := child_of children.
Let L := weight_of (fun _ => 1) n kid.
Context (Hn : 1 <= n).
Context (HF : forest n N par kid) (Hclosed : closed n kid).
Context (Hlen : Z.of_nat (length parent) = N + 1).

(** A node with a parent is in the tree, and so is its parent, below which
    there is one leaf more at least. *)
Lemma parent_weight x :
  par x <> 0 ->
  in_tree n N kid x /\ in_tree n N kid (par x) /\ L x + 1 <= L (par x).
Proof.
  intros Hp. pose proof HF as (Hk & Hpk & Hkp & Hz & Hd).
  destruct (Hkp x Hp) as [Hx1 Hside].
  assert (exists j, 0 <= j <= 1 /\ kid (par x) j = x) as (j & Hj & Ej).
  { destruct Hside; [exists 0|exists 1]; split; done || lia. }
  assert (kid (par x) j <> 0) as Hne by lia.
  destruct (Hk _ _ Hj Hne) as [Hlow Hhigh]. rewrite Ej in Hlow.
  assert (kid (par x) 0 <> 0) as H0.
  { destruct Hside as [E|E]; [lia|]. rewrite Hz. lia. }
  assert (kid (par x) 1 <> 0) as H1 by (by rewrite <- Hz).
  assert (forall i, 0 <= i <= 1 -> in_tree n N kid (kid (par x) i)) as Hin.
  { intros i Hi. assert (kid (par x) i <> 0) as Hi0.
    { destruct (decide (i = 0)) as [->|]; [done|].
      by replace i with 1 by lia. }
    destruct (Hk _ _ Hi Hi0). split; [lia|]. by apply Hclosed. }
  split; [rewrite <- Ej; by apply Hin|].
  split; [split; [lia|by right]|].
  unfold L at 2. rewrite (weight_of_unfold n N) by (done || lia).
  destruct (Z.leb_spec (par x) n); [lia|]. rewrite andb_false_r.
  destruct (Z.eqb_spec (kid (par x) 0) 0); [done|]. fold L.
  assert (1 <= L (kid (par x) 0)) as Hw0
    by exact (good_weight n N children par HF Hclosed _ (Hin 0 ltac:(lia))).
  assert (1 <= L (kid (par x) 1)) as Hw1
    by exact (good_weight n N children par HF Hclosed _ (Hin 1 ltac:(lia))).
  destruct Hside as [E|E]; rewrite E in *; lia.
Qed.

Lemma rd_parent x : 0 <= x <= N -> rd parent x = Some (par x).
Proof.
  intros Hx. destruct (rd_in_range parent x) as [p Ep]; [lia|].
  unfold par, parent_of. by rewrite Ep.
Qed.

(** The chain of ancestors of a node of the tree fits the room that the
    leaves above it leave. *)
Lemma ancestors_in_tree :
  forall (m : nat) x,
  in_tree n N kid x -> n - L x < Z.of_nat m ->
  exists p, ancestors parent m x = Some p.
Proof.
  induction m as [|m IH]; intros x Hx Hm.
  - assert (0 <= L x <= n) as Hb
      by exact (weight_of_bound n N (fun _ => 1) par kid x HF ltac:(lia)
                  ltac:(intros; lia)).
    lia.
  - cbn [ancestors]. destruct Hx as [Hx Hg].
    destruct (Z.eqb_spec x 0); [lia|].
    rewrite rd_parent by lia. cbn [mbind option_bind].
    destruct (decide (par x = 0)) as [E|E].
    + rewrite E. destruct m; cbn [ancestors]; by eexists.
    + destruct (parent_weight x E) as (_ & Hpin & Hw).
      destruct (IH (par x) Hpin ltac:(lia)) as [p ->]. by eexists.
Qed.

(** Every node has a chain of ancestors of at most [n] nodes. *)
Lemma ancestors_total x :
  1 <= x <= N -> exists p, ancestors parent (Z.to_nat n) x = Some p.
Proof.
  intros Hx. destruct (decide (par x = 0)) as [E|E].
  - destruct (Z.to_nat n) as [|m] eqn:En; [lia|]. cbn [ancestors].
    destruct (Z.eqb_spec x 0); [lia|].
    rewrite rd_parent by lia. cbn [mbind option_bind]. rewrite E.
    destruct m; cbn [ancestors]; by eexists.
  - destruct (parent_weight x E) as (Hin & _ & _).
    assert (1 <= L x) as Hw
      by exact (good_weight n N children par HF Hclosed _ Hin).
    apply ancestors_in_tree; [done|lia].
Qed.

(** The chain of a node lists the nodes above it. *)
Lemma ancestors_anc :
  forall (m : nat) x p,
  1 <= x <= N -> ancestors parent m x = Some p ->
  forall a, a ∈ p <-> anc par x a.
Proof.
  pose proof (forest_climbs n N par kid HF) as Hc.
  induction m as [|m IH]; intros x p Hx; cbn [ancestors];
    destruct (Z.eqb_spec x 0); try lia; [done|].
  rewrite rd_parent by lia. cbn [mbind option_bind].
  destruct (ancestors parent m (par x)) as [p'|] eqn:E; [|done].
  cbn [fmap option_fmap option_map]. intros [= <-] a.
  destruct (decide (par x = 0)) as [E0|E0].
  - rewrite E0 in E.
    assert (p' = []) as ->.
    { destruct m; cbn [ancestors] in E; by injection E. }
    split.
    + intros ->%list_elem_of_singleton. apply anc_refl.
    + intros Ha. inversion Ha; subst; [apply list_elem_of_here|done].
  - destruct (Hc x E0) as [_ Hp].
    specialize (IH (par x) p' ltac:(destruct (Hc x E0); lia) E a).
    split.
    + intros [->|Hin]%elem_of_cons; [apply anc_refl|].
      apply anc_step; [done|]. by apply IH.
    + intros Ha. inversion Ha; subst; [apply list_elem_of_here|].
      apply list_elem_of_further. by apply IH.
Qed.

End chains.

(** [sparse_tree_get_mrca] on two nodes whose chains of ancestors fit the
    stacks: the node it stores heads the longest common end of the two
    chains, and is 0 when they have none. *)
Lemma sparse_tree_get_mrca_chains self u v pu pv :
  let room := Z.to_nat (t_sample_size self) in
  t_sample_size self < 2 ^ 31 ->
  1 <= u <= t_num_nodes self -> 1 <= v <= t_num_nodes self ->
  length (t_stack1 self) = S room -> length (t_stack2 self) = S room ->
  ancestors (t_parent self) room u = Some pu ->
  ancestors (t_parent self) room v = Some pv ->
  exists w self' (k1 k2 : nat),
    sparse_tree_get_mrca self u v = Some (0, Some w, self') /\
    (k1 <= length pu)%nat /\
    (pu ++ [0]) !! k1 = Some w /\ (pv ++ [0]) !! k2 = Some w /\
    forall a ia, pu !! ia = Some a -> a ∈ pv -> (k1 <= ia)%nat.
Proof.
  intros room H31 Hu Hv Hs1 Hs2 Epu Epv.
  unfold sparse_tree_get_mrca.
  destruct (Z.eqb_spec u 0); [lia|]. destruct (Z.eqb_spec v 0); [lia|].
  destruct (Z.ltb_spec (t_num_nodes self) u); [lia|].
  destruct (Z.ltb_spec (t_num_nodes self) v); [lia|]. cbn [orb].
  rewrite to_int32_small by done. fold room.
  pose proof (ancestors_length _ _ _ _ Epu) as Lpu.
  pose proof (ancestors_length _ _ _ _ Epv) as Lpv.
  destruct (mrca_ascend_spec _ _ _ 0%nat (t_stack1 self) _ Epu)
    as (s1 & E1 & Hl1 & Hp1 & _); [lia|].
  destruct (mrca_ascend_spec _ _ _ 0%nat (t_stack2 self) _ Epv)
    as (s2 & E2 & Hl2 & Hp2 & _); [lia|].
  change (Z.of_nat 0) with 0 in E1, E2.
  change (0 + length pu)%nat with (length pu) in *.
  change (0 + length pv)%nat with (length pv) in *.
  rewrite E1. cbn [mbind option_bind fst snd].
  rewrite wr_in_range by lia. cbn [mbind option_bind fst snd].
  rewrite E2. cbn [mbind option_bind fst snd].
  rewrite wr_in_range by lia. cbn [mbind option_bind fst snd].
  rewrite !Nat2Z.id.
  set (s1' := <[length pu := 0]> s1). set (s2' := <[length pv := 0]> s2).
  assert (forall i, (i < length (pu ++ [0%Z]))%nat ->
            s1' !! i = (pu ++ [0]) !! i) as HP1.
  { intros i Hi. rewrite length_app in Hi. cbn [length] in Hi. unfold s1'.
    destruct (decide (i = length pu)) as [->|Hne].
    - rewrite list_lookup_insert_eq by lia.
      by rewrite lookup_app_r, Nat.sub_diag by lia.
    - rewrite list_lookup_insert_ne by lia.
      rewrite lookup_app_l by lia. apply (Hp1 i). lia. }
  assert (forall i, (i < length (pv ++ [0%Z]))%nat ->
            s2' !! i = (pv ++ [0]) !! i) as HP2.
  { intros i Hi. rewrite length_app in Hi. cbn [length] in Hi. unfold s2'.
    destruct (decide (i = length pv)) as [->|Hne].
    - rewrite list_lookup_insert_eq by lia.
      by rewrite lookup_app_r, Nat.sub_diag by lia.
    - rewrite list_lookup_insert_ne by lia.
      rewrite lookup_app_l by lia. apply (Hp2 i). lia. }
  destruct (mrca_descend_spec s1' s2' (pu ++ [0]) (pv ++ [0]) HP1 HP2
              (S (length pu)) (length pu) (length pv))
    as (w & k1 & k2 & Ew & Hk1 & Hk2 & Hk & Hd & Hw & Hexit).
  { lia. } { rewrite length_app; cbn [length]; lia. }
  { rewrite length_app; cbn [length]; lia. }
  { by rewrite !drop_app_length. }
  rewrite Ew. cbn [mbind option_bind].
  exists w, (with_stacks self s1' s2'), k1, k2.
  split; [done|]. split; [done|]. split; [done|]. split.
  { rewrite <- (Nat.add_0_r k2), <- lookup_drop, <- Hd, lookup_drop.
    by rewrite Nat.add_0_r. }
  intros a ia Hia Hav.
  apply list_elem_of_lookup_1 in Hav as [ja Hja].
  pose proof (ancestors_drop _ _ _ _ _ _ Epu Hia) as Ea1.
  pose proof (ancestors_drop _ _ _ _ _ _ Epv Hja) as Ea2.
  rewrite Ea1 in Ea2. injection Ea2 as Ea2.
  pose proof (lookup_lt_Some _ _ _ Hia) as Hila.
  pose proof (lookup_lt_Some _ _ _ Hja) as Hjla.
  assert (length pu - ia = length pv - ja)%nat as La
    by (by rewrite <- !length_drop, Ea2).
  destruct (decide (ia < k1)%nat) as [Hlt|]; [|lia]. exfalso.
  destruct Hexit as [Hz|[Hz|Hne]]; [lia..|]. apply Hne.
  rewrite !lookup_app_l by lia.
  replace (k1 - 1)%nat with (ia + (k1 - 1 - ia))%nat by lia.
  replace (k2 - 1)%nat with (ja + (k2 - 1 - ja))%nat by lia.
  rewrite <- !lookup_drop, Ea2. f_equal. lia.
Qed.

(** The second stack of a tree is not touched by the iterator. *)
Lemma remove_record_stack2 `{msprime_h} s k t t' :
  remove_record s k t = Some t' -> t_stack2 t' = t_stack2 t.
Proof.
  unfold remove_record.
  repeat match goal with
         | |- (?x ≫= _) = Some _ -> _ =>
             destruct x; cbn [mbind option_bind]; [|done]
         end.
  destruct (_ =? 0); [by intros [= <-]|].
  repeat match goal with
         | |- (?x ≫= _) = Some _ -> _ =>
             destruct x; cbn [mbind option_bind]; [|done]
         end.
  by intros [= <-].
Qed.

Lemma insert_record_stack2 `{msprime_h} s k t t' :
  insert_record s k t = Some t' -> t_stack2 t' = t_stack2 t.
Proof.
  unfold insert_record.
  repeat match goal with
         | |- (?x ≫= _) = Some _ -> _ =>
             destruct x; cbn [mbind option_bind]; [|done]
         end.
  destruct (_ =? 0); [by intros [= <-]|].
  repeat match goal with
         | |- (?x ≫= _) = Some _ -> _ =>
             destruct x; cbn [mbind option_bind]; [|done]
         end.
  by intros [= <-].
Qed.

Lemma tree_remove_loop_stack2 `{msprime_h} s :
  forall fuel i t r,
  tree_remove_loop s fuel i t = Some r -> t_stack2 r.2 = t_stack2 t.
Proof.
  induction fuel as [|fuel IH]; intros i t r; cbn [tree_remove_loop];
    [done|].
  destruct (rd (trees_removal_order s) i) as [k|];
    cbn [mbind option_bind]; [|done].
  destruct (rd (trees_right s) k) as [x|]; cbn [mbind option_bind]; [|done].
  destruct (x =? t_right t); [|by intros [= <-]].
  destruct (remove_record s k t) as [t1|] eqn:E1;
    cbn [mbind option_bind]; [|done].
  intros E. rewrite (IH _ _ _ E). by eapply remove_record_stack2.
Qed.

Lemma tree_insert_loop_stack2 `{msprime_h} s R :
  forall fuel i t r,
  tree_insert_loop s R fuel i t = Some r -> t_stack2 r.2 = t_stack2 t.
Proof.
  induction fuel as [|fuel IH]; intros i t r; cbn [tree_insert_loop];
    [done|].
  destruct (i <? R); [|by intros [= <-]].
  destruct (rd (trees_insertion_order s) i) as [k|];
    cbn [mbind option_bind]; [|done].
  destruct (rd (trees_left s) k) as [x|]; cbn [mbind option_bind]; [|done].
  destruct (x =? t_left t); [|by intros [= <-]].
  destruct (insert_record s k t) as [t1|] eqn:E1;
    cbn [mbind option_bind]; [|done].
  intros E. rewrite (IH _ _ _ E). by eapply insert_record_stack2.
Qed.

Lemma sparse_tree_iterator_next_stack2 `{msprime_h} s self t r :
  sparse_tree_iterator_next s self t = Some r ->
  t_stack2 r.2 = t_stack2 t.
Proof.
  unfold sparse_tree_iterator_next.
  destruct (_ <? _); [|by intros [= <-]].
  destruct (tree_remove_loop _ _ _ _) as [a|] eqn:Ea;
    cbn [mbind option_bind]; [|done].
  destruct (rd (trees_removal_order s) a.1) as [k|];
    cbn [mbind option_bind]; [|done].
  destruct (rd (trees_right s) k) as [x|]; cbn [mbind option_bind]; [|done].
  destruct (tree_insert_loop _ _ _ _ _) as [b|] eqn:Eb;
    cbn [mbind option_bind]; [|done].
  destruct (root_climb _ _ _) as [root|]; cbn [mbind option_bind]; [|done].
  destruct (tree_mutations_loop _ _ _ _ _ _ _) as [c|];
    cbn [mbind option_bind]; [|done].
  intros [= <-]. cbn [snd t_stack2 with_tree_mutations with_root].
  rewrite (tree_insert_loop_stack2 _ _ _ _ _ _ Eb).
  cbn [t_stack2 with_interval].
  by rewrite (tree_remove_loop_stack2 _ _ _ _ _ Ea).
Qed.

Lemma sparse_tree_iterate_stack2 `{msprime_h} `{heap} s tracked flags :
  forall m self t,
  sparse_tree_iterate s tracked flags m = Some (self, t) ->
  t_stack2 t = malloc_u32 (wrap32 (sample_size s + 1)).
Proof.
  induction m as [|m IH]; intros self t; cbn [sparse_tree_iterate].
  - unfold tree_sequence_alloc_sparse_tree.
    destruct (sparse_tree_alloc _ _ _ _ _ _) as [[ret t0]|] eqn:Ea;
      cbn [mbind option_bind fst snd]; [|done].
    destruct (Z.eqb_spec ret 0) as [->|]; cbn [negb]; [|done].
    assert (t_stack2 t0 = malloc_u32 (wrap32 (sample_size s + 1))) as E0.
    { revert Ea. unfold sparse_tree_alloc.
      destruct (_ || _); [done|].
      destruct (_ =? 0); [by intros [= <-]|].
      repeat match goal with
             | |- (?x ≫= _) = Some _ -> _ =>
                 destruct x; cbn [mbind option_bind]; [|done]
             end.
      by intros [= _ <-]. }
    unfold sparse_tree_iterator_alloc.
    destruct (_ || _); [done|].
    destruct (sparse_tree_clear t0) as [[rc t1]|] eqn:Ec;
      cbn [mbind option_bind fst snd]; [|done].
    destruct (negb (rc =? 0)); [done|]. intros [= _ <-].
    rewrite <- E0. revert Ec. unfold sparse_tree_clear.
    repeat match goal with
           | |- (?x ≫= _) = Some _ -> _ =>
               destruct x; cbn [mbind option_bind]; [|done]
           end.
    destruct (_ =? 0); [by intros [= _ <-]|].
    repeat match goal with
           | |- (?x ≫= _) = Some _ -> _ =>
               destruct x; cbn [mbind option_bind]; [|done]
           end.
    by intros [= _ <-].
  - destruct (sparse_tree_iterate s tracked flags m) as [[self0 t0]|];
      cbn [mbind option_bind fst snd]; [|done].
    destruct (sparse_tree_iterator_next s self0 t0) as [r|] eqn:En;
      cbn [mbind option_bind]; [|done].
    intros [= _ <-]. rewrite (sparse_tree_iterator_next_stack2 _ _ _ _ En).
    by eapply IH.
Qed.

(** X20: [sparse_tree_get_mrca] on the trees of the iterator.  After any
    number of calls of [sparse_tree_iterator_next], for two nodes between 1
    and [num_nodes] the function returns 0 (the chains of ancestors fit the
    two stacks of [sample_size + 1] cells, so neither [assert] fails) and
    stores the lowest common ancestor of the two nodes in the tree: a node
    above both (or equal to one of them) that lies below every other such
    node.  It stores 0 exactly when the two nodes have no common
    ancestor. *)
Theorem sparse_tree_get_mrca_on_trees `{msprime_h} `{heap}
    (s : tree_sequence_t) (tracked : list Z) (flags : Z) (m : nat) :
  records_tile s -> records_nest s ->
  (Z.land flags MSP_COUNT_LEAVES <> 0 ->
   Forall (fun u => 1 <= u <= sample_size s) tracked) ->
  exists self t,
    sparse_tree_iterate s tracked flags m = Some (self, t) /\
    forall u v, 1 <= u <= num_nodes s -> 1 <= v <= num_nodes s ->
      exists w t',
        sparse_tree_get_mrca t u v = Some (0, Some w, t') /\
        (w <> 0 ->
         anc (parent_of (t_parent t)) u w /\
         anc (parent_of (t_parent t)) v w /\
         forall a, anc (parent_of (t_parent t)) u a ->
                   anc (parent_of (t_parent t)) v a ->
                   anc (parent_of (t_parent t)) w a) /\
        (w = 0 ->
         forall a, anc (parent_of (t_parent t)) u a ->
                   anc (parent_of (t_parent t)) v a -> False).
Proof.
  intros Htile Hnest Htracked.
  destruct (sparse_tree_iterate_links s tracked flags Htile Hnest Htracked m)
    as (self & t & E & Hok).
  exists self, t. split; [done|]. intros u v Hu Hv.
  pose proof Hnest as (Hn1 & HnN & H32 & _).
  pose proof (iterator_links_closed s tracked self t Hnest Hok) as Hcl.
  pose proof Hok as (_ & _ & _ & _ & _ & _ & Hlay & Hlinks & _).
  pose proof (links_forest s _ _ _ Hnest Hlinks) as HF.
  destruct Hlay as (Ess & Enn & Lp & _ & _ & Ls1 & _).
  pose proof (sparse_tree_iterate_stack2 s tracked flags m self t E) as Es2.
  assert (Z.of_nat (length (t_stack2 t)) = sample_size s + 1) as Ls2.
  { rewrite Es2, length_malloc_u32; rewrite wrap32_small; lia. }
  set (n := sample_size s) in *. set (N := num_nodes s) in *.
  destruct (ancestors_total n N (t_parent t) (t_children t) Hn1 HF Hcl Lp u Hu)
    as [pu Epu].
  destruct (ancestors_total n N (t_parent t) (t_children t) Hn1 HF Hcl Lp v Hv)
    as [pv Epv].
  pose proof (ancestors_anc n N (t_parent t) (t_children t) HF Lp _ u pu Hu
                Epu) as Hau.
  pose proof (ancestors_anc n N (t_parent t) (t_children t) HF Lp _ v pv Hv
                Epv) as Hav.
  destruct (sparse_tree_get_mrca_chains t u v pu pv)
    as (w & t' & k1 & k2 & Eget & Hk1 & Hw1 & Hw2 & Hlow);
    rewrite ?Ess, ?Enn; try done; try lia.
  exists w, t'. split; [done|].
  assert (forall a, a ∈ pu -> a <> 0) as Hnz
    by (intros a Ha; exact (ancestors_nonzero _ _ _ _ _ Epu Ha)).
  destruct (decide (k1 = length pu)) as [Ek|Hk].
  - assert (w = 0) as ->.
    { rewrite Ek, lookup_app_r, Nat.sub_diag in Hw1 by lia.
      by injection Hw1. }
    split; [done|]. intros _ a Ha1 Ha2.
    apply Hau in Ha1. apply Hav in Ha2.
    apply list_elem_of_lookup_1 in Ha1 as [ia Hia].
    pose proof (Hlow a ia Hia Ha2). apply lookup_lt_Some in Hia. lia.
  - rewrite lookup_app_l in Hw1 by lia.
    assert (w ∈ pu) as Hwu by (by eapply list_elem_of_lookup_2).
    assert (w <> 0) as Hw0 by (by apply Hnz).
    assert (w ∈ pv) as Hwv.
    { destruct (decide (k2 < length pv)%nat).
      - rewrite lookup_app_l in Hw2 by lia.
        by eapply list_elem_of_lookup_2.
      - apply lookup_lt_Some in Hw2 as Hlt. rewrite length_app in Hlt.
        cbn [length] in Hlt.
        rewrite lookup_app_r in Hw2 by lia.
        replace (k2 - length pv)%nat with 0%nat in Hw2 by lia.
        by injection Hw2. }
    split; [|done]. intros _.
    split; [by apply Hau|]. split; [by apply Hav|].
    intros a Ha1 Ha2. apply Hau in Ha1. apply Hav in Ha2.
    apply list_elem_of_lookup_1 in Ha1 as [ia Hia].
    pose proof (Hlow a ia Hia Ha2) as Hge.
    pose proof (ancestors_drop _ _ _ _ _ _ Epu Hw1) as Epw.
    assert (1 <= w <= N) as HwN.
    { apply Hau in Hwu.
      pose proof (anc_le N _ _ _ (forest_climbs n N _ _ HF) Hwu).
      destruct (decide (w = u)) as [->|Hne]; [done|].
      destruct (anc_last _ _ _ Hwu ltac:(congruence)) as (z & _ & Ez & _).
      destruct (forest_climbs n N _ _ HF z ltac:(rewrite Ez; done)).
      rewrite Ez in *. lia. }
    apply (ancestors_anc n N (t_parent t) (t_children t) HF Lp _ w _ HwN Epw).
    apply (list_elem_of_lookup_2 _ (ia - k1)%nat).
    rewrite lookup_drop. by replace (k1 + (ia - k1))%nat with ia by lia.
Qed.

(** The first tree of [example_ts]. *)
Lemma sparse_tree_get_mrca_on_trees_witness :
  exists self t,
    sparse_tree_iterate (H := sample_msprime_h) (H0 := zero_heap)
      example_ts [1; 3] 1 1 = Some (self, t) /\
    forall u v, 1 <= u <= num_nodes example_ts ->
      1 <= v <= num_nodes example_ts ->
      exists w t',
        sparse_tree_get_mrca t u v = Some (0, Some w, t') /\
        (w <> 0 ->
         anc (parent_of (t_parent t)) u w /\
         anc (parent_of (t_parent t)) v w /\
         forall a, anc (parent_of (t_parent t)) u a ->
                   anc (parent_of (t_parent t)) v a ->
                   anc (parent_of (t_parent t)) w a) /\
        (w = 0 ->
         forall a, anc (parent_of (t_parent t)) u a ->
                   anc (parent_of (t_parent t)) v a -> False).
Proof.
  apply (@sparse_tree_get_mrca_on_trees sample_msprime_h zero_heap
           example_ts [1; 3] 1 1 example_ts_tiles example_ts_nests).
  intros _. repeat constructor; vm_compute; congruence.
Defined.
